(** * Segment loading engine of the low-latency DASH player

    A shallow embedding of [http-streaming/src/audio-segment-fetch.js]
    (the incremental ISO-BMFF box scanner and the chunked fragment
    transport) and of the parts of [http-streaming/src/segment-loader.js]
    that decide the behaviour of the segment loader state machine.

    Conventions.
    - JavaScript integers (indices, offsets, media sequence numbers,
      timeline ids, byte counts, clock readings) are [Z].
    - JavaScript times in seconds and rates are rationals [Q]. Where the
      outcome depends on the rounding of IEEE doubles (the throughput
      average, the test for a segment far behind the playhead) every
      operation is rounded with [Double.double]; elsewhere the arithmetic
      is exact, and what is proved there are order relations, which
      rounding, being monotone, keeps.
    - [undefined] / [null] are [None].
    - Calls into collaborators that are not part of the two source files
      (source updater, sync controller, transmuxer, timers) are recorded in
      an effect log; pure helpers of other files are section variables. *)

From stdpp Require Import gmap strings list.
From Stdlib Require Import ZArith QArith Qround Qminmax Qabs Qpower Lia Lqa Ascii.

Close Scope Q_scope.
Local Open Scope Z_scope.

(** ** JavaScript 32-bit integer operators *)

Module JS.

(** [ToInt32]: wrap into [-2^31, 2^31). *)
Definition ToInt32 (x : Z) : Z := (x + 2 ^ 31) mod 2 ^ 32 - 2 ^ 31.

(** [ToUint32]: wrap into [0, 2^32). *)
Definition ToUint32 (x : Z) : Z := x mod 2 ^ 32.

(** A typed-array read [data[i]] is [undefined] out of range; every
    operator below coerces [undefined] to [0]. *)
Definition num (v : option Z) : Z := default 0 v.

(** [x << k] *)
Definition shl (x : option Z) (k : Z) : Z := ToInt32 (Z.shiftl (ToInt32 (num x)) k).

(** [x >>> 0] *)
Definition ushr0 (x : Z) : Z := ToUint32 x.

(** [a | b]: both operands go through [ToInt32], the result is an int32. *)
Definition bor (a b : Z) : Z := Z.lor (ToInt32 a) (ToInt32 b).

(** [String.fromCharCode(c)]; [undefined] gives the NUL character. *)
Definition fromCharCode (c : option Z) : string :=
  String (Ascii.ascii_of_N (Z.to_N (num c mod 2 ^ 16))) EmptyString.

End JS.

(** ** Incremental container scanner ([audio-segment-fetch.js]) *)

Module IsoBox.

Definition byteZ (b : Byte.byte) : Z := Z.of_N (Byte.to_N b).

(** [data[i]] on a [Uint8Array]. *)
Definition at_ (data : list Byte.byte) (i : Z) : option Z :=
  if (0 <=? i) && (i <? Z.of_nat (length data))
  then byteZ <$> data !! Z.to_nat i
  else None.

Record IsoBoxSearchInfo := mkInfo {
  lastCompletedOffset : Z;
  found : bool;
  size : option Z
}.

Definition parseUint32 (data : list Byte.byte) (offset : Z) : Z :=
  JS.bor
    (JS.bor
       (JS.bor (JS.ushr0 (JS.num (at_ data (offset + 3))))
               (JS.ushr0 (JS.shl (at_ data (offset + 2)) 8)))
       (JS.ushr0 (JS.shl (at_ data (offset + 1)) 16)))
    (JS.ushr0 (JS.shl (at_ data offset) 24)).

Definition parseIsoBoxType (data : list Byte.byte) (offset : Z) : string :=
  JS.fromCharCode (at_ data offset) +:+
  JS.fromCharCode (at_ data (offset + 1)) +:+
  JS.fromCharCode (at_ data (offset + 2)) +:+
  JS.fromCharCode (at_ data (offset + 3)).

(** [types.indexOf(t)], [-1] when absent. *)
Fixpoint indexOf_from (types : list string) (t : string) (i : Z) : Z :=
  match types with
  | [] => -1
  | x :: rest => if String.eqb x t then i else indexOf_from rest t (i + 1)
  end.

Definition indexOf (types : list string) (t : string) : Z := indexOf_from types t 0.

(** The [while (offset < data.byteLength)] loop.  The loop has no
    syntactic bound, so the model carries fuel; [None] is "still running
    when the fuel ran out". The result is the pair of the loop variables
    [boxInfo] and [lastCompletedOffset] at loop exit. *)
Fixpoint scan (fuel : nat) (types : list string) (data : list Byte.byte)
    (offset : Z) (boxInfo : option IsoBoxSearchInfo) (lastCompleted : Z)
    : option (option IsoBoxSearchInfo * Z) :=
  match fuel with
  | O => None
  | S fuel' =>
      if offset <? Z.of_nat (length data) then
        let boxSize := parseUint32 data offset in
        let boxType := parseIsoBoxType data (offset + 4) in
        if boxSize =? 0 then Some (boxInfo, lastCompleted)
        else
          let '(boxInfo', lastCompleted') :=
            if offset + boxSize <=? Z.of_nat (length data) then
              if 0 <=? indexOf types boxType
              then (Some (mkInfo offset true (Some boxSize)), lastCompleted)
              else (boxInfo, offset + boxSize)
            else (boxInfo, lastCompleted) in
          scan fuel' types data (offset + boxSize) boxInfo' lastCompleted'
      else Some (boxInfo, lastCompleted)
  end.

(** [findLastTopIsoBoxCompleted(types, buffer, offset)]. *)
Definition findLastTopIsoBoxCompleted (fuel : nat) (types : list string)
    (buffer : option (list Byte.byte)) (offset : option Z)
    : option IsoBoxSearchInfo :=
  let offset := match offset with None => 0 | Some o => o end in
  match buffer with
  | None => Some (mkInfo 0 false None)
  | Some data =>
      if Z.of_nat (length data) <=? offset + 8 then Some (mkInfo 0 false None)
      else
        match scan fuel types data offset None 0 with
        | None => None
        | Some (None, lastCompleted) => Some (mkInfo lastCompleted false None)
        | Some (Some boxInfo, _) => Some boxInfo
        end
  end.

(** A 24-byte buffer: a complete 16-byte box followed by a header whose
    size field is [0xFFFFFFF0]. *)
Definition loopingBuffer : list Byte.byte :=
  [Byte.x00; Byte.x00; Byte.x00; Byte.x10; Byte.x66; Byte.x72; Byte.x65; Byte.x65;
   Byte.x00; Byte.x00; Byte.x00; Byte.x00; Byte.x00; Byte.x00; Byte.x00; Byte.x00;
   Byte.xff; Byte.xff; Byte.xff; Byte.xf0; Byte.x66; Byte.x72; Byte.x65; Byte.x65].

End IsoBox.

(** ** Collaborators outside the two source files

    Pure helpers imported from other modules ([mux.js] probes,
    [@videojs/vhs-utils], [./playlist], [./bin-utils], [./util/gops]) are
    the methods of one interface; every definition below is parametric
    in it. *)

Record Track := mkTrack {
  track_type : string;
  track_id : option Z;
  track_timescale : option Z;
  track_codec : option string
}.

Class Probes := {
  (** [detectContainerForBytes(bytes)] *)
  detectContainerForBytes : list Byte.byte -> string;
  (** [mp4probe.tracks(bytes)] *)
  probe_tracks : list Byte.byte -> list Track;
  (** [mp4probe.startTime(timescales, bytes)] *)
  probe_startTime : option (gmap Z Z) -> list Byte.byte -> Q
}.

(** JavaScript truthiness of the values that the code tests. *)
Definition truthyZ (v : option Z) : bool :=
  match v with Some n => negb (n =? 0) | None => false end.

Definition truthyStr (v : option string) : bool :=
  match v with Some s => negb (String.eqb s "") | None => false end.

Definition isSome {A} (o : option A) : bool :=
  match o with Some _ => true | None => false end.

(** ** Chunked fragment transport ([audio-segment-fetch.js]) *)

Module Fetch.
Import IsoBox.

(** A [Uint8Array] is a view: [contents] are the bytes seen through the
    view, [buffer] the bytes of the whole underlying [ArrayBuffer]
    (what [.buffer] returns). *)
Record Uint8Array := mkU8 { contents : list Byte.byte; buffer : list Byte.byte }.

(** [new Uint8Array()], [new Uint8Array(arrayOrBuffer)]: a fresh buffer. *)
Definition fresh (bs : list Byte.byte) : Uint8Array := mkU8 bs bs.

Definition byteLength (a : Uint8Array) : Z := Z.of_nat (length (contents a)).

(** Relative index of [subarray]: negative counts from the end, then
    clamped to [0, length]. *)
Definition relIndex (len k : Z) : Z :=
  if k <? 0 then Z.max (len + k) 0 else Z.min k len.

(** [a.subarray(b, e)]: a view on the same buffer. *)
Definition subarray (a : Uint8Array) (b e : Z) : Uint8Array :=
  let len := byteLength a in
  let b' := relIndex len b in
  let e' := relIndex len e in
  mkU8 (take (Z.to_nat (e' - b')) (drop (Z.to_nat b') (contents a))) (buffer a).

Definition concatTypedArray (remaining data : Uint8Array) : Uint8Array :=
  if byteLength remaining =? 0 then data
  else fresh (contents remaining ++ contents data).

Record InitMap := mkMap {
  map_resolvedUri : string;
  map_bytes : option (list Byte.byte);
  map_tracks : option (gmap string Track);
  map_timescales : option (gmap Z Z)
}.

(** The simplified segment object handed to the transport. *)
Record Segment := mkSegment {
  resolvedUri : string;
  requestId : Z;
  map : option InitMap;
  isFmp4 : bool;
  endOfAllRequests : option Z
}.

Record TrackInfo := mkTrackInfo {
  ti_isFmp4 : bool;
  hasVideo : bool;
  hasAudio : bool;
  audioCodec : option string;
  videoCodec : option string;
  isMuxed : bool
}.

(** The callbacks the transport invokes on the loader, in call order.
    Every callback also receives the (shared) segment object. *)
Inductive Callback :=
| trackInfoFn (trackInfo : TrackInfo)
| timingInfoFn (mediaType timeType : string) (time : Q)
| chunkFn (data : list Byte.byte) (type : string) (firstChunkFlag : bool)
| dataFn (data : list Byte.byte) (type : string)
| doneFn.

(** The closure variables of one [audioSegmentFetch] call, the
    module-level flag [segmentTrackAndTimingInfoHandled], the segment
    object and the log of callbacks made so far. *)
Record State := mkState {
  segment : Segment;
  needInit : bool;
  initRcvd : bool;
  firstChunkReceiveTime : Z;
  firstChunkFlag : bool;
  segmentDone : bool;
  remaining : Uint8Array;
  offset : Z;
  segmentTrackAndTimingInfoHandled : bool;
  calls : list Callback
}.

(** How a callback of the transport ends. *)
Inductive outcome :=
| Returned (st : State)
| Threw (st : State)
| Diverged.

Definition set_segment (st : State) (s : Segment) : State :=
  mkState s (needInit st) (initRcvd st) (firstChunkReceiveTime st) (firstChunkFlag st)
    (segmentDone st) (remaining st) (offset st) (segmentTrackAndTimingInfoHandled st)
    (calls st).

Definition emit (st : State) (c : Callback) : State :=
  mkState (segment st) (needInit st) (initRcvd st) (firstChunkReceiveTime st)
    (firstChunkFlag st) (segmentDone st) (remaining st) (offset st)
    (segmentTrackAndTimingInfoHandled st) (calls st ++ [c]).

Definition set_handled (st : State) (b : bool) : State :=
  mkState (segment st) (needInit st) (initRcvd st) (firstChunkReceiveTime st)
    (firstChunkFlag st) (segmentDone st) (remaining st) (offset st) b (calls st).

Definition codecOf (t : option Track) (encrypted : string) : option string :=
  match t with
  | Some tr =>
      if truthyStr (track_codec tr) && negb (String.eqb (default "" (track_codec tr)) encrypted)
      then track_codec tr else None
  | None => None
  end.

Definition mediaTypeOf (tracks : gmap string Track) : string :=
  if isSome (tracks !! "audio") then "audio" else "video".

Section WithProbes.
Context `{Probes}.

Definition handleSegmentBytes (st : State) (bytes : list Byte.byte)
    (segmentDone firstChunkFlag : bool) : outcome :=
  match map (segment st) with
  | None => Threw st          (* destructuring [segment.map] *)
  | Some m =>
      let seg := segment st in
      let st := set_segment st
        (mkSegment (resolvedUri seg) (requestId seg) (map seg) true (endOfAllRequests seg)) in
      if negb (Z.of_nat (length bytes) =? 0) && negb segmentDone then
        match map_tracks m with
        | None => Threw st    (* [tracks.video] on undefined *)
        | Some tracks =>
            let video := tracks !! "video" in
            let audio := tracks !! "audio" in
            let trackInfo :=
              mkTrackInfo true (isSome video) (isSome audio)
                (codecOf audio "enca") (codecOf video "encv")
                (isSome video && isSome audio) in
            let st := emit st (trackInfoFn trackInfo) in
            let timingInfo := probe_startTime (map_timescales m) bytes in
            let st :=
              if hasAudio trackInfo && negb (isMuxed trackInfo)
              then emit st (timingInfoFn "audio" "start" timingInfo) else st in
            let st :=
              if hasVideo trackInfo
              then emit st (timingInfoFn "video" "start" timingInfo) else st in
            let st := set_handled st true in
            Returned (emit st (chunkFn bytes (mediaTypeOf tracks) firstChunkFlag))
        end
      else if segmentTrackAndTimingInfoHandled st then
        match map_tracks m with
        | None => Threw st
        | Some tracks =>
            let st := emit st (dataFn bytes (mediaTypeOf tracks)) in
            Returned (emit st doneFn)
        end
      else Returned st
  end.

Definition waitForCompletion (st : State) (responseBuffer : list Byte.byte)
    (segmentDone needInit initRcvd : bool) (firstChunkReceiveTime : Z)
    (firstChunkFlag : bool) (now : positive) : outcome :=
  if (0 <? firstChunkReceiveTime) && ((needInit && initRcvd) || negb needInit) then
    let seg := segment st in
    let st := set_segment st
      (mkSegment (resolvedUri seg) (requestId seg) (map seg) (isFmp4 seg) (Some (Z.pos now))) in
    handleSegmentBytes st responseBuffer segmentDone firstChunkFlag
  else Returned st.

(** The body of [tracks.forEach] in [handleInitSegmentResponse]. *)
Definition addTrack (m : InitMap) (track : Track) : InitMap :=
  let tracks := default ∅ (map_tracks m) in
  match tracks !! track_type track with
  | Some _ => mkMap (map_resolvedUri m) (map_bytes m) (Some tracks) (map_timescales m)
  | None =>
      let tracks := <[track_type track := track]> tracks in
      let timescales :=
        if truthyZ (track_id track) && truthyZ (track_timescale track)
        then Some (<[default 0 (track_id track) := default 0 (track_timescale track)]>
                     (default ∅ (map_timescales m)))
        else map_timescales m in
      mkMap (map_resolvedUri m) (map_bytes m) (Some tracks) timescales
  end.

Definition handleInitSegmentResponse (st : State) (responseBuffer : list Byte.byte)
    (segmentDone needInit initRcvd : bool) (firstChunkReceiveTime : Z)
    (firstChunkFlag : bool) (now : positive) : outcome :=
  match map (segment st) with
  | None => Threw st
  | Some m =>
      let seg := segment st in
      let m := mkMap (map_resolvedUri m) (Some responseBuffer) (map_tracks m) (map_timescales m) in
      let withMap m := set_segment st
        (mkSegment (resolvedUri seg) (requestId seg) (Some m) (isFmp4 seg) (endOfAllRequests seg)) in
      if negb (String.eqb (detectContainerForBytes responseBuffer) "mp4")
      then Returned (withMap m)
      else
        let m := foldl addTrack m (probe_tracks responseBuffer) in
        waitForCompletion (withMap m) responseBuffer segmentDone needInit initRcvd
          firstChunkReceiveTime firstChunkFlag now
  end.

(** The container check of [handleMediaDataResponse] has an empty
    body; only the call to [waitForCompletion] remains. *)
Definition handleMediaDataResponse (st : State) (responseBuffer : list Byte.byte)
    (segmentDone needInit initRcvd : bool) (firstChunkReceiveTime : Z)
    (firstChunkFlag : bool) (now : positive) : outcome :=
  waitForCompletion st responseBuffer segmentDone needInit initRcvd
    firstChunkReceiveTime firstChunkFlag now.

(** [audioSegmentFetch({segment, ...})] up to the two requests being
    sent: the closure variables and the reset of the module flag.  The
    previous value of the module flag is irrelevant. *)
Definition audioSegmentFetch (seg : Segment) : State :=
  let needInit :=
    match map seg with
    | Some m => negb (isSome (map_bytes m))
    | None => false
    end in
  mkState seg needInit false 0 false false (fresh []) 0 false [].

(** [initReq.onload]. *)
Definition initReq_onload (st : State) (status : Z) (response : list Byte.byte)
    (now : positive) : outcome :=
  if (200 <=? status) && (status <? 300) then
    let st := mkState (segment st) (needInit st) true (firstChunkReceiveTime st)
      (firstChunkFlag st) (segmentDone st) (remaining st) (offset st)
      (segmentTrackAndTimingInfoHandled st) (calls st) in
    handleInitSegmentResponse st response (segmentDone st) (needInit st) (initRcvd st)
      (firstChunkReceiveTime st) (firstChunkFlag st) now
  else Threw st.

(** [processMediaSegmentData({value, done})], one resolved read of the
    response body. [fuel] bounds each scanner loop. A [value] handed
    over by the reader is taken to span its whole buffer. *)
Definition processMediaSegmentData (fuel : nat) (st : State)
    (value : option (list Byte.byte)) (done : bool) (now : positive) : outcome :=
  if done then
    let st := mkState (segment st) (needInit st) (initRcvd st) (firstChunkReceiveTime st)
      (firstChunkFlag st) true (remaining st) (offset st)
      (segmentTrackAndTimingInfoHandled st) (calls st) in
    handleMediaDataResponse st (buffer (remaining st)) (segmentDone st) (needInit st)
      (initRcvd st) (firstChunkReceiveTime st) (firstChunkFlag st) now
  else
    match value with
    | Some v =>
        if 0 <? Z.of_nat (length v) then
          let remaining' := concatTypedArray (remaining st) (fresh v) in
          match findLastTopIsoBoxCompleted fuel ["mdat"] (Some (contents remaining'))
                  (Some (offset st)) with
          | None => Diverged
          | Some boxesInfo =>
              if found boxesInfo then
                (* [end] is NaN when [size] is undefined *)
                let '(data, remaining'') :=
                  match size boxesInfo with
                  | Some sz =>
                      let end_ := lastCompletedOffset boxesInfo + sz in
                      if end_ =? byteLength remaining'
                      then (remaining', fresh [])
                      else (fresh (contents (subarray remaining' 0 end_)),
                            subarray remaining' end_ (byteLength remaining'))
                  | None =>
                      (fresh (contents (subarray remaining' 0 0)),
                       subarray remaining' 0 (byteLength remaining'))
                  end in
                let '(fcrt, fcf) :=
                  if firstChunkReceiveTime st =? 0 then (Z.pos now, true)
                  else (firstChunkReceiveTime st, false) in
                let st := mkState (segment st) (needInit st) (initRcvd st) fcrt fcf false
                  remaining'' (offset st) (segmentTrackAndTimingInfoHandled st) (calls st) in
                match handleMediaDataResponse st (buffer data) (segmentDone st) (needInit st)
                        (initRcvd st) (firstChunkReceiveTime st) (firstChunkFlag st) now with
                | Returned st =>
                    Returned (mkState (segment st) (needInit st) (initRcvd st)
                      (firstChunkReceiveTime st) (firstChunkFlag st) (segmentDone st)
                      (remaining st) 0 (segmentTrackAndTimingInfoHandled st) (calls st))
                | other => other
                end
              else
                Returned (mkState (segment st) (needInit st) (initRcvd st)
                  (firstChunkReceiveTime st) (firstChunkFlag st) (segmentDone st)
                  remaining' (lastCompletedOffset boxesInfo)
                  (segmentTrackAndTimingInfoHandled st) (calls st))
          end
        else Returned st
    | None => Returned st
    end.

(** What the network delivers to one fetch. *)
Inductive NetEvent :=
| InitOnload (status : Z) (response : list Byte.byte) (now : positive)
| Read (value : option (list Byte.byte)) (done : bool) (now : positive).

Definition step (fuel : nat) (st : State) (ev : NetEvent) : outcome :=
  match ev with
  | InitOnload status response now =>
      if needInit st then initReq_onload st status response now else Returned st
  | Read value done now => processMediaSegmentData fuel st value done now
  end.

(** Events are handled one after the other; an uncaught exception or
    a scanner that never returns ends the modelled fetch. *)
Fixpoint run (fuel : nat) (st : State) (evs : list NetEvent) : outcome :=
  match evs with
  | [] => Returned st
  | ev :: rest =>
      match step fuel st ev with
      | Returned st' => run fuel st' rest
      | other => other
      end
  end.

End WithProbes.

(** The chunks handed to [chunkFn], in order. *)
Definition chunksOf (cs : list Callback) : list (list Byte.byte) :=
  omap (fun c => match c with chunkFn d _ _ => Some d | _ => None end) cs.

Definition trackInfoCalls (cs : list Callback) : nat :=
  length (List.filter (fun c => match c with trackInfoFn _ => true | _ => false end) cs).

Definition timingInfoCalls (cs : list Callback) : nat :=
  length (List.filter (fun c => match c with timingInfoFn _ _ _ => true | _ => false end) cs).

End Fetch.
(** ** Well-formed box streams (the input format of the scanner)

    A top-level box is an 8-byte header, 4-byte big-endian size and
    4-character type, followed by its payload. *)

Module Boxes.
Import IsoBox.

Record Box := mkBox {
  box_type : Byte.byte * Byte.byte * Byte.byte * Byte.byte;
  payload : list Byte.byte
}.

Definition boxSize (b : Box) : Z := 8 + Z.of_nat (length (payload b)).

Definition byteOfZ (z : Z) : Byte.byte := default Byte.x00 (Byte.of_N (Z.to_N z)).

(** Big-endian encoding of a 32-bit size. *)
Definition be32 (n : Z) : list Byte.byte :=
  [byteOfZ (n / 2 ^ 24 mod 256); byteOfZ (n / 2 ^ 16 mod 256);
   byteOfZ (n / 2 ^ 8 mod 256); byteOfZ (n mod 256)].

Definition typeBytes (b : Box) : list Byte.byte :=
  let '(t0, t1, t2, t3) := box_type b in [t0; t1; t2; t3].

Definition ser (b : Box) : list Byte.byte := be32 (boxSize b) ++ typeBytes b ++ payload b.

Definition serAll (bs : list Box) : list Byte.byte := concat (List.map ser bs).

Definition mdat : Byte.byte * Byte.byte * Byte.byte * Byte.byte :=
  (Byte.x6d, Byte.x64, Byte.x61, Byte.x74).

Definition moof : Byte.byte * Byte.byte * Byte.byte * Byte.byte :=
  (Byte.x6d, Byte.x6f, Byte.x6f, Byte.x66).

Definition is_mdat (b : Box) : bool :=
  let '(t0, t1, t2, t3) := box_type b in
  Byte.eqb t0 Byte.x6d && Byte.eqb t1 Byte.x64 && Byte.eqb t2 Byte.x61 && Byte.eqb t3 Byte.x74.

Definition has_mdat (bs : list Box) : bool := existsb is_mdat bs.

(** The boxes up to and including the last media-data box, and the
    boxes after it. *)
Fixpoint uptoLastMdat (bs : list Box) : list Box :=
  match bs with
  | [] => []
  | b :: rest =>
      if has_mdat rest then b :: uptoLastMdat rest
      else if is_mdat b then [b] else []
  end.

Fixpoint afterLastMdat (bs : list Box) : list Box :=
  match bs with
  | [] => []
  | b :: rest =>
      if has_mdat rest then afterLastMdat rest
      else if is_mdat b then rest else b :: rest
  end.

(** What the scanner loop computes over complete boxes starting at
    offset [o]: the last media-data box seen and the end of the last
    other box seen. *)
Fixpoint walk (o : Z) (bs : list Box) (boxInfo : option IsoBoxSearchInfo)
    (lastCompleted : Z) : option IsoBoxSearchInfo * Z :=
  match bs with
  | [] => (boxInfo, lastCompleted)
  | b :: rest =>
      if is_mdat b
      then walk (o + boxSize b) rest (Some (mkInfo o true (Some (boxSize b)))) lastCompleted
      else walk (o + boxSize b) rest boxInfo (o + boxSize b)
  end.

(** The media-data boxes alone. *)
Definition mdatBoxes (bs : list Box) : list Box := List.filter is_mdat bs.

(** A box the 32-bit size field can describe without its sign bit. *)
Definition wf (b : Box) : Prop := boxSize b < 2 ^ 31.

(** A media-data box that carries data. *)
Definition mdatNonEmpty (b : Box) : Prop := is_mdat b = true -> payload b <> [].

(** The bytes of a box that has not arrived in full: a proper prefix
    of the serialisation of a well-formed box (possibly nothing). *)
Definition dangling (p : list Byte.byte) : Prop :=
  exists b k, wf b /\ (k < length (ser b))%nat /\ p = take k (ser b).

(** The bytes delivered so far: complete boxes [bs], then [p]. *)
Definition delivered (d : list Byte.byte) (bs : list Box) (p : list Byte.byte) : Prop :=
  d = serAll bs ++ p /\ Forall wf bs /\ Forall mdatNonEmpty bs /\ dangling p.

End Boxes.

(** ** Concrete inputs used by the examples *)

Module Samples.
Import IsoBox Fetch Boxes.

#[export] Instance noProbes : Probes := {|
  detectContainerForBytes := fun _ => "mp4"%string;
  probe_tracks := fun _ => [];
  probe_startTime := fun _ _ => 0%Q
|}.

Definition videoTrack : Track := mkTrack "video" (Some 1) (Some 90000) (Some "avc1.64001f"%string).

Definition initBytes : list Byte.byte := [Byte.x00; Byte.x00; Byte.x00; Byte.x08; Byte.x66; Byte.x74; Byte.x79; Byte.x70].

(** A segment whose initialization section is already loaded. *)
Definition videoSegment : Segment :=
  mkSegment "seg-1.m4s" 1
    (Some (mkMap "init.mp4" (Some initBytes) (Some {[ "video"%string := videoTrack ]})
             (Some {[ 1 := 90000 ]})))
    false None.

Definition moofBox : Box := mkBox moof (List.repeat Byte.x01 8).
Definition mdatBox1 : Box := mkBox mdat (List.repeat Byte.x02 8).
Definition mdatBox2 : Box := mkBox mdat (List.repeat Byte.x03 8).

(** One fragment: a 16-byte [moof] and a 16-byte [mdat], in one read. *)
Definition oneFragment : list NetEvent :=
  [Read (Some (ser moofBox ++ ser mdatBox1)) false 1000%positive].

(** Two fragments, each arriving in its own read. *)
Definition twoFragments : list NetEvent :=
  [Read (Some (ser moofBox ++ ser mdatBox1)) false 1000%positive;
   Read (Some (ser moofBox ++ ser mdatBox2)) false 1010%positive].

(** The first 40 bytes of two fragments, in two reads around an empty one. *)
Definition splitReads : list NetEvent :=
  let stream := ser moofBox ++ ser mdatBox1 ++ ser moofBox ++ ser mdatBox2 in
  [Read (Some (take 20 stream)) false 1000%positive;
   Read None false 1005%positive;
   Read (Some (drop 20 (take 40 stream))) false 1010%positive].

Definition callsOf (o : outcome) : list Callback :=
  match o with Returned st | Threw st => calls st | Diverged => [] end.

End Samples.
(** ** State of the transport relative to the boxes delivered so far *)

Module TransportState.
Import IsoBox Fetch Boxes.

(** The data bytes carried by a list of network events. *)
Definition dataOf (evs : list NetEvent) : list Byte.byte :=
  concat (omap (fun ev => match ev with
                          | Read (Some v) _ _ => Some v
                          | _ => None
                          end) evs).

(** No event of the list is the closing read. *)
Definition notDone (ev : NetEvent) : Prop :=
  match ev with Read _ done _ => done = false | InitOnload _ _ _ => True end.

(** The initialization section is present and probed, so that
    [needInit] is false from the start. *)
Definition initLoaded (seg : Segment) : Prop :=
  exists m bytes tracks,
    map seg = Some m /\ map_bytes m = Some bytes /\ map_tracks m = Some tracks.

(** After the complete boxes [bs] and the partial box [p] were read:
    everything through the last media-data box was emitted, the rest is
    buffered, and the scan offset is a box boundary of the buffer. *)
Definition Inv (st : State) (bs : list Box) (p : list Byte.byte) : Prop :=
  concat (chunksOf (calls st)) = serAll (uptoLastMdat bs) /\
  contents (remaining st) = serAll (afterLastMdat bs) ++ p /\
  (exists cs rs, afterLastMdat bs = cs ++ rs /\ offset st = Z.of_nat (length (serAll cs))) /\
  needInit st = false /\
  (exists m tracks, map (segment st) = Some m /\ map_tracks m = Some tracks) /\
  0 <= firstChunkReceiveTime st.

End TransportState.

(** ** The callbacks of a fetch, chunk by chunk *)

Module TransportTrace.
Import IsoBox Fetch Boxes TransportState.

(** The buffer of the transport after the complete boxes [bs] and the
    partial box [p] were read: what follows the last media-data box is
    buffered, and the scan offset is a box boundary of the buffer. *)
Definition Buffered (st : State) (bs : list Box) (p : list Byte.byte) : Prop :=
  contents (remaining st) = serAll (afterLastMdat bs) ++ p /\
  exists cs rs, afterLastMdat bs = cs ++ rs /\ offset st = Z.of_nat (length (serAll cs)).

(** The first-chunk flags passed to [chunkFn], in order. *)
Definition chunkFlags (cs : list Callback) : list bool :=
  omap (fun c => match c with chunkFn _ _ f => Some f | _ => None end) cs.

Definition doneCalls (cs : list Callback) : nat :=
  length (List.filter (fun c => match c with doneFn => true | _ => false end) cs).

(** A read of the response body other than the closing one. *)
Definition isDataRead (ev : NetEvent) : Prop :=
  match ev with Read _ done _ => done = false | InitOnload _ _ _ => False end.

Section WithProbes.
Context `{Probes}.

(** The callbacks [handleSegmentBytes] makes, in order, for one
    non-empty chunk [data] of a segment whose initialization section
    [m] lists [tracks]. *)
Definition chunkCallbacks (m : InitMap) (tracks : gmap string Track)
    (data : list Byte.byte) (first : bool) : list Callback :=
  let video := isSome (tracks !! "video") in
  let audio := isSome (tracks !! "audio") in
  let time := probe_startTime (map_timescales m) data in
  [trackInfoFn (mkTrackInfo true video audio (codecOf (tracks !! "audio") "enca")
                  (codecOf (tracks !! "video") "encv") (video && audio))]
  ++ (if audio && negb (video && audio) then [timingInfoFn "audio" "start" time] else [])
  ++ (if video then [timingInfoFn "video" "start" time] else [])
  ++ [chunkFn data (mediaTypeOf tracks) first].

(** The callbacks for a sequence of chunks; only the first chunk can
    carry the first-chunk flag. *)
Fixpoint traceOf (m : InitMap) (tracks : gmap string Track) (first : bool)
    (chunks : list (list Byte.byte)) : list Callback :=
  match chunks with
  | [] => []
  | c :: rest => chunkCallbacks m tracks c first ++ traceOf m tracks false rest
  end.

(** The transport after the complete boxes [bs] and the partial box
    [p] were read, once the initialization section [m] is at hand:
    the callbacks made so far are those of the chunks emitted, the
    chunks rebuild the stream through the last media-data box, and the
    array buffer behind [remaining] holds what is buffered, preceded
    by the last chunk when that chunk was sliced off it. *)
Definition Open (m : InitMap) (tracks : gmap string Track) (st : State)
    (bs : list Box) (p : list Byte.byte) : Prop :=
  Buffered st bs p /\
  (needInit st && initRcvd st) || negb (needInit st) = true /\
  map (segment st) = Some m /\
  segmentDone st = false /\
  calls st = traceOf m tracks true (chunksOf (calls st)) /\
  concat (chunksOf (calls st)) = serAll (uptoLastMdat bs) /\
  (if has_mdat bs
   then 0 < firstChunkReceiveTime st /\ segmentTrackAndTimingInfoHandled st = true /\
        chunksOf (calls st) <> []
   else firstChunkReceiveTime st = 0 /\ segmentTrackAndTimingInfoHandled st = false /\
        calls st = []) /\
  (buffer (remaining st) = contents (remaining st) \/
   exists X, last (chunksOf (calls st)) = Some X /\
             buffer (remaining st) = X ++ contents (remaining st)).

(** The transport while the response with the initialization section
    [m] is still outstanding. *)
Definition Closed (m : InitMap) (st : State) (bs : list Box) (p : list Byte.byte)
    : Prop :=
  Buffered st bs p /\
  needInit st = true /\ initRcvd st = false /\
  map (segment st) = Some m /\
  segmentDone st = false /\
  calls st = [] /\
  segmentTrackAndTimingInfoHandled st = false /\
  (if has_mdat bs then 0 < firstChunkReceiveTime st
   else firstChunkReceiveTime st = 0 /\
        buffer (remaining st) = contents (remaining st)).

(** The initialization section with the response bytes stored and
    the probed tracks registered, as [handleInitSegmentResponse]
    leaves it. *)
Definition probedMap (m : InitMap) (response : list Byte.byte) : InitMap :=
  foldl addTrack
    (mkMap (map_resolvedUri m) (Some response) (map_tracks m) (map_timescales m))
    (probe_tracks response).

End WithProbes.

End TransportTrace.

(** ** Concrete inputs for a fetch that has to load its initialization section *)

Module TraceSamples.
Import IsoBox Fetch Boxes.

(** Probes that recognise mp4 and report one video track. *)
Definition videoProbes : Probes := {|
  detectContainerForBytes := fun _ => "mp4"%string;
  probe_tracks := fun _ => [Samples.videoTrack];
  probe_startTime := fun _ _ => 0%Q
|}.

(** The initialization section of [Samples.videoSegment] and its tracks. *)
Definition videoTracks : gmap string Track := {[ "video"%string := Samples.videoTrack ]}.

Definition videoMap : InitMap :=
  mkMap "init.mp4" (Some Samples.initBytes) (Some videoTracks) (Some {[ 1 := 90000 ]}).

(** An initialization section that is still to be requested, and a
    segment that refers to it. *)
Definition coldMap : InitMap := mkMap "init.mp4" None None None.

Definition coldSegment : Segment := mkSegment "seg-1.m4s" 1 (Some coldMap) false None.

(** The first 20 bytes of a fragment: a [moof] and the start of an [mdat]. *)
Definition firstRead : list NetEvent :=
  [Read (Some (take 20 (ser Samples.moofBox ++ ser Samples.mdatBox1))) false 1000%positive].

(** A second video track and an audio track, as a probe may list them. *)
Definition otherVideoTrack : Track :=
  mkTrack "video" (Some 2) (Some 48000) (Some "hvc1"%string).

Definition audioTrack : Track :=
  mkTrack "audio" (Some 3) (Some 44100) (Some "mp4a.40.2"%string).

End TraceSamples.

(** ** IEEE 754 binary64 arithmetic on rationals *)

Module Double.
Local Open Scope Q_scope.

(** [floor (log2 q)] for [0 < q]. *)
Definition ilog2 (q : Q) : Z :=
  let e := (Z.log2 (Qnum q) - Z.log2 (Zpos (Qden q)))%Z in
  if Qle_bool (2 ^ e) q then e else (e - 1)%Z.

(** The nearest integer, a tie going to the even one. *)
Definition roundEven (q : Q) : Z :=
  let f := Qfloor q in
  match Qcompare (q - inject_Z f) (1 # 2) with
  | Lt => f
  | Gt => (f + 1)%Z
  | Eq => if Z.even f then f else (f + 1)%Z
  end.

(** The exponent of the unit in the last place of the binary64 numbers
    of the magnitude of [q]: 53 significant bits, and the fixed unit
    [2^-1074] of the subnormal numbers below [2^-1022]. *)
Definition ulpExp (q : Q) : Z := Z.max (ilog2 q - 52) (-1074).

(** The multiple of [2^ex] nearest to [q]. *)
Definition roundTo (ex : Z) (q : Q) : Q := inject_Z (roundEven (q / 2 ^ ex)) * 2 ^ ex.

(** [2^1024] stands for [Infinity]: every number from
    [2^1024 - 2^970] on is rounded to it. *)
Definition INF : Q := 2 ^ 1024.

Definition roundPos (q : Q) : Q := Qmin INF (roundTo (ulpExp q) q).

(** The binary64 number nearest to [q], a tie going to the even
    significand, as every arithmetic operation of JavaScript rounds its
    exact result; [INF] and [- INF] for an overflow. The result is a
    reduced fraction. *)
Definition double (q : Q) : Q :=
  Qred match Qcompare q 0 with
       | Eq => 0
       | Gt => roundPos q
       | Lt => - roundPos (- q)
       end.

Definition isFinite (q : Q) : bool := negb (Qle_bool INF (Qabs q)).

(** A number when it is finite; [None] for [Infinity], [-Infinity] and
    [NaN], which the operations below never turn into a finite number
    again. *)
Definition finite (q : Q) : option Q := if isFinite q then Some q else None.

(** [a + b], [a - b], [a * b] and [a / b] on finite doubles. *)
Definition add (a b : Q) : option Q := finite (double (a + b)).
Definition sub (a b : Q) : option Q := finite (double (a - b)).
Definition mul (a b : Q) : option Q := finite (double (a * b)).
Definition div (a b : Q) : option Q :=
  if Qeq_bool b 0 then None else finite (double (a / b)).

(** [Math.floor] of a finite double (the result is a double again). *)
Definition floor (q : Q) : Q := inject_Z (Qfloor q).

End Double.
(** ** Timeline change coordinator *)

Module TimelineChange.

Record TimelineChange := mkChange { tc_type : string; from : Z; to : Z }.

(** Modelled from the spec: the Timeline Change Coordinator
    ([timeline-change-controller.js] is not among the sources), a
    per-loader-type record of the pending and of the last (committed)
    [{from, to}] timeline transition. *)
Record TimelineChangeController := mkController {
  pendingTimelineChanges_ : gmap string TimelineChange;
  lastTimelineChanges_ : gmap string TimelineChange
}.

(** Modelled from the spec: [lastTimelineChange({type})], the last
    (committed) change of a loader type. *)
Definition lastTimelineChange (c : TimelineChangeController) (type : string)
    : option TimelineChange := lastTimelineChanges_ c !! type.

(** Modelled from the spec: [pendingTimelineChange({type})], the
    pending change of a loader type. *)
Definition pendingTimelineChange (c : TimelineChangeController) (type : string)
    : option TimelineChange := pendingTimelineChanges_ c !! type.

(** Modelled from the spec: [lastTimelineChange({type, from, to})]
    records a committed transition. *)
Definition recordLastTimelineChange (c : TimelineChangeController)
    (type : string) (from to : Z) : TimelineChangeController :=
  mkController (pendingTimelineChanges_ c)
    (<[type := mkChange type from to]> (lastTimelineChanges_ c)).

(** Modelled from the spec: [pendingTimelineChange({type, from, to})]
    records a pending transition. *)
Definition recordPendingTimelineChange (c : TimelineChangeController)
    (type : string) (from to : Z) : TimelineChangeController :=
  mkController (<[type := mkChange type from to]> (pendingTimelineChanges_ c))
    (lastTimelineChanges_ c).

(** Modelled from the spec: [clearPendingTimelineChange(type)] clears
    the pending change of a loader type. *)
Definition clearPendingTimelineChange (c : TimelineChangeController) (type : string)
    : TimelineChangeController :=
  mkController (delete type (pendingTimelineChanges_ c)) (lastTimelineChanges_ c).

End TimelineChange.

(** ** Segment loader ([segment-loader.js]) *)

Module Loader.
Import TimelineChange.

Local Open Scope Q_scope.

(** [TimeRanges]: a list of [start, end] pairs. *)
Definition TimeRanges := list (Q * Q).

Definition start0 (r : TimeRanges) : Q :=
  match r with (s, _) :: _ => s | [] => 0 end.

Definition endLast (r : TimeRanges) : Q :=
  match last r with Some (_, e) => e | None => 0 end.

Definition truthyQ (v : option Q) : bool :=
  match v with Some q => negb (Qeq_bool q 0) | None => false end.

Record Segment := mkSegment {
  resolvedUri : string;
  timeline : Z;
  duration : Q;
  seg_start : option Q;
  seg_end : option Q;
  map : option Fetch.InitMap
}.

Record SyncInfo := mkSyncInfo { sync_mediaSequence : Z; sync_time : Q }.

(** A playlist object; [ref] stands for its identity as an object
    ([!==] on playlists compares references). *)
Record Playlist := mkPlaylist {
  ref : Z;
  id : option string;
  uri : option string;
  mediaSequence : Z;
  targetDuration : option Q;
  endList : bool;
  segments : list Segment;
  syncInfo : option SyncInfo
}.

Record SyncPoint := mkSyncPoint { segmentIndex : Z; sp_time : Q }.

Record TimingInfo := mkTimingInfo { ti_start : option Q }.

Record PerType (A : Type) := mkPerType { for_audio : A; for_video : A }.
Arguments mkPerType {A}.
Arguments for_audio {A}.
Arguments for_video {A}.

Definition getType {A} (p : PerType A) (type : string) : A :=
  if String.eqb type "audio" then for_audio p else for_video p.

Definition setType {A} (p : PerType A) (type : string) (v : A) : PerType A :=
  if String.eqb type "audio" then mkPerType v (for_video p) else mkPerType (for_audio p) v.

(** [throughput.rate] is [None] when it is not a finite number. *)
Record Throughput := mkThroughput { rate : option Q; count : Z }.

Record XhrOptions := mkXhrOptions { timeout : option Z }.

Inductive LoaderState := INIT | READY | WAITING | APPENDING | DISPOSED.

Definition LoaderState_eqb (a b : LoaderState) : bool :=
  match a, b with
  | INIT, INIT | READY, READY | WAITING, WAITING
  | APPENDING, APPENDING | DISPOSED, DISPOSED => true
  | _, _ => false
  end.

(** The closures waiting in the call, load and metadata queues. *)
Inductive Queued :=
| QueuedLoad (requestId : Z)
| QueuedSegmentRequestFinished (requestId : Z)
| QueuedId3 (requestId : Z)
| QueuedCaptions (requestId : Z).

(** Calls into collaborators and events triggered, in order. *)
Inductive Effect :=
| Trigger (event : string)
| ClearTimeout (timer : Z)
| SetTimeout (timer : Z) (delay : Z)
| AbortRequests (handle : Z)
| TransmuxerReset
| TransmuxerPostMessage (action : string)
| RemoveAudio (s e : Q)
| RemoveVideo (s e : Q)
| RemoveGopBuffer (s e mapping : Q)
| RemoveCuesFromTrack (s e : Q) (track : string)
| SaveExpiredSegmentInfo (oldPlaylist newPlaylist : Playlist)
| SetVideoTimestampOffset (offset : Q)
| SetAudioTimestampOffset (offset : Q)
| AppendBuffer (type : string) (bytes : list Byte.byte)
| SaveSegmentTimingInfo (requestId : Z) (shouldSaveTimelineMapping : bool)
| AddSegmentMetadataCue (s e : Q)
| ClearGopBuffer.

Record SegmentInfo := mkSegmentInfo {
  si_requestId : Z;
  si_uri : string;
  si_mediaIndex : Z;
  isSyncRequest : bool;
  startOfSegment : option Q;
  si_playlist : Playlist;
  timestampOffset : option Q;
  si_timeline : Z;
  si_duration : Q;
  si_segment : option Segment;
  byteLength : Z;
  audioAppendStart : option Q;
  audioInitDataAppended : bool;
  videoInitDataAppended : bool;
  segmentInfoInitDataApplied : bool;
  abortRequests : option Z;
  trackInfo : option Fetch.TrackInfo;
  si_endOfAllRequests : option Z;
  si_isFmp4 : bool;
  hasAppendedData_ : bool;
  changedTimestampOffset : bool;
  timingInfo : option TimingInfo
}.

Definition set_si_requestId (v : Z) (r : SegmentInfo) : SegmentInfo :=
  mkSegmentInfo v (si_uri r) (si_mediaIndex r) (isSyncRequest r) (startOfSegment r) (si_playlist r) (timestampOffset r) (si_timeline r) (si_duration r) (si_segment r) (byteLength r) (audioAppendStart r) (audioInitDataAppended r) (videoInitDataAppended r) (segmentInfoInitDataApplied r) (abortRequests r) (trackInfo r) (si_endOfAllRequests r) (si_isFmp4 r) (hasAppendedData_ r) (changedTimestampOffset r) (timingInfo r).
Definition set_si_uri (v : string) (r : SegmentInfo) : SegmentInfo :=
  mkSegmentInfo (si_requestId r) v (si_mediaIndex r) (isSyncRequest r) (startOfSegment r) (si_playlist r) (timestampOffset r) (si_timeline r) (si_duration r) (si_segment r) (byteLength r) (audioAppendStart r) (audioInitDataAppended r) (videoInitDataAppended r) (segmentInfoInitDataApplied r) (abortRequests r) (trackInfo r) (si_endOfAllRequests r) (si_isFmp4 r) (hasAppendedData_ r) (changedTimestampOffset r) (timingInfo r).
Definition set_si_mediaIndex (v : Z) (r : SegmentInfo) : SegmentInfo :=
  mkSegmentInfo (si_requestId r) (si_uri r) v (isSyncRequest r) (startOfSegment r) (si_playlist r) (timestampOffset r) (si_timeline r) (si_duration r) (si_segment r) (byteLength r) (audioAppendStart r) (audioInitDataAppended r) (videoInitDataAppended r) (segmentInfoInitDataApplied r) (abortRequests r) (trackInfo r) (si_endOfAllRequests r) (si_isFmp4 r) (hasAppendedData_ r) (changedTimestampOffset r) (timingInfo r).
Definition set_isSyncRequest (v : bool) (r : SegmentInfo) : SegmentInfo :=
  mkSegmentInfo (si_requestId r) (si_uri r) (si_mediaIndex r) v (startOfSegment r) (si_playlist r) (timestampOffset r) (si_timeline r) (si_duration r) (si_segment r) (byteLength r) (audioAppendStart r) (audioInitDataAppended r) (videoInitDataAppended r) (segmentInfoInitDataApplied r) (abortRequests r) (trackInfo r) (si_endOfAllRequests r) (si_isFmp4 r) (hasAppendedData_ r) (changedTimestampOffset r) (timingInfo r).
Definition set_startOfSegment (v : option Q) (r : SegmentInfo) : SegmentInfo :=
  mkSegmentInfo (si_requestId r) (si_uri r) (si_mediaIndex r) (isSyncRequest r) v (si_playlist r) (timestampOffset r) (si_timeline r) (si_duration r) (si_segment r) (byteLength r) (audioAppendStart r) (audioInitDataAppended r) (videoInitDataAppended r) (segmentInfoInitDataApplied r) (abortRequests r) (trackInfo r) (si_endOfAllRequests r) (si_isFmp4 r) (hasAppendedData_ r) (changedTimestampOffset r) (timingInfo r).
Definition set_si_playlist (v : Playlist) (r : SegmentInfo) : SegmentInfo :=
  mkSegmentInfo (si_requestId r) (si_uri r) (si_mediaIndex r) (isSyncRequest r) (startOfSegment r) v (timestampOffset r) (si_timeline r) (si_duration r) (si_segment r) (byteLength r) (audioAppendStart r) (audioInitDataAppended r) (videoInitDataAppended r) (segmentInfoInitDataApplied r) (abortRequests r) (trackInfo r) (si_endOfAllRequests r) (si_isFmp4 r) (hasAppendedData_ r) (changedTimestampOffset r) (timingInfo r).
Definition set_timestampOffset (v : option Q) (r : SegmentInfo) : SegmentInfo :=
  mkSegmentInfo (si_requestId r) (si_uri r) (si_mediaIndex r) (isSyncRequest r) (startOfSegment r) (si_playlist r) v (si_timeline r) (si_duration r) (si_segment r) (byteLength r) (audioAppendStart r) (audioInitDataAppended r) (videoInitDataAppended r) (segmentInfoInitDataApplied r) (abortRequests r) (trackInfo r) (si_endOfAllRequests r) (si_isFmp4 r) (hasAppendedData_ r) (changedTimestampOffset r) (timingInfo r).
Definition set_si_timeline (v : Z) (r : SegmentInfo) : SegmentInfo :=
  mkSegmentInfo (si_requestId r) (si_uri r) (si_mediaIndex r) (isSyncRequest r) (startOfSegment r) (si_playlist r) (timestampOffset r) v (si_duration r) (si_segment r) (byteLength r) (audioAppendStart r) (audioInitDataAppended r) (videoInitDataAppended r) (segmentInfoInitDataApplied r) (abortRequests r) (trackInfo r) (si_endOfAllRequests r) (si_isFmp4 r) (hasAppendedData_ r) (changedTimestampOffset r) (timingInfo r).
Definition set_si_duration (v : Q) (r : SegmentInfo) : SegmentInfo :=
  mkSegmentInfo (si_requestId r) (si_uri r) (si_mediaIndex r) (isSyncRequest r) (startOfSegment r) (si_playlist r) (timestampOffset r) (si_timeline r) v (si_segment r) (byteLength r) (audioAppendStart r) (audioInitDataAppended r) (videoInitDataAppended r) (segmentInfoInitDataApplied r) (abortRequests r) (trackInfo r) (si_endOfAllRequests r) (si_isFmp4 r) (hasAppendedData_ r) (changedTimestampOffset r) (timingInfo r).
Definition set_si_segment (v : option Segment) (r : SegmentInfo) : SegmentInfo :=
  mkSegmentInfo (si_requestId r) (si_uri r) (si_mediaIndex r) (isSyncRequest r) (startOfSegment r) (si_playlist r) (timestampOffset r) (si_timeline r) (si_duration r) v (byteLength r) (audioAppendStart r) (audioInitDataAppended r) (videoInitDataAppended r) (segmentInfoInitDataApplied r) (abortRequests r) (trackInfo r) (si_endOfAllRequests r) (si_isFmp4 r) (hasAppendedData_ r) (changedTimestampOffset r) (timingInfo r).
Definition set_byteLength (v : Z) (r : SegmentInfo) : SegmentInfo :=
  mkSegmentInfo (si_requestId r) (si_uri r) (si_mediaIndex r) (isSyncRequest r) (startOfSegment r) (si_playlist r) (timestampOffset r) (si_timeline r) (si_duration r) (si_segment r) v (audioAppendStart r) (audioInitDataAppended r) (videoInitDataAppended r) (segmentInfoInitDataApplied r) (abortRequests r) (trackInfo r) (si_endOfAllRequests r) (si_isFmp4 r) (hasAppendedData_ r) (changedTimestampOffset r) (timingInfo r).
Definition set_audioAppendStart (v : option Q) (r : SegmentInfo) : SegmentInfo :=
  mkSegmentInfo (si_requestId r) (si_uri r) (si_mediaIndex r) (isSyncRequest r) (startOfSegment r) (si_playlist r) (timestampOffset r) (si_timeline r) (si_duration r) (si_segment r) (byteLength r) v (audioInitDataAppended r) (videoInitDataAppended r) (segmentInfoInitDataApplied r) (abortRequests r) (trackInfo r) (si_endOfAllRequests r) (si_isFmp4 r) (hasAppendedData_ r) (changedTimestampOffset r) (timingInfo r).
Definition set_audioInitDataAppended (v : bool) (r : SegmentInfo) : SegmentInfo :=
  mkSegmentInfo (si_requestId r) (si_uri r) (si_mediaIndex r) (isSyncRequest r) (startOfSegment r) (si_playlist r) (timestampOffset r) (si_timeline r) (si_duration r) (si_segment r) (byteLength r) (audioAppendStart r) v (videoInitDataAppended r) (segmentInfoInitDataApplied r) (abortRequests r) (trackInfo r) (si_endOfAllRequests r) (si_isFmp4 r) (hasAppendedData_ r) (changedTimestampOffset r) (timingInfo r).
Definition set_videoInitDataAppended (v : bool) (r : SegmentInfo) : SegmentInfo :=
  mkSegmentInfo (si_requestId r) (si_uri r) (si_mediaIndex r) (isSyncRequest r) (startOfSegment r) (si_playlist r) (timestampOffset r) (si_timeline r) (si_duration r) (si_segment r) (byteLength r) (audioAppendStart r) (audioInitDataAppended r) v (segmentInfoInitDataApplied r) (abortRequests r) (trackInfo r) (si_endOfAllRequests r) (si_isFmp4 r) (hasAppendedData_ r) (changedTimestampOffset r) (timingInfo r).
Definition set_segmentInfoInitDataApplied (v : bool) (r : SegmentInfo) : SegmentInfo :=
  mkSegmentInfo (si_requestId r) (si_uri r) (si_mediaIndex r) (isSyncRequest r) (startOfSegment r) (si_playlist r) (timestampOffset r) (si_timeline r) (si_duration r) (si_segment r) (byteLength r) (audioAppendStart r) (audioInitDataAppended r) (videoInitDataAppended r) v (abortRequests r) (trackInfo r) (si_endOfAllRequests r) (si_isFmp4 r) (hasAppendedData_ r) (changedTimestampOffset r) (timingInfo r).
Definition set_abortRequests (v : option Z) (r : SegmentInfo) : SegmentInfo :=
  mkSegmentInfo (si_requestId r) (si_uri r) (si_mediaIndex r) (isSyncRequest r) (startOfSegment r) (si_playlist r) (timestampOffset r) (si_timeline r) (si_duration r) (si_segment r) (byteLength r) (audioAppendStart r) (audioInitDataAppended r) (videoInitDataAppended r) (segmentInfoInitDataApplied r) v (trackInfo r) (si_endOfAllRequests r) (si_isFmp4 r) (hasAppendedData_ r) (changedTimestampOffset r) (timingInfo r).
Definition set_trackInfo (v : option Fetch.TrackInfo) (r : SegmentInfo) : SegmentInfo :=
  mkSegmentInfo (si_requestId r) (si_uri r) (si_mediaIndex r) (isSyncRequest r) (startOfSegment r) (si_playlist r) (timestampOffset r) (si_timeline r) (si_duration r) (si_segment r) (byteLength r) (audioAppendStart r) (audioInitDataAppended r) (videoInitDataAppended r) (segmentInfoInitDataApplied r) (abortRequests r) v (si_endOfAllRequests r) (si_isFmp4 r) (hasAppendedData_ r) (changedTimestampOffset r) (timingInfo r).
Definition set_si_endOfAllRequests (v : option Z) (r : SegmentInfo) : SegmentInfo :=
  mkSegmentInfo (si_requestId r) (si_uri r) (si_mediaIndex r) (isSyncRequest r) (startOfSegment r) (si_playlist r) (timestampOffset r) (si_timeline r) (si_duration r) (si_segment r) (byteLength r) (audioAppendStart r) (audioInitDataAppended r) (videoInitDataAppended r) (segmentInfoInitDataApplied r) (abortRequests r) (trackInfo r) v (si_isFmp4 r) (hasAppendedData_ r) (changedTimestampOffset r) (timingInfo r).
Definition set_si_isFmp4 (v : bool) (r : SegmentInfo) : SegmentInfo :=
  mkSegmentInfo (si_requestId r) (si_uri r) (si_mediaIndex r) (isSyncRequest r) (startOfSegment r) (si_playlist r) (timestampOffset r) (si_timeline r) (si_duration r) (si_segment r) (byteLength r) (audioAppendStart r) (audioInitDataAppended r) (videoInitDataAppended r) (segmentInfoInitDataApplied r) (abortRequests r) (trackInfo r) (si_endOfAllRequests r) v (hasAppendedData_ r) (changedTimestampOffset r) (timingInfo r).
Definition set_hasAppendedData_ (v : bool) (r : SegmentInfo) : SegmentInfo :=
  mkSegmentInfo (si_requestId r) (si_uri r) (si_mediaIndex r) (isSyncRequest r) (startOfSegment r) (si_playlist r) (timestampOffset r) (si_timeline r) (si_duration r) (si_segment r) (byteLength r) (audioAppendStart r) (audioInitDataAppended r) (videoInitDataAppended r) (segmentInfoInitDataApplied r) (abortRequests r) (trackInfo r) (si_endOfAllRequests r) (si_isFmp4 r) v (changedTimestampOffset r) (timingInfo r).
Definition set_changedTimestampOffset (v : bool) (r : SegmentInfo) : SegmentInfo :=
  mkSegmentInfo (si_requestId r) (si_uri r) (si_mediaIndex r) (isSyncRequest r) (startOfSegment r) (si_playlist r) (timestampOffset r) (si_timeline r) (si_duration r) (si_segment r) (byteLength r) (audioAppendStart r) (audioInitDataAppended r) (videoInitDataAppended r) (segmentInfoInitDataApplied r) (abortRequests r) (trackInfo r) (si_endOfAllRequests r) (si_isFmp4 r) (hasAppendedData_ r) v (timingInfo r).
Definition set_timingInfo (v : option TimingInfo) (r : SegmentInfo) : SegmentInfo :=
  mkSegmentInfo (si_requestId r) (si_uri r) (si_mediaIndex r) (isSyncRequest r) (startOfSegment r) (si_playlist r) (timestampOffset r) (si_timeline r) (si_duration r) (si_segment r) (byteLength r) (audioAppendStart r) (audioInitDataAppended r) (videoInitDataAppended r) (segmentInfoInitDataApplied r) (abortRequests r) (trackInfo r) (si_endOfAllRequests r) (si_isFmp4 r) (hasAppendedData_ r) (changedTimestampOffset r) v.

Record SegmentLoader := mkLoader {
  state_ : LoaderState;
  loaderType_ : string;
  mediaIndex : option Z;
  playlist_ : option Playlist;
  pendingSegment_ : option SegmentInfo;
  xhrOptions_ : option XhrOptions;
  checkBufferTimeout_ : option Z;
  currentTimeline_ : Z;
  audioDisabled_ : bool;
  currentMediaInfo_ : option Fetch.TrackInfo;
  startingMediaInfo_ : option Fetch.TrackInfo;
  appendInitSegment_ : PerType bool;
  playlistOfLastInitSegment_ : PerType (option Z);
  activeInitSegmentId_ : option string;
  initSegments_ : gmap string Fetch.InitMap;
  callQueue_ : list Queued;
  loadQueue_ : list Queued;
  metadataQueue_id3 : list Queued;
  metadataQueue_caption : list Queued;
  throughput : Throughput;
  fetchAtBuffer_ : bool;
  syncPoint_ : option SyncPoint;
  isPendingTimestampOffset_ : bool;
  ended_ : bool;
  timeMapping_ : Q;
  timelineChangeController_ : TimelineChangeController;
  handlePartialData_ : bool;
  useFetch : bool;
  inbandTextTracks_ : list string;
  hasSegmentMetadataTrack : bool;
  shouldSaveSegmentTimingInfo_ : bool;
  nextTimerId : Z;
  effects : list Effect
}.

Definition set_state_ (v : LoaderState) (r : SegmentLoader) : SegmentLoader :=
  mkLoader v (loaderType_ r) (mediaIndex r) (playlist_ r) (pendingSegment_ r) (xhrOptions_ r) (checkBufferTimeout_ r) (currentTimeline_ r) (audioDisabled_ r) (currentMediaInfo_ r) (startingMediaInfo_ r) (appendInitSegment_ r) (playlistOfLastInitSegment_ r) (activeInitSegmentId_ r) (initSegments_ r) (callQueue_ r) (loadQueue_ r) (metadataQueue_id3 r) (metadataQueue_caption r) (throughput r) (fetchAtBuffer_ r) (syncPoint_ r) (isPendingTimestampOffset_ r) (ended_ r) (timeMapping_ r) (timelineChangeController_ r) (handlePartialData_ r) (useFetch r) (inbandTextTracks_ r) (hasSegmentMetadataTrack r) (shouldSaveSegmentTimingInfo_ r) (nextTimerId r) (effects r).
Definition set_loaderType_ (v : string) (r : SegmentLoader) : SegmentLoader :=
  mkLoader (state_ r) v (mediaIndex r) (playlist_ r) (pendingSegment_ r) (xhrOptions_ r) (checkBufferTimeout_ r) (currentTimeline_ r) (audioDisabled_ r) (currentMediaInfo_ r) (startingMediaInfo_ r) (appendInitSegment_ r) (playlistOfLastInitSegment_ r) (activeInitSegmentId_ r) (initSegments_ r) (callQueue_ r) (loadQueue_ r) (metadataQueue_id3 r) (metadataQueue_caption r) (throughput r) (fetchAtBuffer_ r) (syncPoint_ r) (isPendingTimestampOffset_ r) (ended_ r) (timeMapping_ r) (timelineChangeController_ r) (handlePartialData_ r) (useFetch r) (inbandTextTracks_ r) (hasSegmentMetadataTrack r) (shouldSaveSegmentTimingInfo_ r) (nextTimerId r) (effects r).
Definition set_mediaIndex (v : option Z) (r : SegmentLoader) : SegmentLoader :=
  mkLoader (state_ r) (loaderType_ r) v (playlist_ r) (pendingSegment_ r) (xhrOptions_ r) (checkBufferTimeout_ r) (currentTimeline_ r) (audioDisabled_ r) (currentMediaInfo_ r) (startingMediaInfo_ r) (appendInitSegment_ r) (playlistOfLastInitSegment_ r) (activeInitSegmentId_ r) (initSegments_ r) (callQueue_ r) (loadQueue_ r) (metadataQueue_id3 r) (metadataQueue_caption r) (throughput r) (fetchAtBuffer_ r) (syncPoint_ r) (isPendingTimestampOffset_ r) (ended_ r) (timeMapping_ r) (timelineChangeController_ r) (handlePartialData_ r) (useFetch r) (inbandTextTracks_ r) (hasSegmentMetadataTrack r) (shouldSaveSegmentTimingInfo_ r) (nextTimerId r) (effects r).
Definition set_playlist_ (v : option Playlist) (r : SegmentLoader) : SegmentLoader :=
  mkLoader (state_ r) (loaderType_ r) (mediaIndex r) v (pendingSegment_ r) (xhrOptions_ r) (checkBufferTimeout_ r) (currentTimeline_ r) (audioDisabled_ r) (currentMediaInfo_ r) (startingMediaInfo_ r) (appendInitSegment_ r) (playlistOfLastInitSegment_ r) (activeInitSegmentId_ r) (initSegments_ r) (callQueue_ r) (loadQueue_ r) (metadataQueue_id3 r) (metadataQueue_caption r) (throughput r) (fetchAtBuffer_ r) (syncPoint_ r) (isPendingTimestampOffset_ r) (ended_ r) (timeMapping_ r) (timelineChangeController_ r) (handlePartialData_ r) (useFetch r) (inbandTextTracks_ r) (hasSegmentMetadataTrack r) (shouldSaveSegmentTimingInfo_ r) (nextTimerId r) (effects r).
Definition set_pendingSegment_ (v : option SegmentInfo) (r : SegmentLoader) : SegmentLoader :=
  mkLoader (state_ r) (loaderType_ r) (mediaIndex r) (playlist_ r) v (xhrOptions_ r) (checkBufferTimeout_ r) (currentTimeline_ r) (audioDisabled_ r) (currentMediaInfo_ r) (startingMediaInfo_ r) (appendInitSegment_ r) (playlistOfLastInitSegment_ r) (activeInitSegmentId_ r) (initSegments_ r) (callQueue_ r) (loadQueue_ r) (metadataQueue_id3 r) (metadataQueue_caption r) (throughput r) (fetchAtBuffer_ r) (syncPoint_ r) (isPendingTimestampOffset_ r) (ended_ r) (timeMapping_ r) (timelineChangeController_ r) (handlePartialData_ r) (useFetch r) (inbandTextTracks_ r) (hasSegmentMetadataTrack r) (shouldSaveSegmentTimingInfo_ r) (nextTimerId r) (effects r).
Definition set_xhrOptions_ (v : option XhrOptions) (r : SegmentLoader) : SegmentLoader :=
  mkLoader (state_ r) (loaderType_ r) (mediaIndex r) (playlist_ r) (pendingSegment_ r) v (checkBufferTimeout_ r) (currentTimeline_ r) (audioDisabled_ r) (currentMediaInfo_ r) (startingMediaInfo_ r) (appendInitSegment_ r) (playlistOfLastInitSegment_ r) (activeInitSegmentId_ r) (initSegments_ r) (callQueue_ r) (loadQueue_ r) (metadataQueue_id3 r) (metadataQueue_caption r) (throughput r) (fetchAtBuffer_ r) (syncPoint_ r) (isPendingTimestampOffset_ r) (ended_ r) (timeMapping_ r) (timelineChangeController_ r) (handlePartialData_ r) (useFetch r) (inbandTextTracks_ r) (hasSegmentMetadataTrack r) (shouldSaveSegmentTimingInfo_ r) (nextTimerId r) (effects r).
Definition set_checkBufferTimeout_ (v : option Z) (r : SegmentLoader) : SegmentLoader :=
  mkLoader (state_ r) (loaderType_ r) (mediaIndex r) (playlist_ r) (pendingSegment_ r) (xhrOptions_ r) v (currentTimeline_ r) (audioDisabled_ r) (currentMediaInfo_ r) (startingMediaInfo_ r) (appendInitSegment_ r) (playlistOfLastInitSegment_ r) (activeInitSegmentId_ r) (initSegments_ r) (callQueue_ r) (loadQueue_ r) (metadataQueue_id3 r) (metadataQueue_caption r) (throughput r) (fetchAtBuffer_ r) (syncPoint_ r) (isPendingTimestampOffset_ r) (ended_ r) (timeMapping_ r) (timelineChangeController_ r) (handlePartialData_ r) (useFetch r) (inbandTextTracks_ r) (hasSegmentMetadataTrack r) (shouldSaveSegmentTimingInfo_ r) (nextTimerId r) (effects r).
Definition set_currentTimeline_ (v : Z) (r : SegmentLoader) : SegmentLoader :=
  mkLoader (state_ r) (loaderType_ r) (mediaIndex r) (playlist_ r) (pendingSegment_ r) (xhrOptions_ r) (checkBufferTimeout_ r) v (audioDisabled_ r) (currentMediaInfo_ r) (startingMediaInfo_ r) (appendInitSegment_ r) (playlistOfLastInitSegment_ r) (activeInitSegmentId_ r) (initSegments_ r) (callQueue_ r) (loadQueue_ r) (metadataQueue_id3 r) (metadataQueue_caption r) (throughput r) (fetchAtBuffer_ r) (syncPoint_ r) (isPendingTimestampOffset_ r) (ended_ r) (timeMapping_ r) (timelineChangeController_ r) (handlePartialData_ r) (useFetch r) (inbandTextTracks_ r) (hasSegmentMetadataTrack r) (shouldSaveSegmentTimingInfo_ r) (nextTimerId r) (effects r).
Definition set_audioDisabled_ (v : bool) (r : SegmentLoader) : SegmentLoader :=
  mkLoader (state_ r) (loaderType_ r) (mediaIndex r) (playlist_ r) (pendingSegment_ r) (xhrOptions_ r) (checkBufferTimeout_ r) (currentTimeline_ r) v (currentMediaInfo_ r) (startingMediaInfo_ r) (appendInitSegment_ r) (playlistOfLastInitSegment_ r) (activeInitSegmentId_ r) (initSegments_ r) (callQueue_ r) (loadQueue_ r) (metadataQueue_id3 r) (metadataQueue_caption r) (throughput r) (fetchAtBuffer_ r) (syncPoint_ r) (isPendingTimestampOffset_ r) (ended_ r) (timeMapping_ r) (timelineChangeController_ r) (handlePartialData_ r) (useFetch r) (inbandTextTracks_ r) (hasSegmentMetadataTrack r) (shouldSaveSegmentTimingInfo_ r) (nextTimerId r) (effects r).
Definition set_currentMediaInfo_ (v : option Fetch.TrackInfo) (r : SegmentLoader) : SegmentLoader :=
  mkLoader (state_ r) (loaderType_ r) (mediaIndex r) (playlist_ r) (pendingSegment_ r) (xhrOptions_ r) (checkBufferTimeout_ r) (currentTimeline_ r) (audioDisabled_ r) v (startingMediaInfo_ r) (appendInitSegment_ r) (playlistOfLastInitSegment_ r) (activeInitSegmentId_ r) (initSegments_ r) (callQueue_ r) (loadQueue_ r) (metadataQueue_id3 r) (metadataQueue_caption r) (throughput r) (fetchAtBuffer_ r) (syncPoint_ r) (isPendingTimestampOffset_ r) (ended_ r) (timeMapping_ r) (timelineChangeController_ r) (handlePartialData_ r) (useFetch r) (inbandTextTracks_ r) (hasSegmentMetadataTrack r) (shouldSaveSegmentTimingInfo_ r) (nextTimerId r) (effects r).
Definition set_startingMediaInfo_ (v : option Fetch.TrackInfo) (r : SegmentLoader) : SegmentLoader :=
  mkLoader (state_ r) (loaderType_ r) (mediaIndex r) (playlist_ r) (pendingSegment_ r) (xhrOptions_ r) (checkBufferTimeout_ r) (currentTimeline_ r) (audioDisabled_ r) (currentMediaInfo_ r) v (appendInitSegment_ r) (playlistOfLastInitSegment_ r) (activeInitSegmentId_ r) (initSegments_ r) (callQueue_ r) (loadQueue_ r) (metadataQueue_id3 r) (metadataQueue_caption r) (throughput r) (fetchAtBuffer_ r) (syncPoint_ r) (isPendingTimestampOffset_ r) (ended_ r) (timeMapping_ r) (timelineChangeController_ r) (handlePartialData_ r) (useFetch r) (inbandTextTracks_ r) (hasSegmentMetadataTrack r) (shouldSaveSegmentTimingInfo_ r) (nextTimerId r) (effects r).
Definition set_appendInitSegment_ (v : PerType bool) (r : SegmentLoader) : SegmentLoader :=
  mkLoader (state_ r) (loaderType_ r) (mediaIndex r) (playlist_ r) (pendingSegment_ r) (xhrOptions_ r) (checkBufferTimeout_ r) (currentTimeline_ r) (audioDisabled_ r) (currentMediaInfo_ r) (startingMediaInfo_ r) v (playlistOfLastInitSegment_ r) (activeInitSegmentId_ r) (initSegments_ r) (callQueue_ r) (loadQueue_ r) (metadataQueue_id3 r) (metadataQueue_caption r) (throughput r) (fetchAtBuffer_ r) (syncPoint_ r) (isPendingTimestampOffset_ r) (ended_ r) (timeMapping_ r) (timelineChangeController_ r) (handlePartialData_ r) (useFetch r) (inbandTextTracks_ r) (hasSegmentMetadataTrack r) (shouldSaveSegmentTimingInfo_ r) (nextTimerId r) (effects r).
Definition set_playlistOfLastInitSegment_ (v : PerType (option Z)) (r : SegmentLoader) : SegmentLoader :=
  mkLoader (state_ r) (loaderType_ r) (mediaIndex r) (playlist_ r) (pendingSegment_ r) (xhrOptions_ r) (checkBufferTimeout_ r) (currentTimeline_ r) (audioDisabled_ r) (currentMediaInfo_ r) (startingMediaInfo_ r) (appendInitSegment_ r) v (activeInitSegmentId_ r) (initSegments_ r) (callQueue_ r) (loadQueue_ r) (metadataQueue_id3 r) (metadataQueue_caption r) (throughput r) (fetchAtBuffer_ r) (syncPoint_ r) (isPendingTimestampOffset_ r) (ended_ r) (timeMapping_ r) (timelineChangeController_ r) (handlePartialData_ r) (useFetch r) (inbandTextTracks_ r) (hasSegmentMetadataTrack r) (shouldSaveSegmentTimingInfo_ r) (nextTimerId r) (effects r).
Definition set_activeInitSegmentId_ (v : option string) (r : SegmentLoader) : SegmentLoader :=
  mkLoader (state_ r) (loaderType_ r) (mediaIndex r) (playlist_ r) (pendingSegment_ r) (xhrOptions_ r) (checkBufferTimeout_ r) (currentTimeline_ r) (audioDisabled_ r) (currentMediaInfo_ r) (startingMediaInfo_ r) (appendInitSegment_ r) (playlistOfLastInitSegment_ r) v (initSegments_ r) (callQueue_ r) (loadQueue_ r) (metadataQueue_id3 r) (metadataQueue_caption r) (throughput r) (fetchAtBuffer_ r) (syncPoint_ r) (isPendingTimestampOffset_ r) (ended_ r) (timeMapping_ r) (timelineChangeController_ r) (handlePartialData_ r) (useFetch r) (inbandTextTracks_ r) (hasSegmentMetadataTrack r) (shouldSaveSegmentTimingInfo_ r) (nextTimerId r) (effects r).
Definition set_initSegments_ (v : gmap string Fetch.InitMap) (r : SegmentLoader) : SegmentLoader :=
  mkLoader (state_ r) (loaderType_ r) (mediaIndex r) (playlist_ r) (pendingSegment_ r) (xhrOptions_ r) (checkBufferTimeout_ r) (currentTimeline_ r) (audioDisabled_ r) (currentMediaInfo_ r) (startingMediaInfo_ r) (appendInitSegment_ r) (playlistOfLastInitSegment_ r) (activeInitSegmentId_ r) v (callQueue_ r) (loadQueue_ r) (metadataQueue_id3 r) (metadataQueue_caption r) (throughput r) (fetchAtBuffer_ r) (syncPoint_ r) (isPendingTimestampOffset_ r) (ended_ r) (timeMapping_ r) (timelineChangeController_ r) (handlePartialData_ r) (useFetch r) (inbandTextTracks_ r) (hasSegmentMetadataTrack r) (shouldSaveSegmentTimingInfo_ r) (nextTimerId r) (effects r).
Definition set_callQueue_ (v : list Queued) (r : SegmentLoader) : SegmentLoader :=
  mkLoader (state_ r) (loaderType_ r) (mediaIndex r) (playlist_ r) (pendingSegment_ r) (xhrOptions_ r) (checkBufferTimeout_ r) (currentTimeline_ r) (audioDisabled_ r) (currentMediaInfo_ r) (startingMediaInfo_ r) (appendInitSegment_ r) (playlistOfLastInitSegment_ r) (activeInitSegmentId_ r) (initSegments_ r) v (loadQueue_ r) (metadataQueue_id3 r) (metadataQueue_caption r) (throughput r) (fetchAtBuffer_ r) (syncPoint_ r) (isPendingTimestampOffset_ r) (ended_ r) (timeMapping_ r) (timelineChangeController_ r) (handlePartialData_ r) (useFetch r) (inbandTextTracks_ r) (hasSegmentMetadataTrack r) (shouldSaveSegmentTimingInfo_ r) (nextTimerId r) (effects r).
Definition set_loadQueue_ (v : list Queued) (r : SegmentLoader) : SegmentLoader :=
  mkLoader (state_ r) (loaderType_ r) (mediaIndex r) (playlist_ r) (pendingSegment_ r) (xhrOptions_ r) (checkBufferTimeout_ r) (currentTimeline_ r) (audioDisabled_ r) (currentMediaInfo_ r) (startingMediaInfo_ r) (appendInitSegment_ r) (playlistOfLastInitSegment_ r) (activeInitSegmentId_ r) (initSegments_ r) (callQueue_ r) v (metadataQueue_id3 r) (metadataQueue_caption r) (throughput r) (fetchAtBuffer_ r) (syncPoint_ r) (isPendingTimestampOffset_ r) (ended_ r) (timeMapping_ r) (timelineChangeController_ r) (handlePartialData_ r) (useFetch r) (inbandTextTracks_ r) (hasSegmentMetadataTrack r) (shouldSaveSegmentTimingInfo_ r) (nextTimerId r) (effects r).
Definition set_metadataQueue_id3 (v : list Queued) (r : SegmentLoader) : SegmentLoader :=
  mkLoader (state_ r) (loaderType_ r) (mediaIndex r) (playlist_ r) (pendingSegment_ r) (xhrOptions_ r) (checkBufferTimeout_ r) (currentTimeline_ r) (audioDisabled_ r) (currentMediaInfo_ r) (startingMediaInfo_ r) (appendInitSegment_ r) (playlistOfLastInitSegment_ r) (activeInitSegmentId_ r) (initSegments_ r) (callQueue_ r) (loadQueue_ r) v (metadataQueue_caption r) (throughput r) (fetchAtBuffer_ r) (syncPoint_ r) (isPendingTimestampOffset_ r) (ended_ r) (timeMapping_ r) (timelineChangeController_ r) (handlePartialData_ r) (useFetch r) (inbandTextTracks_ r) (hasSegmentMetadataTrack r) (shouldSaveSegmentTimingInfo_ r) (nextTimerId r) (effects r).
Definition set_metadataQueue_caption (v : list Queued) (r : SegmentLoader) : SegmentLoader :=
  mkLoader (state_ r) (loaderType_ r) (mediaIndex r) (playlist_ r) (pendingSegment_ r) (xhrOptions_ r) (checkBufferTimeout_ r) (currentTimeline_ r) (audioDisabled_ r) (currentMediaInfo_ r) (startingMediaInfo_ r) (appendInitSegment_ r) (playlistOfLastInitSegment_ r) (activeInitSegmentId_ r) (initSegments_ r) (callQueue_ r) (loadQueue_ r) (metadataQueue_id3 r) v (throughput r) (fetchAtBuffer_ r) (syncPoint_ r) (isPendingTimestampOffset_ r) (ended_ r) (timeMapping_ r) (timelineChangeController_ r) (handlePartialData_ r) (useFetch r) (inbandTextTracks_ r) (hasSegmentMetadataTrack r) (shouldSaveSegmentTimingInfo_ r) (nextTimerId r) (effects r).
Definition set_throughput (v : Throughput) (r : SegmentLoader) : SegmentLoader :=
  mkLoader (state_ r) (loaderType_ r) (mediaIndex r) (playlist_ r) (pendingSegment_ r) (xhrOptions_ r) (checkBufferTimeout_ r) (currentTimeline_ r) (audioDisabled_ r) (currentMediaInfo_ r) (startingMediaInfo_ r) (appendInitSegment_ r) (playlistOfLastInitSegment_ r) (activeInitSegmentId_ r) (initSegments_ r) (callQueue_ r) (loadQueue_ r) (metadataQueue_id3 r) (metadataQueue_caption r) v (fetchAtBuffer_ r) (syncPoint_ r) (isPendingTimestampOffset_ r) (ended_ r) (timeMapping_ r) (timelineChangeController_ r) (handlePartialData_ r) (useFetch r) (inbandTextTracks_ r) (hasSegmentMetadataTrack r) (shouldSaveSegmentTimingInfo_ r) (nextTimerId r) (effects r).
Definition set_fetchAtBuffer_ (v : bool) (r : SegmentLoader) : SegmentLoader :=
  mkLoader (state_ r) (loaderType_ r) (mediaIndex r) (playlist_ r) (pendingSegment_ r) (xhrOptions_ r) (checkBufferTimeout_ r) (currentTimeline_ r) (audioDisabled_ r) (currentMediaInfo_ r) (startingMediaInfo_ r) (appendInitSegment_ r) (playlistOfLastInitSegment_ r) (activeInitSegmentId_ r) (initSegments_ r) (callQueue_ r) (loadQueue_ r) (metadataQueue_id3 r) (metadataQueue_caption r) (throughput r) v (syncPoint_ r) (isPendingTimestampOffset_ r) (ended_ r) (timeMapping_ r) (timelineChangeController_ r) (handlePartialData_ r) (useFetch r) (inbandTextTracks_ r) (hasSegmentMetadataTrack r) (shouldSaveSegmentTimingInfo_ r) (nextTimerId r) (effects r).
Definition set_syncPoint_ (v : option SyncPoint) (r : SegmentLoader) : SegmentLoader :=
  mkLoader (state_ r) (loaderType_ r) (mediaIndex r) (playlist_ r) (pendingSegment_ r) (xhrOptions_ r) (checkBufferTimeout_ r) (currentTimeline_ r) (audioDisabled_ r) (currentMediaInfo_ r) (startingMediaInfo_ r) (appendInitSegment_ r) (playlistOfLastInitSegment_ r) (activeInitSegmentId_ r) (initSegments_ r) (callQueue_ r) (loadQueue_ r) (metadataQueue_id3 r) (metadataQueue_caption r) (throughput r) (fetchAtBuffer_ r) v (isPendingTimestampOffset_ r) (ended_ r) (timeMapping_ r) (timelineChangeController_ r) (handlePartialData_ r) (useFetch r) (inbandTextTracks_ r) (hasSegmentMetadataTrack r) (shouldSaveSegmentTimingInfo_ r) (nextTimerId r) (effects r).
Definition set_isPendingTimestampOffset_ (v : bool) (r : SegmentLoader) : SegmentLoader :=
  mkLoader (state_ r) (loaderType_ r) (mediaIndex r) (playlist_ r) (pendingSegment_ r) (xhrOptions_ r) (checkBufferTimeout_ r) (currentTimeline_ r) (audioDisabled_ r) (currentMediaInfo_ r) (startingMediaInfo_ r) (appendInitSegment_ r) (playlistOfLastInitSegment_ r) (activeInitSegmentId_ r) (initSegments_ r) (callQueue_ r) (loadQueue_ r) (metadataQueue_id3 r) (metadataQueue_caption r) (throughput r) (fetchAtBuffer_ r) (syncPoint_ r) v (ended_ r) (timeMapping_ r) (timelineChangeController_ r) (handlePartialData_ r) (useFetch r) (inbandTextTracks_ r) (hasSegmentMetadataTrack r) (shouldSaveSegmentTimingInfo_ r) (nextTimerId r) (effects r).
Definition set_ended_ (v : bool) (r : SegmentLoader) : SegmentLoader :=
  mkLoader (state_ r) (loaderType_ r) (mediaIndex r) (playlist_ r) (pendingSegment_ r) (xhrOptions_ r) (checkBufferTimeout_ r) (currentTimeline_ r) (audioDisabled_ r) (currentMediaInfo_ r) (startingMediaInfo_ r) (appendInitSegment_ r) (playlistOfLastInitSegment_ r) (activeInitSegmentId_ r) (initSegments_ r) (callQueue_ r) (loadQueue_ r) (metadataQueue_id3 r) (metadataQueue_caption r) (throughput r) (fetchAtBuffer_ r) (syncPoint_ r) (isPendingTimestampOffset_ r) v (timeMapping_ r) (timelineChangeController_ r) (handlePartialData_ r) (useFetch r) (inbandTextTracks_ r) (hasSegmentMetadataTrack r) (shouldSaveSegmentTimingInfo_ r) (nextTimerId r) (effects r).
Definition set_timeMapping_ (v : Q) (r : SegmentLoader) : SegmentLoader :=
  mkLoader (state_ r) (loaderType_ r) (mediaIndex r) (playlist_ r) (pendingSegment_ r) (xhrOptions_ r) (checkBufferTimeout_ r) (currentTimeline_ r) (audioDisabled_ r) (currentMediaInfo_ r) (startingMediaInfo_ r) (appendInitSegment_ r) (playlistOfLastInitSegment_ r) (activeInitSegmentId_ r) (initSegments_ r) (callQueue_ r) (loadQueue_ r) (metadataQueue_id3 r) (metadataQueue_caption r) (throughput r) (fetchAtBuffer_ r) (syncPoint_ r) (isPendingTimestampOffset_ r) (ended_ r) v (timelineChangeController_ r) (handlePartialData_ r) (useFetch r) (inbandTextTracks_ r) (hasSegmentMetadataTrack r) (shouldSaveSegmentTimingInfo_ r) (nextTimerId r) (effects r).
Definition set_timelineChangeController_ (v : TimelineChangeController) (r : SegmentLoader) : SegmentLoader :=
  mkLoader (state_ r) (loaderType_ r) (mediaIndex r) (playlist_ r) (pendingSegment_ r) (xhrOptions_ r) (checkBufferTimeout_ r) (currentTimeline_ r) (audioDisabled_ r) (currentMediaInfo_ r) (startingMediaInfo_ r) (appendInitSegment_ r) (playlistOfLastInitSegment_ r) (activeInitSegmentId_ r) (initSegments_ r) (callQueue_ r) (loadQueue_ r) (metadataQueue_id3 r) (metadataQueue_caption r) (throughput r) (fetchAtBuffer_ r) (syncPoint_ r) (isPendingTimestampOffset_ r) (ended_ r) (timeMapping_ r) v (handlePartialData_ r) (useFetch r) (inbandTextTracks_ r) (hasSegmentMetadataTrack r) (shouldSaveSegmentTimingInfo_ r) (nextTimerId r) (effects r).
Definition set_handlePartialData_ (v : bool) (r : SegmentLoader) : SegmentLoader :=
  mkLoader (state_ r) (loaderType_ r) (mediaIndex r) (playlist_ r) (pendingSegment_ r) (xhrOptions_ r) (checkBufferTimeout_ r) (currentTimeline_ r) (audioDisabled_ r) (currentMediaInfo_ r) (startingMediaInfo_ r) (appendInitSegment_ r) (playlistOfLastInitSegment_ r) (activeInitSegmentId_ r) (initSegments_ r) (callQueue_ r) (loadQueue_ r) (metadataQueue_id3 r) (metadataQueue_caption r) (throughput r) (fetchAtBuffer_ r) (syncPoint_ r) (isPendingTimestampOffset_ r) (ended_ r) (timeMapping_ r) (timelineChangeController_ r) v (useFetch r) (inbandTextTracks_ r) (hasSegmentMetadataTrack r) (shouldSaveSegmentTimingInfo_ r) (nextTimerId r) (effects r).
Definition set_useFetch (v : bool) (r : SegmentLoader) : SegmentLoader :=
  mkLoader (state_ r) (loaderType_ r) (mediaIndex r) (playlist_ r) (pendingSegment_ r) (xhrOptions_ r) (checkBufferTimeout_ r) (currentTimeline_ r) (audioDisabled_ r) (currentMediaInfo_ r) (startingMediaInfo_ r) (appendInitSegment_ r) (playlistOfLastInitSegment_ r) (activeInitSegmentId_ r) (initSegments_ r) (callQueue_ r) (loadQueue_ r) (metadataQueue_id3 r) (metadataQueue_caption r) (throughput r) (fetchAtBuffer_ r) (syncPoint_ r) (isPendingTimestampOffset_ r) (ended_ r) (timeMapping_ r) (timelineChangeController_ r) (handlePartialData_ r) v (inbandTextTracks_ r) (hasSegmentMetadataTrack r) (shouldSaveSegmentTimingInfo_ r) (nextTimerId r) (effects r).
Definition set_inbandTextTracks_ (v : list string) (r : SegmentLoader) : SegmentLoader :=
  mkLoader (state_ r) (loaderType_ r) (mediaIndex r) (playlist_ r) (pendingSegment_ r) (xhrOptions_ r) (checkBufferTimeout_ r) (currentTimeline_ r) (audioDisabled_ r) (currentMediaInfo_ r) (startingMediaInfo_ r) (appendInitSegment_ r) (playlistOfLastInitSegment_ r) (activeInitSegmentId_ r) (initSegments_ r) (callQueue_ r) (loadQueue_ r) (metadataQueue_id3 r) (metadataQueue_caption r) (throughput r) (fetchAtBuffer_ r) (syncPoint_ r) (isPendingTimestampOffset_ r) (ended_ r) (timeMapping_ r) (timelineChangeController_ r) (handlePartialData_ r) (useFetch r) v (hasSegmentMetadataTrack r) (shouldSaveSegmentTimingInfo_ r) (nextTimerId r) (effects r).
Definition set_hasSegmentMetadataTrack (v : bool) (r : SegmentLoader) : SegmentLoader :=
  mkLoader (state_ r) (loaderType_ r) (mediaIndex r) (playlist_ r) (pendingSegment_ r) (xhrOptions_ r) (checkBufferTimeout_ r) (currentTimeline_ r) (audioDisabled_ r) (currentMediaInfo_ r) (startingMediaInfo_ r) (appendInitSegment_ r) (playlistOfLastInitSegment_ r) (activeInitSegmentId_ r) (initSegments_ r) (callQueue_ r) (loadQueue_ r) (metadataQueue_id3 r) (metadataQueue_caption r) (throughput r) (fetchAtBuffer_ r) (syncPoint_ r) (isPendingTimestampOffset_ r) (ended_ r) (timeMapping_ r) (timelineChangeController_ r) (handlePartialData_ r) (useFetch r) (inbandTextTracks_ r) v (shouldSaveSegmentTimingInfo_ r) (nextTimerId r) (effects r).
Definition set_shouldSaveSegmentTimingInfo_ (v : bool) (r : SegmentLoader) : SegmentLoader :=
  mkLoader (state_ r) (loaderType_ r) (mediaIndex r) (playlist_ r) (pendingSegment_ r) (xhrOptions_ r) (checkBufferTimeout_ r) (currentTimeline_ r) (audioDisabled_ r) (currentMediaInfo_ r) (startingMediaInfo_ r) (appendInitSegment_ r) (playlistOfLastInitSegment_ r) (activeInitSegmentId_ r) (initSegments_ r) (callQueue_ r) (loadQueue_ r) (metadataQueue_id3 r) (metadataQueue_caption r) (throughput r) (fetchAtBuffer_ r) (syncPoint_ r) (isPendingTimestampOffset_ r) (ended_ r) (timeMapping_ r) (timelineChangeController_ r) (handlePartialData_ r) (useFetch r) (inbandTextTracks_ r) (hasSegmentMetadataTrack r) v (nextTimerId r) (effects r).
Definition set_nextTimerId (v : Z) (r : SegmentLoader) : SegmentLoader :=
  mkLoader (state_ r) (loaderType_ r) (mediaIndex r) (playlist_ r) (pendingSegment_ r) (xhrOptions_ r) (checkBufferTimeout_ r) (currentTimeline_ r) (audioDisabled_ r) (currentMediaInfo_ r) (startingMediaInfo_ r) (appendInitSegment_ r) (playlistOfLastInitSegment_ r) (activeInitSegmentId_ r) (initSegments_ r) (callQueue_ r) (loadQueue_ r) (metadataQueue_id3 r) (metadataQueue_caption r) (throughput r) (fetchAtBuffer_ r) (syncPoint_ r) (isPendingTimestampOffset_ r) (ended_ r) (timeMapping_ r) (timelineChangeController_ r) (handlePartialData_ r) (useFetch r) (inbandTextTracks_ r) (hasSegmentMetadataTrack r) (shouldSaveSegmentTimingInfo_ r) v (effects r).
Definition set_effects (v : list Effect) (r : SegmentLoader) : SegmentLoader :=
  mkLoader (state_ r) (loaderType_ r) (mediaIndex r) (playlist_ r) (pendingSegment_ r) (xhrOptions_ r) (checkBufferTimeout_ r) (currentTimeline_ r) (audioDisabled_ r) (currentMediaInfo_ r) (startingMediaInfo_ r) (appendInitSegment_ r) (playlistOfLastInitSegment_ r) (activeInitSegmentId_ r) (initSegments_ r) (callQueue_ r) (loadQueue_ r) (metadataQueue_id3 r) (metadataQueue_caption r) (throughput r) (fetchAtBuffer_ r) (syncPoint_ r) (isPendingTimestampOffset_ r) (ended_ r) (timeMapping_ r) (timelineChangeController_ r) (handlePartialData_ r) (useFetch r) (inbandTextTracks_ r) (hasSegmentMetadataTrack r) (shouldSaveSegmentTimingInfo_ r) (nextTimerId r) v.

(** What the loader reads from the player, the media source and the
    source updater when a method runs. *)
Record Env := mkEnv {
  currentTime : Q;
  seekable : TimeRanges;
  duration_ : Q;
  hasPlayed : bool;
  seeking : bool;
  goalBufferLength : Q;
  readyState : string;
  su_ready : bool;
  su_updating : bool;
  audioBuffered : TimeRanges;
  videoBuffered : TimeRanges;
  audioTimestampOffset : option Q;
  videoTimestampOffset : option Q;
  random : Z;
  now : Z
}.

Record MediaInfoForTime := mkMediaInfoForTime { mi_mediaIndex : Z; mi_startTime : Q }.

(** Helpers of other files and the configuration constant. *)
Class Deps := {
  (** [Config.BACK_BUFFER_LENGTH] *)
  BACK_BUFFER_LENGTH : Q;
  (** [Playlist.getMediaInfoForTime(playlist, time, segmentIndex, startTime)] *)
  getMediaInfoForTime : Playlist -> Q -> Z -> Q -> MediaInfoForTime;
  (** [initSegmentId(map)] *)
  initSegmentId : Fetch.InitMap -> string
}.

Definition log (e : Effect) (l : SegmentLoader) : SegmentLoader :=
  set_effects (effects l ++ [e]) l.

(** ** Pure helpers at the top of the file *)

Section WithDeps.
Context `{Deps}.

(** [Math.max] and [Math.min] on finite numbers. *)
Definition safeBackBufferTrimTime (seekable : TimeRanges) (currentTime targetDuration : Q)
    : Q :=
  let trimTime := currentTime - BACK_BUFFER_LENGTH in
  let trimTime :=
    if negb (Z.of_nat (length seekable) =? 0)%Z
    then Qmax trimTime (start0 seekable) else trimTime in
  let maxTrimTime := currentTime - targetDuration in
  Qmin maxTrimTime trimTime.

Definition timestampOffsetForSegment (segmentTimeline currentTimeline : Z)
    (startOfSegment : option Q) (buffered : TimeRanges) (overrideCheck : bool)
    : option (option Q) :=
  if negb overrideCheck && (segmentTimeline =? currentTimeline)%Z then None
  else Some (if negb (Z.of_nat (length buffered) =? 0)%Z
             then Some (endLast buffered) else startOfSegment).

Definition shouldWaitForTimelineChange (timelineChangeController : TimelineChangeController)
    (currentTimeline segmentTimeline : Z) (loaderType : string) (audioDisabled : bool)
    : bool :=
  if (currentTimeline =? segmentTimeline)%Z then false
  else if String.eqb loaderType "audio" then
    match lastTimelineChange timelineChangeController "main" with
    | None => true
    | Some lastMainTimelineChange => negb (to lastMainTimelineChange =? segmentTimeline)%Z
    end
  else if String.eqb loaderType "main" && audioDisabled then
    match pendingTimelineChange timelineChangeController "audio" with
    | Some pendingAudioTimelineChange =>
        if (to pendingAudioTimelineChange =? segmentTimeline)%Z then false else true
    | None => true
    end
  else false.

(** ** State, timers and cancellation *)

(** The [state] setter. *)
Definition setState (newState : LoaderState) (l : SegmentLoader) : SegmentLoader :=
  if negb (LoaderState_eqb newState (state_ l))
  then log (Trigger "statechange") (set_state_ newState l)
  else l.

Definition paused (l : SegmentLoader) : bool :=
  match checkBufferTimeout_ l with None => true | Some _ => false end.

Definition clearCheckBufferTimeout (l : SegmentLoader) : SegmentLoader :=
  match checkBufferTimeout_ l with
  | Some t => if truthyZ (Some t) then log (ClearTimeout t) l else l
  | None => l
  end.

Definition monitorBuffer_ (l : SegmentLoader) : SegmentLoader :=
  let l := clearCheckBufferTimeout l in
  let t := nextTimerId l in
  set_checkBufferTimeout_ (Some t) (set_nextTimerId (t + 1)%Z (log (SetTimeout t 1) l)).

Definition pause (l : SegmentLoader) : SegmentLoader :=
  match checkBufferTimeout_ l with
  | Some t =>
      if truthyZ (Some t)
      then set_checkBufferTimeout_ None (log (ClearTimeout t) l) else l
  | None => l
  end.

Definition abort_ (l : SegmentLoader) : SegmentLoader :=
  let l :=
    match pendingSegment_ l with
    | Some pending =>
        match abortRequests pending with
        | Some handle => log (AbortRequests handle) l
        | None => l
        end
    | None => l
    end in
  let l := set_pendingSegment_ None l in
  let l := set_callQueue_ [] l in
  let l := set_loadQueue_ [] l in
  let l := set_metadataQueue_id3 [] l in
  let l := set_metadataQueue_caption [] l in
  set_timelineChangeController_
    (clearPendingTimelineChange (timelineChangeController_ l) (loaderType_ l)) l.

Definition abort (l : SegmentLoader) : SegmentLoader :=
  if negb (LoaderState_eqb (state_ l) WAITING) then
    match pendingSegment_ l with
    | Some _ => set_pendingSegment_ None l
    | None => l
    end
  else
    let l := abort_ l in
    let l := setState READY l in
    if negb (paused l) then monitorBuffer_ l else l.

Definition couldBeginLoading_ (l : SegmentLoader) : bool :=
  match playlist_ l with Some _ => negb (paused l) | None => false end.

(** [remove(start, end)]; [end_ = None] is [Infinity]. *)
Definition remove (env : Env) (start : Q) (end_ : option Q) (l : SegmentLoader)
    : SegmentLoader :=
  let end_ := match end_ with None => duration_ env | Some e => e end in
  match currentMediaInfo_ l with
  | None => l
  | Some info =>
      let l := if negb (audioDisabled_ l) then log (RemoveAudio start end_) l else l in
      let l :=
        if String.eqb (loaderType_ l) "main" && Fetch.hasVideo info
        then log (RemoveVideo start end_)
               (log (RemoveGopBuffer start end_ (timeMapping_ l)) l)
        else l in
      let l := foldl (fun l track => log (RemoveCuesFromTrack start end_ track) l) l
                 (inbandTextTracks_ l) in
      log (RemoveCuesFromTrack start end_ "segment-metadata") l
  end.

Definition resyncLoader (l : SegmentLoader) : SegmentLoader :=
  let l := log TransmuxerReset l in
  let l := set_mediaIndex None l in
  let l := set_syncPoint_ None l in
  let l := set_isPendingTimestampOffset_ false l in
  let l := set_callQueue_ [] l in
  let l := set_loadQueue_ [] l in
  let l := set_metadataQueue_id3 [] l in
  let l := set_metadataQueue_caption [] l in
  let l := abort l in
  log (TransmuxerPostMessage "clearParsedMp4Captions") l.

Definition resetLoader (l : SegmentLoader) : SegmentLoader :=
  resyncLoader (set_fetchAtBuffer_ false l).

Definition resetEverything (env : Env) (l : SegmentLoader) : SegmentLoader :=
  let l := set_ended_ false l in
  let l := set_appendInitSegment_ (mkPerType true true) l in
  let l := resetLoader l in
  let l := remove env 0 None l in
  log (TransmuxerPostMessage "clearAllMp4Captions") l.

Definition init_ (env : Env) (l : SegmentLoader) : SegmentLoader :=
  let l := setState READY l in
  let l := resetEverything env l in
  monitorBuffer_ l.

(** ** Playlist updates *)

Definition option_string_eqb (a b : option string) : bool :=
  match a, b with
  | Some x, Some y => String.eqb x y
  | None, None => true
  | _, _ => false
  end.

(** The playlist as stored: in state [INIT] its sync info is seeded. *)
Definition storedPlaylist (l : SegmentLoader) (newPlaylist : Playlist) : Playlist :=
  match state_ l with
  | INIT =>
      mkPlaylist (ref newPlaylist) (id newPlaylist) (uri newPlaylist)
        (mediaSequence newPlaylist) (targetDuration newPlaylist) (endList newPlaylist)
        (segments newPlaylist) (Some (mkSyncInfo (mediaSequence newPlaylist) 0))
  | _ => newPlaylist
  end.

(** [playlist(newPlaylist, options)] *)
Definition playlist (env : Env) (newPlaylist : option Playlist)
    (options : option XhrOptions) (l : SegmentLoader) : SegmentLoader :=
  match newPlaylist with
  | None => l
  | Some newPlaylist =>
      let oldPlaylist := playlist_ l in
      let segmentInfo := pendingSegment_ l in
      let newPlaylist :=
        match state_ l with
        | INIT =>
            mkPlaylist (ref newPlaylist) (id newPlaylist) (uri newPlaylist)
              (mediaSequence newPlaylist) (targetDuration newPlaylist) (endList newPlaylist)
              (segments newPlaylist)
              (Some (mkSyncInfo (mediaSequence newPlaylist) 0))
        | _ => newPlaylist
        end in
      let l := set_playlist_ (Some newPlaylist) l in
      let l := set_xhrOptions_ options l in
      let l := log (Trigger "syncinfoupdate") l in
      if LoaderState_eqb (state_ l) INIT && couldBeginLoading_ l then init_ env l
      else
        match oldPlaylist with
        | Some old =>
            if negb (option_string_eqb (uri old) (uri newPlaylist)) then
              let l := if isSome (mediaIndex l) || handlePartialData_ l
                       then resyncLoader l else l in
              log (Trigger "playlistupdate") (set_currentMediaInfo_ None l)
            else
              let mediaSequenceDiff := (mediaSequence newPlaylist - mediaSequence old)%Z in
              let l :=
                match mediaIndex l with
                | Some i => set_mediaIndex (Some (i - mediaSequenceDiff)%Z) l
                | None => l
                end in
              let l :=
                match segmentInfo with
                | Some info =>
                    let i := (si_mediaIndex info - mediaSequenceDiff)%Z in
                    let info := set_si_mediaIndex i info in
                    let info :=
                      if (0 <=? i)%Z
                      then set_si_segment (segments newPlaylist !! Z.to_nat i) info
                      else info in
                    set_pendingSegment_ (Some info) l
                | None => l
                end in
              log (SaveExpiredSegmentInfo old newPlaylist) l
        | None =>
            let l := if isSome (mediaIndex l) || handlePartialData_ l
                     then resyncLoader l else l in
            log (Trigger "playlistupdate") (set_currentMediaInfo_ None l)
        end
  end.

(** ** Choosing the next segment *)

(** The index of the second segment of the current timeline (or of
    the only one), as [map]/[filter] over the segments gives it. *)
Fixpoint indicesOfTimeline (segs : list Segment) (i : Z) (t : Z) : list Z :=
  match segs with
  | [] => []
  | s :: rest =>
      if (timeline s =? t)%Z then i :: indicesOfTimeline rest (i + 1)%Z t
      else indicesOfTimeline rest (i + 1)%Z t
  end.

Definition getSyncSegmentCandidate_ (l : SegmentLoader) (playlist : Playlist) : Z :=
  if (currentTimeline_ l =? -1)%Z then 0%Z
  else
    let segmentIndexArray := indicesOfTimeline (segments playlist) 0%Z (currentTimeline_ l) in
    match segmentIndexArray with
    | [] => Z.max (Z.of_nat (length (segments playlist)) - 1) 0
    | _ =>
        default 0%Z
          (segmentIndexArray
             !! Z.to_nat (Z.min (Z.of_nat (length segmentIndexArray) - 1) 1))
    end.

(** [generateSegmentInfo_]; the fields [bytes], [encryptedBytes],
    [transmuxer] and [gopsToAlignWith] of the result, which no method
    modelled here reads, are left out. *)
Definition generateSegmentInfo_ (env : Env) (l : SegmentLoader) (playlist : Playlist)
    (mediaIndex : Z) (startOfSegment : option Q) (isSyncRequest : bool)
    : option SegmentInfo :=
  if (mediaIndex <? 0)%Z || (Z.of_nat (length (segments playlist)) <=? mediaIndex)%Z
  then None
  else
    match segments playlist !! Z.to_nat mediaIndex with
    | None => None
    | Some segment =>
        let audioAppendStart :=
          if negb (Z.of_nat (length (audioBuffered env)) =? 0)%Z
          then match audioTimestampOffset env with
               | Some off => Some (endLast (audioBuffered env) - off)
               | None => Some (endLast (audioBuffered env))
               end
          else None in
        Some (mkSegmentInfo (random env) (resolvedUri segment) mediaIndex isSyncRequest
                startOfSegment playlist None (timeline segment) (duration segment)
                (Some segment) 0%Z audioAppendStart false false false None None None
                false false false None)
    end.

(** [checkBuffer_]. The test of the goal buffer length only logs: its
    [return null] is commented out in the source. *)
Definition checkBuffer_ (env : Env) (l : SegmentLoader) (buffered : TimeRanges)
    (playlist : Playlist) (currentMediaIndex : option Z) (hasPlayed : bool)
    (currentTime : Q) (syncPoint : option SyncPoint) : option SegmentInfo :=
  let lastBufferedEnd :=
    if negb (Z.of_nat (length buffered) =? 0)%Z then endLast buffered else 0 in
  let bufferedTime := Qmax 0 (lastBufferedEnd - currentTime) in
  if (Z.of_nat (length (segments playlist)) =? 0)%Z then None
  else
    let afterGoalTest :=
      if negb hasPlayed && Qle_bool 1 bufferedTime then None
      else
        let '(nextMediaIndex, startOfSegment, isSyncRequest) :=
          match syncPoint with
          | None => (getSyncSegmentCandidate_ l playlist, None, true)
          | Some sp =>
              match currentMediaIndex with
              | Some cur =>
                  let segment :=
                    if (0 <=? cur)%Z then segments playlist !! Z.to_nat cur else None in
                  let startOfSegment :=
                    match segment with
                    | Some s => if truthyQ (seg_end s) then seg_end s
                                else Some lastBufferedEnd
                    | None => Some lastBufferedEnd
                    end in
                  ((cur + 1)%Z, startOfSegment, false)
              | None =>
                  let mediaSourceInfo :=
                    if fetchAtBuffer_ l
                    then getMediaInfoForTime playlist lastBufferedEnd
                           (segmentIndex sp) (sp_time sp)
                    else getMediaInfoForTime playlist currentTime
                           (segmentIndex sp) (sp_time sp) in
                  (mi_mediaIndex mediaSourceInfo, Some (mi_startTime mediaSourceInfo), false)
              end
          end in
        match generateSegmentInfo_ env l playlist nextMediaIndex startOfSegment
                isSyncRequest with
        | None => None
        | Some segmentInfo =>
            match playlist_ l with
            | Some own =>
                if (si_mediaIndex segmentInfo =? Z.of_nat (length (segments own)) - 1)%Z
                   && String.eqb (readyState env) "ended" && negb (seeking env)
                then None else Some segmentInfo
            | None => Some segmentInfo
            end
        end in
    if Qle_bool (goalBufferLength env) bufferedTime
    then afterGoalTest   (* console.log only *)
    else afterGoalTest.

(** ** Before a request *)

(** [trimBackBuffer_]; [None] when there is no playlist (a
    [TypeError] in the source). *)
Definition trimBackBuffer_ (env : Env) (l : SegmentLoader) : option SegmentLoader :=
  match playlist_ l with
  | None => None
  | Some pl =>
      let removeToTime :=
        safeBackBufferTrimTime (seekable env) (currentTime env)
          (if truthyQ (targetDuration pl) then default 0 (targetDuration pl) else 10) in
      Some (if negb (Qle_bool removeToTime 0)
            then remove env 0 (Some removeToTime) l else l)
  end.

Definition hasEnoughInfoToLoad_ (l : SegmentLoader) : bool :=
  if negb (String.eqb (loaderType_ l) "audio") then true
  else
    match pendingSegment_ l with
    | None => false
    | Some segmentInfo =>
        match currentMediaInfo_ l with
        | None => true
        | Some _ =>
            negb (shouldWaitForTimelineChange (timelineChangeController_ l)
                    (currentTimeline_ l) (si_timeline segmentInfo) (loaderType_ l)
                    (audioDisabled_ l))
        end
    end.

(** [hasEnoughInfoToAppend_]. Its timing-info tests are commented out
    in the source; what is left of that block destructures
    [currentMediaInfo_], a [TypeError] ([None]) when it is undefined. *)
Definition hasEnoughInfoToAppend_ (env : Env) (l : SegmentLoader) : option bool :=
  if negb (su_ready env) then Some false
  else
    match pendingSegment_ l with
    | None => Some false
    | Some segmentInfo =>
        match trackInfo segmentInfo with
        | None => Some false
        | Some _ =>
            if negb (handlePartialData_ l) && negb (isSome (currentMediaInfo_ l))
            then None
            else
              Some (negb (shouldWaitForTimelineChange (timelineChangeController_ l)
                            (currentTimeline_ l) (si_timeline segmentInfo) (loaderType_ l)
                            (audioDisabled_ l)))
        end
    end.

(** [updateSourceBufferTimestampOffset_] on the pending segment. *)
Definition updateSourceBufferTimestampOffset_ (env : Env) (segmentInfo : SegmentInfo)
    (l : SegmentLoader) : SegmentInfo * SegmentLoader :=
  match timestampOffset segmentInfo, timingInfo segmentInfo with
  | Some offset, Some (mkTimingInfo (Some start)) =>
      if changedTimestampOffset segmentInfo
         || negb (String.eqb (loaderType_ l) "main")
      then (segmentInfo, l)
      else
        let offset := offset - start in
        let segmentInfo :=
          set_changedTimestampOffset true (set_timestampOffset (Some offset) segmentInfo) in
        let sameAs (o : option Q) :=
          match o with Some x => Qeq_bool offset x | None => false end in
        let l1 := if negb (sameAs (videoTimestampOffset env))
                  then log (SetVideoTimestampOffset offset) l else l in
        let l2 := if negb (sameAs (audioTimestampOffset env))
                  then log (SetAudioTimestampOffset offset) l1 else l1 in
        let didChange :=
          negb (sameAs (videoTimestampOffset env)) || negb (sameAs (audioTimestampOffset env)) in
        (segmentInfo, if didChange then log (Trigger "timestampoffset") l2 else l2)
  | _, _ => (segmentInfo, l)
  end.

(** ** Initialization segments and appends *)

(** [initSegmentForMap(map, set)] *)
Definition initSegmentForMap (map : option Fetch.InitMap) (set : bool) (l : SegmentLoader)
    : option Fetch.InitMap * SegmentLoader :=
  match map with
  | None => (None, l)
  | Some m =>
      let id := initSegmentId m in
      match initSegments_ l !! id with
      | Some storedMap => (Some storedMap, l)
      | None =>
          if set && isSome (Fetch.map_bytes m)
          then (Some m, set_initSegments_ (<[id := m]> (initSegments_ l)) l)
          else (Some m, l)
      end
  end.

Definition updateAppendInitSegmentStatus (segmentInfo : SegmentInfo) (type : string)
    (l : SegmentLoader) : SegmentLoader :=
  let l :=
    if String.eqb (loaderType_ l) "main" && isSome (timestampOffset segmentInfo)
       && negb (changedTimestampOffset segmentInfo)
    then set_appendInitSegment_ (mkPerType true true) l else l in
  if negb (match getType (playlistOfLastInitSegment_ l) type with
           | Some r => (r =? ref (si_playlist segmentInfo))%Z
           | None => false
           end)
  then set_appendInitSegment_ (setType (appendInitSegment_ l) type true) l
  else l.

(** [getInitSegmentAndUpdateState_({type, initSegment, map, playlist})] *)
Definition getInitSegmentAndUpdateState_ (type : string)
    (initSegment : option (list Byte.byte)) (map : option Fetch.InitMap)
    (playlist : Playlist) (l : SegmentLoader)
    : option (list Byte.byte) * SegmentLoader :=
  let continue_ (initSegment : option (list Byte.byte)) (l : SegmentLoader) :=
    if isSome initSegment && getType (appendInitSegment_ l) type then
      let l := set_playlistOfLastInitSegment_
                 (setType (playlistOfLastInitSegment_ l) type (Some (ref playlist))) l in
      let l := set_appendInitSegment_
                 (setType (appendInitSegment_ l) type (isSome map)) l in
      let l := set_activeInitSegmentId_ None l in
      (initSegment, l)
    else (None, l) in
  match map with
  | Some m =>
      let id := initSegmentId m in
      if option_string_eqb (activeInitSegmentId_ l) (Some id) then (None, l)
      else
        let '(stored, l) := initSegmentForMap (Some m) true l in
        let initSegment := stored ≫= Fetch.map_bytes in
        continue_ initSegment (set_activeInitSegmentId_ (Some id) l)
  | None => continue_ initSegment l
  end.

(** [appendToSourceBuffer_]; [concatSegments] joins the segments. *)
Definition appendToSourceBuffer_ (segmentInfo : SegmentInfo) (type : string)
    (initSegment : option (list Byte.byte)) (data : list Byte.byte) (l : SegmentLoader)
    : SegmentInfo * SegmentLoader :=
  let '(segs, segmentInfo) :=
    match initSegment with
    | Some init =>
        if String.eqb type "video" && negb (videoInitDataAppended segmentInfo)
        then ([init; data], set_videoInitDataAppended true segmentInfo)
        else if String.eqb type "audio" && negb (audioInitDataAppended segmentInfo)
        then ([init; data], set_audioInitDataAppended true segmentInfo)
        else ([data], segmentInfo)
    | None => ([data], segmentInfo)
    end in
  (segmentInfo, log (AppendBuffer type (concat segs)) l).

(** [appendData_(segmentInfo, result, firstChunkFlag)] with
    [result = {type, data, initSegment}]. [None] is the [TypeError]
    of reading [segmentInfo.segment.map] when an fmp4 segment info has
    no segment object. *)
Definition appendData_ (segmentInfo : SegmentInfo) (type : string)
    (data : list Byte.byte) (resultInitSegment : option (list Byte.byte))
    (l : SegmentLoader) : option (SegmentInfo * SegmentLoader) :=
  if (Z.of_nat (length data) =? 0)%Z then Some (segmentInfo, l)
  else if String.eqb type "audio" && audioDisabled_ l then Some (segmentInfo, l)
  else
    match (if si_isFmp4 segmentInfo then map <$> si_segment segmentInfo else Some None) with
    | None => None
    | Some map =>
        let '(initSegment, l) :=
          getInitSegmentAndUpdateState_ type resultInitSegment map
            (si_playlist segmentInfo) l in
        Some (appendToSourceBuffer_ segmentInfo type initSegment data l)
    end.

(** [handleMediaChunk_(simpleSegment, result, firstChunk)]: the
    callback behind [chunkFn]. The segment info it works on is the
    loader's pending segment; [None] is the [TypeError] when there is
    none, or when it has no segment object to take the initialization
    section of the request. *)
Definition handleMediaChunk_ (env : Env) (simpleSegment : Fetch.Segment)
    (type : string) (data : list Byte.byte) (l : SegmentLoader) : option SegmentLoader :=
  if String.eqb (readyState env) "closed" then Some l
  else
    match pendingSegment_ l with
    | None => None
    | Some segmentInfo =>
        '(segmentInfo, l) ←
          match Fetch.map simpleSegment with
          | Some m =>
              let '(stored, l) := initSegmentForMap (Some m) true l in
              match si_segment segmentInfo with
              | Some seg =>
                  Some (set_si_segment
                          (Some (mkSegment (resolvedUri seg) (timeline seg) (duration seg)
                                   (seg_start seg) (seg_end seg) stored)) segmentInfo, l)
              | None => None
              end
          | None => Some (segmentInfo, l)
          end;
        let segmentInfo := set_si_isFmp4 (Fetch.isFmp4 simpleSegment) segmentInfo in
        let segmentInfo :=
          match timingInfo segmentInfo with
          | Some _ => segmentInfo
          | None => set_timingInfo (Some (mkTimingInfo None)) segmentInfo
          end in
        let '(segmentInfo, l) :=
          if negb (segmentInfoInitDataApplied segmentInfo) then
            let l := if si_isFmp4 segmentInfo then log (Trigger "fmp4") l else l in
            let l := updateAppendInitSegmentStatus segmentInfo type l in
            let '(segmentInfo, l) := updateSourceBufferTimestampOffset_ env segmentInfo l in
            (set_segmentInfoInitDataApplied true segmentInfo, l)
          else (segmentInfo, l) in
        let segmentInfo := set_hasAppendedData_ true segmentInfo in
        '(segmentInfo, l) ← appendData_ segmentInfo type data None l;
        Some (set_pendingSegment_ (Some segmentInfo) l)
    end.

(** ** Throughput *)

(** [recordThroughput_(segmentInfo)], with the clock reading [now].
    The clock readings, the byte length and the count are integers;
    the quotient, the two products, the difference, the division by
    the count and the sum are each rounded to a double, in the order
    in which the source evaluates them. *)
Definition recordThroughput_ (now : Z) (segmentInfo : SegmentInfo) (l : SegmentLoader)
    : SegmentLoader :=
  let rate := rate (throughput l) in
  let count' := (count (throughput l) + 1)%Z in
  let rate' :=
    rate ← rate;
    endOfAllRequests ← si_endOfAllRequests segmentInfo;
    let segmentProcessingTime := (now - endOfAllRequests + 1)%Z in
    perMillisecond ← Double.div (inject_Z (byteLength segmentInfo))
                        (inject_Z segmentProcessingTime);
    bitsPerMillisecond ← Double.mul perMillisecond 8;
    bitsPerSecond ← Double.mul bitsPerMillisecond 1000;
    let segmentProcessingThroughput := Double.floor bitsPerSecond in
    difference ← Double.sub segmentProcessingThroughput rate;
    step ← Double.div difference (inject_Z count');
    Double.add rate step in
  set_throughput (mkThroughput rate' count') l.

(** ** Completion of a segment *)

Definition isEndOfStream_ (env : Env) (mediaIndex : Z) (playlist : Playlist) : bool :=
  endList playlist && String.eqb (readyState env) "open"
  && (mediaIndex + 1 =? Z.of_nat (length (segments playlist)))%Z.

Definition endOfStream (l : SegmentLoader) : SegmentLoader :=
  let l := set_ended_ true l in
  let l := log TransmuxerReset l in
  let l := log ClearGopBuffer l in
  let l := pause l in
  log (Trigger "ended") l.

Definition addSegmentMetadataCue_ (segment : Segment) (l : SegmentLoader) : SegmentLoader :=
  if negb (hasSegmentMetadataTrack l) then l
  else
    match seg_start segment, seg_end segment with
    | Some s, Some e =>
        log (AddSegmentMetadataCue s e) (log (RemoveCuesFromTrack s e "segment-metadata") l)
    | _, _ => l
    end.

(** [handleAppendsDone_]; the listeners of the events it triggers are
    outside the model. [None] is the [TypeError] of
    [segmentInfoString], called for the log line, when the pending
    segment has no segment object. The test for a segment far behind
    the playhead compares two doubles, a difference and a product. *)
Definition handleAppendsDone_ (env : Env) (l : SegmentLoader) : option SegmentLoader :=
  match pendingSegment_ l with
  | None =>
      let l := setState READY l in
      Some (if negb (paused l) then monitorBuffer_ l else l)
  | Some segmentInfo =>
      let l := log (Trigger "appendsdone") l in
      let l :=
        if shouldSaveSegmentTimingInfo_ l
        then log (SaveSegmentTimingInfo (si_requestId segmentInfo)
                    (String.eqb (loaderType_ l) "main")) l
        else l in
      match si_segment segmentInfo with
      | None => None
      | Some segment =>
          let l := recordThroughput_ (now env) segmentInfo l in
          let l := set_pendingSegment_ None l in
          let l := setState READY l in
          if isSyncRequest segmentInfo then Some (log (Trigger "syncinfoupdate") l)
          else
            let l := addSegmentMetadataCue_ segment l in
            let l := set_fetchAtBuffer_ true l in
            let l :=
              if negb (currentTimeline_ l =? si_timeline segmentInfo)%Z then
                let c := recordLastTimelineChange (timelineChangeController_ l)
                           (loaderType_ l) (currentTimeline_ l) (si_timeline segmentInfo) in
                let c := if String.eqb (loaderType_ l) "main" && negb (audioDisabled_ l)
                         then recordLastTimelineChange c "audio" (currentTimeline_ l)
                                (si_timeline segmentInfo)
                         else c in
                set_timelineChangeController_ c l
              else l in
            let l := set_currentTimeline_ (si_timeline segmentInfo) l in
            let l := log (Trigger "syncinfoupdate") l in
            let tooFarBehind :=
              match seg_end segment, targetDuration (si_playlist segmentInfo) with
              | Some e, Some td =>
                  truthyQ (Some e)
                  && negb (Qle_bool (Double.double (currentTime env - e))
                             (Double.double (td * 3)))
              | _, _ => false
              end in
            if tooFarBehind then Some (resetEverything env l)
            else
              let l := if isSome (mediaIndex l) then log (Trigger "bandwidthupdate") l else l in
              let l := log (Trigger "progress") l in
              let l := set_mediaIndex (Some (si_mediaIndex segmentInfo)) l in
              let l := if isEndOfStream_ env (si_mediaIndex segmentInfo)
                            (si_playlist segmentInfo)
                       then endOfStream l else l in
              let l := log (Trigger "appended") l in
              Some (if negb (paused l) then monitorBuffer_ l else l)
      end
  end.

(** The controller and the throughput statistics of a loader. *)
Definition kept (l : SegmentLoader) : TimelineChangeController * Throughput :=
  (timelineChangeController_ l, throughput l).

End WithDeps.

End Loader.
(** ** Concrete loaders used by the examples *)

Module LoaderSamples.
Import TimelineChange Loader.
Local Open Scope Q_scope.

#[export] Instance sampleDeps : Deps := {|
  BACK_BUFFER_LENGTH := 30;
  getMediaInfoForTime := fun _ _ _ _ => mkMediaInfoForTime 0 0;
  initSegmentId := fun m => Fetch.map_resolvedUri m
|}.

Definition initMap : Fetch.InitMap :=
  Fetch.mkMap "init.mp4" (Some Samples.initBytes)
    (Some {[ "video"%string := Samples.videoTrack ]}) (Some {[ 1%Z := 90000%Z ]}).

Definition seg (i : Z) : Segment :=
  mkSegment "seg.m4s" 0 6 None None (Some initMap).

(** Segments [0..4] of 6 seconds each. *)
Definition fiveSegments : Playlist :=
  mkPlaylist 1 (Some "video-1"%string) (Some "video-1.m3u8"%string) 0 (Some 6) false
    [seg 0; seg 1; seg 2; seg 3; seg 4] None.

Definition noController : TimelineChangeController := mkController ∅ ∅.

(** A main loader that is walking forward through [fiveSegments]. *)
Definition mainLoader : SegmentLoader :=
  mkLoader READY "main" (Some 2%Z) (Some fiveSegments) None None (Some 1%Z) 0 false
    None None (mkPerType true true) (mkPerType None None) None ∅ [] [] [] []
    (mkThroughput (Some 0) 0) true (Some (mkSyncPoint 0 0)) false false 0 noController
    false true [] true true 2 [].

(** Current time 10 s, one buffered range [0, 16], goal buffer length
    6 s, playback has started. *)
Definition playingEnv : Env :=
  mkEnv 10 [(100, 200)] 30 true false 6 "open" true false [(0, 16)] [(0, 16)]
    (Some 0) (Some 0) 7 1.

Definition pendingFor (requestId : Z) : SegmentInfo :=
  mkSegmentInfo requestId "seg.m4s" 3 false (Some 18) fiveSegments None 0 6
    (Some (seg 3)) 0 None false false false None None None false false false None.

Definition simpleSegment (requestId : Z) : Fetch.Segment :=
  Fetch.mkSegment "seg.m4s" requestId (Some initMap) true None.

Definition chunk1 : list Byte.byte := Boxes.ser Samples.moofBox ++ Boxes.ser Samples.mdatBox1.
Definition chunk2 : list Byte.byte := Boxes.ser Samples.moofBox ++ Boxes.ser Samples.mdatBox2.

(** The bytes given to the sink, in order. *)
Definition appended (l : SegmentLoader) : list (list Byte.byte) :=
  omap (fun e => match e with AppendBuffer _ bytes => Some bytes | _ => None end) (effects l).

(** Two chunks of one segment request, then the first chunk of the next
    request on the same playlist with the same initialization section.
    Between the requests the pending segment is replaced, as
    [handleAppendsDone_] and [loadSegment_] do. *)
Definition twoRequests : option SegmentLoader :=
  l1 ← handleMediaChunk_ playingEnv (simpleSegment 1) "video" chunk1
         (set_pendingSegment_ (Some (pendingFor 1)) mainLoader);
  l2 ← handleMediaChunk_ playingEnv (simpleSegment 1) "video" chunk2 l1;
  handleMediaChunk_ playingEnv (simpleSegment 2) "video" chunk1
    (set_pendingSegment_ (Some (pendingFor 2)) l2).

(** [fiveSegments] refreshed: the window moved on by two segments. *)
Definition refreshed : Playlist :=
  mkPlaylist 2 (Some "video-1"%string) (Some "video-1.m3u8"%string) 2 (Some 6) false
    [seg 2; seg 3; seg 4; seg 5; seg 6] None.

(** A loader waiting for segment 3, with a request in flight. *)
Definition waitingLoader : SegmentLoader :=
  set_state_ WAITING
    (set_pendingSegment_ (Some (set_abortRequests (Some 17%Z) (pendingFor 1)))
       (set_loadQueue_ [QueuedLoad 1]
          (set_timelineChangeController_
             (mkController {[ "main"%string := mkChange "main" 0 1 ]} ∅) mainLoader))).

(** A finished segment of 1000 bytes whose requests ended at clock 0. *)
Definition finishedSegment : SegmentInfo :=
  set_si_endOfAllRequests (Some 0%Z) (set_byteLength 1000%Z (pendingFor 1)).

(** The main loader while that segment is being appended. *)
Definition appendingLoader : SegmentLoader :=
  set_state_ APPENDING (set_pendingSegment_ (Some finishedSegment) mainLoader).

(** An audio loader about to enter timeline 0 at stream start. *)
Definition audioLoader : SegmentLoader :=
  set_loaderType_ "audio" (set_currentTimeline_ (-1)%Z
    (set_pendingSegment_ (Some (pendingFor 1)) mainLoader)).

(** An audio loader on timeline 0 that knows its media and whose pending
    segment is on timeline 1, the main loader having recorded its entry
    into timeline 0 only. *)
Definition crossingAudioLoader : SegmentLoader :=
  set_currentMediaInfo_
    (Some (Fetch.mkTrackInfo true false true (Some "mp4a.40.2"%string) None false))
    (set_timelineChangeController_
       (mkController ∅ {[ "main"%string := mkChange "main" (-1) 0 ]})
       (set_loaderType_ "audio"
          (set_pendingSegment_ (Some (set_si_timeline 1%Z (pendingFor 1))) mainLoader))).

End LoaderSamples.

(** ** Track info handed over by the transport ([segment-loader.js]) *)

Module TrackInfoCallback.
Import Loader.

(** [illegalMediaSwitch(loaderType, startingMedia, trackInfo)]; [None]
    is [null]. *)
Definition illegalMediaSwitch (loaderType : string)
    (startingMedia trackInfo : option Fetch.TrackInfo) : option string :=
  if negb (String.eqb loaderType "main") then None
  else
    match startingMedia, trackInfo with
    | Some startingMedia, Some trackInfo =>
        if negb (Fetch.hasAudio trackInfo) && negb (Fetch.hasVideo trackInfo)
        then Some "Neither audio nor video found in segment."%string
        else if Fetch.hasVideo startingMedia && negb (Fetch.hasVideo trackInfo)
        then Some (String.append "Only audio found in segment when we expected video."
                     (String.append
                        " We can't switch to audio only from a stream that had video."
                        " To get rid of this message, please add codec information to the manifest."))
        else if negb (Fetch.hasVideo startingMedia) && Fetch.hasVideo trackInfo
        then Some (String.append "Video found in segment when we expected only audio."
                     (String.append
                        " We can't switch to a stream with video from an audio only stream."
                        " To get rid of this message, please add codec information to the manifest."))
        else None
    | _, _ => None
    end.

(** [checkForAbort_(requestId)]: the answer and the loader, whose state
    the first test may set. *)
Definition checkForAbort_ (requestId : Z) (l : SegmentLoader) : bool * SegmentLoader :=
  if LoaderState_eqb (state_ l) APPENDING && negb (isSome (pendingSegment_ l))
  then (true, setState READY l)
  else
    match pendingSegment_ l with
    | None => (true, l)
    | Some pending =>
        if negb (si_requestId pending =? requestId)%Z then (true, l) else (false, l)
    end.

(** [error(error)] with an error object; the stored [error_], which no
    method modelled here reads, is left out. *)
Definition error (l : SegmentLoader) : SegmentLoader :=
  set_pendingSegment_ None l.

Definition checkForIllegalMediaSwitch (trackInfo : option Fetch.TrackInfo)
    (l : SegmentLoader) : bool * SegmentLoader :=
  let illegalMediaSwitchError :=
    illegalMediaSwitch (loaderType_ l) (currentMediaInfo_ l) trackInfo in
  if truthyStr illegalMediaSwitchError
  then (true, log (Trigger "error") (error l))
  else (false, l).

Section WithDeps.
Context `{Deps}.

(** [shallowEqual] of [util/shallow-equal.js]. *)
Variable shallowEqual : option Fetch.TrackInfo -> Fetch.TrackInfo -> bool.

(** [handleTrackInfo_(simpleSegment, trackInfo)]: the loader, and the
    queued calls that [processCallQueue_] takes off the call queue and
    runs (none when it is not called). The listeners of [trackinfo] and
    the queued calls themselves are outside the model; [None] is a
    [TypeError]. *)
Definition handleTrackInfo_ (env : Env) (simpleSegment : Fetch.Segment)
    (trackInfo : Fetch.TrackInfo) (l : SegmentLoader)
    : option (SegmentLoader * list Queued) :=
  let '(aborted, l) := checkForAbort_ (Fetch.requestId simpleSegment) l in
  if aborted then Some (l, [])
  else
    let '(illegal, l) := checkForIllegalMediaSwitch (Some trackInfo) l in
    if illegal then Some (l, [])
    else
      let l :=
        if negb (shallowEqual (currentMediaInfo_ l) trackInfo) then
          let l := set_appendInitSegment_ (mkPerType true true) l in
          let l := set_startingMediaInfo_ (Some trackInfo) l in
          let l := set_currentMediaInfo_ (Some trackInfo) l in
          log (Trigger "trackinfo") l
        else l in
      let '(aborted, l) := checkForAbort_ (Fetch.requestId simpleSegment) l in
      if aborted then Some (l, [])
      else
        match pendingSegment_ l with
        | None => None
        | Some segmentInfo =>
            let l := set_pendingSegment_
                       (Some (set_trackInfo (Some trackInfo) segmentInfo)) l in
            match hasEnoughInfoToAppend_ env l with
            | None => None
            | Some true => Some (set_callQueue_ [] l, callQueue_ l)
            | Some false => Some (l, [])
            end
        end.

End WithDeps.

End TrackInfoCallback.

(** ** Concrete inputs for the track info callback *)

Module TrackInfoSamples.
Import Loader LoaderSamples TrackInfoCallback.

(** Equality of the six properties of a track info, one by one. *)
Definition sameProperties (current : option Fetch.TrackInfo) (trackInfo : Fetch.TrackInfo)
    : bool :=
  match current with
  | Some c =>
      Bool.eqb (Fetch.ti_isFmp4 c) (Fetch.ti_isFmp4 trackInfo)
      && Bool.eqb (Fetch.hasVideo c) (Fetch.hasVideo trackInfo)
      && Bool.eqb (Fetch.hasAudio c) (Fetch.hasAudio trackInfo)
      && option_string_eqb (Fetch.audioCodec c) (Fetch.audioCodec trackInfo)
      && option_string_eqb (Fetch.videoCodec c) (Fetch.videoCodec trackInfo)
      && Bool.eqb (Fetch.isMuxed c) (Fetch.isMuxed trackInfo)
  | None => false
  end.

Definition videoOnly : Fetch.TrackInfo :=
  Fetch.mkTrackInfo true true false None (Some "avc1.64001f"%string) false.

Definition audioOnly : Fetch.TrackInfo :=
  Fetch.mkTrackInfo true false true (Some "mp4a.40.2"%string) None false.

(** The main loader waiting for request 1, before any track info. *)
Definition freshLoader : SegmentLoader :=
  set_state_ WAITING (set_pendingSegment_ (Some (pendingFor 1)) mainLoader).

(** The same loader once it has seen video. *)
Definition videoLoader : SegmentLoader :=
  set_currentMediaInfo_ (Some videoOnly) (set_startingMediaInfo_ (Some videoOnly) freshLoader).

End TrackInfoSamples.

(** ** Further concrete loaders *)

Module MoreLoaderSamples.
Import Loader LoaderSamples.
Local Open Scope Q_scope.

(** A segment whose end time, 1 s, is known. *)
Definition endedSegment : Segment :=
  mkSegment "seg.m4s" 0 6 (Some 0) (Some 1) (Some initMap).

(** [fiveSegments] with a target duration of 2 s. *)
Definition shortTarget : Playlist :=
  mkPlaylist 4 (Some "video-1"%string) (Some "video-1.m3u8"%string) 0 (Some 2) false
    [seg 0; seg 1; seg 2; seg 3; seg 4] None.

(** The main loader appending a segment that ended at 1 s while the
    current time is 10 s: more than three target durations behind. *)
Definition farBehindInfo : SegmentInfo :=
  set_si_segment (Some endedSegment) (set_si_playlist shortTarget finishedSegment).

Definition farBehindLoader : SegmentLoader :=
  set_state_ APPENDING (set_pendingSegment_ (Some farBehindInfo) mainLoader).

(** The same segment with the playhead at the double nearest to 1.3 s
    and a target duration of the double nearest to 0.1 s: exactly, the
    segment ends more than three target durations before the playhead;
    in doubles, difference and product are the same number. *)
Definition boundaryEnv : Env :=
  mkEnv (Double.double (13 # 10)) [(100, 200)] 30 true false 6 "open" true false
    [(0, 16)] [(0, 16)] (Some 0) (Some 0) 7 1.

Definition boundaryTarget : Playlist :=
  mkPlaylist 4 (Some "video-1"%string) (Some "video-1.m3u8"%string) 0
    (Some (Double.double (1 # 10))) false [seg 0; seg 1; seg 2; seg 3; seg 4] None.

Definition boundaryInfo : SegmentInfo :=
  set_si_segment (Some endedSegment) (set_si_playlist boundaryTarget finishedSegment).

Definition boundaryLoader : SegmentLoader :=
  set_state_ APPENDING (set_pendingSegment_ (Some boundaryInfo) mainLoader).

(** The main loader appending a sync request. *)
Definition syncRequestInfo : SegmentInfo := set_isSyncRequest true finishedSegment.

Definition syncingLoader : SegmentLoader :=
  set_state_ APPENDING (set_pendingSegment_ (Some syncRequestInfo) mainLoader).




(** Another rendition of the same content. *)
Definition otherRendition : Playlist :=
  mkPlaylist 5 (Some "video-2"%string) (Some "video-2.m3u8"%string) 0 (Some 6) false
    [seg 0; seg 1; seg 2; seg 3; seg 4] None.

(** The main loader with request 1 pending, as the first chunk finds it. *)
Definition requestingLoader : SegmentLoader :=
  set_pendingSegment_ (Some (pendingFor 1)) mainLoader.

End MoreLoaderSamples.
Example parse_16 : IsoBox.parseUint32 IsoBox.loopingBuffer 0 = 16.
Proof. reflexivity. Qed.

Example parse_neg : IsoBox.parseUint32 IsoBox.loopingBuffer 16 = -16.
Proof. reflexivity. Qed.

(** ** The scanner on a size field with the top bit set *)

Section ScannerDivergence.
Import IsoBox.

Lemma scan_S fuel types data offset boxInfo lastCompleted :
  scan (S fuel) types data offset boxInfo lastCompleted =
  if offset <? Z.of_nat (length data) then
    if parseUint32 data offset =? 0 then Some (boxInfo, lastCompleted)
    else
      let '(boxInfo', lastCompleted') :=
        if offset + parseUint32 data offset <=? Z.of_nat (length data) then
          if 0 <=? indexOf types (parseIsoBoxType data (offset + 4))
          then (Some (mkInfo offset true (Some (parseUint32 data offset))), lastCompleted)
          else (boxInfo, offset + parseUint32 data offset)
        else (boxInfo, lastCompleted) in
      scan fuel types data (offset + parseUint32 data offset) boxInfo' lastCompleted'
  else Some (boxInfo, lastCompleted).
Proof. reflexivity. Qed.

Lemma scan_looping_step0 fuel types boxInfo lastCompleted :
  exists boxInfo' lastCompleted',
    scan (S fuel) types loopingBuffer 0 boxInfo lastCompleted
    = scan fuel types loopingBuffer 16 boxInfo' lastCompleted'.
Proof.
  rewrite scan_S. change (parseUint32 loopingBuffer 0) with 16.
  change (0 <? Z.of_nat (length loopingBuffer)) with true.
  change (0 + 16 <=? Z.of_nat (length loopingBuffer)) with true.
  cbn [Z.eqb Z.add].
  destruct (0 <=? indexOf types _); eauto.
Qed.

Lemma scan_looping_step16 fuel types boxInfo lastCompleted :
  exists boxInfo' lastCompleted',
    scan (S fuel) types loopingBuffer 16 boxInfo lastCompleted
    = scan fuel types loopingBuffer 0 boxInfo' lastCompleted'.
Proof.
  rewrite scan_S. change (parseUint32 loopingBuffer 16) with (-16).
  change (16 <? Z.of_nat (length loopingBuffer)) with true.
  change (16 + -16 <=? Z.of_nat (length loopingBuffer)) with true.
  change (16 + -16) with 0. cbn [Z.eqb].
  destruct (0 <=? indexOf types _); eauto.
Qed.

Lemma scan_looping_both fuel types :
  forall boxInfo lastCompleted,
    scan fuel types loopingBuffer 0 boxInfo lastCompleted = None /\
    scan fuel types loopingBuffer 16 boxInfo lastCompleted = None.
Proof.
  induction fuel as [|fuel IH]; intros boxInfo lastCompleted; [easy|].
  split.
  - destruct (scan_looping_step0 fuel types boxInfo lastCompleted) as (b & l & ->).
    apply IH.
  - destruct (scan_looping_step16 fuel types boxInfo lastCompleted) as (b & l & ->).
    apply IH.
Qed.

(** C10. The scanner does not terminate on every buffer: on
    [loopingBuffer] the parsed size of the second box is [-16] (the final
    [|] of [parseUint32] turns [0xFFFFFFF0] into a signed int32), the scan
    offset goes 0, 16, 0, 16, ... and no amount of fuel lets the loop
    exit, whatever the box types searched for. *)
Theorem findLastTopIsoBoxCompleted_diverges :
  forall fuel types,
    parseUint32 loopingBuffer 16 = -16 /\
    findLastTopIsoBoxCompleted fuel types (Some loopingBuffer) (Some 0) = None.
Proof.
  intros fuel types. split; [reflexivity|].
  unfold findLastTopIsoBoxCompleted.
  change (Z.of_nat (length loopingBuffer) <=? 0 + 8) with false. cbn iota.
  destruct (scan_looping_both fuel types None 0) as [-> _]. reflexivity.
Qed.

End ScannerDivergence.

Section FetchExamples.
Import IsoBox Fetch Boxes Samples.

Example oneFragment_chunks :
  chunksOf (callsOf (run 10 (audioSegmentFetch videoSegment) oneFragment))
  = [ser moofBox ++ ser mdatBox1].
Proof. vm_compute. reflexivity. Qed.

Example twoFragments_trackInfo :
  trackInfoCalls (callsOf (run 10 (audioSegmentFetch videoSegment) twoFragments)) = 2%nat.
Proof. vm_compute. reflexivity. Qed.

End FetchExamples.

(** ** Reading a big-endian size and a box type *)

(** Deciding a comparison that arithmetic settles. *)
Ltac ztrue e :=
  let H := fresh in
  assert (H : e = true)
    by (first [apply Z.ltb_lt | apply Z.leb_le | apply Z.eqb_eq]; lia);
  rewrite H; clear H.

Ltac zfalse e :=
  let H := fresh in
  assert (H : e = false)
    by (first [apply Z.ltb_ge | apply Z.leb_gt | apply Z.eqb_neq]; lia);
  rewrite H; clear H.

Section ByteLemmas.
Import IsoBox Boxes.

Lemma byteZ_range b : 0 <= byteZ b < 256.
Proof. unfold byteZ. pose proof (Byte.to_N_bounded b). lia. Qed.

Lemma byteZ_byteOfZ z : 0 <= z < 256 -> byteZ (byteOfZ z) = z.
Proof.
  intros Hz. unfold byteZ, byteOfZ.
  destruct (Byte.of_N (Z.to_N z)) as [b|] eqn:E.
  - apply Byte.to_of_N in E. cbn. lia.
  - apply Byte.of_N_None_iff in E. lia.
Qed.

Lemma at_nil i : at_ [] i = None.
Proof. unfold at_. destruct (_ && _); reflexivity. Qed.

Lemma at_cons_0 x l : at_ (x :: l) 0 = Some (byteZ x).
Proof. unfold at_. cbn [length]. rewrite Nat2Z.inj_succ.
  ztrue (0 <? Z.succ (Z.of_nat (length l))). reflexivity. Qed.

Lemma at_cons_succ x l i : 0 <= i -> at_ (x :: l) (i + 1) = at_ l i.
Proof.
  intros Hi. unfold at_. cbn [length]. rewrite Nat2Z.inj_succ.
  ztrue (0 <=? i + 1). ztrue (0 <=? i). cbn [andb].
  destruct (Z.ltb_spec i (Z.of_nat (length l))).
  - ztrue (i + 1 <? Z.succ (Z.of_nat (length l))).
    replace (Z.to_nat (i + 1)) with (S (Z.to_nat i)) by lia. reflexivity.
  - zfalse (i + 1 <? Z.succ (Z.of_nat (length l))). reflexivity.
Qed.

Lemma at_app_r pre l i :
  0 <= i -> at_ (pre ++ l) (Z.of_nat (length pre) + i) = at_ l i.
Proof.
  intros Hi. induction pre as [|x pre IH]; cbn [length app].
  - reflexivity.
  - replace (Z.of_nat (S (length pre)) + i) with (Z.of_nat (length pre) + i + 1) by lia.
    rewrite at_cons_succ by lia. exact IH.
Qed.

Lemma at_range data i v : at_ data i = Some v -> 0 <= v < 256.
Proof.
  unfold at_. destruct (_ && _); [|discriminate].
  destruct (data !! Z.to_nat i) as [b|]; cbn; [|discriminate].
  intros [= <-]. apply byteZ_range.
Qed.

Lemma num_at_range data i : 0 <= JS.num (at_ data i) < 256.
Proof.
  destruct (at_ data i) as [v|] eqn:E; cbn; [eapply at_range; eassumption | lia].
Qed.

(** Bits below [2^n] and a multiple of [2^n] do not overlap. *)
Lemma lor_low_high low k n :
  0 <= n -> 0 <= low < 2 ^ n -> Z.lor low (k * 2 ^ n) = low + k * 2 ^ n.
Proof.
  intros Hn Hlow.
  assert (Hland : Z.land low (k * 2 ^ n) = 0).
  { apply Z.bits_inj'. intros m Hm. rewrite Z.land_spec, Z.bits_0.
    destruct (Z.lt_ge_cases m n) as [Hlt|Hge].
    - rewrite Z.mul_pow2_bits_low by lia. apply andb_false_r.
    - rewrite <- (Z.mod_small low (2 ^ n)) by lia.
      rewrite Z.mod_pow2_bits_high by lia. reflexivity. }
  rewrite Z.add_nocarry_lxor by exact Hland. symmetry. apply Z.lxor_lor. exact Hland.
Qed.

Lemma ToInt32_small x : - 2 ^ 31 <= x < 2 ^ 31 -> JS.ToInt32 x = x.
Proof.
  intros Hx. unfold JS.ToInt32. rewrite Z.mod_small; lia.
Qed.

(** The value [parseUint32] computes from the four bytes it reads, when
    the first of them has its top bit clear. *)
Lemma combine_bytes a b c d :
  0 <= a < 128 -> 0 <= b < 256 -> 0 <= c < 256 -> 0 <= d < 256 ->
  JS.bor (JS.bor (JS.bor (JS.ushr0 d) (JS.ushr0 (JS.shl (Some c) 8)))
                 (JS.ushr0 (JS.shl (Some b) 16)))
         (JS.ushr0 (JS.shl (Some a) 24))
  = a * 2 ^ 24 + b * 2 ^ 16 + c * 2 ^ 8 + d.
Proof.
  intros Ha Hb Hc Hd.
  assert (Hshl : forall x k, 0 <= x < 256 -> 0 <= k <= 24 -> x * 2 ^ k < 2 ^ 31 ->
            JS.ushr0 (JS.shl (Some x) k) = x * 2 ^ k).
  { intros x k Hx Hk Hlt. unfold JS.ushr0, JS.shl, JS.ToUint32.
    change (JS.num (Some x)) with x.
    rewrite (ToInt32_small x) by lia. rewrite Z.shiftl_mul_pow2 by lia.
    assert (0 <= x * 2 ^ k) by (apply Z.mul_nonneg_nonneg; lia).
    rewrite ToInt32_small by lia. apply Z.mod_small. lia. }
  rewrite (Hshl c 8), (Hshl b 16), (Hshl a 24) by lia.
  unfold JS.ushr0, JS.ToUint32. rewrite (Z.mod_small d) by lia.
  unfold JS.bor.
  rewrite (ToInt32_small d), (ToInt32_small (c * 2 ^ 8)) by lia.
  rewrite (lor_low_high d c 8) by lia.
  rewrite (ToInt32_small (d + c * 2 ^ 8)), (ToInt32_small (b * 2 ^ 16)) by lia.
  rewrite (lor_low_high (d + c * 2 ^ 8) b 16) by lia.
  rewrite (ToInt32_small (d + c * 2 ^ 8 + b * 2 ^ 16)), (ToInt32_small (a * 2 ^ 24)) by lia.
  rewrite (lor_low_high _ a 24) by lia. lia.
Qed.

Lemma parseUint32_value data offset :
  JS.num (at_ data offset) < 128 ->
  parseUint32 data offset
  = JS.num (at_ data offset) * 2 ^ 24 + JS.num (at_ data (offset + 1)) * 2 ^ 16
    + JS.num (at_ data (offset + 2)) * 2 ^ 8 + JS.num (at_ data (offset + 3)).
Proof.
  intros Htop. unfold parseUint32.
  pose proof (num_at_range data offset). pose proof (num_at_range data (offset + 1)).
  pose proof (num_at_range data (offset + 2)). pose proof (num_at_range data (offset + 3)).
  rewrite <- (combine_bytes (JS.num (at_ data offset)) (JS.num (at_ data (offset + 1)))
                (JS.num (at_ data (offset + 2))) (JS.num (at_ data (offset + 3)))) by lia.
  unfold JS.shl. reflexivity.
Qed.

End ByteLemmas.

(** ** The scanner on a stream of boxes *)

Section BoxParsing.
Import IsoBox Boxes.

Lemma at_app_r0 pre l : at_ (pre ++ l) (Z.of_nat (length pre)) = at_ l 0.
Proof. rewrite <- (at_app_r pre l 0) by lia. f_equal. lia. Qed.

Lemma at_1 x0 x1 l : at_ (x0 :: x1 :: l) 1 = Some (byteZ x1).
Proof. change 1 with (0 + 1). rewrite at_cons_succ by lia. apply at_cons_0. Qed.

Lemma at_2 x0 x1 x2 l : at_ (x0 :: x1 :: x2 :: l) 2 = Some (byteZ x2).
Proof. change 2 with (1 + 1). rewrite at_cons_succ by lia. apply at_1. Qed.

Lemma at_3 x0 x1 x2 x3 l : at_ (x0 :: x1 :: x2 :: x3 :: l) 3 = Some (byteZ x3).
Proof. change 3 with (2 + 1). rewrite at_cons_succ by lia. apply at_2. Qed.

Lemma at_one_1 x0 : at_ [x0] 1 = None.
Proof. change 1 with (0 + 1). rewrite at_cons_succ by lia. apply at_nil. Qed.

Lemma at_two_2 x0 x1 : at_ [x0; x1] 2 = None.
Proof. change 2 with (1 + 1). rewrite at_cons_succ by lia. apply at_one_1. Qed.

Lemma at_three_3 x0 x1 x2 : at_ [x0; x1; x2] 3 = None.
Proof. change 3 with (2 + 1). rewrite at_cons_succ by lia. apply at_two_2. Qed.

Lemma at_one_2 x0 : at_ [x0] 2 = None.
Proof. change 2 with (1 + 1). rewrite at_cons_succ by lia. apply at_nil. Qed.

Lemma at_one_3 x0 : at_ [x0] 3 = None.
Proof. change 3 with (2 + 1). rewrite at_cons_succ by lia. apply at_nil. Qed.

Lemma at_two_3 x0 x1 : at_ [x0; x1] 3 = None.
Proof. change 3 with (2 + 1). rewrite at_cons_succ by lia. apply at_one_2. Qed.

Lemma boxSize_min b : 8 <= boxSize b.
Proof. unfold boxSize. lia. Qed.

Lemma length_ser b : Z.of_nat (length (ser b)) = boxSize b.
Proof.
  unfold ser, boxSize, typeBytes, be32. destruct (box_type b) as [[[t0 t1] t2] t3].
  rewrite !length_app. cbn [length]. lia.
Qed.

Lemma length_serAll_cons b bs :
  Z.of_nat (length (serAll (b :: bs))) = boxSize b + Z.of_nat (length (serAll bs)).
Proof.
  unfold serAll. cbn [List.map concat]. rewrite length_app, Nat2Z.inj_add, length_ser.
  reflexivity.
Qed.

Lemma serAll_app bs1 bs2 : serAll (bs1 ++ bs2) = serAll bs1 ++ serAll bs2.
Proof. unfold serAll. rewrite List.map_app. apply concat_app. Qed.

Lemma serAll_cons b bs : serAll (b :: bs) = ser b ++ serAll bs.
Proof. reflexivity. Qed.

Lemma length_serAll_boxes bs : 8 * Z.of_nat (length bs) <= Z.of_nat (length (serAll bs)).
Proof.
  induction bs as [|b bs IH]; [cbn; lia|].
  rewrite length_serAll_cons. pose proof (boxSize_min b). cbn [length]. lia.
Qed.

(** The four size bytes of a well-formed box. *)
Lemma be32_bytes n :
  0 <= n < 2 ^ 31 ->
  exists s0 s1 s2 s3,
    be32 n = [s0; s1; s2; s3] /\
    byteZ s0 < 128 /\
    byteZ s0 * 2 ^ 24 + byteZ s1 * 2 ^ 16 + byteZ s2 * 2 ^ 8 + byteZ s3 = n.
Proof.
  intros Hn. unfold be32. do 4 eexists. split; [reflexivity|].
  change (2 ^ 31) with 2147483648 in Hn.
  change (2 ^ 24) with 16777216. change (2 ^ 16) with 65536. change (2 ^ 8) with 256.
  rewrite !byteZ_byteOfZ by (Z.div_mod_to_equations; lia).
  Z.div_mod_to_equations; lia.
Qed.

Lemma parse_complete pre b rest :
  wf b -> parseUint32 (pre ++ ser b ++ rest) (Z.of_nat (length pre)) = boxSize b.
Proof.
  intros Hwf. pose proof (boxSize_min b) as Hmin.
  destruct (be32_bytes (boxSize b)) as (s0 & s1 & s2 & s3 & Hbe & Htop & Hsum);
    [unfold wf in Hwf; lia|].
  assert (Hat : forall i, 0 <= i ->
            at_ (pre ++ ser b ++ rest) (Z.of_nat (length pre) + i)
            = at_ (s0 :: s1 :: s2 :: s3 :: (typeBytes b ++ payload b) ++ rest) i).
  { intros i Hi. rewrite at_app_r by lia. unfold ser. rewrite Hbe.
    rewrite <- !app_assoc. reflexivity. }
  assert (Hat0 : at_ (pre ++ ser b ++ rest) (Z.of_nat (length pre)) = Some (byteZ s0)).
  { rewrite <- (Z.add_0_r (Z.of_nat (length pre))), Hat by lia. apply at_cons_0. }
  rewrite parseUint32_value by (rewrite Hat0; exact Htop).
  rewrite Hat0, !Hat by lia. rewrite at_1, at_2, at_3. exact Hsum.
Qed.

Lemma fromCharCode_byte t :
  JS.fromCharCode (Some (byteZ t)) = String (Ascii.ascii_of_byte t) EmptyString.
Proof. destruct t; reflexivity. Qed.

Lemma is_m t : Ascii.eqb "m"%char (Ascii.ascii_of_byte t) = Byte.eqb t Byte.x6d.
Proof. destruct t; reflexivity. Qed.
Lemma is_d t : Ascii.eqb "d"%char (Ascii.ascii_of_byte t) = Byte.eqb t Byte.x64.
Proof. destruct t; reflexivity. Qed.
Lemma is_a t : Ascii.eqb "a"%char (Ascii.ascii_of_byte t) = Byte.eqb t Byte.x61.
Proof. destruct t; reflexivity. Qed.
Lemma is_t t : Ascii.eqb "t"%char (Ascii.ascii_of_byte t) = Byte.eqb t Byte.x74.
Proof. destruct t; reflexivity. Qed.

Lemma mdat_string a0 a1 a2 a3 :
  String.eqb "mdat"
    (String a0 EmptyString +:+ String a1 EmptyString +:+
     String a2 EmptyString +:+ String a3 EmptyString)
  = Ascii.eqb "m"%char a0 && Ascii.eqb "d"%char a1
    && Ascii.eqb "a"%char a2 && Ascii.eqb "t"%char a3.
Proof.
  change (String a0 EmptyString +:+ String a1 EmptyString +:+
          String a2 EmptyString +:+ String a3 EmptyString)
    with (String a0 (String a1 (String a2 (String a3 EmptyString)))).
  cbn [String.eqb].
  destruct (Ascii.eqb "m" a0), (Ascii.eqb "d" a1), (Ascii.eqb "a" a2), (Ascii.eqb "t" a3);
    reflexivity.
Qed.

Lemma type_complete pre b rest :
  (0 <=? indexOf ["mdat"%string]
           (parseIsoBoxType (pre ++ ser b ++ rest) (Z.of_nat (length pre) + 4)))
  = is_mdat b.
Proof.
  unfold ser, typeBytes, is_mdat, be32. destruct (box_type b) as [[[t0 t1] t2] t3].
  set (hdr := [_; _; _; _]).
  assert (Hat : forall i, 0 <= i ->
            at_ (pre ++ (hdr ++ [t0; t1; t2; t3] ++ payload b) ++ rest)
                (Z.of_nat (length pre) + 4 + i)
            = at_ (t0 :: t1 :: t2 :: t3 :: payload b ++ rest) i).
  { intros i Hi.
    replace (pre ++ (hdr ++ [t0; t1; t2; t3] ++ payload b) ++ rest)
      with ((pre ++ hdr) ++ t0 :: t1 :: t2 :: t3 :: payload b ++ rest)
      by (rewrite <- !app_assoc; reflexivity).
    replace (Z.of_nat (length pre) + 4) with (Z.of_nat (length (pre ++ hdr)))
      by (rewrite length_app; subst hdr; cbn [length]; lia).
    apply at_app_r. lia. }
  unfold parseIsoBoxType.
  rewrite <- (Z.add_0_r (Z.of_nat (length pre) + 4)) at 1.
  rewrite !Hat by lia. rewrite at_cons_0, at_1, at_2, at_3.
  rewrite !fromCharCode_byte.
  unfold indexOf. cbn [indexOf_from]. rewrite mdat_string.
  rewrite is_m, is_d, is_a, is_t.
  destruct (Byte.eqb t0 _), (Byte.eqb t1 _), (Byte.eqb t2 _), (Byte.eqb t3 _); reflexivity.
Qed.

(** What is read at the start of a box that has not arrived in full:
    the parsed size is zero, or it reaches beyond the bytes present. *)
Lemma parse_dangling pre p :
  dangling p -> p <> [] ->
  let s := parseUint32 (pre ++ p) (Z.of_nat (length pre)) in
  s = 0 \/ Z.of_nat (length p) < s.
Proof.
  intros (b & k & Hwf & Hk & ->) Hne. cbn zeta.
  pose proof (boxSize_min b) as Hmin. pose proof (length_ser b) as Hlen.
  destruct (be32_bytes (boxSize b)) as (s0 & s1 & s2 & s3 & Hbe & Htop & Hsum);
    [unfold wf in Hwf; lia|].
  pose proof (byteZ_range s0). pose proof (byteZ_range s1).
  pose proof (byteZ_range s2). pose proof (byteZ_range s3).
  assert (Hser : ser b = s0 :: s1 :: s2 :: s3 :: typeBytes b ++ payload b).
  { unfold ser. rewrite Hbe. reflexivity. }
  rewrite Hser in *.
  assert (Hat : forall q i, 0 <= i ->
            at_ (pre ++ q) (Z.of_nat (length pre) + i) = at_ q i).
  { intros q i Hi. apply at_app_r. lia. }
  assert (Hval : forall q, q <> [] -> at_ q 0 = Some (byteZ s0) ->
            parseUint32 (pre ++ q) (Z.of_nat (length pre))
            = byteZ s0 * 2 ^ 24 + JS.num (at_ q 1) * 2 ^ 16
              + JS.num (at_ q 2) * 2 ^ 8 + JS.num (at_ q 3)).
  { intros q Hq Hq0.
    assert (Hq0' : at_ (pre ++ q) (Z.of_nat (length pre)) = Some (byteZ s0)).
    { rewrite <- (Z.add_0_r (Z.of_nat (length pre))), Hat by lia. exact Hq0. }
    rewrite parseUint32_value by (rewrite Hq0'; exact Htop).
    rewrite Hq0', !Hat by lia. reflexivity. }
  change (2 ^ 24) with 16777216 in *. change (2 ^ 16) with 65536 in *.
  change (2 ^ 8) with 256 in *.
  destruct k as [|[|[|[|k]]]]; cbn [take firstn] in *.
  - congruence.
  - rewrite Hval by (congruence || apply at_cons_0).
    rewrite at_one_1, at_one_2, at_one_3. cbn. lia.
  - rewrite Hval by (congruence || apply at_cons_0).
    rewrite at_1, at_two_2, at_two_3. cbn. lia.
  - rewrite Hval by (congruence || apply at_cons_0).
    rewrite at_1, at_2, at_three_3. cbn. lia.
  - rewrite Hval by (congruence || apply at_cons_0).
    rewrite at_1, at_2, at_3. unfold JS.num. cbn [from_option id].
    right. rewrite Hsum. cbn [length] in *. rewrite length_take. lia.
Qed.

End BoxParsing.

Section ScanBoxes.
Import IsoBox Boxes.

Lemma scan_past_end fuel types data offset boxInfo lastCompleted :
  Z.of_nat (length data) <= offset ->
  scan (S fuel) types data offset boxInfo lastCompleted = Some (boxInfo, lastCompleted).
Proof. intros Hoff. rewrite scan_S. zfalse (offset <? Z.of_nat (length data)). reflexivity. Qed.

(** On complete well-formed boxes followed by a box still arriving the
    loop exits, having visited exactly the complete boxes. *)
Lemma scan_boxes bs :
  forall pre boxInfo lastCompleted fuel p,
    Forall wf bs -> dangling p -> (length bs + 2 <= fuel)%nat ->
    scan fuel ["mdat"%string] (pre ++ serAll bs ++ p) (Z.of_nat (length pre))
      boxInfo lastCompleted
    = Some (walk (Z.of_nat (length pre)) bs boxInfo lastCompleted).
Proof.
  induction bs as [|b bs IH]; intros pre boxInfo lastCompleted fuel p Hwf Hp Hfuel.
  - cbn [serAll List.map concat app walk].
    destruct fuel as [|[|fuel]]; [cbn in Hfuel; lia | cbn in Hfuel; lia |].
    destruct p as [|x p'] eqn:Ep.
    + apply scan_past_end. rewrite app_nil_r. lia.
    + rewrite <- Ep in *. assert (Hne : p <> []) by (rewrite Ep; discriminate).
      rewrite scan_S. rewrite length_app, Nat2Z.inj_add.
      assert (0 < Z.of_nat (length p)) by (rewrite Ep; cbn [length]; lia).
      ztrue (Z.of_nat (length pre) <? Z.of_nat (length pre) + Z.of_nat (length p)).
      destruct (parse_dangling pre p Hp Hne) as [Hz|Hbig].
      * rewrite Hz. reflexivity.
      * set (s := parseUint32 (pre ++ p) (Z.of_nat (length pre))) in *.
        zfalse (s =? 0).
        zfalse (Z.of_nat (length pre) + s <=? Z.of_nat (length pre) + Z.of_nat (length p)).
        apply scan_past_end. rewrite length_app, Nat2Z.inj_add. lia.
  - destruct fuel as [|fuel]; [cbn in Hfuel; lia|].
    apply Forall_cons in Hwf as [Hb Hbs].
    pose proof (boxSize_min b) as Hmin. pose proof (length_ser b) as Hlen.
    rewrite serAll_cons, <- app_assoc.
    rewrite scan_S. rewrite parse_complete by exact Hb. rewrite type_complete.
    assert (HL : Z.of_nat (length (pre ++ ser b ++ serAll bs ++ p))
                 = Z.of_nat (length pre) + boxSize b + Z.of_nat (length (serAll bs ++ p))).
    { rewrite !length_app, !Nat2Z.inj_add, Hlen. lia. }
    assert (Hpre : Z.of_nat (length pre) + boxSize b = Z.of_nat (length (pre ++ ser b))).
    { rewrite length_app, Nat2Z.inj_add, Hlen. reflexivity. }
    ztrue (Z.of_nat (length pre) <? Z.of_nat (length (pre ++ ser b ++ serAll bs ++ p))).
    zfalse (boxSize b =? 0).
    ztrue (Z.of_nat (length pre) + boxSize b
           <=? Z.of_nat (length (pre ++ ser b ++ serAll bs ++ p))).
    rewrite (app_assoc pre (ser b)).
    cbn [walk]. destruct (is_mdat b).
    + rewrite Hpre. rewrite IH by (assumption || cbn [length] in Hfuel; lia).
      reflexivity.
    + rewrite Hpre. rewrite IH by (assumption || cbn [length] in Hfuel; lia).
      reflexivity.
Qed.

End ScanBoxes.

(** ** The last media-data box of a list of boxes *)

Section LastMdat.
Import IsoBox Boxes.

Lemma has_mdat_app bs1 bs2 : has_mdat (bs1 ++ bs2) = has_mdat bs1 || has_mdat bs2.
Proof. apply existsb_app. Qed.

Lemma no_mdat_upto bs : has_mdat bs = false -> uptoLastMdat bs = [].
Proof.
  destruct bs as [|b rest]; [reflexivity|]. cbn [has_mdat existsb uptoLastMdat].
  intros Hno. apply orb_false_iff in Hno as [Hb Hrest].
  fold (has_mdat rest) in Hrest. rewrite Hrest, Hb. reflexivity.
Qed.

Lemma no_mdat_after bs : has_mdat bs = false -> afterLastMdat bs = bs.
Proof.
  destruct bs as [|b rest]; [reflexivity|]. cbn [has_mdat existsb afterLastMdat].
  intros Hno. apply orb_false_iff in Hno as [Hb Hrest].
  fold (has_mdat rest) in Hrest. rewrite Hrest, Hb. reflexivity.
Qed.

Lemma upto_after bs : uptoLastMdat bs ++ afterLastMdat bs = bs.
Proof.
  induction bs as [|b rest IH]; [reflexivity|]. cbn [uptoLastMdat afterLastMdat].
  destruct (has_mdat rest); [cbn [app]; rewrite IH; reflexivity|].
  destruct (is_mdat b); reflexivity.
Qed.

Lemma after_no_mdat bs : has_mdat (afterLastMdat bs) = false.
Proof.
  induction bs as [|b rest IH]; [reflexivity|]. cbn [afterLastMdat].
  destruct (has_mdat rest) eqn:Hrest; [exact IH|].
  destruct (is_mdat b) eqn:Hb; [exact Hrest|].
  cbn [has_mdat existsb]. rewrite Hb. exact Hrest.
Qed.

Lemma last_mdat_app_none bs bs2 :
  has_mdat bs2 = false ->
  uptoLastMdat (bs ++ bs2) = uptoLastMdat bs /\
  afterLastMdat (bs ++ bs2) = afterLastMdat bs ++ bs2.
Proof.
  intros Hno. induction bs as [|b rest [IHu IHa]].
  - cbn [app]. rewrite no_mdat_upto, no_mdat_after by exact Hno. split; reflexivity.
  - cbn [app uptoLastMdat afterLastMdat]. rewrite has_mdat_app, Hno, orb_false_r.
    destruct (has_mdat rest); [rewrite IHu, IHa; split; reflexivity|].
    destruct (is_mdat b); split; reflexivity.
Qed.

Lemma last_mdat_app_some bs bs2 :
  has_mdat bs2 = true ->
  uptoLastMdat (bs ++ bs2) = bs ++ uptoLastMdat bs2 /\
  afterLastMdat (bs ++ bs2) = afterLastMdat bs2.
Proof.
  intros Hyes. induction bs as [|b rest [IHu IHa]].
  - split; reflexivity.
  - cbn [app uptoLastMdat afterLastMdat]. rewrite has_mdat_app, Hyes, orb_true_r.
    rewrite IHu, IHa. split; reflexivity.
Qed.

Lemma upto_nonempty bs : has_mdat bs = true -> uptoLastMdat bs <> [].
Proof.
  destruct bs as [|b rest]; [discriminate|]. cbn [has_mdat existsb uptoLastMdat].
  fold (has_mdat rest). destruct (has_mdat rest); [discriminate|].
  rewrite orb_false_r. intros ->. discriminate.
Qed.

Lemma walk_no_mdat bs :
  forall o boxInfo lastCompleted,
    has_mdat bs = false ->
    walk o bs boxInfo lastCompleted
    = (boxInfo, match bs with
                | [] => lastCompleted
                | _ => o + Z.of_nat (length (serAll bs))
                end).
Proof.
  induction bs as [|b rest IH]; intros o boxInfo lastCompleted Hno; [reflexivity|].
  cbn [has_mdat existsb] in Hno. apply orb_false_iff in Hno as [Hb Hrest].
  cbn [walk]. rewrite Hb. rewrite IH by exact Hrest.
  rewrite length_serAll_cons. destruct rest; [cbn; f_equal; lia|f_equal; lia].
Qed.

Lemma walk_mdat bs :
  forall o boxInfo lastCompleted,
    has_mdat bs = true ->
    exists off sz,
      fst (walk o bs boxInfo lastCompleted) = Some (mkInfo off true (Some sz)) /\
      off + sz = o + Z.of_nat (length (serAll (uptoLastMdat bs))).
Proof.
  induction bs as [|b rest IH]; intros o boxInfo lastCompleted Hyes; [discriminate|].
  cbn [has_mdat existsb] in Hyes. fold (has_mdat rest) in Hyes.
  cbn [walk uptoLastMdat].
  destruct (has_mdat rest) eqn:Hrest.
  - destruct (is_mdat b).
    + destruct (IH (o + boxSize b) (Some (mkInfo o true (Some (boxSize b)))) lastCompleted
                  eq_refl) as (off & sz & Hw & Hend).
      exists off, sz. split; [exact Hw|]. rewrite length_serAll_cons. lia.
    + destruct (IH (o + boxSize b) boxInfo (o + boxSize b) eq_refl)
        as (off & sz & Hw & Hend).
      exists off, sz. split; [exact Hw|]. rewrite length_serAll_cons. lia.
  - rewrite orb_false_r in Hyes. rewrite Hyes.
    rewrite walk_no_mdat by exact Hrest. cbn [fst].
    exists o, (boxSize b). split; [reflexivity|].
    rewrite length_serAll_cons. cbn. lia.
Qed.

Lemma mdat_stream_long bs :
  has_mdat bs = true -> Forall mdatNonEmpty bs -> 9 <= Z.of_nat (length (serAll bs)).
Proof.
  induction bs as [|b rest IH]; [discriminate|].
  cbn [has_mdat existsb]. intros Hyes Hne. apply Forall_cons in Hne as [Hb Hrest].
  rewrite length_serAll_cons. pose proof (boxSize_min b).
  destruct (is_mdat b) eqn:Eb.
  - specialize (Hb Eb). unfold boxSize in *.
    destruct (payload b); [congruence|]. cbn [length]. lia.
  - cbn [orb] in Hyes. specialize (IH Hyes Hrest). lia.
Qed.

End LastMdat.

(** ** The transport on a stream of boxes *)

Section TransportOnBoxes.
Import IsoBox Fetch Boxes TransportState.
Context `{Probes}.

Lemma find_on_boxes cs qs p fuel :
  Forall wf qs -> dangling p -> (length qs + 2 <= fuel)%nat ->
  findLastTopIsoBoxCompleted fuel ["mdat"%string]
    (Some (serAll cs ++ serAll qs ++ p)) (Some (Z.of_nat (length (serAll cs))))
  = if Z.of_nat (length (serAll cs ++ serAll qs ++ p)) <=? Z.of_nat (length (serAll cs)) + 8
    then Some (mkInfo 0 false None)
    else match walk (Z.of_nat (length (serAll cs))) qs None 0 with
         | (None, lastCompleted) => Some (mkInfo lastCompleted false None)
         | (Some boxInfo, _) => Some boxInfo
         end.
Proof.
  intros Hwf Hp Hfuel. unfold findLastTopIsoBoxCompleted.
  destruct (_ <=? _); [reflexivity|].
  rewrite scan_boxes by assumption. reflexivity.
Qed.

Lemma chunksOf_app cs1 cs2 : chunksOf (cs1 ++ cs2) = chunksOf cs1 ++ chunksOf cs2.
Proof. apply omap_app. Qed.

(** A complete chunk handed to [handleMediaDataResponse] once the
    initialization section is there: the chunk reaches [chunkFn]. *)
Lemma emit_chunk st data initRcvd fcf now :
  needInit st = false ->
  (exists m tracks, map (segment st) = Some m /\ map_tracks m = Some tracks) ->
  0 < firstChunkReceiveTime st ->
  data <> [] ->
  exists st',
    handleMediaDataResponse st data false (needInit st) initRcvd
      (firstChunkReceiveTime st) fcf now = Returned st' /\
    chunksOf (calls st') = chunksOf (calls st) ++ [data] /\
    remaining st' = remaining st /\ offset st' = offset st /\
    needInit st' = needInit st /\ map (segment st') = map (segment st) /\
    firstChunkReceiveTime st' = firstChunkReceiveTime st.
Proof.
  intros Hni (m & tracks & Hm & Ht) Hfc Hdata.
  unfold handleMediaDataResponse, waitForCompletion.
  ztrue (0 <? firstChunkReceiveTime st). rewrite Hni. cbn [andb orb negb].
  unfold handleSegmentBytes. cbn [segment set_segment map]. rewrite Hm, Ht.
  assert (Hlen : (Z.of_nat (length data) =? 0) = false).
  { apply Z.eqb_neq. destruct data; [congruence|cbn [length]; lia]. }
  rewrite Hlen. cbn [negb andb].
  eexists. split; [reflexivity|].
  cbn [hasAudio hasVideo isMuxed].
  destruct (isSome (tracks !! "audio")), (isSome (tracks !! "video"));
    cbn [andb negb emit set_handled set_segment calls remaining offset needInit segment
         map firstChunkReceiveTime];
    rewrite <- ?app_assoc, ?chunksOf_app; cbn [chunksOf omap app];
    rewrite ?app_nil_r; repeat split; (reflexivity || assumption).
Qed.

Lemma concat_whole a v :
  contents (concatTypedArray a (fresh v)) = contents a ++ v /\
  buffer (concatTypedArray a (fresh v)) = contents a ++ v.
Proof.
  unfold concatTypedArray, byteLength.
  destruct (Z.eqb_spec (Z.of_nat (length (contents a))) 0) as [Hz|Hz].
  - destruct (contents a); [split; reflexivity|cbn [length] in Hz; lia].
  - split; reflexivity.
Qed.

Lemma subarray_prefix a e :
  0 <= e <= byteLength a ->
  contents (subarray a 0 e) = take (Z.to_nat e) (contents a).
Proof.
  intros He. unfold subarray, relIndex. cbn [contents].
  zfalse (0 <? 0). zfalse (e <? 0).
  rewrite (Z.min_l 0) by lia. rewrite (Z.min_l e) by lia.
  rewrite Z.sub_0_r. reflexivity.
Qed.

Lemma subarray_suffix a e :
  0 <= e <= byteLength a ->
  contents (subarray a e (byteLength a)) = drop (Z.to_nat e) (contents a).
Proof.
  intros He. unfold subarray, relIndex. cbn [contents].
  zfalse (e <? 0). zfalse (byteLength a <? 0).
  rewrite (Z.min_l e) by lia. rewrite Z.min_id.
  apply take_ge. rewrite length_drop. unfold byteLength in *. lia.
Qed.

Lemma serAll_nonempty bs : bs <> [] -> serAll bs <> [].
Proof.
  intros Hne Hnil. pose proof (length_serAll_boxes bs) as Hlen.
  rewrite Hnil in Hlen. destruct bs; [congruence|cbn [length] in Hlen; lia].
Qed.

Lemma process_not_found st v fuel now info :
  v <> [] ->
  findLastTopIsoBoxCompleted fuel ["mdat"%string]
    (Some (contents (concatTypedArray (remaining st) (fresh v)))) (Some (offset st))
  = Some info ->
  found info = false ->
  processMediaSegmentData fuel st (Some v) false now
  = Returned (mkState (segment st) (needInit st) (initRcvd st) (firstChunkReceiveTime st)
                (firstChunkFlag st) (segmentDone st)
                (concatTypedArray (remaining st) (fresh v)) (lastCompletedOffset info)
                (segmentTrackAndTimingInfoHandled st) (calls st)).
Proof.
  intros Hv Hfind Hfound. unfold processMediaSegmentData.
  assert (Hvlen : 0 < Z.of_nat (length v)) by (destruct v; [congruence|cbn [length]; lia]).
  ztrue (0 <? Z.of_nat (length v)). rewrite Hfind, Hfound. reflexivity.
Qed.

Lemma process_found st v fuel now info sz X Y :
  v <> [] ->
  findLastTopIsoBoxCompleted fuel ["mdat"%string]
    (Some (contents (concatTypedArray (remaining st) (fresh v)))) (Some (offset st))
  = Some info ->
  found info = true -> size info = Some sz ->
  contents (remaining st) ++ v = X ++ Y ->
  lastCompletedOffset info + sz = Z.of_nat (length X) -> X <> [] ->
  needInit st = false ->
  (exists m tracks, map (segment st) = Some m /\ map_tracks m = Some tracks) ->
  0 <= firstChunkReceiveTime st ->
  exists st',
    processMediaSegmentData fuel st (Some v) false now = Returned st' /\
    chunksOf (calls st') = chunksOf (calls st) ++ [X] /\
    contents (remaining st') = Y /\ offset st' = 0 /\
    needInit st' = false /\ map (segment st') = map (segment st) /\
    0 <= firstChunkReceiveTime st'.
Proof.
  intros Hv Hfind Hfound Hsize Hxy Hend HX Hni Hmap Hfc.
  destruct (concat_whole (remaining st) v) as [Hcont Hbuf].
  unfold processMediaSegmentData.
  assert (Hvlen : 0 < Z.of_nat (length v)) by (destruct v; [congruence|cbn [length]; lia]).
  ztrue (0 <? Z.of_nat (length v)). rewrite Hfind, Hfound, Hsize, Hend.
  set (rem' := concatTypedArray (remaining st) (fresh v)) in *.
  assert (Hlen : byteLength rem' = Z.of_nat (length X) + Z.of_nat (length Y)).
  { unfold byteLength. rewrite Hcont, Hxy, length_app. lia. }
  set (fc := if firstChunkReceiveTime st =? 0 then (Z.pos now, true)
             else (firstChunkReceiveTime st, false)).
  assert (Hfcpos : 0 < fst fc).
  { subst fc. destruct (Z.eqb_spec (firstChunkReceiveTime st) 0); cbn [fst]; lia. }
  destruct fc as [fcrt fcf]. cbn [fst] in Hfcpos.
  destruct (Z.eqb_spec (Z.of_nat (length X)) (byteLength rem')) as [Heq|Hneq].
  - assert (HY : Y = []) by (destruct Y; [reflexivity|cbn [length] in Hlen; lia]).
    subst Y. rewrite app_nil_r in Hxy.
    cbn [segmentDone needInit initRcvd firstChunkReceiveTime firstChunkFlag].
    rewrite Hbuf, Hxy.
    set (st1 := mkState _ _ _ _ _ _ _ _ _ _).
    destruct (emit_chunk st1 X (initRcvd st) fcf now Hni Hmap Hfcpos HX)
      as (st' & Hrun & Hchunks & Hrem' & Hoff' & Hni' & Hmap' & Hfc').
    cbn [needInit firstChunkReceiveTime st1] in Hrun. rewrite Hrun.
    eexists. split; [reflexivity|].
    cbn [calls remaining offset needInit segment firstChunkReceiveTime].
    rewrite Hchunks, Hrem', Hni', Hmap', Hfc'. subst st1.
    cbn [calls remaining contents fresh needInit segment firstChunkReceiveTime].
    repeat split; (reflexivity || assumption || lia).
  - cbn [segmentDone needInit initRcvd firstChunkReceiveTime firstChunkFlag buffer fresh].
    rewrite subarray_prefix by lia. rewrite Nat2Z.id, Hcont, Hxy, take_app_length.
    set (st1 := mkState _ _ _ _ _ _ _ _ _ _).
    destruct (emit_chunk st1 X (initRcvd st) fcf now Hni Hmap Hfcpos HX)
      as (st' & Hrun & Hchunks & Hrem' & Hoff' & Hni' & Hmap' & Hfc').
    cbn [needInit firstChunkReceiveTime st1] in Hrun. rewrite Hrun.
    eexists. split; [reflexivity|].
    cbn [calls remaining offset needInit segment firstChunkReceiveTime].
    rewrite Hchunks, Hrem', Hni', Hmap', Hfc'. subst st1.
    cbn [calls remaining needInit segment firstChunkReceiveTime].
    rewrite subarray_suffix by lia. rewrite Nat2Z.id, Hcont, Hxy, drop_app_length.
    repeat split; (reflexivity || assumption || lia).
Qed.

(** One read that brings the complete boxes [bs2] and leaves [p']. *)
Lemma step_read st bs p v bs2 p' fuel now :
  Inv st bs p -> Forall wf bs ->
  v <> [] -> p ++ v = serAll bs2 ++ p' ->
  Forall wf bs2 -> Forall mdatNonEmpty bs2 -> dangling p' ->
  (length (contents (remaining st) ++ v) + 2 <= fuel)%nat ->
  exists st',
    processMediaSegmentData fuel st (Some v) false now = Returned st' /\
    Inv st' (bs ++ bs2) p'.
Proof.
  intros (Hch & Hrem & (cs & rs & Hafter & Hoff) & Hni & Hmap & Hfc)
    Hwf Hv Hsplit Hwf2 Hne2 Hp' Hfuel.
  destruct (concat_whole (remaining st) v) as [Hcont Hbuf].
  assert (Hnors : has_mdat (cs ++ rs) = false)
    by (rewrite <- Hafter; apply after_no_mdat).
  rewrite has_mdat_app in Hnors. apply orb_false_iff in Hnors as [Hnocs Hnors].
  assert (Hwfa : Forall wf (cs ++ rs)).
  { rewrite <- Hafter. rewrite <- (upto_after bs) in Hwf.
    apply Forall_app in Hwf. tauto. }
  apply Forall_app in Hwfa as [Hwfcs Hwfrs].
  assert (Hdata : contents (remaining st) ++ v
                  = serAll cs ++ serAll (rs ++ bs2) ++ p').
  { rewrite Hrem, Hafter, !serAll_app, <- !app_assoc, Hsplit. reflexivity. }
  assert (Hboxes : (length (rs ++ bs2) + 2 <= fuel)%nat).
  { pose proof (length_serAll_boxes (rs ++ bs2)) as Hb.
    rewrite Hdata, !length_app in Hfuel. lia. }
  assert (Hfind :
    findLastTopIsoBoxCompleted fuel ["mdat"%string]
      (Some (contents (concatTypedArray (remaining st) (fresh v)))) (Some (offset st))
    = if Z.of_nat (length (serAll cs ++ serAll (rs ++ bs2) ++ p'))
         <=? Z.of_nat (length (serAll cs)) + 8
      then Some (mkInfo 0 false None)
      else match walk (Z.of_nat (length (serAll cs))) (rs ++ bs2) None 0 with
           | (None, lastCompleted) => Some (mkInfo lastCompleted false None)
           | (Some boxInfo, _) => Some boxInfo
           end).
  { rewrite Hcont, Hdata, Hoff. apply find_on_boxes; [apply Forall_app|..]; auto. }
  destruct (Z.leb_spec (Z.of_nat (length (serAll cs ++ serAll (rs ++ bs2) ++ p')))
              (Z.of_nat (length (serAll cs)) + 8)) as [Hshort|Hlong].
  - (* too few bytes after the offset: the scanner reports offset 0 *)
    assert (Hno2 : has_mdat bs2 = false).
    { destruct (has_mdat bs2) eqn:E; [|reflexivity].
      pose proof (mdat_stream_long bs2 E Hne2) as Hlong.
      rewrite !length_app, serAll_app, !length_app in Hshort. lia. }
    destruct (last_mdat_app_none bs bs2 Hno2) as [Hu Ha].
    rewrite (process_not_found st v fuel now _ Hv Hfind eq_refl).
    eexists. split; [reflexivity|].
    unfold Inv. cbn [calls remaining offset needInit segment firstChunkReceiveTime
                       lastCompletedOffset].
    rewrite Hu, Ha, Hcont, Hdata, Hafter.
    repeat split; try assumption.
    + rewrite !serAll_app, <- !app_assoc. reflexivity.
    + exists [], ((cs ++ rs) ++ bs2). split; reflexivity.
  - destruct (has_mdat bs2) eqn:Hyes2.
    + (* a media-data box completed: slice through its end *)
      destruct (last_mdat_app_some bs bs2 Hyes2) as [Hu Ha].
      assert (Hyes : has_mdat (rs ++ bs2) = true)
        by (rewrite has_mdat_app, Hyes2; apply orb_true_r).
      destruct (walk_mdat (rs ++ bs2) (Z.of_nat (length (serAll cs))) None 0 Hyes)
        as (off & sz & Hw & Hend).
      destruct (walk _ _ _ _) as [bi lc]. cbn [fst] in Hw. subst bi.
      destruct (last_mdat_app_some rs bs2 Hyes2) as [Hu' _]. rewrite Hu' in Hend.
      set (X := serAll (afterLastMdat bs ++ uptoLastMdat bs2)).
      set (Y := serAll (afterLastMdat bs2) ++ p').
      assert (HXY : contents (remaining st) ++ v = X ++ Y).
      { subst X Y. rewrite Hdata, Hafter, !serAll_app, <- !app_assoc.
        rewrite <- (upto_after bs2) at 1. rewrite serAll_app, <- !app_assoc.
        reflexivity. }
      assert (HendX : off + sz = Z.of_nat (length X)).
      { subst X. rewrite Hend, Hafter, !serAll_app, !length_app. lia. }
      assert (HX : X <> []).
      { subst X. apply serAll_nonempty. intros Hnil.
        apply app_eq_nil in Hnil as [_ Hnil]. exact (upto_nonempty bs2 Hyes2 Hnil). }
      destruct (process_found st v fuel now _ sz X Y Hv Hfind eq_refl eq_refl HXY HendX HX
                  Hni Hmap Hfc)
        as (st' & Hrun & Hchunks & Hrem' & Hoff' & Hni' & Hmap' & Hfc').
      exists st'. split; [exact Hrun|].
      unfold Inv. rewrite Hchunks, Hrem', Hoff', Hmap', Hu, Ha.
      repeat split; try assumption.
      * rewrite concat_app, Hch. cbn [concat]. rewrite app_nil_r. subst X.
        rewrite <- serAll_app, app_assoc, upto_after. reflexivity.
      * exists [], (afterLastMdat bs2). split; reflexivity.
    + (* only other boxes completed: remember where they end *)
      destruct (last_mdat_app_none bs bs2 Hyes2) as [Hu Ha].
      assert (Hno : has_mdat (rs ++ bs2) = false)
        by (rewrite has_mdat_app, Hnors, Hyes2; reflexivity).
      rewrite walk_no_mdat in Hfind by exact Hno.
      rewrite (process_not_found st v fuel now _ Hv Hfind eq_refl).
      eexists. split; [reflexivity|].
      unfold Inv. cbn [calls remaining offset needInit segment firstChunkReceiveTime
                         lastCompletedOffset].
      rewrite Hu, Ha, Hcont, Hdata, Hafter.
      repeat split; try assumption.
      * rewrite !serAll_app, <- !app_assoc. reflexivity.
      * destruct (rs ++ bs2) as [|q qs] eqn:Eq.
        -- exists [], ((cs ++ rs) ++ bs2). split; reflexivity.
        -- exists ((cs ++ rs) ++ bs2), []. split; [rewrite app_nil_r; reflexivity|].
           rewrite <- app_assoc, Eq, serAll_app, length_app. lia.
Qed.

End TransportOnBoxes.

(** ** Chunks emitted over arbitrary network splits *)

Section ChunkedDelivery.
Import IsoBox Fetch Boxes TransportState.
Context `{Probes}.

Lemma dangling_take p k : dangling p -> dangling (take k p).
Proof.
  intros (b & n & Hwf & Hn & ->). exists b, (min k n).
  split; [exact Hwf|]. split; [lia|]. apply take_take.
Qed.

Lemma ser_nonempty b : ser b <> [].
Proof.
  intros Hnil. pose proof (length_ser b) as Hlen. pose proof (boxSize_min b).
  rewrite Hnil in Hlen. cbn [length] in Hlen. lia.
Qed.

(** A prefix of delivered bytes is itself a sequence of complete boxes
    followed by a box still arriving, and the next bytes complete it. *)
Lemma delivered_split bs' :
  forall d v p',
    delivered (d ++ v) bs' p' ->
    exists bs bs2 p,
      bs' = bs ++ bs2 /\ delivered d bs p /\ p ++ v = serAll bs2 ++ p' /\
      Forall wf bs2 /\ Forall mdatNonEmpty bs2.
Proof.
  induction bs' as [|b bs' IH]; intros d v p' (Hd & Hwf & Hne & Hp).
  - exists [], [], d. cbn [serAll List.map concat app] in *.
    assert (Hdd : dangling d).
    { rewrite <- (take_app_length d v), Hd. apply dangling_take. exact Hp. }
    repeat split; try constructor; assumption.
  - apply Forall_cons in Hwf as [Hb Hwf]. apply Forall_cons in Hne as [Hbn Hne].
    rewrite serAll_cons, <- app_assoc in Hd.
    destruct (List.app_eq_app _ _ _ _ Hd) as [l [[Hd1 Hrest]|[Hser Hv]]].
    + (* [d] reaches past the first box *)
      destruct (IH l v p') as (bs & bs2 & p & -> & (Hl & Hwfl & Hnel & Hpl) & Hpv & Hwf2 & Hne2).
      { repeat split; assumption || (symmetry; exact Hrest). }
      exists (b :: bs), bs2, p. repeat split; auto.
      rewrite Hd1, Hl, serAll_cons, <- app_assoc. reflexivity.
    + (* [d] ends inside the first box *)
      destruct l as [|x l].
      * rewrite app_nil_r in Hser. subst d. cbn [app] in Hv.
        exists [b], bs', []. repeat split; auto.
        -- cbn. rewrite !app_nil_r. reflexivity.
        -- exists b, 0%nat. split; [exact Hb|]. split; [|reflexivity].
           pose proof (ser_nonempty b). destruct (ser b); [congruence|cbn; lia].
      * exists [], (b :: bs'), d. repeat split; auto; try constructor; auto.
        -- exists b, (length d). split; [exact Hb|]. split.
           ++ rewrite Hser, length_app. cbn [length]. lia.
           ++ rewrite Hser, take_app_length. reflexivity.
        -- rewrite serAll_cons, <- app_assoc. rewrite Hser, <- app_assoc, Hv. reflexivity.
Qed.

Lemma run_snoc fuel st evs ev :
  run fuel st (evs ++ [ev])
  = match run fuel st evs with
    | Returned st' => step fuel st' ev
    | other => other
    end.
Proof.
  revert st. induction evs as [|e evs IH]; intros st; cbn [app run].
  - destruct (step fuel st ev); reflexivity.
  - destruct (step fuel st e); [apply IH|reflexivity|reflexivity].
Qed.

Lemma dataOf_snoc evs ev :
  dataOf (evs ++ [ev])
  = dataOf evs ++ match ev with Read (Some v) _ _ => v | _ => [] end.
Proof.
  unfold dataOf. rewrite omap_app, concat_app. f_equal.
  destruct ev as [| [v|] ? ?]; cbn; rewrite ?app_nil_r; reflexivity.
Qed.

Lemma delivered_nil bs p : delivered [] bs p -> bs = [] /\ p = [].
Proof.
  intros (Hd & _). symmetry in Hd. apply app_eq_nil in Hd as [Hbs Hp].
  split; [|exact Hp]. destruct bs as [|b bs]; [reflexivity|].
  rewrite serAll_cons in Hbs. apply app_eq_nil in Hbs as [Hb _].
  destruct (ser_nonempty b Hb).
Qed.

Lemma Inv_start seg : initLoaded seg -> Inv (audioSegmentFetch seg) [] [].
Proof.
  intros (m & bytes & tracks & Hm & Hb & Ht). unfold Inv, audioSegmentFetch.
  cbn [calls remaining offset needInit segment firstChunkReceiveTime].
  rewrite Hm, Hb. repeat split; try reflexivity.
  - exists [], []. split; reflexivity.
  - exists m, tracks. split; [reflexivity|assumption].
Qed.

Lemma Inv_length st bs p d :
  Inv st bs p -> d = serAll bs ++ p ->
  (length (contents (remaining st)) <= length d)%nat.
Proof.
  intros (_ & Hrem & _) ->. rewrite Hrem.
  rewrite <- (upto_after bs) at 2. rewrite serAll_app, !length_app. lia.
Qed.

Lemma run_reads fuel seg evs :
  initLoaded seg -> Forall notDone evs ->
  forall bs p,
    delivered (dataOf evs) bs p ->
    (length (dataOf evs) + 2 <= fuel)%nat ->
    exists st, run fuel (audioSegmentFetch seg) evs = Returned st /\ Inv st bs p.
Proof.
  intros Hseg. induction evs as [|ev evs IH] using rev_ind; intros Hnd bs p Hdel Hfuel.
  - apply delivered_nil in Hdel as [-> ->]. eexists. split; [reflexivity|].
    apply Inv_start. exact Hseg.
  - apply Forall_app in Hnd as [Hnd Hev]. apply Forall_cons in Hev as [Hev _].
    rewrite run_snoc. rewrite dataOf_snoc in Hdel, Hfuel.
    destruct ev as [status response now | [v|] done now].
    + rewrite app_nil_r in Hdel, Hfuel.
      destruct (IH Hnd bs p Hdel Hfuel) as (st & -> & HI).
      exists st. split; [|exact HI]. cbn [step].
      destruct HI as (_ & _ & _ & -> & _). reflexivity.
    + cbn in Hev. subst done.
      destruct v as [|x v].
      * rewrite app_nil_r in Hdel, Hfuel.
        destruct (IH Hnd bs p Hdel Hfuel) as (st & -> & HI).
        exists st. split; [reflexivity|exact HI].
      * destruct (delivered_split bs (dataOf evs) (x :: v) p Hdel)
          as (bs1 & bs2 & p1 & -> & Hdel1 & Hpv & Hwf2 & Hne2).
        destruct (IH Hnd bs1 p1 Hdel1) as (st & -> & HI);
          [rewrite length_app in Hfuel; lia|].
        cbn [step].
        destruct Hdel as (_ & _ & _ & Hp). destruct Hdel1 as (Hd1 & Hwf1 & _ & _).
        apply (step_read st bs1 p1 (x :: v) bs2 p fuel now); auto; try discriminate.
        pose proof (Inv_length st bs1 p1 _ HI Hd1).
        rewrite !length_app in *. lia.
    + cbn in Hev. subst done. rewrite app_nil_r in Hdel, Hfuel.
      destruct (IH Hnd bs p Hdel Hfuel) as (st & -> & HI).
      exists st. split; [reflexivity|exact HI].
Qed.

(** The closing read ([done]) hands what is left to [dataFn]; it never
    produces a chunk. *)
Lemma closing_read_no_chunk fuel st bs p value now :
  Inv st bs p ->
  exists st',
    processMediaSegmentData fuel st value true now = Returned st' /\
    chunksOf (calls st') = chunksOf (calls st).
Proof.
  intros (_ & _ & _ & Hni & (m & tracks & Hm & Ht) & _).
  unfold processMediaSegmentData, handleMediaDataResponse, waitForCompletion.
  cbn [segmentDone needInit initRcvd firstChunkReceiveTime firstChunkFlag segment].
  rewrite Hni. cbn [andb orb negb]. rewrite andb_true_r.
  destruct (0 <? firstChunkReceiveTime st).
  - unfold handleSegmentBytes. cbn [segment set_segment map]. rewrite Hm.
    rewrite andb_false_r. cbn [segmentTrackAndTimingInfoHandled].
    destruct (segmentTrackAndTimingInfoHandled st).
    + rewrite Ht. eexists. split; [reflexivity|].
      cbn [emit calls]. rewrite <- app_assoc, chunksOf_app. cbn. apply app_nil_r.
    + eexists. split; reflexivity.
  - eexists. split; reflexivity.
Qed.

(** C3 (amended). For a stream of well-formed boxes cut into reads
    at arbitrary places, with the initialization section already loaded:
    the fetch returns, the concatenation of the chunks it emitted is
    exactly the serialisation of all boxes up to and including the last
    completely received media-data box (the boxes before each media-data
    box included), everything after that box, in particular the bytes [p]
    of a box still arriving, is still buffered and in no chunk, and the
    closing read adds no chunk. *)
Theorem chunks_rebuild_stream_through_last_mdat :
  forall (seg : Segment) (evs : list NetEvent) (bs : list Box) (p : list Byte.byte)
         (fuel : nat),
    initLoaded seg ->
    Forall notDone evs ->
    delivered (dataOf evs) bs p ->
    (length (dataOf evs) + 2 <= fuel)%nat ->
    exists st,
      run fuel (audioSegmentFetch seg) evs = Returned st /\
      concat (chunksOf (calls st)) = serAll (uptoLastMdat bs) /\
      contents (remaining st) = serAll (afterLastMdat bs) ++ p /\
      forall value now,
        exists st',
          run fuel (audioSegmentFetch seg) (evs ++ [Read value true now]) = Returned st' /\
          chunksOf (calls st') = chunksOf (calls st).
Proof.
  intros seg evs bs p fuel Hseg Hnd Hdel Hfuel.
  destruct (run_reads fuel seg evs Hseg Hnd bs p Hdel Hfuel) as (st & Hrun & HI).
  exists st. split; [exact Hrun|]. destruct HI as (Hch & Hrem & Hrest).
  split; [exact Hch|]. split; [exact Hrem|].
  intros value now. rewrite run_snoc, Hrun. cbn [step].
  apply (closing_read_no_chunk fuel st bs p value now).
  repeat split; assumption || apply Hrest.
Qed.

End ChunkedDelivery.

Section ChunkedDeliveryExamples.
Import IsoBox Fetch Boxes TransportState Samples.

(** A fragment and the first 8 bytes of the next [moof], cut after
    byte 20, with an empty read in between. *)
Lemma chunks_rebuild_stream_witness :
  exists st,
    run 100 (audioSegmentFetch videoSegment) splitReads = Returned st /\
    concat (chunksOf (calls st)) = serAll (uptoLastMdat [moofBox; mdatBox1]) /\
    contents (remaining st)
    = serAll (afterLastMdat [moofBox; mdatBox1]) ++ take 8 (ser moofBox) /\
    forall value now,
      exists st',
        run 100 (audioSegmentFetch videoSegment) (splitReads ++ [Read value true now])
        = Returned st' /\
        chunksOf (calls st') = chunksOf (calls st).
Proof.
  apply (chunks_rebuild_stream_through_last_mdat videoSegment splitReads
           [moofBox; mdatBox1] (take 8 (ser moofBox)) 100).
  - do 3 eexists. repeat split; reflexivity.
  - repeat constructor.
  - split; [vm_compute; reflexivity|]. split; [|split].
    + repeat constructor.
    + repeat constructor; intros _; discriminate.
    + exists moofBox, 8%nat. split; [reflexivity|]. split; [cbn; lia|reflexivity].
  - vm_compute. lia.
Defined.

(** C3 as stated fails: one 16-byte [moof] and one 16-byte [mdat]
    arrive in one read; the single chunk emitted is all 32 bytes, not the
    bytes of the media-data box. *)
Lemma chunks_are_not_the_mdat_boxes :
  exists st,
    run 10 (audioSegmentFetch videoSegment) oneFragment = Returned st /\
    chunksOf (calls st) = [ser moofBox ++ ser mdatBox1] /\
    concat (chunksOf (calls st)) <> serAll (mdatBoxes [moofBox; mdatBox1]).
Proof.
  eexists. split; [vm_compute; reflexivity|]. split; [vm_compute; reflexivity|].
  vm_compute. discriminate.
Qed.

End ChunkedDeliveryExamples.


(** ** Rounding to doubles *)

Section DoubleRounding.
Import Double.
Local Open Scope Q_scope.

Lemma pow2_pos (z : Z) : 0 < 2 ^ z.
Proof. apply Qpower_0_lt. reflexivity. Qed.

Lemma pow2_succ (z : Z) : 2 ^ (z + 1) == 2 * 2 ^ z.
Proof. rewrite Qpower_plus by discriminate. rewrite Qpower_1_r. ring. Qed.

Lemma pow2_le (a b : Z) : (a <= b)%Z -> 2 ^ a <= 2 ^ b.
Proof. intros Hab. apply Qpower_le_compat_l; [exact Hab|discriminate]. Qed.

Lemma pow2_lt_inv (a b : Z) : 2 ^ a < 2 ^ b -> (a < b)%Z.
Proof. intros Hab. apply (Qpower_lt_compat_l_inv 2); [exact Hab|reflexivity]. Qed.

Lemma pow2_inject (z : Z) : (0 <= z)%Z -> inject_Z (2 ^ z) == 2 ^ z.
Proof. intros Hz. rewrite Zpower_Qpower by exact Hz. reflexivity. Qed.

Lemma log2_bounds (n : Z) :
  (0 < n)%Z -> 2 ^ Z.log2 n <= inject_Z n /\ inject_Z n < 2 * 2 ^ Z.log2 n.
Proof.
  intros Hn. destruct (Z.log2_spec n Hn) as [Hlo Hhi].
  pose proof (Z.log2_nonneg n) as Hnn.
  rewrite <- pow2_inject by exact Hnn. split.
  - rewrite <- Zle_Qle. exact Hlo.
  - change 2 with (inject_Z 2) at 1. rewrite <- inject_Z_mult, <- Zlt_Qlt.
    rewrite Z.pow_succ_r in Hhi by exact Hnn. exact Hhi.
Qed.

Lemma ilog2_spec (q : Q) : 0 < q -> 2 ^ ilog2 q <= q /\ q < 2 ^ (ilog2 q + 1).
Proof.
  intros Hq. unfold ilog2.
  set (a := Z.log2 (Qnum q)). set (b := Z.log2 (Zpos (Qden q))).
  assert (Hn : (0 < Qnum q)%Z).
  { destruct q as [n d]. unfold Qlt in Hq. cbn in *. lia. }
  destruct (log2_bounds (Qnum q) Hn) as [Ha1 Ha2].
  destruct (log2_bounds (Zpos (Qden q)) eq_refl) as [Hb1 Hb2].
  fold a in Ha1, Ha2. fold b in Hb1, Hb2.
  pose proof (pow2_pos a) as HA. pose proof (pow2_pos b) as HB.
  assert (Hd : 0 < inject_Z (Zpos (Qden q))) by reflexivity.
  assert (Hqe : q == inject_Z (Qnum q) / inject_Z (Zpos (Qden q))).
  { destruct q as [n d]. cbn [Qnum Qden]. apply Qmake_Qdiv. }
  assert (He : 2 ^ (a - b) == 2 ^ a / 2 ^ b).
  { apply Qpower_minus. discriminate. }
  set (N := inject_Z (Qnum q)) in *. set (D := inject_Z (Zpos (Qden q))) in *.
  set (A := 2 ^ a) in *. set (B := 2 ^ b) in *.
  assert (Hup : q < 2 * 2 ^ (a - b)).
  { rewrite Hqe, He. apply Qlt_shift_div_r; [exact Hd|].
    setoid_replace (2 * (A / B) * D) with ((2 * A * D) / B) using relation Qeq by (field; lra).
    apply Qlt_shift_div_l; [exact HB|]. nra. }
  assert (Hlo : 2 ^ (a - b) < 2 * q).
  { rewrite Hqe, He. apply Qlt_shift_div_r; [exact HB|].
    setoid_replace (2 * (N / D) * B) with ((2 * N * B) / D) using relation Qeq by (field; lra).
    apply Qlt_shift_div_l; [exact Hd|]. nra. }
  destruct (Qle_bool (2 ^ (a - b)) q) eqn:E.
  - apply Qle_bool_iff in E. split; [exact E|]. rewrite pow2_succ. exact Hup.
  - assert (Hlt : q < 2 ^ (a - b)).
    { apply Qnot_le_lt. intros Hle. apply Qle_bool_iff in Hle. congruence. }
    replace (a - b - 1 + 1)%Z with (a - b)%Z by lia. split; [|exact Hlt].
    pose proof (pow2_succ (a - b - 1)) as Hs.
    replace (a - b - 1 + 1)%Z with (a - b)%Z in Hs by lia. lra.
Qed.

Lemma ilog2_mono (x y : Q) : 0 < x -> x <= y -> (ilog2 x <= ilog2 y)%Z.
Proof.
  intros Hx Hxy.
  destruct (ilog2_spec x Hx) as [Hx1 _].
  destruct (ilog2_spec y ltac:(lra)) as [_ Hy2].
  assert (Hlt : 2 ^ ilog2 x < 2 ^ (ilog2 y + 1)) by lra.
  apply pow2_lt_inv in Hlt. lia.
Qed.


Lemma roundEven_bounds (q : Q) :
  (Qfloor q <= roundEven q <= Qfloor q + 1)%Z.
Proof.
  unfold roundEven. destruct (Qcompare _ _); [destruct (Z.even _)| |]; lia.
Qed.

Lemma roundEven_comp (x y : Q) : x == y -> roundEven x = roundEven y.
Proof.
  intros Hxy. unfold roundEven. rewrite (Qfloor_comp x y Hxy).
  assert (Hc : Qcompare (x - inject_Z (Qfloor y)) (1 # 2)
               = Qcompare (y - inject_Z (Qfloor y)) (1 # 2)).
  { apply Qcompare_comp; [rewrite Hxy|]; reflexivity. }
  rewrite Hc. reflexivity.
Qed.

Lemma roundEven_Z (n : Z) : roundEven (inject_Z n) = n.
Proof.
  unfold roundEven. rewrite Qfloor_Z.
  assert (Hc : Qcompare (inject_Z n - inject_Z n) (1 # 2) = Lt).
  { rewrite <- Qlt_alt. ring_simplify. reflexivity. }
  rewrite Hc. reflexivity.
Qed.

Lemma roundEven_mono (x y : Q) : x <= y -> (roundEven x <= roundEven y)%Z.
Proof.
  intros Hxy. pose proof (Qfloor_resp_le x y Hxy) as Hf.
  destruct (Z.eq_dec (Qfloor x) (Qfloor y)) as [Heq|Hne].
  - unfold roundEven. rewrite Heq.
    destruct (Qcompare_spec (x - inject_Z (Qfloor y)) (1 # 2)) as [Hx|Hx|Hx];
      destruct (Qcompare_spec (y - inject_Z (Qfloor y)) (1 # 2)) as [Hy|Hy|Hy];
      try destruct (Z.even (Qfloor y)); try lia; exfalso; lra.
  - pose proof (roundEven_bounds x). pose proof (roundEven_bounds y). lia.
Qed.

Lemma roundTo_mono (ex : Z) (x y : Q) : x <= y -> roundTo ex x <= roundTo ex y.
Proof.
  intros Hxy. unfold roundTo. pose proof (pow2_pos ex) as Hp.
  apply Qmult_le_compat_r; [|lra].
  rewrite <- Zle_Qle. apply roundEven_mono.
  apply Qmult_le_compat_r; [exact Hxy|]. apply Qlt_le_weak, Qinv_lt_0_compat, Hp.
Qed.

(** [roundEven] and [roundTo] pick a nearest point. *)
Lemma roundEven_nearest (q : Q) : Qabs (inject_Z (roundEven q) - q) <= 1 # 2.
Proof.
  apply Qabs_Qle_condition. unfold roundEven.
  pose proof (Qfloor_le q) as Hlo. pose proof (Qlt_floor q) as Hhi.
  rewrite inject_Z_plus in Hhi. change (inject_Z 1) with 1 in Hhi.
  destruct (Qcompare_spec (q - inject_Z (Qfloor q)) (1 # 2)) as [Hc|Hc|Hc];
    [destruct (Z.even (Qfloor q))| |];
    rewrite ?inject_Z_plus; change (inject_Z 1) with 1; split; lra.
Qed.

Lemma roundTo_nearest (ex : Z) (q : Q) : Qabs (roundTo ex q - q) <= 2 ^ ex / 2.
Proof.
  unfold roundTo. pose proof (pow2_pos ex) as Hp.
  pose proof (roundEven_nearest (q / 2 ^ ex)) as Hn.
  apply Qabs_Qle_condition in Hn. destruct Hn as [Hlo Hhi].
  assert (Hq : q == q / 2 ^ ex * 2 ^ ex) by (field; lra).
  set (s := q / 2 ^ ex) in *. set (n := inject_Z (roundEven s)) in *.
  apply Qabs_Qle_condition. rewrite Hq.
  setoid_replace (n * 2 ^ ex - s * 2 ^ ex) with ((n - s) * 2 ^ ex)
    using relation Qeq by ring.
  setoid_replace (- (2 ^ ex / 2)) with (- (1 # 2) * 2 ^ ex)
    using relation Qeq by (field; lra).
  setoid_replace (2 ^ ex / 2) with ((1 # 2) * 2 ^ ex)
    using relation Qeq by (field; lra).
  split; apply Qmult_le_compat_r; lra.
Qed.

(** The doubles nearest to 0.1 and to 1.3; [0.1 + 0.2] and [0.1 * 3]
    are [0.30000000000000004]; a tie goes to the even significand; the
    largest double, and the overflow from half a unit above it; the
    smallest subnormal number, and the underflow of half of it. *)
Example double_known_values :
  double (1 # 10) == 3602879701896397 # 36028797018963968 /\
  double (13 # 10) == 5854679515581645 # 4503599627370496 /\
  double (double (1 # 10) + double (2 # 10)) == 1351079888211149 # 4503599627370496 /\
  double (double (1 # 10) * 3) == 1351079888211149 # 4503599627370496 /\
  double (inject_Z (2 ^ 53 + 1)) == inject_Z (2 ^ 53) /\
  double (inject_Z (2 ^ 53 + 3)) == inject_Z (2 ^ 53 + 4) /\
  double (2 ^ 1024 - 2 ^ 971) == 2 ^ 1024 - 2 ^ 971 /\
  double (2 ^ 1024 - 2 ^ 970) == INF /\
  double (2 ^ (-1074)) == 2 ^ (-1074) /\
  double (2 ^ (-1075)) == 0.
Proof. repeat split; vm_compute; reflexivity. Qed.

(** A power of two at or above the unit of the grid is a point of it. *)
Lemma roundTo_pow2 (ex t : Z) : (ex <= t)%Z -> roundTo ex (2 ^ t) == 2 ^ t.
Proof.
  intros Hle. unfold roundTo.
  assert (Hq : 2 ^ t / 2 ^ ex == inject_Z (2 ^ (t - ex))).
  { rewrite pow2_inject by lia. symmetry. apply Qpower_minus. discriminate. }
  rewrite (roundEven_comp _ _ Hq), roundEven_Z, pow2_inject by lia.
  rewrite Qpower_minus by discriminate. field.
  pose proof (pow2_pos ex). lra.
Qed.

Lemma roundTo_nonneg (ex : Z) (q : Q) : 0 <= q -> 0 <= roundTo ex q.
Proof.
  intros Hq. unfold roundTo. pose proof (pow2_pos ex) as Hp.
  apply Qmult_le_0_compat; [|lra].
  change 0 with (inject_Z 0). rewrite <- Zle_Qle.
  rewrite <- (roundEven_Z 0). apply roundEven_mono.
  apply Qmult_le_0_compat; [exact Hq|]. apply Qlt_le_weak, Qinv_lt_0_compat, Hp.
Qed.

Lemma roundPos_nonneg (q : Q) : 0 <= q -> 0 <= roundPos q.
Proof.
  intros Hq. unfold roundPos. apply Q.min_glb.
  - apply Qlt_le_weak, pow2_pos.
  - apply roundTo_nonneg, Hq.
Qed.

Lemma roundPos_mono (x y : Q) : 0 < x -> x <= y -> roundPos x <= roundPos y.
Proof.
  intros Hx Hxy. unfold roundPos. apply Q.min_le_compat_l.
  pose proof (ilog2_mono x y Hx Hxy) as He.
  unfold ulpExp.
  destruct (Z.eq_dec (Z.max (ilog2 x - 52) (-1074)) (Z.max (ilog2 y - 52) (-1074)))
    as [Heq|Hne].
  - rewrite Heq. apply roundTo_mono, Hxy.
  - destruct (ilog2_spec x Hx) as [_ Hx2].
    destruct (ilog2_spec y ltac:(lra)) as [Hy1 _].
    pose proof (pow2_le (ilog2 x + 1) (ilog2 y) ltac:(lia)) as Hstep.
    apply Qle_trans with (2 ^ ilog2 y).
    + rewrite <- (roundTo_pow2 (Z.max (ilog2 x - 52) (-1074)) (ilog2 y)) by lia.
      apply roundTo_mono. lra.
    + rewrite <- (roundTo_pow2 (Z.max (ilog2 y - 52) (-1074)) (ilog2 y)) at 1 by lia.
      apply roundTo_mono, Hy1.
Qed.

(** Rounding to the nearest binary64 number is monotone. *)
Lemma double_mono (x y : Q) : x <= y -> double x <= double y.
Proof.
  intros Hxy. unfold double. rewrite !Qred_correct.
  destruct (Qcompare_spec x 0) as [Hx|Hx|Hx];
    destruct (Qcompare_spec y 0) as [Hy|Hy|Hy]; try (exfalso; lra).
  - lra.
  - apply roundPos_nonneg. lra.
  - pose proof (roundPos_nonneg (- x) ltac:(lra)). lra.
  - pose proof (roundPos_mono (- y) (- x) ltac:(lra) ltac:(lra)). lra.
  - pose proof (roundPos_nonneg (- x) ltac:(lra)).
    pose proof (roundPos_nonneg y ltac:(lra)). lra.
  - apply roundPos_mono; lra.
Qed.

(** A bound that is itself a double below the overflow threshold. *)
Definition safeBound (B : Q) : Prop :=
  double B == B /\ double (- B) == - B /\ B < INF.

Lemma double_within (q B : Q) :
  safeBound B -> - B <= q <= B -> - B <= double q <= B.
Proof.
  intros (Hp & Hn & _) [Hlo Hhi]. split.
  - rewrite <- Hn. apply double_mono, Hlo.
  - rewrite <- Hp. apply double_mono, Hhi.
Qed.

Lemma finite_within (q B : Q) : B < INF -> - B <= q <= B -> finite q = Some q.
Proof.
  intros HB Hq. unfold finite, isFinite.
  destruct (Qle_bool INF (Qabs q)) eqn:E; [|reflexivity].
  apply Qle_bool_iff in E. exfalso.
  assert (Hab : Qabs q <= B) by (apply Qabs_Qle_condition; exact Hq).
  lra.
Qed.

Lemma rounded_finite (q B : Q) :
  safeBound B -> - B <= q <= B ->
  finite (double q) = Some (double q) /\ - B <= double q <= B.
Proof.
  intros HB Hq. pose proof (double_within q B HB Hq) as Hd.
  split; [|exact Hd]. apply (finite_within _ B); [apply HB|exact Hd].
Qed.

Lemma div_within (a c B : Q) : - B <= a <= B -> 1 <= c -> - B <= a / c <= B.
Proof.
  intros [Hlo Hhi] Hc. split.
  - apply Qle_shift_div_l; [lra|]. nra.
  - apply Qle_shift_div_r; [lra|]. nra.
Qed.

Lemma floor_within (q : Q) (n : Z) :
  - inject_Z n <= q <= inject_Z n -> - inject_Z n <= floor q <= inject_Z n.
Proof.
  intros [Hlo Hhi]. unfold floor. split.
  - rewrite <- inject_Z_opp, <- Zle_Qle. rewrite <- (Qfloor_Z (- n)).
    apply Qfloor_resp_le. rewrite inject_Z_opp. exact Hlo.
  - apply Qle_trans with q; [apply Qfloor_le|exact Hhi].
Qed.

Lemma safeBound_2_53 : safeBound (inject_Z (2 ^ 53)).
Proof. repeat split; vm_compute; reflexivity. Qed.

Lemma safeBound_2_56 : safeBound (inject_Z (2 ^ 56)).
Proof. repeat split; vm_compute; reflexivity. Qed.

Lemma safeBound_2_66 : safeBound (inject_Z (2 ^ 66)).
Proof. repeat split; vm_compute; reflexivity. Qed.

Lemma safeBound_2_1001 : safeBound (2 ^ 1001).
Proof. repeat split; vm_compute; reflexivity. Qed.

Lemma safeBound_2_1002 : safeBound (2 ^ 1002).
Proof. repeat split; vm_compute; reflexivity. Qed.

End DoubleRounding.

(** ** What the completion of a segment leaves untouched *)

Section AppendsDone.
Import TimelineChange Loader.

Lemma kept_log e l : kept (log e l) = kept l.
Proof. reflexivity. Qed.

Lemma state_log e l : state_ (log e l) = state_ l.
Proof. reflexivity. Qed.

Lemma kept_monitorBuffer_ l : kept (monitorBuffer_ l) = kept l.
Proof.
  unfold monitorBuffer_, clearCheckBufferTimeout.
  destruct (checkBufferTimeout_ l) as [t|]; [destruct (truthyZ (Some t))|]; reflexivity.
Qed.

Lemma kept_setState s l : kept (setState s l) = kept l.
Proof. unfold setState. destruct (negb _); reflexivity. Qed.

Lemma state_setState s l : state_ (setState s l) = s.
Proof.
  unfold setState. destruct (LoaderState_eqb s (state_ l)) eqn:E; [|reflexivity].
  cbn [negb]. destruct s, (state_ l); try discriminate; reflexivity.
Qed.

Lemma kept_pause l : kept (pause l) = kept l.
Proof.
  unfold pause. destruct (checkBufferTimeout_ l) as [t|]; [destruct (truthyZ (Some t))|];
    reflexivity.
Qed.

Lemma state_pause l : state_ (pause l) = state_ l.
Proof.
  unfold pause. destruct (checkBufferTimeout_ l) as [t|]; [destruct (truthyZ (Some t))|];
    reflexivity.
Qed.

Lemma foldl_log_kept (f : string -> Effect) tracks :
  forall l, kept (foldl (fun l track => log (f track) l) l tracks) = kept l /\
            state_ (foldl (fun l track => log (f track) l) l tracks) = state_ l.
Proof.
  induction tracks as [|t tracks IH]; intros l; [split; reflexivity|].
  cbn [foldl]. destruct (IH (log (f t) l)) as [-> ->]. split; reflexivity.
Qed.

Lemma kept_remove env s e l : kept (remove env s e l) = kept l /\
                              state_ (remove env s e l) = state_ l.
Proof.
  unfold remove. destruct (currentMediaInfo_ l) as [info|]; [|split; reflexivity].
  set (l1 := if negb (audioDisabled_ l) then _ else l).
  assert (H1 : kept l1 = kept l /\ state_ l1 = state_ l)
    by (subst l1; destruct (negb (audioDisabled_ l)); split; reflexivity).
  set (l2 := if _ && _ then _ else l1).
  assert (H2 : kept l2 = kept l /\ state_ l2 = state_ l)
    by (subst l2; destruct (_ && _); [rewrite !kept_log, !state_log|]; exact H1).
  rewrite kept_log, state_log.
  match goal with |- kept (foldl (fun l track => log (@?f track) l) _ _) = _ /\ _ =>
    destruct (foldl_log_kept f (inbandTextTracks_ l2) l2) as [F1 F2] end.
  rewrite F1, F2. exact H2.
Qed.

Lemma kept_abort_idle l : state_ l <> WAITING -> kept (abort l) = kept l /\
                                                  state_ (abort l) = state_ l.
Proof.
  intros Hst. unfold abort.
  assert (Hidle : negb (LoaderState_eqb (state_ l) WAITING) = true)
    by (destruct (state_ l); try reflexivity; congruence).
  rewrite Hidle. destruct (pendingSegment_ l); split; reflexivity.
Qed.

Lemma kept_resyncLoader l :
  state_ l <> WAITING -> kept (resyncLoader l) = kept l /\
                         state_ (resyncLoader l) = state_ l.
Proof.
  intros Hst. unfold resyncLoader. rewrite kept_log, state_log.
  match goal with |- kept (abort ?x) = _ /\ _ =>
    destruct (kept_abort_idle x Hst) as [-> ->] end.
  split; reflexivity.
Qed.

Lemma kept_resetEverything env l :
  state_ l <> WAITING -> kept (resetEverything env l) = kept l.
Proof.
  intros Hst. unfold resetEverything, resetLoader. rewrite kept_log.
  rewrite (proj1 (kept_remove env 0%Q None _)).
  match goal with |- kept (resyncLoader ?x) = _ =>
    rewrite (proj1 (kept_resyncLoader x Hst)) end.
  reflexivity.
Qed.

Lemma kept_addSegmentMetadataCue_ seg l : kept (addSegmentMetadataCue_ seg l) = kept l.
Proof.
  unfold addSegmentMetadataCue_. destruct (negb _); [reflexivity|].
  destruct (seg_start seg), (seg_end seg); reflexivity.
Qed.

Lemma state_addSegmentMetadataCue_ seg l :
  state_ (addSegmentMetadataCue_ seg l) = state_ l.
Proof.
  unfold addSegmentMetadataCue_. destruct (negb _); [reflexivity|].
  destruct (seg_start seg), (seg_end seg); reflexivity.
Qed.

Lemma kept_endOfStream l : kept (endOfStream l) = kept l.
Proof.
  unfold endOfStream. rewrite kept_log, kept_pause.
  reflexivity.
Qed.

(** The controller and the throughput after [handleAppendsDone_] with a
    pending segment: the throughput is recorded once, and a change of
    timeline (not for a sync request) is recorded as the last change of
    this loader's type. *)
Lemma handleAppendsDone_kept env l segmentInfo l' :
  pendingSegment_ l = Some segmentInfo ->
  handleAppendsDone_ env l = Some l' ->
  throughput l' = throughput (recordThroughput_ (now env) segmentInfo l) /\
  (isSyncRequest segmentInfo = false -> currentTimeline_ l <> si_timeline segmentInfo ->
   lastTimelineChange (timelineChangeController_ l') (loaderType_ l)
   = Some (mkChange (loaderType_ l) (currentTimeline_ l) (si_timeline segmentInfo))).
Proof.
  intros Hpend. unfold handleAppendsDone_. rewrite Hpend.
  destruct (si_segment segmentInfo) as [segment|]; [|discriminate].
  set (l1 := setState READY _).
  assert (K1 : kept l1 = (timelineChangeController_ l,
                         throughput (recordThroughput_ (now env) segmentInfo l))).
  { subst l1. rewrite kept_setState.
    destruct (shouldSaveSegmentTimingInfo_ _); reflexivity. }
  assert (S1 : state_ l1 = READY) by apply state_setState.
  assert (T1 : loaderType_ l1 = loaderType_ l /\ currentTimeline_ l1 = currentTimeline_ l /\
               audioDisabled_ l1 = audioDisabled_ l).
  { subst l1. unfold setState.
    destruct (negb _), (shouldSaveSegmentTimingInfo_ _); repeat split. }
  destruct T1 as (T1 & C1 & A1).
  destruct (isSyncRequest segmentInfo) eqn:Hsync.
  - intros [= <-]. split; [|discriminate].
    assert (Ht : throughput (log (Trigger "syncinfoupdate") l1) = snd (kept l1))
      by reflexivity.
    rewrite Ht, K1. reflexivity.
  - set (l2 := set_fetchAtBuffer_ true (addSegmentMetadataCue_ segment l1)).
    assert (K2 : kept l2 = kept l1) by (subst l2; apply kept_addSegmentMetadataCue_).
    assert (S2 : state_ l2 = READY)
      by (subst l2; cbn; rewrite state_addSegmentMetadataCue_; exact S1).
    assert (T2 : loaderType_ l2 = loaderType_ l /\ currentTimeline_ l2 = currentTimeline_ l /\
                 audioDisabled_ l2 = audioDisabled_ l).
    { subst l2. unfold addSegmentMetadataCue_.
      destruct (negb _); [|destruct (seg_start segment), (seg_end segment)]; cbn;
        repeat split; assumption. }
    destruct T2 as (T2 & C2 & A2).
    set (l3 := set_currentTimeline_ _ _).
    set (expected := if negb (currentTimeline_ l =? si_timeline segmentInfo) then
                       let c := recordLastTimelineChange (timelineChangeController_ l)
                                  (loaderType_ l) (currentTimeline_ l)
                                  (si_timeline segmentInfo) in
                       if String.eqb (loaderType_ l) "main" && negb (audioDisabled_ l)
                       then recordLastTimelineChange c "audio" (currentTimeline_ l)
                              (si_timeline segmentInfo)
                       else c
                     else timelineChangeController_ l).
    assert (K3 : kept l3 = (expected,
                           throughput (recordThroughput_ (now env) segmentInfo l))).
    { assert (K2' : kept l2 = (timelineChangeController_ l,
                               throughput (recordThroughput_ (now env) segmentInfo l)))
        by (rewrite K2; exact K1).
      assert (TC2 : timelineChangeController_ l2 = timelineChangeController_ l)
        by exact (f_equal fst K2').
      assert (TH2 : throughput l2 = throughput (recordThroughput_ (now env) segmentInfo l))
        by exact (f_equal snd K2').
      subst l3 expected. rewrite C2, T2, A2. unfold kept.
      destruct (negb (currentTimeline_ l =? si_timeline segmentInfo));
        cbn [timelineChangeController_ throughput set_currentTimeline_
             set_timelineChangeController_];
        rewrite ?TC2, ?TH2; reflexivity. }
    assert (S3 : state_ l3 = READY).
    { subst l3. rewrite C2.
      destruct (negb (currentTimeline_ l =? si_timeline segmentInfo));
        cbn [state_ set_currentTimeline_ set_timelineChangeController_]; exact S2. }
    assert (Hlast : currentTimeline_ l <> si_timeline segmentInfo ->
              lastTimelineChange expected (loaderType_ l)
              = Some (mkChange (loaderType_ l) (currentTimeline_ l)
                        (si_timeline segmentInfo))).
    { intros Hne. subst expected.
      zfalse (currentTimeline_ l =? si_timeline segmentInfo). cbn [negb].
      unfold lastTimelineChange, recordLastTimelineChange. cbn.
      destruct (String.eqb (loaderType_ l) "main" && negb (audioDisabled_ l)) eqn:Em; cbn.
      - apply andb_true_iff in Em as [Em _]. apply String.eqb_eq in Em.
        rewrite lookup_insert_ne by (rewrite Em; discriminate). apply lookup_insert_eq.
      - apply lookup_insert_eq. }
    assert (Hfinish : forall r, kept r = kept l3 ->
              throughput r = throughput (recordThroughput_ (now env) segmentInfo l) /\
              (false = false -> currentTimeline_ l <> si_timeline segmentInfo ->
               lastTimelineChange (timelineChangeController_ r) (loaderType_ l)
               = Some (mkChange (loaderType_ l) (currentTimeline_ l)
                         (si_timeline segmentInfo)))).
    { intros r Hr. rewrite K3 in Hr. unfold kept in Hr. injection Hr as -> ->.
      split; [reflexivity|]. intros _. exact Hlast. }
    destruct (match seg_end segment with Some _ => _ | None => _ end).
    + intros [= <-]. apply Hfinish.
      rewrite kept_resetEverything; [reflexivity|].
      rewrite state_log, S3. discriminate.
    + intros [= <-]. apply Hfinish.
      set (l4 := set_mediaIndex _ _).
      assert (K4 : kept l4 = kept l3)
        by (subst l4; destruct (isSome (mediaIndex _)); reflexivity).
      set (l5 := log (Trigger "appended") _).
      assert (K5 : kept l5 = kept l3).
      { subst l5. rewrite kept_log.
        destruct (isEndOfStream_ _ _ _); [rewrite kept_endOfStream|]; exact K4. }
      destruct (negb (paused l5)); [rewrite kept_monitorBuffer_|]; exact K5.
Qed.

End AppendsDone.

(** ** Cross-loader timeline rule *)

Section TimelineRule.
Import TimelineChange Loader.

Lemma shouldWait_audio tcc cur seg audioDisabled :
  cur <> seg ->
  shouldWaitForTimelineChange tcc cur seg "audio" audioDisabled
  = match lastTimelineChange tcc "main" with
    | Some c => negb (to c =? seg)
    | None => true
    end.
Proof.
  intros Hne. unfold shouldWaitForTimelineChange. zfalse (cur =? seg). reflexivity.
Qed.

(** C1 (amended). An audio loader with a pending segment whose
    timeline differs from the loader's current timeline:
    [shouldWaitForTimelineChange] is false exactly when the last timeline
    change recorded by the main loader goes to the timeline of the
    segment, and true otherwise, the transition from no timeline ([-1])
    to timeline [0] included. While it is true, [hasEnoughInfoToAppend_]
    does not answer yes, and [hasEnoughInfoToLoad_] answers no exactly
    when the loader has media info: the first segment of a loader without
    media info is loaded at once. An audio loader never sets a
    source-buffer timestamp offset itself. The wait ends with the main
    loader's commit: when [handleAppendsDone_] of a main loader completes
    a segment (not a sync request) that takes it from the same current
    timeline to the timeline of the segment, the controller it leaves no
    longer makes the audio loader wait. *)
Theorem audio_waits_for_main_timeline_change :
  forall (env : Env) (l : SegmentLoader) (info : SegmentInfo),
    loaderType_ l = "audio"%string ->
    pendingSegment_ l = Some info ->
    currentTimeline_ l <> si_timeline info ->
    let wait tcc :=
      shouldWaitForTimelineChange tcc (currentTimeline_ l) (si_timeline info)
        "audio" (audioDisabled_ l) in
    (wait (timelineChangeController_ l) = false <->
     exists c, lastTimelineChange (timelineChangeController_ l) "main" = Some c /\
               to c = si_timeline info) /\
    (wait (timelineChangeController_ l) = true ->
     hasEnoughInfoToAppend_ env l <> Some true /\
     hasEnoughInfoToLoad_ l = negb (isSome (currentMediaInfo_ l))) /\
    updateSourceBufferTimestampOffset_ env info l = (info, l) /\
    (forall env' m pending m',
       loaderType_ m = "main"%string -> currentTimeline_ m = currentTimeline_ l ->
       pendingSegment_ m = Some pending -> isSyncRequest pending = false ->
       si_timeline pending = si_timeline info ->
       handleAppendsDone_ env' m = Some m' ->
       wait (timelineChangeController_ m') = false) /\
    (forall tcc audioDisabled,
       shouldWaitForTimelineChange tcc (-1) 0 "audio" audioDisabled = false <->
       exists c, lastTimelineChange tcc "main" = Some c /\ to c = 0).
Proof.
  intros env l info Hty Hpend Hne wait.
  assert (Hiff : forall tcc ad c s, c <> s ->
            shouldWaitForTimelineChange tcc c s "audio" ad = false <->
            exists ch, lastTimelineChange tcc "main" = Some ch /\ to ch = s).
  { intros tcc ad c s Hcs. rewrite shouldWait_audio by exact Hcs.
    destruct (lastTimelineChange tcc "main") as [ch|].
    - split.
      + intros Hf. exists ch. split; [reflexivity|].
        apply negb_false_iff, Z.eqb_eq in Hf. exact Hf.
      + intros (ch' & [= <-] & Hto). apply negb_false_iff, Z.eqb_eq. exact Hto.
    - split; [discriminate|]. intros (ch' & Hch & _). discriminate. }
  split; [apply Hiff; exact Hne|].
  split; [|split; [|split]].
  - subst wait. cbv beta. intros Hwait. split.
    + unfold hasEnoughInfoToAppend_. rewrite Hpend, Hty, Hwait.
      destruct (negb (su_ready env)); [discriminate|].
      destruct (trackInfo info); [|discriminate].
      destruct (_ && _); discriminate.
    + unfold hasEnoughInfoToLoad_. rewrite Hpend, Hty, Hwait. cbn.
      destruct (currentMediaInfo_ l); reflexivity.
  - unfold updateSourceBufferTimestampOffset_. rewrite Hty. cbn [String.eqb negb].
    destruct (timestampOffset info) as [o|]; [|reflexivity].
    destruct (timingInfo info) as [[[s|]]|]; try reflexivity.
    rewrite orb_true_r. reflexivity.
  - intros env' m pending m' Hmty Hcur Hmpend Hsync Hseg Hdone.
    destruct (handleAppendsDone_kept env' m pending m' Hmpend Hdone) as [_ Hlast].
    specialize (Hlast Hsync ltac:(congruence)). rewrite Hmty, Hcur, Hseg in Hlast.
    subst wait. cbv beta. rewrite shouldWait_audio by exact Hne. rewrite Hlast. cbn [to].
    rewrite Z.eqb_refl. reflexivity.
  - intros tcc ad. apply Hiff. lia.
Qed.

End TimelineRule.

(** ** Abort *)

Section Abort.
Import TimelineChange Loader.

(** C9. [abort()] in state [WAITING]: afterwards the state is
    [READY], there is no pending segment, the call, load and metadata
    queues are empty, the pending timeline change of this loader's type
    is cleared, and the abort handle of the pending request, when it has
    one, was invoked (the first effect added to the log). *)
Theorem abort_while_waiting :
  forall l : SegmentLoader,
    state_ l = WAITING ->
    let l' := abort l in
    state_ l' = READY /\
    pendingSegment_ l' = None /\
    callQueue_ l' = [] /\ loadQueue_ l' = [] /\
    metadataQueue_id3 l' = [] /\ metadataQueue_caption l' = [] /\
    pendingTimelineChange (timelineChangeController_ l') (loaderType_ l) = None /\
    lastTimelineChanges_ (timelineChangeController_ l')
    = lastTimelineChanges_ (timelineChangeController_ l) /\
    (forall pending handle,
       pendingSegment_ l = Some pending -> abortRequests pending = Some handle ->
       exists rest, effects l' = effects l ++ AbortRequests handle :: rest).
Proof.
  intros l Hst l'. subst l'. unfold abort. rewrite Hst. cbn [LoaderState_eqb negb].
  set (a := abort_ l).
  assert (Hsa : state_ a = WAITING).
  { subst a. unfold abort_. destruct (pendingSegment_ l) as [pending|]; cbn;
      [destruct (abortRequests pending); cbn|]; exact Hst. }
  assert (Hfields :
    pendingSegment_ a = None /\ callQueue_ a = [] /\ loadQueue_ a = [] /\
    metadataQueue_id3 a = [] /\ metadataQueue_caption a = [] /\
    timelineChangeController_ a
    = clearPendingTimelineChange (timelineChangeController_ l) (loaderType_ l) /\
    effects a = effects l ++
      match pendingSegment_ l with
      | Some pending => match abortRequests pending with
                        | Some handle => [AbortRequests handle]
                        | None => []
                        end
      | None => []
      end).
  { subst a. unfold abort_. destruct (pendingSegment_ l) as [pending|]; cbn;
      [destruct (abortRequests pending); cbn|]; rewrite ?app_nil_r; repeat split. }
  destruct Hfields as (Hp & Hc & Hl & Hi & Hca & Ht & He).
  set (s := setState READY a).
  assert (Hs : state_ s = READY /\ pendingSegment_ s = pendingSegment_ a /\
               callQueue_ s = callQueue_ a /\ loadQueue_ s = loadQueue_ a /\
               metadataQueue_id3 s = metadataQueue_id3 a /\
               metadataQueue_caption s = metadataQueue_caption a /\
               timelineChangeController_ s = timelineChangeController_ a /\
               effects s = effects a ++ [Trigger "statechange"]).
  { subst s. unfold setState. rewrite Hsa. cbn. repeat split. }
  destruct Hs as (Hs1 & Hs2 & Hs3 & Hs4 & Hs5 & Hs6 & Hs7 & Hs8).
  assert (Hm : forall x, state_ (monitorBuffer_ x) = state_ x /\
               pendingSegment_ (monitorBuffer_ x) = pendingSegment_ x /\
               callQueue_ (monitorBuffer_ x) = callQueue_ x /\
               loadQueue_ (monitorBuffer_ x) = loadQueue_ x /\
               metadataQueue_id3 (monitorBuffer_ x) = metadataQueue_id3 x /\
               metadataQueue_caption (monitorBuffer_ x) = metadataQueue_caption x /\
               timelineChangeController_ (monitorBuffer_ x) = timelineChangeController_ x /\
               exists more, effects (monitorBuffer_ x) = effects x ++ more).
  { intros x. unfold monitorBuffer_, clearCheckBufferTimeout.
    destruct (checkBufferTimeout_ x) as [t|]; [destruct (truthyZ (Some t))|]; cbn;
      repeat split; rewrite <- ?app_assoc; eexists; reflexivity. }
  assert (Hfinal : exists more,
    let r := if negb (paused s) then monitorBuffer_ s else s in
    state_ r = READY /\ pendingSegment_ r = None /\ callQueue_ r = [] /\
    loadQueue_ r = [] /\ metadataQueue_id3 r = [] /\ metadataQueue_caption r = [] /\
    timelineChangeController_ r
    = clearPendingTimelineChange (timelineChangeController_ l) (loaderType_ l) /\
    effects r = effects a ++ Trigger "statechange" :: more).
  { destruct (negb (paused s)).
    - destruct (Hm s) as (M1 & M2 & M3 & M4 & M5 & M6 & M7 & more & M8).
      exists more. cbn zeta. rewrite M1, M2, M3, M4, M5, M6, M7, M8, Hs8.
      rewrite <- app_assoc. repeat split; congruence.
    - exists []. cbn zeta. repeat split; congruence. }
  destruct Hfinal as (more & R1 & R2 & R3 & R4 & R5 & R6 & R7 & R8).
  repeat split; try assumption.
  - rewrite R7. unfold pendingTimelineChange, clearPendingTimelineChange. cbn.
    apply lookup_delete_eq.
  - rewrite R7. reflexivity.
  - intros pending handle Hpend Hh. rewrite R8, He, Hpend, Hh.
    rewrite <- app_assoc. eexists. reflexivity.
Qed.

End Abort.

(** ** Playlist refresh *)

Section PlaylistRefresh.
Import TimelineChange Loader.

Lemma playlist_refresh_eq env l old newPlaylist options :
  playlist_ l = Some old ->
  uri old = uri newPlaylist ->
  (state_ l <> INIT \/ paused l = true) ->
  playlist env (Some newPlaylist) options l
  = let np := storedPlaylist l newPlaylist in
    let diff := mediaSequence np - mediaSequence old in
    let l0 := log (Trigger "syncinfoupdate")
                (set_xhrOptions_ options (set_playlist_ (Some np) l)) in
    let l1 := match mediaIndex l with
              | Some i => set_mediaIndex (Some (i - diff)) l0
              | None => l0
              end in
    let l2 := match pendingSegment_ l with
              | Some info =>
                  let i := si_mediaIndex info - diff in
                  let info := set_si_mediaIndex i info in
                  let info := if 0 <=? i
                              then set_si_segment (segments np !! Z.to_nat i) info
                              else info in
                  set_pendingSegment_ (Some info) l1
              | None => l1
              end in
    log (SaveExpiredSegmentInfo old np) l2.
Proof.
  intros Hold Huri Hstart. unfold playlist. rewrite Hold.
  fold (storedPlaylist l newPlaylist). set (np := storedPlaylist l newPlaylist).
  assert (Hnpu : uri np = uri newPlaylist)
    by (subst np; unfold storedPlaylist; destruct (state_ l); reflexivity).
  set (l0 := log (Trigger "syncinfoupdate")
               (set_xhrOptions_ options (set_playlist_ (Some np) l))).
  change (state_ l0) with (state_ l).
  change (couldBeginLoading_ l0) with (negb (paused l)).
  change (mediaIndex l0) with (mediaIndex l).
  assert (Hnoinit : LoaderState_eqb (state_ l) INIT && negb (paused l) = false).
  { destruct Hstart as [Hs|Hp]; [destruct (state_ l); try reflexivity; congruence|].
    rewrite Hp. apply andb_false_r. }
  rewrite Hnoinit.
  assert (Hsame : option_string_eqb (uri old) (uri np) = true).
  { rewrite Hnpu, <- Huri. destruct (uri old); cbn; [apply String.eqb_refl|reflexivity]. }
  rewrite Hsame. reflexivity.
Qed.

(** C5. A playlist with the uri of the current one arrives while
    the loader is not about to start up (it has left [INIT], or is
    paused): a non-null [mediaIndex] and the [mediaIndex] of a pending
    segment both move down by [newSequence - oldSequence], so that
    [mediaIndex + mediaSequence] is preserved; a null [mediaIndex] stays
    null; and the old and the new playlist are handed to
    [syncController_.saveExpiredSegmentInfo] (the last effect). *)
Theorem playlist_refresh_rebases_indices :
  forall (env : Env) (l : SegmentLoader) (old newPlaylist : Playlist)
         (options : option XhrOptions),
    playlist_ l = Some old ->
    uri old = uri newPlaylist ->
    (state_ l <> INIT \/ paused l = true) ->
    let l' := playlist env (Some newPlaylist) options l in
    let diff := mediaSequence newPlaylist - mediaSequence old in
    (forall i, mediaIndex l = Some i -> mediaIndex l' = Some (i - diff)) /\
    (mediaIndex l = None -> mediaIndex l' = None) /\
    (forall info, pendingSegment_ l = Some info ->
       exists info', pendingSegment_ l' = Some info' /\
                     si_mediaIndex info' = si_mediaIndex info - diff /\
                     si_mediaIndex info' + mediaSequence newPlaylist
                     = si_mediaIndex info + mediaSequence old) /\
    (pendingSegment_ l = None -> pendingSegment_ l' = None) /\
    effects l'
    = effects l ++ [Trigger "syncinfoupdate";
                    SaveExpiredSegmentInfo old (storedPlaylist l newPlaylist)].
Proof.
  intros env l old newPlaylist options Hold Huri Hstart l' diff. subst l' diff.
  rewrite (playlist_refresh_eq env l old newPlaylist options Hold Huri Hstart).
  assert (Hseq : mediaSequence (storedPlaylist l newPlaylist) = mediaSequence newPlaylist)
    by (unfold storedPlaylist; destruct (state_ l); reflexivity).
  cbn zeta. rewrite Hseq. set (np := storedPlaylist l newPlaylist).
  destruct (mediaIndex l) as [i|] eqn:Hmi; destruct (pendingSegment_ l) as [info|] eqn:Hps.
  all: repeat split; try discriminate.
  all: try (intros ? [= <-]).
  all: try (cbn; rewrite ?Hmi, ?Hps; reflexivity).
  all: try (cbn; rewrite <- app_assoc; reflexivity).
  all: eexists; split; [reflexivity|]; destruct (0 <=? _); cbn; split; (reflexivity || lia).
Qed.

End PlaylistRefresh.

(** ** Back-buffer trim time *)

Section TrimTime.
Import Loader.
Context `{Deps}.
Local Open Scope Q_scope.

(** C6 (amended). The trim time never exceeds
    [currentTime - targetDuration]; with a seekable window it is at least
    the start of the window whenever that start is itself no later than
    [currentTime - targetDuration], and otherwise it is
    [currentTime - targetDuration]. *)
Theorem trim_time_bounds :
  forall (seekable : TimeRanges) (currentTime targetDuration : Q),
    safeBackBufferTrimTime seekable currentTime targetDuration
      <= currentTime - targetDuration /\
    (seekable <> [] -> start0 seekable <= currentTime - targetDuration ->
     start0 seekable <= safeBackBufferTrimTime seekable currentTime targetDuration) /\
    (seekable <> [] -> currentTime - targetDuration <= start0 seekable ->
     safeBackBufferTrimTime seekable currentTime targetDuration
     == currentTime - targetDuration).
Proof.
  intros seekable currentTime targetDuration. unfold safeBackBufferTrimTime.
  split; [apply Q.le_min_l|].
  assert (Hlen : seekable <> [] -> negb (Z.of_nat (length seekable) =? 0)%Z = true).
  { intros Hne. destruct seekable; [congruence|reflexivity]. }
  split; intros Hne Hle; rewrite (Hlen Hne).
  - apply Q.min_glb; [exact Hle|apply Q.le_max_r].
  - apply Q.min_l. eapply Qle_trans; [exact Hle|apply Q.le_max_r].
Qed.

End TrimTime.

(** ** Throughput *)

Section ThroughputAverage.
Import Loader.
Local Open Scope Q_scope.

(** C7 (amended). A segment of [S] bytes whose appends finished
    [D >= 0] ms after the end of its requests, on a loader whose average
    is a finite number (of magnitude at most [2^1000]), [S], [D] and the
    count being integers below [2^53]: the count grows by exactly one,
    and the average moves by [(floor(S/(D+1)*8*1000) - rate)/count], the
    divisor being the elapsed time plus one and every operation (the
    quotient, the two products, the difference, the division by the
    count, the sum) rounded to a double; [handleAppendsDone_] records the
    throughput once for the segment it completes. *)
Theorem throughput_moving_average :
  forall (now : Z) (segmentInfo : SegmentInfo) (l : SegmentLoader) (r : Q) (e : Z),
    rate (throughput l) = Some r ->
    - 2 ^ 1000 <= r <= 2 ^ 1000 ->
    si_endOfAllRequests segmentInfo = Some e ->
    (0 <= now - e < 2 ^ 53)%Z ->
    (0 <= byteLength segmentInfo < 2 ^ 53)%Z ->
    (0 <= count (throughput l) < 2 ^ 53)%Z ->
    let l' := recordThroughput_ now segmentInfo l in
    let S := inject_Z (byteLength segmentInfo) in
    let D := (now - e)%Z in
    let sample :=
      Double.floor (Double.double (Double.double (Double.double
        (S / inject_Z (D + 1)) * 8) * 1000)) in
    count (throughput l') = (count (throughput l) + 1)%Z /\
    rate (throughput l')
    = Some (Double.double
              (r + Double.double (Double.double (sample - r)
                                  / inject_Z (count (throughput l'))))) /\
    forall env done,
      Loader.now env = now -> pendingSegment_ l = Some segmentInfo ->
      handleAppendsDone_ env l = Some done ->
      throughput done = throughput l'.
Proof.
  intros now segmentInfo l r e Hr Hrb He HD HS Hc l' S D sample.
  assert (HT : 1 <= inject_Z (D + 1)).
  { change 1 with (inject_Z 1). rewrite <- Zle_Qle. subst D. lia. }
  assert (HC : 1 <= inject_Z (count (throughput l) + 1)).
  { change 1 with (inject_Z 1). rewrite <- Zle_Qle. lia. }
  assert (HS53 : - inject_Z (2 ^ 53) <= S <= inject_Z (2 ^ 53)).
  { subst S. rewrite <- inject_Z_opp, <- !Zle_Qle. lia. }
  destruct (rounded_finite (S / inject_Z (D + 1)) _ safeBound_2_53
              (div_within _ _ _ HS53 HT)) as [F1 B1].
  set (q1 := Double.double (S / inject_Z (D + 1))) in *.
  assert (B1' : - inject_Z (2 ^ 56) <= q1 * 8 <= inject_Z (2 ^ 56)).
  { change (inject_Z (2 ^ 56)) with (inject_Z (2 ^ 53) * 8). lra. }
  destruct (rounded_finite (q1 * 8) _ safeBound_2_56 B1') as [F2 B2].
  set (q2 := Double.double (q1 * 8)) in *.
  assert (B2' : - inject_Z (2 ^ 66) <= q2 * 1000 <= inject_Z (2 ^ 66)).
  { change (inject_Z (2 ^ 66)) with (inject_Z (2 ^ 56) * 1024). lra. }
  destruct (rounded_finite (q2 * 1000) _ safeBound_2_66 B2') as [F3 B3].
  set (q3 := Double.double (q2 * 1000)) in *.
  pose proof (floor_within q3 (2 ^ 66) B3) as B4. fold sample in B4.
  assert (Hsmall : inject_Z (2 ^ 66) <= 2 ^ 1000) by discriminate.
  assert (Hdouble : 2 ^ 1001 == 2 * 2 ^ 1000) by reflexivity.
  assert (B4' : - 2 ^ 1001 <= sample - r <= 2 ^ 1001) by lra.
  destruct (rounded_finite (sample - r) _ safeBound_2_1001 B4') as [F5 B5].
  set (d := Double.double (sample - r)) in *.
  destruct (rounded_finite (d / inject_Z (count (throughput l) + 1)) _ safeBound_2_1001
              (div_within _ _ _ B5 HC)) as [F6 B6].
  set (step := Double.double (d / inject_Z (count (throughput l) + 1))) in *.
  assert (Hquad : 2 ^ 1002 == 4 * 2 ^ 1000) by reflexivity.
  assert (B6' : - 2 ^ 1002 <= r + step <= 2 ^ 1002) by lra.
  destruct (rounded_finite (r + step) _ safeBound_2_1002 B6') as [F7 _].
  assert (Heq : throughput (recordThroughput_ now segmentInfo l)
                = mkThroughput (Some (Double.double (r + step)))
                    (count (throughput l) + 1)).
  { unfold recordThroughput_. rewrite Hr, He. cbn [mbind option_bind].
    unfold Double.div, Double.mul, Double.sub, Double.add.
    assert (Hz : forall c, 1 <= c -> Qeq_bool c 0 = false).
    { intros c Hc1. destruct (Qeq_bool c 0) eqn:E; [|reflexivity].
      apply Qeq_bool_iff in E. lra. }
    fold D. rewrite (Hz _ HT). fold S q1. rewrite F1. cbn [mbind option_bind].
    fold q2. rewrite F2. cbn [mbind option_bind].
    fold q3. rewrite F3. cbn [mbind option_bind].
    fold sample d. rewrite F5. cbn [mbind option_bind].
    rewrite (Hz _ HC). fold step. rewrite F6. cbn [mbind option_bind].
    rewrite F7. reflexivity. }
  subst l'. rewrite Heq. cbn [count rate]. split; [reflexivity|].
  split; [reflexivity|].
  intros env done <- Hpend Hrun. rewrite <- Heq.
  exact (proj1 (handleAppendsDone_kept env l segmentInfo done Hpend Hrun)).
Qed.

End ThroughputAverage.

(** ** The theorems at concrete inputs *)

Section Instances.
Import TimelineChange Loader LoaderSamples.
Local Open Scope Q_scope.

(** The audio loader about to cross from timeline 0 into timeline 1
    before the main loader: it has to wait, and neither loads nor
    processes its queued appends. *)
Lemma audio_waits_witness :
  let l := crossingAudioLoader in
  let info := set_si_timeline 1%Z (pendingFor 1) in
  let wait tcc :=
    shouldWaitForTimelineChange tcc (currentTimeline_ l) (si_timeline info)
      "audio" (audioDisabled_ l) in
  wait (timelineChangeController_ l) = true /\
  hasEnoughInfoToLoad_ l = false /\
  (wait (timelineChangeController_ l) = false <->
   exists c, lastTimelineChange (timelineChangeController_ l) "main" = Some c /\
             to c = si_timeline info) /\
  (wait (timelineChangeController_ l) = true ->
   hasEnoughInfoToAppend_ playingEnv l <> Some true /\
   hasEnoughInfoToLoad_ l = negb (isSome (currentMediaInfo_ l))) /\
  updateSourceBufferTimestampOffset_ playingEnv info l = (info, l) /\
  (forall env' m pending m',
     loaderType_ m = "main"%string -> currentTimeline_ m = currentTimeline_ l ->
     pendingSegment_ m = Some pending -> isSyncRequest pending = false ->
     si_timeline pending = si_timeline info ->
     handleAppendsDone_ env' m = Some m' ->
     wait (timelineChangeController_ m') = false) /\
  (forall tcc audioDisabled,
     shouldWaitForTimelineChange tcc (-1) 0 "audio" audioDisabled = false <->
     exists c, lastTimelineChange tcc "main" = Some c /\ to c = 0%Z).
Proof.
  split; [vm_compute; reflexivity|]. split; [vm_compute; reflexivity|].
  apply (audio_waits_for_main_timeline_change playingEnv crossingAudioLoader
           (set_si_timeline 1%Z (pendingFor 1)));
    [reflexivity|reflexivity|cbn; lia].
Defined.

(** C1 as stated fails: the audio loader at the start of the stream
    (current timeline [-1], pending segment on timeline [0], nothing
    recorded by the main loader) has to wait, yet [hasEnoughInfoToLoad_]
    lets its request through, no media info being known yet, and
    [handleMediaChunk_] appends the chunk that arrives for it, no
    offset being set. *)
Lemma waiting_audio_loader_loads_and_appends :
  pendingSegment_ audioLoader = Some (pendingFor 1) /\
  shouldWaitForTimelineChange (timelineChangeController_ audioLoader)
    (currentTimeline_ audioLoader) (si_timeline (pendingFor 1))
    (loaderType_ audioLoader) (audioDisabled_ audioLoader) = true /\
  lastTimelineChange (timelineChangeController_ audioLoader) "main" = None /\
  hasEnoughInfoToLoad_ audioLoader = true /\
  effects <$> handleMediaChunk_ playingEnv (simpleSegment 1) "audio" chunk1 audioLoader
  = Some (effects audioLoader
          ++ [Trigger "fmp4"; AppendBuffer "audio" (Samples.initBytes ++ chunk1)]).
Proof.
  repeat split; vm_compute; reflexivity.
Qed.

Lemma abort_while_waiting_witness :
  let l' := abort waitingLoader in
  state_ l' = READY /\
  pendingSegment_ l' = None /\
  callQueue_ l' = [] /\ loadQueue_ l' = [] /\
  metadataQueue_id3 l' = [] /\ metadataQueue_caption l' = [] /\
  pendingTimelineChange (timelineChangeController_ l') (loaderType_ waitingLoader) = None /\
  lastTimelineChanges_ (timelineChangeController_ l')
  = lastTimelineChanges_ (timelineChangeController_ waitingLoader) /\
  (forall pending handle,
     pendingSegment_ waitingLoader = Some pending -> abortRequests pending = Some handle ->
     exists rest, effects l' = effects waitingLoader ++ AbortRequests handle :: rest).
Proof.
  apply (abort_while_waiting waitingLoader). reflexivity.
Defined.

Lemma playlist_refresh_witness :
  let l' := playlist playingEnv (Some refreshed) None waitingLoader in
  let diff := (mediaSequence refreshed - mediaSequence fiveSegments)%Z in
  (forall i, mediaIndex waitingLoader = Some i -> mediaIndex l' = Some (i - diff)%Z) /\
  (mediaIndex waitingLoader = None -> mediaIndex l' = None) /\
  (forall info, pendingSegment_ waitingLoader = Some info ->
     exists info', pendingSegment_ l' = Some info' /\
                   si_mediaIndex info' = (si_mediaIndex info - diff)%Z /\
                   (si_mediaIndex info' + mediaSequence refreshed
                    = si_mediaIndex info + mediaSequence fiveSegments)%Z) /\
  (pendingSegment_ waitingLoader = None -> pendingSegment_ l' = None) /\
  effects l'
  = effects waitingLoader ++ [Trigger "syncinfoupdate";
                              SaveExpiredSegmentInfo fiveSegments
                                (storedPlaylist waitingLoader refreshed)].
Proof.
  apply (playlist_refresh_rebases_indices playingEnv waitingLoader fiveSegments refreshed None).
  - reflexivity.
  - reflexivity.
  - left. discriminate.
Defined.

Lemma trim_time_bounds_witness :
  start0 [(5, 200)] <= safeBackBufferTrimTime [(5, 200)] 100 10.
Proof.
  apply (proj1 (proj2 (trim_time_bounds [(5, 200)] 100 10))).
  - discriminate.
  - vm_compute. discriminate.
Defined.

(** C6 as stated fails: the seekable window starts at 100 s, the
    playhead is at 100 s and the target duration is 10 s; the trim time is
    90 s, before the window start. *)
Lemma trim_time_below_seekable_start :
  safeBackBufferTrimTime [(100, 200)] 100 10 == 90 /\
  ~ start0 [(100, 200)] <= safeBackBufferTrimTime [(100, 200)] 100 10.
Proof.
  split; [reflexivity|]. apply Qlt_not_le. reflexivity.
Qed.

Lemma throughput_moving_average_witness :
  let l' := recordThroughput_ 1 finishedSegment appendingLoader in
  let S := inject_Z (byteLength finishedSegment) in
  let D := (1 - 0)%Z in
  let sample :=
    Double.floor (Double.double (Double.double (Double.double
      (S / inject_Z (D + 1)) * 8) * 1000)) in
  count (throughput l') = (count (throughput appendingLoader) + 1)%Z /\
  rate (throughput l')
  = Some (Double.double
            (0 + Double.double (Double.double (sample - 0)
                                / inject_Z (count (throughput l'))))) /\
  forall env done,
    Loader.now env = 1%Z -> pendingSegment_ appendingLoader = Some finishedSegment ->
    handleAppendsDone_ env appendingLoader = Some done ->
    throughput done = throughput l'.
Proof.
  apply (throughput_moving_average 1 finishedSegment appendingLoader 0 0%Z);
    [reflexivity|split; discriminate|reflexivity|lia|cbn; lia|cbn; lia].
Defined.

(** C7 as stated fails twice. 1000 bytes whose appends took 1 ms give
    the sample [floor(1000/2*8000) = 4000000], not [floor(1000/1*8000)]:
    the divisor is the elapsed time plus one. And 323 bytes whose
    appends took 4 ms give [516799], one less than
    [floor(323/5*8000) = 516800]: [323/5*8*1000] is evaluated in doubles
    and falls just below the integer. *)
Lemma throughput_divides_by_elapsed_plus_one :
  (let l' := recordThroughput_ 1 finishedSegment appendingLoader in
   rate (throughput l') = Some 4000000 /\
   ~ 4000000 == 0 + (inject_Z (Qfloor (inject_Z 1000 / inject_Z (1 - 0) * 8000)) - 0)
                    / inject_Z (count (throughput l'))) /\
  (let l' := recordThroughput_ 4 (set_byteLength 323 finishedSegment) appendingLoader in
   rate (throughput l') = Some 516799 /\
   ~ 516799 == 0 + (inject_Z (Qfloor (inject_Z 323 / inject_Z (4 - 0 + 1) * 8000)) - 0)
                   / inject_Z (count (throughput l'))).
Proof.
  split; (split; [reflexivity|]); vm_compute; discriminate.
Qed.

End Instances.

(** ** Where the code departs from its own comments *)

Section Departures.
Import TimelineChange Loader LoaderSamples.
Local Open Scope Q_scope.

(** C2. Segments [0..4], target duration 6 s, current time 10 s,
    one buffered range [0, 16], playback started, goal buffer length 6 s:
    the buffered lookahead (6 s) reaches the goal, yet [checkBuffer_]
    returns the request for segment 3. *)
Theorem checkBuffer_ignores_goal_buffer_length :
  goalBufferLength playingEnv <= Qmax 0 (endLast [(0, 16)] - 10) /\
  exists segmentInfo,
    checkBuffer_ playingEnv mainLoader [(0, 16)] fiveSegments (Some 2%Z) true 10
      (Some (mkSyncPoint 0 0)) = Some segmentInfo /\
    si_mediaIndex segmentInfo = 3%Z.
Proof.
  split; [vm_compute; discriminate|].
  eexists. split; [vm_compute; reflexivity|reflexivity].
Qed.

(** C8. Two chunks of one request and the first chunk of the next
    request, same playlist, same initialization section, no track change:
    the initialization bytes are given to the sink again with the first
    chunk of the second request. *)
Theorem init_segment_resent_with_every_request :
  appended <$> twoRequests
  = Some [Samples.initBytes ++ chunk1; chunk2; Samples.initBytes ++ chunk1].
Proof. vm_compute. reflexivity. Qed.

End Departures.

Section FetchDepartures.
Import IsoBox Fetch Boxes Samples.

(** C4. Two fragments arrive in two reads of one fetch: track info
    and timing info are emitted with each of the two chunks. *)
Theorem track_info_emitted_with_every_chunk :
  exists st trackInfo,
    run 10 (audioSegmentFetch videoSegment) twoFragments = Returned st /\
    calls st
    = [trackInfoFn trackInfo; timingInfoFn "video" "start" 0%Q;
       chunkFn (ser moofBox ++ ser mdatBox1) "video" true;
       trackInfoFn trackInfo; timingInfoFn "video" "start" 0%Q;
       chunkFn (ser moofBox ++ ser mdatBox2) "video" false] /\
    trackInfoCalls (calls st) = 2%nat /\ timingInfoCalls (calls st) = 2%nat.
Proof.
  do 2 eexists. split; [vm_compute; reflexivity|].
  split; [reflexivity|]. split; reflexivity.
Qed.

End FetchDepartures.

(** ** Further properties of the container scanner *)

Section ScannerProperties.
Import IsoBox Boxes.

Lemma ToInt32_high x : 2 ^ 31 <= x < 2 ^ 32 -> JS.ToInt32 x = x - 2 ^ 32.
Proof.
  intros Hx. unfold JS.ToInt32.
  change (2 ^ 31) with 2147483648 in *. change (2 ^ 32) with 4294967296 in *.
  Z.div_mod_to_equations. lia.
Qed.

(** The value computed from four bytes whose first has its top bit set. *)
Lemma combine_bytes_high a b c d :
  128 <= a < 256 -> 0 <= b < 256 -> 0 <= c < 256 -> 0 <= d < 256 ->
  JS.bor (JS.bor (JS.bor (JS.ushr0 d) (JS.ushr0 (JS.shl (Some c) 8)))
                 (JS.ushr0 (JS.shl (Some b) 16)))
         (JS.ushr0 (JS.shl (Some a) 24))
  = a * 2 ^ 24 + b * 2 ^ 16 + c * 2 ^ 8 + d - 2 ^ 32.
Proof.
  intros Ha Hb Hc Hd.
  assert (Hshl : forall x k, 0 <= x < 256 -> 0 <= k <= 24 -> x * 2 ^ k < 2 ^ 31 ->
            JS.ushr0 (JS.shl (Some x) k) = x * 2 ^ k).
  { intros x k Hx Hk Hlt. unfold JS.ushr0, JS.shl, JS.ToUint32.
    change (JS.num (Some x)) with x.
    rewrite (ToInt32_small x) by lia. rewrite Z.shiftl_mul_pow2 by lia.
    assert (0 <= x * 2 ^ k) by (apply Z.mul_nonneg_nonneg; lia).
    rewrite ToInt32_small by lia. apply Z.mod_small. lia. }
  assert (Htop : JS.ushr0 (JS.shl (Some a) 24) = a * 2 ^ 24).
  { unfold JS.ushr0, JS.shl, JS.ToUint32. change (JS.num (Some a)) with a.
    rewrite (ToInt32_small a) by lia. rewrite Z.shiftl_mul_pow2 by lia.
    rewrite ToInt32_high by lia.
    change (2 ^ 24) with 16777216. change (2 ^ 32) with 4294967296.
    Z.div_mod_to_equations. lia. }
  rewrite (Hshl c 8), (Hshl b 16), Htop by lia.
  unfold JS.ushr0, JS.ToUint32. rewrite (Z.mod_small d) by lia.
  unfold JS.bor.
  rewrite (ToInt32_small d), (ToInt32_small (c * 2 ^ 8)) by lia.
  rewrite (lor_low_high d c 8) by lia.
  rewrite (ToInt32_small (d + c * 2 ^ 8)), (ToInt32_small (b * 2 ^ 16)) by lia.
  rewrite (lor_low_high (d + c * 2 ^ 8) b 16) by lia.
  rewrite (ToInt32_small (d + c * 2 ^ 8 + b * 2 ^ 16)) by lia.
  rewrite (ToInt32_high (a * 2 ^ 24)) by lia.
  replace (a * 2 ^ 24 - 2 ^ 32) with ((a - 256) * 2 ^ 24) by lia.
  rewrite (lor_low_high _ (a - 256) 24) by lia. lia.
Qed.

(** X1. [parseUint32] reads four bytes as one big-endian number and
    returns it as a signed 32-bit integer: the unsigned value [u] when the
    top bit of the first byte is clear, and [u - 2^32], a negative number,
    when it is set. *)
Theorem parseUint32_reads_big_endian_signed :
  forall (pre rest : list Byte.byte) (b0 b1 b2 b3 : Byte.byte),
    let u := byteZ b0 * 2 ^ 24 + byteZ b1 * 2 ^ 16 + byteZ b2 * 2 ^ 8 + byteZ b3 in
    parseUint32 (pre ++ [b0; b1; b2; b3] ++ rest) (Z.of_nat (length pre))
    = if u <? 2 ^ 31 then u else u - 2 ^ 32.
Proof.
  intros pre rest b0 b1 b2 b3 u.
  pose proof (byteZ_range b0) as H0. pose proof (byteZ_range b1) as H1.
  pose proof (byteZ_range b2) as H2. pose proof (byteZ_range b3) as H3.
  assert (Hat : forall i, 0 <= i ->
            at_ (pre ++ [b0; b1; b2; b3] ++ rest) (Z.of_nat (length pre) + i)
            = at_ (b0 :: b1 :: b2 :: b3 :: rest) i).
  { intros i Hi. rewrite at_app_r by lia. reflexivity. }
  unfold parseUint32.
  rewrite <- (Z.add_0_r (Z.of_nat (length pre))) at 4.
  rewrite !Hat by lia. rewrite at_cons_0, at_1, at_2, at_3.
  change (JS.num (Some (byteZ b3))) with (byteZ b3).
  subst u. change (2 ^ 31) with 2147483648. change (2 ^ 32) with 4294967296.
  change (2 ^ 24) with 16777216. change (2 ^ 16) with 65536. change (2 ^ 8) with 256.
  destruct (Z.lt_ge_cases (byteZ b0) 128) as [Hlow|Hhigh].
  - pose proof (combine_bytes (byteZ b0) (byteZ b1) (byteZ b2) (byteZ b3)) as Hc.
    change (2 ^ 24) with 16777216 in Hc. change (2 ^ 16) with 65536 in Hc.
    change (2 ^ 8) with 256 in Hc. rewrite Hc by lia.
    match goal with |- context [?x <? ?y] => ztrue (x <? y) end. reflexivity.
  - pose proof (combine_bytes_high (byteZ b0) (byteZ b1) (byteZ b2) (byteZ b3)) as Hc.
    change (2 ^ 24) with 16777216 in Hc. change (2 ^ 16) with 65536 in Hc.
    change (2 ^ 8) with 256 in Hc. change (2 ^ 32) with 4294967296 in Hc.
    rewrite Hc by lia.
    match goal with |- context [?x <? ?y] => zfalse (x <? y) end. reflexivity.
Qed.

(** What the loop keeps true of the box it has found so far. *)
Lemma scan_found fuel types data :
  forall offset boxInfo lastCompleted r,
    (forall i, boxInfo = Some i ->
       found i = true /\
       exists sz, size i = Some sz /\ sz = parseUint32 data (lastCompletedOffset i) /\
         sz <> 0 /\ lastCompletedOffset i < Z.of_nat (length data) /\
         lastCompletedOffset i + sz <= Z.of_nat (length data) /\
         0 <= indexOf types (parseIsoBoxType data (lastCompletedOffset i + 4))) ->
    scan fuel types data offset boxInfo lastCompleted = Some r ->
    forall i, fst r = Some i ->
      found i = true /\
      exists sz, size i = Some sz /\ sz = parseUint32 data (lastCompletedOffset i) /\
        sz <> 0 /\ lastCompletedOffset i < Z.of_nat (length data) /\
        lastCompletedOffset i + sz <= Z.of_nat (length data) /\
        0 <= indexOf types (parseIsoBoxType data (lastCompletedOffset i + 4)).
Proof.
  induction fuel as [|fuel IH]; intros offset boxInfo lastCompleted r Hacc Hscan i Hi;
    [discriminate|].
  rewrite scan_S in Hscan.
  destruct (Z.ltb_spec offset (Z.of_nat (length data))) as [Hin|Hout].
  - destruct (Z.eqb_spec (parseUint32 data offset) 0) as [Hz|Hnz].
    + injection Hscan as <-. apply Hacc. exact Hi.
    + destruct (Z.leb_spec (offset + parseUint32 data offset) (Z.of_nat (length data)))
        as [Hfit|Hbig].
      * destruct (Z.leb_spec 0 (indexOf types (parseIsoBoxType data (offset + 4))))
          as [Hty|Hty].
        -- eapply IH; [|exact Hscan|exact Hi].
           intros j [= <-]. cbn [found size lastCompletedOffset].
           split; [reflexivity|]. eexists. repeat split; eauto.
        -- eapply IH; [|exact Hscan|exact Hi]. exact Hacc.
      * eapply IH; [|exact Hscan|exact Hi]. exact Hacc.
  - injection Hscan as <-. apply Hacc. exact Hi.
Qed.

Lemma parse_nonneg data o :
  Forall (fun b => byteZ b < 128) data -> 0 <= parseUint32 data o.
Proof.
  intros Hlow.
  assert (Htop : JS.num (at_ data o) < 128).
  { unfold at_. destruct (_ && _); [|cbn; lia].
    destruct (data !! Z.to_nat o) as [b|] eqn:E; [|cbn; lia].
    cbn. rewrite Forall_lookup in Hlow. exact (Hlow _ _ E). }
  rewrite parseUint32_value by exact Htop.
  pose proof (num_at_range data o). pose proof (num_at_range data (o + 1)).
  pose proof (num_at_range data (o + 2)). pose proof (num_at_range data (o + 3)).
  lia.
Qed.

(** On a buffer without a byte whose top bit is set the loop moves
    forward only: the box it has found starts at or after [start] and
    has a positive size. *)
Lemma scan_forward fuel types data start :
  Forall (fun b => byteZ b < 128) data ->
  forall offset boxInfo lastCompleted r,
    start <= offset ->
    (forall i, boxInfo = Some i ->
       start <= lastCompletedOffset i /\ exists sz, size i = Some sz /\ 0 < sz) ->
    scan fuel types data offset boxInfo lastCompleted = Some r ->
    forall i, fst r = Some i ->
      start <= lastCompletedOffset i /\ exists sz, size i = Some sz /\ 0 < sz.
Proof.
  intros Hlow.
  induction fuel as [|fuel IH]; intros offset boxInfo lastCompleted r Hoff Hacc Hscan i Hi;
    [discriminate|].
  rewrite scan_S in Hscan.
  pose proof (parse_nonneg data offset Hlow) as Hpos.
  destruct (Z.ltb_spec offset (Z.of_nat (length data))) as [Hin|Hout].
  - destruct (Z.eqb_spec (parseUint32 data offset) 0) as [Hz|Hnz].
    + injection Hscan as <-. apply Hacc. exact Hi.
    + destruct (Z.leb_spec (offset + parseUint32 data offset) (Z.of_nat (length data)))
        as [Hfit|Hbig].
      * destruct (Z.leb_spec 0 (indexOf types (parseIsoBoxType data (offset + 4))))
          as [Hty|Hty].
        -- eapply (IH (offset + parseUint32 data offset)); [lia| |exact Hscan|exact Hi].
           intros j [= <-]. cbn [size lastCompletedOffset].
           split; [exact Hoff|]. eexists. split; [reflexivity|lia].
        -- eapply (IH (offset + parseUint32 data offset)); [lia|exact Hacc|exact Hscan|exact Hi].
      * eapply (IH (offset + parseUint32 data offset)); [lia|exact Hacc|exact Hscan|exact Hi].
  - injection Hscan as <-. apply Hacc. exact Hi.
Qed.

(** X2. Whatever the bytes, the offset and the number of iterations:
    when [findLastTopIsoBoxCompleted] reports a box as found, its size is
    the non-zero size field read at its start (a signed number), it
    starts before the end of the buffer, the end computed from its size
    is at or before the end of the buffer, and its type is one of the
    requested types. When moreover no byte of the buffer has its top bit
    set and the start offset is not negative, the box starts at or after
    the start offset and its size is positive: it lies within the
    buffer. *)
Theorem found_box_lies_within_buffer :
  forall (fuel : nat) (types : list string) (data : list Byte.byte) (offset : option Z)
         (info : IsoBoxSearchInfo),
    findLastTopIsoBoxCompleted fuel types (Some data) offset = Some info ->
    found info = true ->
    exists sz,
      size info = Some sz /\
      sz = parseUint32 data (lastCompletedOffset info) /\
      sz <> 0 /\
      lastCompletedOffset info < Z.of_nat (length data) /\
      lastCompletedOffset info + sz <= Z.of_nat (length data) /\
      0 <= indexOf types (parseIsoBoxType data (lastCompletedOffset info + 4)) /\
      (Forall (fun b => byteZ b < 128) data -> 0 <= default 0 offset ->
       default 0 offset <= lastCompletedOffset info /\ 0 < sz).
Proof.
  intros fuel types data offset info Hfind Hfound.
  unfold findLastTopIsoBoxCompleted in Hfind.
  change (match offset with Some o => o | None => 0 end) with (default 0 offset) in Hfind.
  destruct (_ <=? _); [injection Hfind as <-; discriminate|].
  destruct (scan fuel types data _ None 0) as [[[bi|] lc]|] eqn:Hscan; try discriminate.
  - injection Hfind as ->.
    destruct (scan_found fuel types data _ None 0 (Some info, lc)
                ltac:(intros j [=]) Hscan info eq_refl)
      as (_ & sz & Hsz & Hval & Hnz & Hin & Hend & Hty).
    exists sz. repeat (split; [assumption|]).
    intros Hlow Hoff.
    destruct (scan_forward fuel types data (default 0 offset) Hlow _ None 0 (Some info, lc)
                (Z.le_refl _) ltac:(intros j [=]) Hscan info eq_refl)
      as (Hstart & sz' & Hsz' & Hpos).
    split; [exact Hstart|]. congruence.
  - injection Hfind as <-. discriminate.
Qed.

(** Without these conditions a box can be reported outside the buffer.
    From offset [-2] the two bytes before the buffer read as zero, and
    a box of 10 bytes is found at [-2]; with the top bit set, a size
    field reads as [-8]. *)
Example found_box_outside_the_buffer :
  findLastTopIsoBoxCompleted 10 ["mdat"%string]
    (Some [Byte.x00; Byte.x0a; Byte.x6d; Byte.x64; Byte.x61; Byte.x74; Byte.x00; Byte.x00;
           Byte.x00; Byte.x00])
    (Some (-2))
  = Some (mkInfo (-2) true (Some 10)) /\
  findLastTopIsoBoxCompleted 10 ["mdat"%string]
    (Some [Byte.xff; Byte.xff; Byte.xff; Byte.xf8; Byte.x6d; Byte.x64; Byte.x61; Byte.x74;
           Byte.x00; Byte.x00])
    (Some 0)
  = Some (mkInfo 0 true (Some (-8))).
Proof. split; vm_compute; reflexivity. Qed.

Lemma scan_terminates types data :
  Forall (fun b => byteZ b < 128) data ->
  forall fuel offset boxInfo lastCompleted,
    Z.max 0 (Z.of_nat (length data) - offset) < Z.of_nat fuel ->
    exists r, scan fuel types data offset boxInfo lastCompleted = Some r.
Proof.
  intros Hlow. induction fuel as [|fuel IH]; intros offset boxInfo lastCompleted Hfuel;
    [lia|].
  rewrite scan_S.
  destruct (Z.ltb_spec offset (Z.of_nat (length data))) as [Hin|Hout];
    [|eexists; reflexivity].
  pose proof (parse_nonneg data offset Hlow) as Hpos.
  destruct (Z.eqb_spec (parseUint32 data offset) 0) as [Hz|Hnz]; [eexists; reflexivity|].
  destruct (if offset + parseUint32 data offset <=? Z.of_nat (length data)
            then if 0 <=? indexOf types (parseIsoBoxType data (offset + 4))
                 then (Some (mkInfo offset true (Some (parseUint32 data offset))),
                       lastCompleted)
                 else (boxInfo, offset + parseUint32 data offset)
            else (boxInfo, lastCompleted)) as [bi lc].
  apply IH. lia.
Qed.

(** X3. On a buffer none of whose bytes has its top bit set, so that
    no size field can read as a negative number, the scanner returns from
    every non-negative start offset after at most one iteration per byte
    of the buffer plus one. *)
Theorem scanner_terminates_without_sign_bit :
  forall (types : list string) (data : list Byte.byte) (offset : Z),
    Forall (fun b => byteZ b < 128) data ->
    0 <= offset ->
    exists info,
      findLastTopIsoBoxCompleted (S (length data)) types (Some data) (Some offset)
      = Some info.
Proof.
  intros types data offset Hlow Hoff. unfold findLastTopIsoBoxCompleted.
  destruct (_ <=? _); [eexists; reflexivity|].
  destruct (scan_terminates types data Hlow (S (length data)) offset None 0) as [[bi lc] ->];
    [lia|].
  destruct bi; eexists; reflexivity.
Qed.

(** X4. The length test at the entry of the scanner uses [>=]: when
    exactly 8 bytes follow the start offset, even if they are a complete
    box with an empty payload, nothing is reported and the returned offset
    is 0 rather than the start offset. *)
Theorem empty_box_at_end_is_not_seen :
  forall (fuel : nat) (types : list string) (cs : list Box) (b : Box),
    payload b = [] ->
    findLastTopIsoBoxCompleted fuel types (Some (serAll cs ++ ser b))
      (Some (Z.of_nat (length (serAll cs))))
    = Some (mkInfo 0 false None).
Proof.
  intros fuel types cs b Hempty. unfold findLastTopIsoBoxCompleted.
  pose proof (length_ser b) as Hlen. unfold boxSize in Hlen. rewrite Hempty in Hlen.
  cbn [length] in Hlen. change (Z.of_nat 0) with 0 in Hlen.
  rewrite length_app, Nat2Z.inj_add, Hlen.
  ztrue (Z.of_nat (length (serAll cs)) + (8 + 0) <=? Z.of_nat (length (serAll cs)) + 8).
  reflexivity.
Qed.

(** Where the walk over complete boxes leaves the last media-data box. *)
Lemma walk_last_mdat bs :
  forall o boxInfo lastCompleted,
    has_mdat bs = true ->
    exists pre b post,
      bs = pre ++ b :: post /\ is_mdat b = true /\ has_mdat post = false /\
      fst (walk o bs boxInfo lastCompleted)
      = Some (mkInfo (o + Z.of_nat (length (serAll pre))) true (Some (boxSize b))).
Proof.
  induction bs as [|b rest IH]; intros o boxInfo lastCompleted Hyes; [discriminate|].
  cbn [has_mdat existsb] in Hyes. fold (has_mdat rest) in Hyes. cbn [walk].
  destruct (has_mdat rest) eqn:Hrest.
  - destruct (is_mdat b).
    + destruct (IH (o + boxSize b) (Some (mkInfo o true (Some (boxSize b)))) lastCompleted
                  eq_refl) as (pre & b' & post & -> & Hb' & Hpost & Hw).
      exists (b :: pre), b', post. repeat split; try assumption.
      rewrite Hw, length_serAll_cons. do 2 f_equal. lia.
    + destruct (IH (o + boxSize b) boxInfo (o + boxSize b) eq_refl)
        as (pre & b' & post & -> & Hb' & Hpost & Hw).
      exists (b :: pre), b', post. repeat split; try assumption.
      rewrite Hw, length_serAll_cons. do 2 f_equal. lia.
  - rewrite orb_false_r in Hyes. rewrite Hyes.
    rewrite walk_no_mdat by exact Hrest. cbn [fst].
    exists [], b, rest. repeat split; try assumption.
    cbn. do 2 f_equal. lia.
Qed.

(** X5. On a buffer that holds the boxes [cs], then the complete
    well-formed boxes [qs], then the first bytes [p] of a box still
    arriving, scanned for ["mdat"] from the end of [cs] with more than 8
    bytes to scan: the scanner returns; if [qs] contains a media-data box
    it reports the last one, by its start offset and its size; otherwise
    it reports nothing and returns the end offset of the last complete box
    (0 when no box is complete). *)
Theorem scanner_reports_last_complete_mdat :
  forall (cs qs : list Box) (p : list Byte.byte) (fuel : nat),
    Forall wf qs -> dangling p -> (length qs + 2 <= fuel)%nat ->
    Z.of_nat (length (serAll cs)) + 8 < Z.of_nat (length (serAll cs ++ serAll qs ++ p)) ->
    exists info,
      findLastTopIsoBoxCompleted fuel ["mdat"%string]
        (Some (serAll cs ++ serAll qs ++ p)) (Some (Z.of_nat (length (serAll cs))))
      = Some info /\
      found info = has_mdat qs /\
      if has_mdat qs
      then exists pre b post,
             qs = pre ++ b :: post /\ is_mdat b = true /\ has_mdat post = false /\
             lastCompletedOffset info = Z.of_nat (length (serAll (cs ++ pre))) /\
             size info = Some (boxSize b)
      else size info = None /\
           lastCompletedOffset info
           = match qs with
             | [] => 0
             | _ => Z.of_nat (length (serAll (cs ++ qs)))
             end.
Proof.
  intros cs qs p fuel Hwf Hp Hfuel Hlong.
  unfold findLastTopIsoBoxCompleted.
  zfalse (Z.of_nat (length (serAll cs ++ serAll qs ++ p))
          <=? Z.of_nat (length (serAll cs)) + 8).
  rewrite scan_boxes by assumption.
  destruct (has_mdat qs) eqn:Hyes.
  - destruct (walk_last_mdat qs (Z.of_nat (length (serAll cs))) None 0 Hyes)
      as (pre & b & post & Hqs & Hb & Hpost & Hw).
    destruct (walk _ qs None 0) as [bi lc]. cbn [fst] in Hw. subst bi.
    eexists. split; [reflexivity|]. cbn [found lastCompletedOffset size].
    split; [reflexivity|]. exists pre, b, post. repeat split; try assumption.
    rewrite serAll_app, length_app. lia.
  - rewrite walk_no_mdat by exact Hyes.
    eexists. split; [reflexivity|]. cbn [found lastCompletedOffset size].
    split; [reflexivity|]. split; [reflexivity|].
    destruct qs; [reflexivity|]. rewrite serAll_app, length_app. lia.
Qed.

End ScannerProperties.

Section ScannerInstances.
Import IsoBox Boxes Samples.

(** A [moof] and an [mdat] of 16 bytes each: the [mdat] at offset 16 is
    found. *)
Lemma found_box_lies_within_buffer_witness :
  exists sz,
    size (mkInfo 16 true (Some 16)) = Some sz /\
    sz = parseUint32 (ser moofBox ++ ser mdatBox1) 16 /\
    sz <> 0 /\
    16 < Z.of_nat (length (ser moofBox ++ ser mdatBox1)) /\
    16 + sz <= Z.of_nat (length (ser moofBox ++ ser mdatBox1)) /\
    0 <= indexOf ["mdat"%string] (parseIsoBoxType (ser moofBox ++ ser mdatBox1) (16 + 4)) /\
    Forall (fun b => byteZ b < 128) (ser moofBox ++ ser mdatBox1) /\
    0 <= 16 /\ 0 < sz.
Proof.
  destruct (found_box_lies_within_buffer 10 ["mdat"%string] (ser moofBox ++ ser mdatBox1)
              (Some 0) (mkInfo 16 true (Some 16)))
    as (sz & Hsz & Hval & Hnz & Hin & Hend & Hty & Hlow).
  - vm_compute. reflexivity.
  - reflexivity.
  - assert (Hbytes : Forall (fun b => byteZ b < 128) (ser moofBox ++ ser mdatBox1))
      by (vm_compute; repeat constructor).
    exists sz. repeat (split; [assumption|]). apply Hlow; [exact Hbytes|cbn; lia].
Defined.

Lemma scanner_terminates_witness :
  exists info,
    findLastTopIsoBoxCompleted (S (length (ser moofBox ++ ser mdatBox1))) ["mdat"%string]
      (Some (ser moofBox ++ ser mdatBox1)) (Some 5)
    = Some info.
Proof.
  apply (scanner_terminates_without_sign_bit ["mdat"%string] (ser moofBox ++ ser mdatBox1) 5).
  - vm_compute. repeat constructor.
  - lia.
Defined.

Lemma empty_box_at_end_witness :
  findLastTopIsoBoxCompleted 10 ["mdat"%string]
    (Some (serAll [moofBox] ++ ser (mkBox mdat [])))
    (Some (Z.of_nat (length (serAll [moofBox]))))
  = Some (mkInfo 0 false None).
Proof.
  apply (empty_box_at_end_is_not_seen 10 ["mdat"%string] [moofBox] (mkBox mdat [])).
  reflexivity.
Defined.

Lemma scanner_reports_last_mdat_witness :
  exists info,
    findLastTopIsoBoxCompleted 10 ["mdat"%string]
      (Some (serAll [] ++ serAll [moofBox; mdatBox1] ++ take 8 (ser moofBox)))
      (Some (Z.of_nat (length (serAll []))))
    = Some info /\
    found info = has_mdat [moofBox; mdatBox1] /\
    if has_mdat [moofBox; mdatBox1]
    then exists pre b post,
           [moofBox; mdatBox1] = pre ++ b :: post /\ is_mdat b = true /\
           has_mdat post = false /\
           lastCompletedOffset info = Z.of_nat (length (serAll ([] ++ pre))) /\
           size info = Some (boxSize b)
    else size info = None /\
         lastCompletedOffset info = Z.of_nat (length (serAll ([] ++ [moofBox; mdatBox1]))).
Proof.
  apply (scanner_reports_last_complete_mdat [] [moofBox; mdatBox1] (take 8 (ser moofBox)) 10).
  - repeat constructor.
  - exists moofBox, 8%nat. split; [reflexivity|]. split; [cbn; lia|reflexivity].
  - cbn. lia.
  - vm_compute. reflexivity.
Defined.

End ScannerInstances.

(** ** The callbacks of a fetch over arbitrary network splits *)

Section TraceLemmas.
Import IsoBox Fetch Boxes TransportState TransportTrace.
Context `{Probes}.

Lemma chunksOf_chunkCallbacks m tracks data first :
  chunksOf (chunkCallbacks m tracks data first) = [data].
Proof.
  unfold chunkCallbacks. destruct (isSome (tracks !! "video")), (isSome (tracks !! "audio"));
    reflexivity.
Qed.

Lemma traceOf_snoc m tracks chunks :
  forall first X,
    traceOf m tracks first (chunks ++ [X])
    = traceOf m tracks first chunks
      ++ chunkCallbacks m tracks X (match chunks with [] => first | _ => false end).
Proof.
  induction chunks as [|c r IH]; intros first X; cbn [app traceOf].
  - rewrite app_nil_r. reflexivity.
  - rewrite IH, <- app_assoc. destruct r; reflexivity.
Qed.

Lemma chunkFlags_app cs1 cs2 : chunkFlags (cs1 ++ cs2) = chunkFlags cs1 ++ chunkFlags cs2.
Proof. apply omap_app. Qed.

Lemma chunkFlags_chunkCallbacks m tracks data first :
  chunkFlags (chunkCallbacks m tracks data first) = [first].
Proof.
  unfold chunkCallbacks. destruct (isSome (tracks !! "video")), (isSome (tracks !! "audio"));
    reflexivity.
Qed.

Lemma chunkFlags_traceOf m tracks chunks :
  forall first,
    chunkFlags (traceOf m tracks first chunks)
    = match chunks with
      | [] => []
      | _ :: rest => first :: List.map (fun _ => false) rest
      end.
Proof.
  induction chunks as [|c r IH]; intros first; [reflexivity|].
  cbn [traceOf]. rewrite chunkFlags_app, chunkFlags_chunkCallbacks, IH.
  destruct r; reflexivity.
Qed.

Lemma trackInfoCalls_app cs1 cs2 :
  trackInfoCalls (cs1 ++ cs2) = (trackInfoCalls cs1 + trackInfoCalls cs2)%nat.
Proof. unfold trackInfoCalls. rewrite List.filter_app, length_app. reflexivity. Qed.

Lemma trackInfoCalls_traceOf m tracks chunks :
  forall first, trackInfoCalls (traceOf m tracks first chunks) = length chunks.
Proof.
  induction chunks as [|c r IH]; intros first; [reflexivity|].
  cbn [traceOf length]. rewrite trackInfoCalls_app, IH.
  unfold chunkCallbacks. destruct (isSome (tracks !! "video")), (isSome (tracks !! "audio"));
    reflexivity.
Qed.

Lemma doneCalls_app cs1 cs2 : doneCalls (cs1 ++ cs2) = (doneCalls cs1 + doneCalls cs2)%nat.
Proof. unfold doneCalls. rewrite List.filter_app, length_app. reflexivity. Qed.

Lemma doneCalls_traceOf m tracks chunks :
  forall first, doneCalls (traceOf m tracks first chunks) = 0%nat.
Proof.
  induction chunks as [|c r IH]; intros first; [reflexivity|].
  cbn [traceOf]. rewrite doneCalls_app, IH.
  unfold chunkCallbacks. destruct (isSome (tracks !! "video")), (isSome (tracks !! "audio"));
    reflexivity.
Qed.

(** A non-empty chunk handed over while the gate is open: every
    callback of the chunk is made and the module flag is set. *)
Lemma gate_open_chunk st data rcvd fcrt fcf now m tracks :
  (needInit st && rcvd) || negb (needInit st) = true ->
  0 < fcrt ->
  map (segment st) = Some m -> map_tracks m = Some tracks -> data <> [] ->
  handleMediaDataResponse st data false (needInit st) rcvd fcrt fcf now
  = Returned
      (mkState
         (mkSegment (resolvedUri (segment st)) (requestId (segment st)) (Some m) true
            (Some (Z.pos now)))
         (needInit st) (initRcvd st) (firstChunkReceiveTime st) (firstChunkFlag st)
         (segmentDone st) (remaining st) (offset st) true
         (calls st ++ chunkCallbacks m tracks data fcf)).
Proof.
  intros Hgate Hfc Hm Ht Hdata.
  destruct st as [[uri rid mp fmp4 eoar] ni rc fcrt0 fcf0 sd rem off h cs].
  cbn [segment needInit initRcvd firstChunkReceiveTime firstChunkFlag segmentDone remaining
       offset calls map resolvedUri requestId] in *.
  subst mp.
  unfold handleMediaDataResponse, waitForCompletion.
  ztrue (0 <? fcrt). rewrite Hgate. cbn [andb].
  unfold handleSegmentBytes, set_segment.
  cbn [segment map resolvedUri requestId isFmp4 endOfAllRequests needInit initRcvd
       firstChunkReceiveTime firstChunkFlag segmentDone remaining offset calls
       segmentTrackAndTimingInfoHandled].
  rewrite Ht.
  assert (Hlen : (Z.of_nat (length data) =? 0) = false).
  { apply Z.eqb_neq. destruct data; [congruence|cbn [length]; lia]. }
  rewrite Hlen. cbn [negb andb]. unfold chunkCallbacks.
  cbn [hasAudio hasVideo isMuxed].
  destruct (isSome (tracks !! "audio")), (isSome (tracks !! "video"));
    cbn [andb negb]; unfold emit, set_handled;
    cbn [segment needInit initRcvd firstChunkReceiveTime firstChunkFlag segmentDone
         remaining offset calls segmentTrackAndTimingInfoHandled];
    rewrite <- ?app_assoc; reflexivity.
Qed.

(** While the initialization section is awaited nothing is handed on. *)
Lemma gate_closed st data sd fcrt fcf now :
  handleMediaDataResponse st data sd true false fcrt fcf now = Returned st.
Proof.
  unfold handleMediaDataResponse, waitForCompletion. cbn [andb orb negb].
  rewrite andb_false_r. reflexivity.
Qed.

(** The read that completes a media-data box, up to the hand-over of
    the chunk [X]; [Y] stays buffered. *)
Lemma process_found_eq st v fuel now info sz X Y :
  v <> [] ->
  findLastTopIsoBoxCompleted fuel ["mdat"%string]
    (Some (contents (concatTypedArray (remaining st) (fresh v)))) (Some (offset st))
  = Some info ->
  found info = true -> size info = Some sz ->
  contents (remaining st) ++ v = X ++ Y ->
  lastCompletedOffset info + sz = Z.of_nat (length X) ->
  exists rem,
    contents rem = Y /\
    buffer rem = match Y with [] => [] | _ => X ++ Y end /\
    processMediaSegmentData fuel st (Some v) false now
    = match handleMediaDataResponse
              (mkState (segment st) (needInit st) (initRcvd st)
                 (if firstChunkReceiveTime st =? 0 then Z.pos now
                  else firstChunkReceiveTime st)
                 (firstChunkReceiveTime st =? 0) false rem (offset st)
                 (segmentTrackAndTimingInfoHandled st) (calls st))
              X false (needInit st) (initRcvd st)
              (if firstChunkReceiveTime st =? 0 then Z.pos now
               else firstChunkReceiveTime st)
              (firstChunkReceiveTime st =? 0) now with
      | Returned st2 =>
          Returned (mkState (segment st2) (needInit st2) (initRcvd st2)
                      (firstChunkReceiveTime st2) (firstChunkFlag st2) (segmentDone st2)
                      (remaining st2) 0 (segmentTrackAndTimingInfoHandled st2) (calls st2))
      | other => other
      end.
Proof.
  intros Hv Hfind Hfound Hsize Hxy Hend.
  destruct (concat_whole (remaining st) v) as [Hcont Hbuf].
  unfold processMediaSegmentData.
  assert (Hvlen : 0 < Z.of_nat (length v)) by (destruct v; [congruence|cbn [length]; lia]).
  ztrue (0 <? Z.of_nat (length v)). rewrite Hfind, Hfound, Hsize, Hend.
  set (rem' := concatTypedArray (remaining st) (fresh v)) in *.
  assert (Hlen : byteLength rem' = Z.of_nat (length X) + Z.of_nat (length Y)).
  { unfold byteLength. rewrite Hcont, Hxy, length_app. lia. }
  destruct (Z.eqb_spec (Z.of_nat (length X)) (byteLength rem')) as [Heq|Hneq].
  - assert (HY : Y = []) by (destruct Y; [reflexivity|cbn [length] in Hlen; lia]).
    subst Y. rewrite app_nil_r in Hxy.
    exists (fresh []). split; [reflexivity|]. split; [reflexivity|].
    destruct (firstChunkReceiveTime st =? 0);
      cbn [segmentDone needInit initRcvd firstChunkReceiveTime firstChunkFlag];
      rewrite Hbuf, Hxy; reflexivity.
  - exists (subarray rem' (Z.of_nat (length X)) (byteLength rem')).
    assert (HYne : Y <> []) by (intros ->; cbn [length] in Hlen; lia).
    split; [|split].
    + rewrite subarray_suffix by lia. rewrite Nat2Z.id, Hcont, Hxy, drop_app_length.
      reflexivity.
    + unfold subarray. cbn [buffer]. rewrite Hbuf, Hxy.
      destruct Y; [congruence|reflexivity].
    + assert (HX : buffer (fresh (contents (subarray rem' 0 (Z.of_nat (length X))))) = X).
      { cbn [buffer fresh]. rewrite subarray_prefix by lia.
        rewrite Nat2Z.id, Hcont, Hxy, take_app_length. reflexivity. }
      destruct (firstChunkReceiveTime st =? 0);
        cbn [segmentDone needInit initRcvd firstChunkReceiveTime firstChunkFlag];
        rewrite HX; reflexivity.
Qed.

(** The bytes buffered and read, cut behind the last media-data box. *)
Lemma split_at_last_mdat st bs p v bs2 p' :
  Buffered st bs p -> p ++ v = serAll bs2 ++ p' ->
  contents (remaining st) ++ v
  = serAll (afterLastMdat bs ++ uptoLastMdat bs2) ++ serAll (afterLastMdat bs2) ++ p'.
Proof.
  intros [Hrem _] Hsplit. rewrite Hrem, <- app_assoc, Hsplit.
  rewrite <- (upto_after bs2) at 1. rewrite !serAll_app, <- !app_assoc. reflexivity.
Qed.

(** What the scanner reports on the buffer after one more read. *)
Lemma step_scan st bs p v bs2 p' fuel :
  Buffered st bs p -> Forall wf bs ->
  p ++ v = serAll bs2 ++ p' ->
  Forall wf bs2 -> Forall mdatNonEmpty bs2 -> dangling p' ->
  (length (contents (remaining st) ++ v) + 2 <= fuel)%nat ->
  exists info,
    findLastTopIsoBoxCompleted fuel ["mdat"%string]
      (Some (contents (concatTypedArray (remaining st) (fresh v)))) (Some (offset st))
    = Some info /\
    found info = has_mdat bs2 /\
    if has_mdat bs2
    then exists sz, size info = Some sz /\
           lastCompletedOffset info + sz
           = Z.of_nat (length (serAll (afterLastMdat bs ++ uptoLastMdat bs2)))
    else exists cs' rs', afterLastMdat bs ++ bs2 = cs' ++ rs' /\
           lastCompletedOffset info = Z.of_nat (length (serAll cs')).
Proof.
  intros (Hrem & cs & rs & Hafter & Hoff) Hwf Hsplit Hwf2 Hne2 Hp' Hfuel.
  destruct (concat_whole (remaining st) v) as [Hcont Hbuf].
  assert (Hnors : has_mdat (cs ++ rs) = false)
    by (rewrite <- Hafter; apply after_no_mdat).
  rewrite has_mdat_app in Hnors. apply orb_false_iff in Hnors as [Hnocs Hnors].
  assert (Hwfa : Forall wf (cs ++ rs)).
  { rewrite <- Hafter. rewrite <- (upto_after bs) in Hwf.
    apply Forall_app in Hwf. tauto. }
  apply Forall_app in Hwfa as [Hwfcs Hwfrs].
  assert (Hdata : contents (remaining st) ++ v
                  = serAll cs ++ serAll (rs ++ bs2) ++ p').
  { rewrite Hrem, Hafter, !serAll_app, <- !app_assoc, Hsplit. reflexivity. }
  assert (Hboxes : (length (rs ++ bs2) + 2 <= fuel)%nat).
  { pose proof (length_serAll_boxes (rs ++ bs2)) as Hb.
    rewrite Hdata, !length_app in Hfuel. lia. }
  rewrite Hcont, Hdata, Hoff.
  rewrite find_on_boxes by ((apply Forall_app; auto) || assumption).
  destruct (Z.leb_spec (Z.of_nat (length (serAll cs ++ serAll (rs ++ bs2) ++ p')))
              (Z.of_nat (length (serAll cs)) + 8)) as [Hshort|Hlong].
  - assert (Hno2 : has_mdat bs2 = false).
    { destruct (has_mdat bs2) eqn:E; [|reflexivity].
      pose proof (mdat_stream_long bs2 E Hne2) as Hlong.
      rewrite !length_app, serAll_app, !length_app in Hshort. lia. }
    rewrite Hno2. eexists. split; [reflexivity|]. split; [reflexivity|].
    exists [], (afterLastMdat bs ++ bs2). split; reflexivity.
  - destruct (has_mdat bs2) eqn:Hyes2.
    + assert (Hyes : has_mdat (rs ++ bs2) = true)
        by (rewrite has_mdat_app, Hyes2; apply orb_true_r).
      destruct (walk_mdat (rs ++ bs2) (Z.of_nat (length (serAll cs))) None 0 Hyes)
        as (off & sz & Hw & Hend).
      destruct (walk _ _ _ _) as [bi lc]. cbn [fst] in Hw. subst bi.
      destruct (last_mdat_app_some rs bs2 Hyes2) as [Hu' _]. rewrite Hu' in Hend.
      eexists. split; [reflexivity|]. split; [reflexivity|].
      exists sz. split; [reflexivity|]. cbn [lastCompletedOffset].
      rewrite Hend, Hafter, !serAll_app, !length_app. lia.
    + assert (Hno : has_mdat (rs ++ bs2) = false)
        by (rewrite has_mdat_app, Hnors, Hyes2; reflexivity).
      rewrite walk_no_mdat by exact Hno.
      eexists. split; [reflexivity|]. split; [reflexivity|].
      cbn [lastCompletedOffset]. rewrite Hafter.
      destruct (rs ++ bs2) as [|q qs] eqn:Eq.
      * exists [], ((cs ++ rs) ++ bs2). split; reflexivity.
      * exists ((cs ++ rs) ++ bs2), []. split; [rewrite app_nil_r; reflexivity|].
        rewrite <- app_assoc, Eq, serAll_app, length_app. lia.
Qed.

Lemma Buffered_length st bs p :
  Buffered st bs p -> (length (contents (remaining st)) <= length (serAll bs ++ p))%nat.
Proof.
  intros [Hrem _]. rewrite Hrem.
  rewrite <- (upto_after bs) at 2. rewrite serAll_app, !length_app. lia.
Qed.

(** Events handled one after the other keep a property of the transport
    that every read of new bytes keeps. *)
Lemma run_reads_inv (I : State -> list Box -> list Byte.byte -> Prop)
    (allowed : NetEvent -> Prop) fuel st0 d0 :
  (forall bs p, delivered d0 bs p -> I st0 bs p) ->
  (forall st bs p, I st bs p -> Buffered st bs p) ->
  (forall st bs p v bs2 p' now,
     I st bs p -> Forall wf bs -> v <> [] -> p ++ v = serAll bs2 ++ p' ->
     Forall wf bs2 -> Forall mdatNonEmpty bs2 -> dangling p' ->
     (length (contents (remaining st) ++ v) + 2 <= fuel)%nat ->
     exists st',
       processMediaSegmentData fuel st (Some v) false now = Returned st' /\
       I st' (bs ++ bs2) p') ->
  (forall st bs p status response now,
     allowed (InitOnload status response now) -> I st bs p ->
     step fuel st (InitOnload status response now) = Returned st) ->
  (forall value done now, allowed (Read value done now) -> done = false) ->
  forall evs,
    Forall allowed evs ->
    forall bs p,
      delivered (d0 ++ dataOf evs) bs p ->
      (length (d0 ++ dataOf evs) + 2 <= fuel)%nat ->
      exists st, run fuel st0 evs = Returned st /\ I st bs p.
Proof.
  intros Hstart Hbuf Hstep Hinit Hnd.
  induction evs as [|ev evs IH] using rev_ind; intros Hall bs p Hdel Hfuel.
  - cbn [dataOf omap concat] in Hdel. rewrite app_nil_r in Hdel.
    eexists. split; [reflexivity|]. apply Hstart. exact Hdel.
  - apply Forall_app in Hall as [Hall Hev]. apply Forall_cons in Hev as [Hev _].
    rewrite run_snoc. rewrite dataOf_snoc in Hdel, Hfuel.
    destruct ev as [status response now | [v|] done now].
    + rewrite app_nil_r in Hdel, Hfuel.
      destruct (IH Hall bs p Hdel Hfuel) as (st & -> & HI).
      exists st. split; [|exact HI]. apply (Hinit st bs p); assumption.
    + pose proof (Hnd _ _ _ Hev) as ->.
      destruct v as [|x v].
      * rewrite app_nil_r in Hdel, Hfuel.
        destruct (IH Hall bs p Hdel Hfuel) as (st & -> & HI).
        exists st. split; [reflexivity|exact HI].
      * rewrite app_assoc in Hdel, Hfuel.
        destruct (delivered_split bs (d0 ++ dataOf evs) (x :: v) p Hdel)
          as (bs1 & bs2 & p1 & -> & Hdel1 & Hpv & Hwf2 & Hne2).
        destruct (IH Hall bs1 p1 Hdel1) as (st & -> & HI);
          [rewrite length_app in Hfuel; lia|].
        cbn [step].
        destruct Hdel as (_ & _ & _ & Hp). destruct Hdel1 as (Hd1 & Hwf1 & _ & _).
        apply (Hstep st bs1 p1 (x :: v) bs2 p now); auto; try discriminate.
        pose proof (Buffered_length st bs1 p1 (Hbuf _ _ _ HI)) as Hl.
        rewrite <- Hd1 in Hl. rewrite !length_app in *. lia.
    + pose proof (Hnd _ _ _ Hev) as ->. rewrite app_nil_r in Hdel, Hfuel.
      destruct (IH Hall bs p Hdel Hfuel) as (st & -> & HI).
      exists st. split; [reflexivity|exact HI].
Qed.

Lemma last_snoc_chunk (l : list (list Byte.byte)) x : last (l ++ [x]) = Some x.
Proof. apply last_snoc. Qed.

(** One read of new bytes while the gate is open. *)
Lemma open_step m tracks st bs p v bs2 p' fuel now :
  map_tracks m = Some tracks ->
  Open m tracks st bs p -> Forall wf bs -> v <> [] -> p ++ v = serAll bs2 ++ p' ->
  Forall wf bs2 -> Forall mdatNonEmpty bs2 -> dangling p' ->
  (length (contents (remaining st) ++ v) + 2 <= fuel)%nat ->
  exists st',
    processMediaSegmentData fuel st (Some v) false now = Returned st' /\
    Open m tracks st' (bs ++ bs2) p' /\
    needInit st' = needInit st.
Proof.
  intros Ht (HB & Hgate & Hm & Hsd & Htrace & Hch & Hfc & Hbuffer)
    Hwf Hv Hsplit Hwf2 Hne2 Hp' Hfuel.
  destruct (step_scan st bs p v bs2 p' fuel HB Hwf Hsplit Hwf2 Hne2 Hp' Hfuel)
    as (info & Hfind & Hfound & Hcase).
  pose proof (split_at_last_mdat st bs p v bs2 p' HB Hsplit) as HXY.
  destruct (concat_whole (remaining st) v) as [Hcont Hbuf].
  destruct (has_mdat bs2) eqn:Hyes2.
  - destruct Hcase as (sz & Hsize & Hend).
    destruct (last_mdat_app_some bs bs2 Hyes2) as [Hu Ha].
    set (X := serAll (afterLastMdat bs ++ uptoLastMdat bs2)) in *.
    set (Y := serAll (afterLastMdat bs2) ++ p') in *.
    assert (HX : X <> []).
    { subst X. apply serAll_nonempty. intros Hnil.
      apply app_eq_nil in Hnil as [_ Hnil]. exact (upto_nonempty bs2 Hyes2 Hnil). }
    destruct (process_found_eq st v fuel now info sz X Y Hv Hfind Hfound Hsize HXY Hend)
      as (rem & Hrem & Hrembuf & ->).
    set (fcrt := if firstChunkReceiveTime st =? 0 then Z.pos now
                 else firstChunkReceiveTime st).
    assert (Hfcrt : 0 < fcrt).
    { subst fcrt. destruct (Z.eqb_spec (firstChunkReceiveTime st) 0); [lia|].
      destruct (has_mdat bs); lia. }
    assert (Hflag : (firstChunkReceiveTime st =? 0)
                    = match chunksOf (calls st) with [] => true | _ => false end).
    { destruct (has_mdat bs).
      - destruct Hfc as (Hpos & _ & Hne). zfalse (firstChunkReceiveTime st =? 0).
        destruct (chunksOf (calls st)); [congruence|reflexivity].
      - destruct Hfc as (-> & _ & ->). reflexivity. }
    set (st1 := mkState _ _ _ _ _ _ _ _ _ _).
    rewrite (gate_open_chunk st1 X (initRcvd st) fcrt _ now m tracks Hgate Hfcrt Hm Ht HX).
    eexists. split; [reflexivity|]. split; [|reflexivity].
    unfold Open, Buffered.
    cbn [calls remaining offset needInit initRcvd segment map segmentDone
         firstChunkReceiveTime segmentTrackAndTimingInfoHandled st1].
    rewrite has_mdat_app, Hyes2, orb_true_r, Hu, Ha, Hrem.
    rewrite chunksOf_app, chunksOf_chunkCallbacks.
    split; [split; [reflexivity|exists [], (afterLastMdat bs2); split; reflexivity]|].
    split; [exact Hgate|]. split; [reflexivity|]. split; [reflexivity|].
    split; [|split; [|split]].
    + rewrite traceOf_snoc, <- Htrace, Hflag. reflexivity.
    + rewrite concat_app, Hch. cbn [concat]. rewrite app_nil_r. subst X.
      rewrite <- serAll_app, app_assoc, upto_after. reflexivity.
    + split; [exact Hfcrt|]. split; [reflexivity|].
      intros Hnil. apply app_eq_nil in Hnil as [_ Hnil]. discriminate.
    + rewrite Hrembuf, last_snoc_chunk. destruct Y as [|y Y'] eqn:EY.
      * left. reflexivity.
      * right. exists X. split; reflexivity.
  - destruct Hcase as (cs' & rs' & Hcs & Hoff').
    destruct (last_mdat_app_none bs bs2 Hyes2) as [Hu Ha].
    rewrite (process_not_found st v fuel now info Hv Hfind Hfound).
    eexists. split; [reflexivity|]. split; [|reflexivity].
    unfold Open, Buffered.
    cbn [calls remaining offset needInit initRcvd segment map segmentDone
         firstChunkReceiveTime segmentTrackAndTimingInfoHandled].
    rewrite has_mdat_app, Hyes2, orb_false_r, Hu, Ha, Hcont, Hbuf.
    split; [split|].
    + rewrite HXY. rewrite (no_mdat_upto bs2 Hyes2), (no_mdat_after bs2 Hyes2), app_nil_r.
      rewrite serAll_app, <- app_assoc. reflexivity.
    + exists cs', rs'. split; assumption.
    + repeat split; try assumption. left. reflexivity.
Qed.

(** One read of new bytes while the initialization section is awaited. *)
Lemma closed_step m st bs p v bs2 p' fuel now :
  Closed m st bs p -> Forall wf bs -> v <> [] -> p ++ v = serAll bs2 ++ p' ->
  Forall wf bs2 -> Forall mdatNonEmpty bs2 -> dangling p' ->
  (length (contents (remaining st) ++ v) + 2 <= fuel)%nat ->
  exists st',
    processMediaSegmentData fuel st (Some v) false now = Returned st' /\
    Closed m st' (bs ++ bs2) p'.
Proof.
  intros (HB & Hni & Hrc & Hm & Hsd & Hcalls & Hh & Hfc)
    Hwf Hv Hsplit Hwf2 Hne2 Hp' Hfuel.
  destruct (step_scan st bs p v bs2 p' fuel HB Hwf Hsplit Hwf2 Hne2 Hp' Hfuel)
    as (info & Hfind & Hfound & Hcase).
  pose proof (split_at_last_mdat st bs p v bs2 p' HB Hsplit) as HXY.
  destruct (concat_whole (remaining st) v) as [Hcont Hbuf].
  destruct (has_mdat bs2) eqn:Hyes2.
  - destruct Hcase as (sz & Hsize & Hend).
    destruct (last_mdat_app_some bs bs2 Hyes2) as [Hu Ha].
    destruct (process_found_eq st v fuel now info sz _ _ Hv Hfind Hfound Hsize HXY Hend)
      as (rem & Hrem & Hrembuf & ->).
    rewrite Hni, Hrc, gate_closed.
    eexists. split; [reflexivity|].
    unfold Closed, Buffered.
    cbn [calls remaining offset needInit initRcvd segment map segmentDone
         firstChunkReceiveTime segmentTrackAndTimingInfoHandled].
    rewrite has_mdat_app, Hyes2, orb_true_r, Ha, Hrem.
    split; [split; [reflexivity|exists [], (afterLastMdat bs2); split; reflexivity]|].
    repeat split; try assumption.
    destruct (Z.eqb_spec (firstChunkReceiveTime st) 0); [lia|].
    destruct (has_mdat bs); lia.
  - destruct Hcase as (cs' & rs' & Hcs & Hoff').
    destruct (last_mdat_app_none bs bs2 Hyes2) as [Hu Ha].
    rewrite (process_not_found st v fuel now info Hv Hfind Hfound).
    eexists. split; [reflexivity|].
    unfold Closed, Buffered.
    cbn [calls remaining offset needInit initRcvd segment map segmentDone
         firstChunkReceiveTime segmentTrackAndTimingInfoHandled].
    rewrite has_mdat_app, Hyes2, orb_false_r, Ha, Hcont, Hbuf.
    split; [split|].
    + rewrite HXY. rewrite (no_mdat_upto bs2 Hyes2), (no_mdat_after bs2 Hyes2), app_nil_r.
      rewrite serAll_app, <- app_assoc. reflexivity.
    + exists cs', rs'. split; assumption.
    + repeat split; try assumption.
      destruct (has_mdat bs); [exact Hfc|]. split; [apply Hfc|reflexivity].
Qed.

Lemma Open_start seg m tracks :
  map seg = Some m -> isSome (map_bytes m) = true ->
  forall bs p, delivered [] bs p ->
    Open m tracks (audioSegmentFetch seg) bs p /\ needInit (audioSegmentFetch seg) = false.
Proof.
  intros Hm Hb bs p Hdel. apply delivered_nil in Hdel as [-> ->].
  unfold Open, Buffered, audioSegmentFetch. rewrite Hm, Hb.
  cbn [calls remaining offset needInit initRcvd segment map segmentDone
       firstChunkReceiveTime segmentTrackAndTimingInfoHandled].
  split; [|reflexivity].
  split; [split; [reflexivity|exists [], []; split; reflexivity]|].
  cbn [has_mdat existsb negb andb orb chunksOf omap traceOf concat uptoLastMdat serAll
       List.map].
  repeat split; try reflexivity; try assumption. left. reflexivity.
Qed.

Lemma Closed_start seg m :
  map seg = Some m -> map_bytes m = None ->
  forall bs p, delivered [] bs p -> Closed m (audioSegmentFetch seg) bs p.
Proof.
  intros Hm Hb bs p Hdel. apply delivered_nil in Hdel as [-> ->].
  unfold Closed, Buffered, audioSegmentFetch. rewrite Hm, Hb.
  cbn [calls remaining offset needInit initRcvd segment map segmentDone
       firstChunkReceiveTime segmentTrackAndTimingInfoHandled].
  split; [split; [reflexivity|exists [], []; split; reflexivity]|].
  cbn [has_mdat existsb negb isSome]. repeat split; reflexivity || assumption.
Qed.

(** The fetch of a segment whose initialization section is loaded,
    over events none of which is the closing read: a late response of
    an initialization request is ignored, since none was needed. *)
Lemma run_open fuel seg m tracks evs bs p :
  map seg = Some m -> isSome (map_bytes m) = true -> map_tracks m = Some tracks ->
  Forall notDone evs ->
  delivered (dataOf evs) bs p ->
  (length (dataOf evs) + 2 <= fuel)%nat ->
  exists st, run fuel (audioSegmentFetch seg) evs = Returned st /\ Open m tracks st bs p.
Proof.
  intros Hm Hb Ht Hnd Hdel Hfuel.
  destruct (run_reads_inv (fun st bs p => Open m tracks st bs p /\ needInit st = false)
              notDone fuel (audioSegmentFetch seg) []) with (evs := evs) (bs := bs) (p := p)
    as (st & Hrun & HO & _); try assumption.
  - apply Open_start; assumption.
  - intros st bs0 p0 [HO _]. apply HO.
  - intros st bs0 p0 v bs2 p' now [HO Hni] Hwf Hv Hsplit Hwf2 Hne2 Hp' Hf.
    destruct (open_step m tracks st bs0 p0 v bs2 p' fuel now Ht HO Hwf Hv Hsplit Hwf2 Hne2
                Hp' Hf) as (st' & Hrun & HO' & Hni').
    exists st'. split; [exact Hrun|]. split; [exact HO'|congruence].
  - intros st bs0 p0 status response now _ [_ Hni]. cbn [step]. rewrite Hni. reflexivity.
  - intros value done now Hev. exact Hev.
  - exists st. split; assumption.
Qed.

(** The fetch of a segment whose initialization section is still being
    requested, over reads of the body that are not the closing one. *)
Lemma run_closed fuel seg m evs bs p :
  map seg = Some m -> map_bytes m = None ->
  Forall isDataRead evs ->
  delivered (dataOf evs) bs p ->
  (length (dataOf evs) + 2 <= fuel)%nat ->
  exists st, run fuel (audioSegmentFetch seg) evs = Returned st /\ Closed m st bs p.
Proof.
  intros Hm Hb Hall Hdel Hfuel.
  apply (run_reads_inv (Closed m) isDataRead fuel (audioSegmentFetch seg) []);
    try assumption.
  - apply Closed_start; assumption.
  - intros st bs0 p0 HC. apply HC.
  - intros st bs0 p0 v bs2 p' now. apply closed_step.
  - intros st bs0 p0 status response now [].
  - intros value done now Hev. exact Hev.
Qed.

End TraceLemmas.

(** ** What a loader sees of a fetch *)

Section TraceProperties.
Import IsoBox Fetch Boxes TransportState TransportTrace.
Context `{Probes}.

Lemma run_app fuel st evs1 evs2 :
  run fuel st (evs1 ++ evs2)
  = match run fuel st evs1 with
    | Returned st' => run fuel st' evs2
    | other => other
    end.
Proof.
  revert st. induction evs1 as [|e evs1 IH]; intros st; cbn [app run].
  - reflexivity.
  - destruct (step fuel st e); [apply IH|reflexivity|reflexivity].
Qed.

(** The closing read once the gate is open. *)
Lemma open_closing m tracks st bs p fuel value now :
  map_tracks m = Some tracks -> Open m tracks st bs p ->
  exists st',
    processMediaSegmentData fuel st value true now = Returned st' /\
    calls st'
    = if has_mdat bs
      then calls st ++ [dataFn (buffer (remaining st)) (mediaTypeOf tracks); doneFn]
      else calls st.
Proof.
  intros Ht (_ & Hgate & Hm & _ & _ & _ & Hfc & _).
  unfold processMediaSegmentData, handleMediaDataResponse, waitForCompletion.
  cbn [segmentDone needInit initRcvd firstChunkReceiveTime firstChunkFlag segment remaining].
  rewrite Hgate, andb_true_r.
  destruct (has_mdat bs).
  - destruct Hfc as (Hpos & Hh & _). ztrue (0 <? firstChunkReceiveTime st).
    unfold handleSegmentBytes. cbn [segment set_segment map]. rewrite Hm, Ht.
    cbn [negb]. rewrite andb_false_r.
    cbn [segmentTrackAndTimingInfoHandled]. rewrite Hh.
    eexists. split; [reflexivity|]. cbn [emit calls]. rewrite <- app_assoc. reflexivity.
  - destruct Hfc as (-> & _). cbn. eexists. split; reflexivity.
Qed.

(** X6. A segment whose initialization section is loaded, its body a
    stream of well-formed boxes cut into reads at arbitrary places. Up to
    the closing read the callbacks are, for each chunk in order,
    [trackInfoFn], the timing callbacks and [chunkFn], and nothing else:
    track information is reported once per chunk, and the first-chunk flag
    is set on the first chunk and on no other. *)
Theorem callbacks_follow_the_chunks :
  forall (seg : Segment) (m : InitMap) (tracks : gmap string Track) (evs : list NetEvent)
         (bs : list Box) (p : list Byte.byte) (fuel : nat),
    map seg = Some m -> isSome (map_bytes m) = true -> map_tracks m = Some tracks ->
    Forall notDone evs ->
    delivered (dataOf evs) bs p ->
    (length (dataOf evs) + 2 <= fuel)%nat ->
    exists st,
      run fuel (audioSegmentFetch seg) evs = Returned st /\
      calls st = traceOf m tracks true (chunksOf (calls st)) /\
      trackInfoCalls (calls st) = length (chunksOf (calls st)) /\
      chunkFlags (calls st)
      = match chunksOf (calls st) with
        | [] => []
        | _ :: rest => true :: List.map (fun _ => false) rest
        end.
Proof.
  intros seg m tracks evs bs p fuel Hm Hb Ht Hnd Hdel Hfuel.
  destruct (run_open fuel seg m tracks evs bs p Hm Hb Ht Hnd Hdel Hfuel)
    as (st & Hrun & _ & _ & _ & _ & Htrace & _).
  exists st. split; [exact Hrun|]. split; [exact Htrace|].
  split; rewrite Htrace at 1.
  - apply trackInfoCalls_traceOf.
  - apply chunkFlags_traceOf.
Qed.

(** X7. Same setting, at least one media-data box complete. The
    closing read adds exactly two callbacks: [dataFn] with the whole array
    buffer behind [remaining], then [doneFn]. So the end of the request is
    reported once, as the last callback. That array buffer is what is
    still buffered, preceded by the last chunk when the last chunk was
    sliced off the same buffer. *)
Theorem closing_read_reports_done_once :
  forall (seg : Segment) (m : InitMap) (tracks : gmap string Track) (evs : list NetEvent)
         (bs : list Box) (p : list Byte.byte) (fuel : nat) (value : option (list Byte.byte))
         (now : positive),
    map seg = Some m -> isSome (map_bytes m) = true -> map_tracks m = Some tracks ->
    Forall notDone evs ->
    delivered (dataOf evs) bs p ->
    (length (dataOf evs) + 2 <= fuel)%nat ->
    has_mdat bs = true ->
    exists st st',
      run fuel (audioSegmentFetch seg) evs = Returned st /\
      run fuel (audioSegmentFetch seg) (evs ++ [Read value true now]) = Returned st' /\
      calls st' = calls st ++ [dataFn (buffer (remaining st)) (mediaTypeOf tracks); doneFn] /\
      doneCalls (calls st') = 1%nat /\
      (buffer (remaining st) = serAll (afterLastMdat bs) ++ p \/
       exists X, last (chunksOf (calls st)) = Some X /\
                 buffer (remaining st) = X ++ serAll (afterLastMdat bs) ++ p).
Proof.
  intros seg m tracks evs bs p fuel value now Hm Hb Ht Hnd Hdel Hfuel Hyes.
  destruct (run_open fuel seg m tracks evs bs p Hm Hb Ht Hnd Hdel Hfuel)
    as (st & Hrun & HO).
  destruct (open_closing m tracks st bs p fuel value now Ht HO) as (st' & Hclose & Hcalls).
  rewrite Hyes in Hcalls.
  exists st, st'. split; [exact Hrun|]. split; [rewrite run_snoc, Hrun; exact Hclose|].
  split; [exact Hcalls|].
  destruct HO as ((Hrem & _) & _ & _ & _ & Htrace & _ & _ & Hbuffer).
  split.
  - rewrite Hcalls, doneCalls_app, Htrace, doneCalls_traceOf. reflexivity.
  - rewrite <- Hrem. exact Hbuffer.
Qed.

(** X8. Same setting, no media-data box complete when the body ends
    (an empty body included): no callback is made at all, neither for the
    bytes received nor for the end of the request. *)
Theorem no_complete_mdat_no_callback :
  forall (seg : Segment) (m : InitMap) (tracks : gmap string Track) (evs : list NetEvent)
         (bs : list Box) (p : list Byte.byte) (fuel : nat) (value : option (list Byte.byte))
         (now : positive),
    map seg = Some m -> isSome (map_bytes m) = true -> map_tracks m = Some tracks ->
    Forall notDone evs ->
    delivered (dataOf evs) bs p ->
    (length (dataOf evs) + 2 <= fuel)%nat ->
    has_mdat bs = false ->
    exists st',
      run fuel (audioSegmentFetch seg) (evs ++ [Read value true now]) = Returned st' /\
      calls st' = [].
Proof.
  intros seg m tracks evs bs p fuel value now Hm Hb Ht Hnd Hdel Hfuel Hno.
  destruct (run_open fuel seg m tracks evs bs p Hm Hb Ht Hnd Hdel Hfuel)
    as (st & Hrun & HO).
  destruct (open_closing m tracks st bs p fuel value now Ht HO) as (st' & Hclose & Hcalls).
  exists st'. split; [rewrite run_snoc, Hrun; exact Hclose|].
  destruct HO as (_ & _ & _ & _ & _ & _ & Hfc & _).
  rewrite Hno in Hcalls, Hfc. rewrite Hcalls. apply Hfc.
Qed.

(** X9. A segment whose initialization section is not loaded, so that
    the fetch requests it. As long as the response to that request has not
    arrived, the reads of the body make no callback, the closing read
    included; yet every read that completes a media-data box removes the
    bytes through that box from the buffer. Those bytes are then neither
    buffered nor delivered. *)
Theorem media_before_init_is_dropped :
  forall (seg : Segment) (m : InitMap) (evs : list NetEvent) (bs : list Box)
         (p : list Byte.byte) (fuel : nat),
    map seg = Some m -> map_bytes m = None ->
    Forall isDataRead evs ->
    delivered (dataOf evs) bs p ->
    (length (dataOf evs) + 2 <= fuel)%nat ->
    exists st,
      run fuel (audioSegmentFetch seg) evs = Returned st /\
      calls st = [] /\
      contents (remaining st) = serAll (afterLastMdat bs) ++ p /\
      forall value now,
        exists st',
          run fuel (audioSegmentFetch seg) (evs ++ [Read value true now]) = Returned st' /\
          calls st' = [].
Proof.
  intros seg m evs bs p fuel Hm Hb Hall Hdel Hfuel.
  destruct (run_closed fuel seg m evs bs p Hm Hb Hall Hdel Hfuel)
    as (st & Hrun & (Hrem & _) & Hni & Hrc & _ & _ & Hcalls & _).
  exists st. split; [exact Hrun|]. split; [exact Hcalls|]. split; [exact Hrem|].
  intros value now. rewrite run_snoc, Hrun. cbn [step].
  unfold processMediaSegmentData.
  cbn [segmentDone needInit initRcvd firstChunkReceiveTime firstChunkFlag segment remaining].
  rewrite Hni, Hrc, gate_closed. eexists. split; [reflexivity|exact Hcalls].
Qed.

(** The response with the initialization section, arriving while the
    body is being read. *)
Lemma closed_init m tracks st bs p fuel status response now :
  Closed m st bs p ->
  200 <= status < 300 ->
  detectContainerForBytes response = "mp4"%string ->
  map_tracks (probedMap m response) = Some tracks ->
  step fuel st (InitOnload status response now)
  = if has_mdat bs
    then handleSegmentBytes
           (mkState
              (mkSegment (resolvedUri (segment st)) (requestId (segment st))
                 (Some (probedMap m response)) (isFmp4 (segment st)) (Some (Z.pos now)))
              true true (firstChunkReceiveTime st) (firstChunkFlag st) false
              (remaining st) (offset st) false [])
           response false (firstChunkFlag st)
    else Returned
           (mkState
              (mkSegment (resolvedUri (segment st)) (requestId (segment st))
                 (Some (probedMap m response)) (isFmp4 (segment st))
                 (endOfAllRequests (segment st)))
              true true 0 (firstChunkFlag st) false (remaining st) (offset st) false []).
Proof.
  intros (_ & Hni & _ & Hm & Hsd & Hcalls & Hh & Hfc) Hstatus Hdetect Htracks.
  cbn [step]. rewrite Hni. unfold initReq_onload.
  ztrue (200 <=? status). ztrue (status <? 300). cbn [andb].
  unfold handleInitSegmentResponse.
  cbn [segment needInit initRcvd segmentDone firstChunkReceiveTime firstChunkFlag remaining
       offset segmentTrackAndTimingInfoHandled calls].
  rewrite Hm, Hdetect. cbn [String.eqb Ascii.eqb Bool.eqb negb].
  fold (probedMap m response).
  unfold waitForCompletion. rewrite Hni. cbn [andb orb negb].
  rewrite Hsd, Hcalls, Hh.
  destruct (has_mdat bs).
  - ztrue (0 <? firstChunkReceiveTime st). cbn [andb]. reflexivity.
  - destruct Hfc as [-> _]. reflexivity.
Qed.

(** X10. Same segment; the response with the initialization section
    arrives after a media-data box was completed. The bytes of that
    response are then handed to [chunkFn] as a chunk, and they are the only
    chunk so far: the media bytes received up to the last complete
    media-data box are not delivered. *)
Theorem late_init_response_is_handed_to_chunkFn :
  forall (seg : Segment) (m : InitMap) (tracks : gmap string Track) (evs : list NetEvent)
         (bs : list Box) (p : list Byte.byte) (fuel : nat) (status : Z)
         (response : list Byte.byte) (now : positive),
    map seg = Some m -> map_bytes m = None ->
    Forall isDataRead evs ->
    delivered (dataOf evs) bs p ->
    (length (dataOf evs) + 2 <= fuel)%nat ->
    has_mdat bs = true ->
    200 <= status < 300 ->
    response <> [] ->
    detectContainerForBytes response = "mp4"%string ->
    map_tracks (probedMap m response) = Some tracks ->
    exists st',
      run fuel (audioSegmentFetch seg) (evs ++ [InitOnload status response now])
      = Returned st' /\
      chunksOf (calls st') = [response] /\
      contents (remaining st') = serAll (afterLastMdat bs) ++ p.
Proof.
  intros seg m tracks evs bs p fuel status response now Hm Hb Hall Hdel Hfuel Hyes
    Hstatus Hne Hdetect Htracks.
  destruct (run_closed fuel seg m evs bs p Hm Hb Hall Hdel Hfuel) as (st & Hrun & HC).
  rewrite run_snoc, Hrun.
  rewrite (closed_init m tracks st bs p fuel status response now HC Hstatus Hdetect Htracks).
  rewrite Hyes. destruct HC as ((Hrem & _) & _).
  unfold handleSegmentBytes. cbn [segment set_segment map]. rewrite Htracks.
  assert (Hlen : (Z.of_nat (length response) =? 0) = false).
  { apply Z.eqb_neq. destruct response; [congruence|cbn [length]; lia]. }
  rewrite Hlen. cbn [negb andb].
  eexists. split; [reflexivity|].
  cbn [hasAudio hasVideo isMuxed].
  destruct (isSome (tracks !! "audio")), (isSome (tracks !! "video"));
    cbn [andb negb emit set_handled set_segment calls remaining app chunksOf omap];
    split; (reflexivity || exact Hrem).
Qed.

(** X11. Same segment; the response with the initialization section
    arrives before any media-data box is complete, and the probe finds its
    tracks. Then nothing is lost: over arbitrary cuts of the body into
    reads, the chunks emitted rebuild the stream through the last complete
    media-data box, what follows is buffered, the bytes of the
    initialization section are not among the chunks, and the callbacks are
    those of the chunks. *)
Theorem init_before_media_rebuilds_stream :
  forall (seg : Segment) (m : InitMap) (tracks : gmap string Track)
         (evs1 evs2 : list NetEvent) (bs1 : list Box) (p1 : list Byte.byte)
         (status : Z) (response : list Byte.byte) (tinit : positive)
         (bs : list Box) (p : list Byte.byte) (fuel : nat),
    map seg = Some m -> map_bytes m = None ->
    Forall isDataRead evs1 -> Forall isDataRead evs2 ->
    delivered (dataOf evs1) bs1 p1 -> has_mdat bs1 = false ->
    200 <= status < 300 ->
    detectContainerForBytes response = "mp4"%string ->
    map_tracks (probedMap m response) = Some tracks ->
    delivered (dataOf evs1 ++ dataOf evs2) bs p ->
    (length (dataOf evs1 ++ dataOf evs2) + 2 <= fuel)%nat ->
    exists st,
      run fuel (audioSegmentFetch seg) (evs1 ++ InitOnload status response tinit :: evs2)
      = Returned st /\
      concat (chunksOf (calls st)) = serAll (uptoLastMdat bs) /\
      contents (remaining st) = serAll (afterLastMdat bs) ++ p /\
      calls st = traceOf (probedMap m response) tracks true (chunksOf (calls st)).
Proof.
  intros seg m tracks evs1 evs2 bs1 p1 status response tinit bs p fuel Hm Hb Hall1 Hall2
    Hdel1 Hno1 Hstatus Hdetect Htracks Hdel Hfuel.
  assert (Hfuel1 : (length (dataOf evs1) + 2 <= fuel)%nat)
    by (rewrite length_app in Hfuel; lia).
  destruct (run_closed fuel seg m evs1 bs1 p1 Hm Hb Hall1 Hdel1 Hfuel1) as (st1 & Hrun1 & HC1).
  assert (Hzero : firstChunkReceiveTime st1 = 0).
  { destruct HC1 as (_ & _ & _ & _ & _ & _ & _ & Hfc). rewrite Hno1 in Hfc. apply Hfc. }
  rewrite run_app, Hrun1. cbn [run].
  rewrite (closed_init m tracks st1 bs1 p1 fuel status response tinit HC1 Hstatus Hdetect
             Htracks).
  rewrite Hno1.
  set (st2 := mkState _ _ _ _ _ _ _ _ _ _).
  destruct (run_reads_inv (Open (probedMap m response) tracks) isDataRead fuel st2
              (dataOf evs1)) with (evs := evs2) (bs := bs) (p := p)
    as (st & Hrun & (Hrem & _) & _ & _ & _ & Htrace & Hch & _); try assumption.
  - intros bs' p' Hdel'.
    destruct (run_closed fuel seg m evs1 bs' p' Hm Hb Hall1 Hdel' Hfuel1)
      as (st1' & Hrun1' & HB' & _ & _ & _ & _ & _ & _ & Hfc').
    rewrite Hrun1 in Hrun1'. injection Hrun1' as <-.
    assert (Hno' : has_mdat bs' = false).
    { destruct (has_mdat bs'); [lia|reflexivity]. }
    rewrite Hno' in Hfc'. destruct Hfc' as [_ Hbuffer].
    unfold Open. subst st2.
    cbn [calls remaining offset needInit initRcvd segment map segmentDone
         firstChunkReceiveTime segmentTrackAndTimingInfoHandled chunksOf omap traceOf
         concat andb orb negb].
    rewrite Hno', (no_mdat_upto bs' Hno').
    split; [exact HB'|]. repeat split; try reflexivity. left. exact Hbuffer.
  - intros st bs0 p0 HO. apply HO.
  - intros st bs0 p0 v bs2 p' now HO Hwf Hv Hsplit Hwf2 Hne2 Hp' Hf.
    destruct (open_step (probedMap m response) tracks st bs0 p0 v bs2 p' fuel now Htracks HO
                Hwf Hv Hsplit Hwf2 Hne2 Hp' Hf) as (st' & Hrun & HO' & _).
    exists st'. split; assumption.
  - intros st bs0 p0 st' response' now [].
  - intros value done now Hev. exact Hev.
  - exists st. repeat split; assumption.
Qed.

End TraceProperties.

Section InitTracks.
Import Fetch.

Lemma addTrack_lookup m t ty :
  default ∅ (map_tracks (addTrack m t)) !! ty
  = match default ∅ (map_tracks m) !! ty with
    | Some t' => Some t'
    | None => if String.eqb (track_type t) ty then Some t else None
    end.
Proof.
  unfold addTrack. set (tracks := default ∅ (map_tracks m)).
  destruct (tracks !! track_type t) as [t0|] eqn:E;
    cbn [map_tracks default from_option id].
  - destruct (String.eqb_spec (track_type t) ty) as [<-|Hne].
    + rewrite E. reflexivity.
    + destruct (tracks !! ty); reflexivity.
  - destruct (String.eqb_spec (track_type t) ty) as [<-|Hne].
    + rewrite lookup_insert_eq, E. reflexivity.
    + rewrite lookup_insert_ne by exact Hne. destruct (tracks !! ty); reflexivity.
Qed.

(** X12. Registering the tracks that the probe lists for an
    initialization section keeps at most one track per media type, the
    first of that type in the list; a type already registered keeps its
    track. *)
Theorem first_track_of_each_type_is_kept :
  forall (ts : list Track) (m : InitMap) (ty : string),
    default ∅ (map_tracks (foldl addTrack m ts)) !! ty
    = match default ∅ (map_tracks m) !! ty with
      | Some t => Some t
      | None => List.find (fun t => String.eqb (track_type t) ty) ts
      end.
Proof.
  induction ts as [|t ts IH]; intros m ty; cbn [foldl List.find].
  - destruct (default ∅ (map_tracks m) !! ty); reflexivity.
  - rewrite IH, addTrack_lookup.
    destruct (default ∅ (map_tracks m) !! ty); [reflexivity|].
    destruct (String.eqb (track_type t) ty); reflexivity.
Qed.

End InitTracks.

(** ** Choosing the next segment *)

Section NextSegment.
Import Loader.
Context `{Deps}.
Local Open Scope Q_scope.

Lemma indicesOfTimeline_spec segs :
  forall (i t j : Z),
    j ∈ indicesOfTimeline segs i t ->
    (i <= j < i + Z.of_nat (length segs))%Z /\
    exists s, segs !! Z.to_nat (j - i) = Some s /\ timeline s = t.
Proof.
  induction segs as [|s segs IH]; intros i t j Hin; cbn [indicesOfTimeline] in Hin.
  - apply elem_of_nil in Hin. destruct Hin.
  - cbn [length].
    assert (Hrest : j ∈ indicesOfTimeline segs (i + 1)%Z t ->
              (i <= j < i + Z.of_nat (S (length segs)))%Z /\
              exists s', (s :: segs) !! Z.to_nat (j - i) = Some s' /\ timeline s' = t).
    { intros Hj. destruct (IH _ _ _ Hj) as [Hr (s' & Hs' & Ht')]. split; [lia|].
      exists s'. split; [|exact Ht'].
      replace (Z.to_nat (j - i)) with (S (Z.to_nat (j - (i + 1)))) by lia. exact Hs'. }
    destruct (Z.eqb_spec (timeline s) t) as [Ht|Ht]; [|exact (Hrest Hin)].
    apply elem_of_cons in Hin as [->|Hin]; [|exact (Hrest Hin)].
    split; [lia|]. exists s. rewrite Z.sub_diag. split; [reflexivity|exact Ht].
Qed.

Lemma indicesOfTimeline_nonempty segs :
  forall (i t : Z) s, s ∈ segs -> timeline s = t -> indicesOfTimeline segs i t <> [].
Proof.
  induction segs as [|s0 segs IH]; intros i t s Hin Ht.
  - apply elem_of_nil in Hin. destruct Hin.
  - cbn [indicesOfTimeline]. destruct (Z.eqb_spec (timeline s0) t) as [E|E]; [discriminate|].
    apply elem_of_cons in Hin as [->|Hin]; [congruence|]. eapply IH; eassumption.
Qed.

Lemma indicesOfTimeline_empty segs :
  forall (i t : Z), (forall s, s ∈ segs -> timeline s <> t) -> indicesOfTimeline segs i t = [].
Proof.
  induction segs as [|s0 segs IH]; intros i t Hall; [reflexivity|].
  cbn [indicesOfTimeline]. destruct (Z.eqb_spec (timeline s0) t) as [E|E].
  - destruct (Hall s0 (list_elem_of_here _ _) E).
  - apply IH. intros s Hs. apply Hall. apply list_elem_of_further. exact Hs.
Qed.

(** X13. The segment chosen for a sync request, on a playlist that
    has segments, is always an index of the playlist: index 0 before any
    timeline is known; a segment of the current timeline when the
    playlist has one; the last segment otherwise. *)
Theorem sync_candidate_is_a_segment_of_the_playlist :
  forall (l : SegmentLoader) (playlist : Playlist),
    segments playlist <> [] ->
    let i := getSyncSegmentCandidate_ l playlist in
    (0 <= i < Z.of_nat (length (segments playlist)))%Z /\
    (currentTimeline_ l = (-1)%Z -> i = 0%Z) /\
    (currentTimeline_ l <> (-1)%Z ->
     forall s, s ∈ segments playlist -> timeline s = currentTimeline_ l ->
       exists s', segments playlist !! Z.to_nat i = Some s' /\
                  timeline s' = currentTimeline_ l) /\
    (currentTimeline_ l <> (-1)%Z ->
     (forall s, s ∈ segments playlist -> timeline s <> currentTimeline_ l) ->
     i = (Z.of_nat (length (segments playlist)) - 1)%Z).
Proof.
  intros l playlist Hne i. subst i. unfold getSyncSegmentCandidate_.
  assert (Hlen : (0 < Z.of_nat (length (segments playlist)))%Z).
  { destruct (segments playlist); [congruence|cbn [length]; lia]. }
  destruct (Z.eqb_spec (currentTimeline_ l) (-1)) as [Hstart|Hknown].
  - split; [lia|]. split; [reflexivity|]. split; intros Hc; congruence.
  - set (arr := indicesOfTimeline (segments playlist) 0%Z (currentTimeline_ l)).
    assert (Hpick : arr <> [] ->
              exists j, arr !! Z.to_nat (Z.min (Z.of_nat (length arr) - 1) 1) = Some j).
    { intros Harr. apply lookup_lt_is_Some.
      destruct arr as [|a [|b arr']]; [congruence|cbn; lia|cbn [length]; lia]. }
    destruct arr as [|a arr'] eqn:Earr.
    + rewrite Z.max_l by lia. split; [lia|]. split; [congruence|]. split.
      * intros _ s Hs Ht.
        destruct (indicesOfTimeline_nonempty (segments playlist) 0%Z _ s Hs Ht).
        exact Earr.
      * intros _ _. reflexivity.
    + destruct (Hpick ltac:(discriminate)) as [j Hj]. rewrite Hj.
      change (default 0%Z (Some j)) with j.
      assert (Hin : j ∈ arr) by (rewrite Earr; eapply list_elem_of_lookup_2; exact Hj).
      destruct (indicesOfTimeline_spec _ _ _ _ Hin) as [Hr (s' & Hs' & Ht')].
      rewrite Z.sub_0_r in Hs'.
      split; [lia|]. split; [congruence|]. split.
      * intros _ s _ _. exists s'. split; assumption.
      * intros _ Hnone. exfalso. subst arr.
        rewrite (indicesOfTimeline_empty (segments playlist) 0%Z _ Hnone) in Hin.
        apply elem_of_nil in Hin. exact Hin.
Qed.

Lemma generateSegmentInfo_Some env l playlist idx sos sync si :
  generateSegmentInfo_ env l playlist idx sos sync = Some si ->
  (0 <= idx < Z.of_nat (length (segments playlist)))%Z /\
  si_mediaIndex si = idx /\ si_playlist si = playlist /\
  isSyncRequest si = sync /\ startOfSegment si = sos /\
  timestampOffset si = None /\
  audioInitDataAppended si = false /\ videoInitDataAppended si = false /\
  segmentInfoInitDataApplied si = false /\
  exists s, segments playlist !! Z.to_nat idx = Some s /\
            si_segment si = Some s /\ si_uri si = resolvedUri s /\
            si_timeline si = timeline s /\ si_duration si = duration s.
Proof.
  unfold generateSegmentInfo_.
  destruct (Z.ltb_spec idx 0) as [Hneg|Hpos]; [discriminate|].
  destruct (Z.leb_spec (Z.of_nat (length (segments playlist))) idx) as [Hbig|Hin];
    [discriminate|]. cbn [orb].
  destruct (segments playlist !! Z.to_nat idx) as [s|] eqn:Es; [|discriminate].
  intros [= <-]. cbn. split; [lia|]. repeat split. exists s. repeat split.
Qed.

(** X14. Every segment that [checkBuffer_] asks to load is a segment
    of the playlist it was given: its index lies inside the playlist, and
    its segment, address, timeline and duration are those of the playlist
    entry at that index. The request is a sync request exactly when there
    is no sync point, it has no timestamp offset yet, and when a sync
    point and a current index exist it is the entry after the current
    one. *)
Theorem checkBuffer_returns_a_segment_of_the_playlist :
  forall (env : Env) (l : SegmentLoader) (buffered : TimeRanges) (playlist : Playlist)
         (cur : option Z) (hasPlayed : bool) (currentTime : Q)
         (syncPoint : option SyncPoint) (si : SegmentInfo),
    checkBuffer_ env l buffered playlist cur hasPlayed currentTime syncPoint = Some si ->
    (0 <= si_mediaIndex si < Z.of_nat (length (segments playlist)))%Z /\
    si_playlist si = playlist /\
    (exists s, segments playlist !! Z.to_nat (si_mediaIndex si) = Some s /\
               si_segment si = Some s /\ si_uri si = resolvedUri s /\
               si_timeline si = timeline s /\ si_duration si = duration s) /\
    isSyncRequest si = negb (isSome syncPoint) /\
    timestampOffset si = None /\
    (forall i sp, cur = Some i -> syncPoint = Some sp -> si_mediaIndex si = (i + 1)%Z).
Proof.
  intros env l buffered playlist cur hasPlayed currentTime syncPoint si.
  unfold checkBuffer_.
  destruct (Z.of_nat (length (segments playlist)) =? 0)%Z; [discriminate|].
  set (pick := match syncPoint with
               | None => _
               | Some sp => _
               end).
  assert (Hpick : snd pick = negb (isSome syncPoint) /\
                  forall i sp, cur = Some i -> syncPoint = Some sp ->
                               fst (fst pick) = (i + 1)%Z).
  { subst pick. destruct syncPoint as [sp|]; [destruct cur as [c|]|]; cbn.
    - split; [reflexivity|]. intros i sp' [= <-] _. reflexivity.
    - split; [reflexivity|]. intros i sp' [=].
    - split; [reflexivity|]. intros i sp' _ [=]. }
  destruct pick as [[next sos] sync]. cbn [fst snd] in Hpick. destruct Hpick as [Hsync Hnext].
  intros Hres.
  assert (Hgen : exists si0,
            generateSegmentInfo_ env l playlist next sos sync = Some si0 /\ si0 = si).
  { destruct (Qle_bool (goalBufferLength env) _);
      destruct (negb hasPlayed && _); try discriminate;
      destruct (generateSegmentInfo_ env l playlist next sos sync) as [si0|];
      try discriminate;
      (destruct (playlist_ l) as [own|];
       [destruct (_ && _); [discriminate|]|]);
      injection Hres as <-; eexists; split; reflexivity. }
  destruct Hgen as (si0 & Hgen & <-).
  destruct (generateSegmentInfo_Some _ _ _ _ _ _ _ Hgen)
    as (Hr & Hi & Hp & Hs & _ & Hto & _ & _ & _ & s & Hseg & Hss & Hu & Ht & Hd).
  rewrite Hi. split; [exact Hr|]. split; [exact Hp|].
  split; [exists s; repeat split; assumption|].
  split; [congruence|]. split; [exact Hto|].
  intros i sp Hc Hsp. exact (Hnext i sp Hc Hsp).
Qed.

(** With a sync point and a current index, the entry after the current
    one is asked for. *)
Lemma checkBuffer_walks_forward :
  forall (env : Env) (l : SegmentLoader) (buffered : TimeRanges) (playlist : Playlist)
         (i : Z) (currentTime : Q) (sp : SyncPoint),
    (0 <= i + 1 < Z.of_nat (length (segments playlist)))%Z ->
    String.eqb (readyState env) "ended" = false ->
    exists si,
      checkBuffer_ env l buffered playlist (Some i) true currentTime (Some sp) = Some si /\
      si_mediaIndex si = (i + 1)%Z /\
      isSyncRequest si = false /\
      si_segment si = segments playlist !! Z.to_nat (i + 1).
Proof.
  intros env l buffered playlist i currentTime sp Hrange Hended.
  unfold checkBuffer_.
  zfalse ((Z.of_nat (length (segments playlist)) =? 0)%Z).
  cbn [negb andb].
  unfold generateSegmentInfo_.
  zfalse ((i + 1 <? 0)%Z). zfalse ((Z.of_nat (length (segments playlist)) <=? i + 1)%Z).
  cbn [orb].
  destruct (lookup_lt_is_Some_2 (segments playlist) (Z.to_nat (i + 1)) ltac:(lia))
    as [s Hs].
  rewrite Hs.
  destruct (Qle_bool (goalBufferLength env) _); destruct (playlist_ l);
    rewrite ?Hended, ?andb_false_r; cbn [andb];
    eexists; (split; [reflexivity|]); repeat split.
Qed.


(** X15. Walking forward: with a sync point, a current index [i],
    playback started and the media source not ended, [checkBuffer_]
    always asks for entry [i + 1] of the playlist when the playlist has
    one, however much is buffered ahead; the request is not a sync
    request. *)
Theorem next_request_is_the_next_segment :
  forall (env : Env) (l : SegmentLoader) (buffered : TimeRanges) (playlist : Playlist)
         (i : Z) (currentTime : Q) (sp : SyncPoint),
    (0 <= i + 1 < Z.of_nat (length (segments playlist)))%Z ->
    String.eqb (readyState env) "ended" = false ->
    exists si,
      checkBuffer_ env l buffered playlist (Some i) true currentTime (Some sp) = Some si /\
      si_mediaIndex si = (i + 1)%Z /\
      isSyncRequest si = false /\
      si_segment si = segments playlist !! Z.to_nat (i + 1).
Proof. exact checkBuffer_walks_forward. Qed.

End NextSegment.

(** ** What the bookkeeping of effects and timers leaves alone *)

Section LoaderFrames.
Import TimelineChange Loader.
Context `{Deps}.
Context {A : Type} (P : SegmentLoader -> A).
Hypothesis P_log : forall e l, P (log e l) = P l.
Hypothesis P_timer : forall v l, P (set_checkBufferTimeout_ v l) = P l.
Hypothesis P_next : forall v l, P (set_nextTimerId v l) = P l.

Lemma frame_foldl_log (f : string -> Effect) tracks :
  forall l, P (foldl (fun l track => log (f track) l) l tracks) = P l.
Proof.
  induction tracks as [|t tracks IH]; intros l; [reflexivity|].
  cbn [foldl]. rewrite IH. apply P_log.
Qed.

Lemma frame_remove env s e l : P (remove env s e l) = P l.
Proof.
  unfold remove. destruct (currentMediaInfo_ l) as [info|]; [|reflexivity].
  rewrite P_log, frame_foldl_log.
  destruct (_ && _); rewrite ?P_log; destruct (negb (audioDisabled_ l)); rewrite ?P_log;
    reflexivity.
Qed.

Lemma frame_monitorBuffer_ l : P (monitorBuffer_ l) = P l.
Proof.
  unfold monitorBuffer_, clearCheckBufferTimeout. rewrite P_timer, P_next, P_log.
  destruct (checkBufferTimeout_ l) as [t|]; [destruct (truthyZ (Some t))|];
    rewrite ?P_log; reflexivity.
Qed.

Lemma frame_pause l : P (pause l) = P l.
Proof.
  unfold pause. destruct (checkBufferTimeout_ l) as [t|]; [destruct (truthyZ (Some t))|];
    rewrite ?P_timer, ?P_log; reflexivity.
Qed.

Lemma frame_addSegmentMetadataCue_ seg l : P (addSegmentMetadataCue_ seg l) = P l.
Proof.
  unfold addSegmentMetadataCue_. destruct (negb _); [reflexivity|].
  destruct (seg_start seg), (seg_end seg); rewrite ?P_log; reflexivity.
Qed.

Hypothesis P_state : forall v l, P (set_state_ v l) = P l.
Hypothesis P_throughput : forall v l, P (set_throughput v l) = P l.
Hypothesis P_ended : forall v l, P (set_ended_ v l) = P l.

Lemma frame_setState s l : P (setState s l) = P l.
Proof. unfold setState. destruct (negb _); rewrite ?P_log, ?P_state; reflexivity. Qed.

Lemma frame_recordThroughput_ now si l : P (recordThroughput_ now si l) = P l.
Proof. unfold recordThroughput_. apply P_throughput. Qed.

Lemma frame_endOfStream l : P (endOfStream l) = P l.
Proof. unfold endOfStream. rewrite P_log, frame_pause, !P_log, P_ended. reflexivity. Qed.

End LoaderFrames.

(** A field of a loader behind one assignment: either the assignment
    leaves the field alone, or it is the value assigned. *)
Lemma frame_apply {A} (P : Loader.SegmentLoader -> A)
    (f : Loader.SegmentLoader -> Loader.SegmentLoader) :
  (forall l, P (f l) = P l) -> forall l, P (f l) = P l.
Proof. intros Hf l. apply Hf. Qed.

Lemma frame_value {A} (P : Loader.SegmentLoader -> A)
    (f : Loader.SegmentLoader -> Loader.SegmentLoader) (v : A) :
  (forall l, P (f l) = v) -> forall l, P (f l) = v.
Proof. intros Hf l. apply Hf. Qed.

Ltac loader_setter P f v x :=
  first [ rewrite (frame_apply P f (fun l => eq_refl) x)
        | rewrite (frame_value P f v (fun l => eq_refl) x) ].

Ltac loader_assignment P :=
  match goal with
  | |- context [P (Loader.log ?e ?x)] =>
      rewrite (frame_apply P (Loader.log e) (fun l => eq_refl) x)
  | |- context [P (Loader.set_state_ ?v ?x)] => loader_setter P (Loader.set_state_ v) v x
  | |- context [P (Loader.set_loaderType_ ?v ?x)] => loader_setter P (Loader.set_loaderType_ v) v x
  | |- context [P (Loader.set_mediaIndex ?v ?x)] => loader_setter P (Loader.set_mediaIndex v) v x
  | |- context [P (Loader.set_playlist_ ?v ?x)] => loader_setter P (Loader.set_playlist_ v) v x
  | |- context [P (Loader.set_pendingSegment_ ?v ?x)] => loader_setter P (Loader.set_pendingSegment_ v) v x
  | |- context [P (Loader.set_xhrOptions_ ?v ?x)] => loader_setter P (Loader.set_xhrOptions_ v) v x
  | |- context [P (Loader.set_checkBufferTimeout_ ?v ?x)] => loader_setter P (Loader.set_checkBufferTimeout_ v) v x
  | |- context [P (Loader.set_currentTimeline_ ?v ?x)] => loader_setter P (Loader.set_currentTimeline_ v) v x
  | |- context [P (Loader.set_audioDisabled_ ?v ?x)] => loader_setter P (Loader.set_audioDisabled_ v) v x
  | |- context [P (Loader.set_currentMediaInfo_ ?v ?x)] => loader_setter P (Loader.set_currentMediaInfo_ v) v x
  | |- context [P (Loader.set_startingMediaInfo_ ?v ?x)] => loader_setter P (Loader.set_startingMediaInfo_ v) v x
  | |- context [P (Loader.set_appendInitSegment_ ?v ?x)] => loader_setter P (Loader.set_appendInitSegment_ v) v x
  | |- context [P (Loader.set_playlistOfLastInitSegment_ ?v ?x)] => loader_setter P (Loader.set_playlistOfLastInitSegment_ v) v x
  | |- context [P (Loader.set_activeInitSegmentId_ ?v ?x)] => loader_setter P (Loader.set_activeInitSegmentId_ v) v x
  | |- context [P (Loader.set_initSegments_ ?v ?x)] => loader_setter P (Loader.set_initSegments_ v) v x
  | |- context [P (Loader.set_callQueue_ ?v ?x)] => loader_setter P (Loader.set_callQueue_ v) v x
  | |- context [P (Loader.set_loadQueue_ ?v ?x)] => loader_setter P (Loader.set_loadQueue_ v) v x
  | |- context [P (Loader.set_metadataQueue_id3 ?v ?x)] => loader_setter P (Loader.set_metadataQueue_id3 v) v x
  | |- context [P (Loader.set_metadataQueue_caption ?v ?x)] => loader_setter P (Loader.set_metadataQueue_caption v) v x
  | |- context [P (Loader.set_throughput ?v ?x)] => loader_setter P (Loader.set_throughput v) v x
  | |- context [P (Loader.set_fetchAtBuffer_ ?v ?x)] => loader_setter P (Loader.set_fetchAtBuffer_ v) v x
  | |- context [P (Loader.set_syncPoint_ ?v ?x)] => loader_setter P (Loader.set_syncPoint_ v) v x
  | |- context [P (Loader.set_isPendingTimestampOffset_ ?v ?x)] => loader_setter P (Loader.set_isPendingTimestampOffset_ v) v x
  | |- context [P (Loader.set_ended_ ?v ?x)] => loader_setter P (Loader.set_ended_ v) v x
  | |- context [P (Loader.set_timeMapping_ ?v ?x)] => loader_setter P (Loader.set_timeMapping_ v) v x
  | |- context [P (Loader.set_timelineChangeController_ ?v ?x)] => loader_setter P (Loader.set_timelineChangeController_ v) v x
  | |- context [P (Loader.set_handlePartialData_ ?v ?x)] => loader_setter P (Loader.set_handlePartialData_ v) v x
  | |- context [P (Loader.set_useFetch ?v ?x)] => loader_setter P (Loader.set_useFetch v) v x
  | |- context [P (Loader.set_inbandTextTracks_ ?v ?x)] => loader_setter P (Loader.set_inbandTextTracks_ v) v x
  | |- context [P (Loader.set_hasSegmentMetadataTrack ?v ?x)] => loader_setter P (Loader.set_hasSegmentMetadataTrack v) v x
  | |- context [P (Loader.set_shouldSaveSegmentTimingInfo_ ?v ?x)] => loader_setter P (Loader.set_shouldSaveSegmentTimingInfo_ v) v x
  | |- context [P (Loader.set_nextTimerId ?v ?x)] => loader_setter P (Loader.set_nextTimerId v) v x
  | |- context [P (Loader.set_effects ?v ?x)] => loader_setter P (Loader.set_effects v) v x
  end.

(** Pushes the field [P] of a loader through assignments, logged effects,
    timers and conditionals. *)
Ltac loader_field P :=
  repeat first
    [ rewrite (frame_monitorBuffer_ P) by reflexivity
    | rewrite (frame_pause P) by reflexivity
    | rewrite (frame_remove P) by reflexivity
    | rewrite (frame_addSegmentMetadataCue_ P) by reflexivity
    | rewrite (frame_setState P) by reflexivity
    | rewrite (frame_recordThroughput_ P) by reflexivity
    | rewrite (frame_endOfStream P) by reflexivity
    | rewrite (frame_foldl_log P) by reflexivity
    | match goal with |- context [P (if ?c then _ else _)] => destruct c end
    | match goal with |- context [P (match ?c with Some _ => _ | None => _ end)] =>
        destruct c
      end
    | loader_assignment P ].

(** ** Trimming the back buffer *)

Section TrimBackBuffer.
Import Loader.
Context `{Deps}.
Local Open Scope Q_scope.

Lemma effects_foldl_log (f : string -> Effect) tracks :
  forall l, effects (foldl (fun l track => log (f track) l) l tracks)
            = effects l ++ List.map f tracks.
Proof.
  induction tracks as [|t tracks IH]; intros l; cbn [foldl List.map].
  - rewrite app_nil_r. reflexivity.
  - rewrite IH. cbn [log effects set_effects]. rewrite <- app_assoc. reflexivity.
Qed.

(** Everything [remove] asks of its collaborators concerns the range
    it was given. *)
Lemma remove_effects env s e l :
  exists added,
    effects (remove env s (Some e) l) = effects l ++ added /\
    Forall (fun x => match x with
                     | RemoveAudio s' e' | RemoveVideo s' e' | RemoveGopBuffer s' e' _
                     | RemoveCuesFromTrack s' e' _ => s' = s /\ e' = e
                     | _ => False
                     end) added.
Proof.
  unfold remove. destruct (currentMediaInfo_ l) as [info|].
  - set (l1 := if negb (audioDisabled_ l) then _ else l).
    assert (H1 : exists a1, effects l1 = effects l ++ a1 /\
              Forall (fun x => match x with
                               | RemoveAudio s' e' | RemoveVideo s' e'
                               | RemoveGopBuffer s' e' _
                               | RemoveCuesFromTrack s' e' _ => s' = s /\ e' = e
                               | _ => False
                               end) a1).
    { subst l1. destruct (negb (audioDisabled_ l)).
      - eexists. split; [reflexivity|]. repeat constructor.
      - exists []. split; [rewrite app_nil_r; reflexivity|constructor]. }
    destruct H1 as (a1 & E1 & F1).
    set (l2 := if _ && _ then _ else l1).
    assert (H2 : exists a2, effects l2 = effects l ++ a2 /\
              Forall (fun x => match x with
                               | RemoveAudio s' e' | RemoveVideo s' e'
                               | RemoveGopBuffer s' e' _
                               | RemoveCuesFromTrack s' e' _ => s' = s /\ e' = e
                               | _ => False
                               end) a2).
    { subst l2. destruct (_ && _).
      - exists (a1 ++ [RemoveGopBuffer s e (timeMapping_ l1); RemoveVideo s e]).
        cbn [log effects set_effects]. rewrite E1, <- !app_assoc. split; [reflexivity|].
        apply Forall_app. split; [exact F1|]. repeat constructor.
      - exists a1. split; assumption. }
    destruct H2 as (a2 & E2 & F2).
    cbn [log effects set_effects]. rewrite effects_foldl_log, E2.
    exists (a2 ++ List.map (RemoveCuesFromTrack s e) (inbandTextTracks_ l2)
               ++ [RemoveCuesFromTrack s e "segment-metadata"]).
    rewrite <- !app_assoc. split; [reflexivity|].
    apply Forall_app. split; [exact F2|]. apply Forall_app. split; [|repeat constructor].
    induction (inbandTextTracks_ l2) as [|t ts IHts]; cbn [List.map]; constructor;
      [split; reflexivity|exact IHts].
  - exists []. split; [rewrite app_nil_r; reflexivity|constructor].
Qed.

(** X16. Whatever [trimBackBuffer_] removes from the source buffers,
    the GOP buffer and the text tracks is a range that starts at 0, is
    not empty, and ends at least one target duration (10 s when the
    playlist has none) before the current time. *)
Theorem trimBackBuffer_spares_the_last_target_duration :
  forall (env : Env) (l l' : SegmentLoader) (pl : Playlist),
    playlist_ l = Some pl ->
    trimBackBuffer_ env l = Some l' ->
    let td := match targetDuration pl with
              | Some d => if Qeq_bool d 0 then 10 else d
              | None => 10
              end in
    exists added,
      effects l' = effects l ++ added /\
      Forall (fun x => match x with
                       | RemoveAudio s e | RemoveVideo s e | RemoveGopBuffer s e _
                       | RemoveCuesFromTrack s e _ =>
                           s = 0 /\ 0 < e /\ e <= currentTime env - td
                       | _ => False
                       end) added.
Proof.
  intros env l l' pl Hpl Ht td. unfold trimBackBuffer_ in Ht. rewrite Hpl in Ht.
  injection Ht as <-.
  set (t := safeBackBufferTrimTime _ _ _).
  assert (Htd : (if truthyQ (targetDuration pl) then default 0 (targetDuration pl) else 10)
                = td).
  { subst td. unfold truthyQ. destruct (targetDuration pl) as [d|]; [|reflexivity].
    destruct (Qeq_bool d 0); reflexivity. }
  assert (Hmax : t <= currentTime env - td).
  { subst t. rewrite Htd. unfold safeBackBufferTrimTime. apply Q.le_min_l. }
  destruct (Qle_bool t 0) eqn:Hle; cbn [negb].
  - exists []. split; [rewrite app_nil_r; reflexivity|constructor].
  - assert (Hpos : 0 < t).
    { apply Qnot_le_lt. intros Hc. apply Qle_bool_iff in Hc. congruence. }
    destruct (remove_effects env 0 t l) as (added & Heff & Hall).
    exists added. split; [exact Heff|].
    eapply Forall_impl; [exact Hall|]. intros x.
    destruct x; try tauto; intros [-> ->]; repeat split; assumption.
Qed.

End TrimBackBuffer.

(** ** Resetting the loader *)

Section Reset.
Import TimelineChange Loader.
Context `{Deps}.

Lemma abort_post l :
  let l' := abort l in
  pendingSegment_ l' = None /\
  state_ l' = (if LoaderState_eqb (state_ l) WAITING then READY else state_ l) /\
  callQueue_ l' = (if LoaderState_eqb (state_ l) WAITING then [] else callQueue_ l) /\
  loadQueue_ l' = (if LoaderState_eqb (state_ l) WAITING then [] else loadQueue_ l) /\
  metadataQueue_id3 l'
  = (if LoaderState_eqb (state_ l) WAITING then [] else metadataQueue_id3 l) /\
  metadataQueue_caption l'
  = (if LoaderState_eqb (state_ l) WAITING then [] else metadataQueue_caption l) /\
  mediaIndex l' = mediaIndex l /\ syncPoint_ l' = syncPoint_ l /\
  isPendingTimestampOffset_ l' = isPendingTimestampOffset_ l /\
  fetchAtBuffer_ l' = fetchAtBuffer_ l /\ ended_ l' = ended_ l /\
  appendInitSegment_ l' = appendInitSegment_ l /\ playlist_ l' = playlist_ l /\
  currentMediaInfo_ l' = currentMediaInfo_ l.
Proof.
  cbn zeta. unfold abort.
  destruct (LoaderState_eqb (state_ l) WAITING) eqn:Hw; cbn [negb].
  - set (a := abort_ l).
    assert (Ha : pendingSegment_ a = None /\ state_ a = state_ l /\
                 callQueue_ a = [] /\ loadQueue_ a = [] /\ metadataQueue_id3 a = [] /\
                 metadataQueue_caption a = [] /\
                 mediaIndex a = mediaIndex l /\ syncPoint_ a = syncPoint_ l /\
                 isPendingTimestampOffset_ a = isPendingTimestampOffset_ l /\
                 fetchAtBuffer_ a = fetchAtBuffer_ l /\ ended_ a = ended_ l /\
                 appendInitSegment_ a = appendInitSegment_ l /\ playlist_ a = playlist_ l /\
                 currentMediaInfo_ a = currentMediaInfo_ l).
    { subst a. unfold abort_. destruct (pendingSegment_ l) as [pending|];
        [destruct (abortRequests pending)|]; cbn; repeat split. }
    destruct Ha as (A1 & A2 & A3 & A4 & A5 & A6 & A7 & A8 & A9 & A10 & A11 & A12 & A13 & A14).
    set (s := setState READY a).
    assert (Hs : pendingSegment_ s = None /\ state_ s = READY /\
                 callQueue_ s = [] /\ loadQueue_ s = [] /\ metadataQueue_id3 s = [] /\
                 metadataQueue_caption s = [] /\
                 mediaIndex s = mediaIndex l /\ syncPoint_ s = syncPoint_ l /\
                 isPendingTimestampOffset_ s = isPendingTimestampOffset_ l /\
                 fetchAtBuffer_ s = fetchAtBuffer_ l /\ ended_ s = ended_ l /\
                 appendInitSegment_ s = appendInitSegment_ l /\ playlist_ s = playlist_ l /\
                 currentMediaInfo_ s = currentMediaInfo_ l).
    { subst s. split; [|split; [apply state_setState|]];
        unfold setState; destruct (negb _); cbn; repeat split; assumption. }
    destruct (negb (paused s)); [|exact Hs].
    rewrite !frame_monitorBuffer_ by reflexivity. exact Hs.
  - destruct (pendingSegment_ l) eqn:Hp; cbn; repeat split; assumption.
Qed.

Lemma resetEverything_post env l :
  let l' := resetEverything env l in
  pendingSegment_ l' = None /\
  mediaIndex l' = None /\ syncPoint_ l' = None /\
  callQueue_ l' = [] /\ loadQueue_ l' = [] /\
  metadataQueue_id3 l' = [] /\ metadataQueue_caption l' = [] /\
  fetchAtBuffer_ l' = false /\ isPendingTimestampOffset_ l' = false /\
  ended_ l' = false /\
  appendInitSegment_ l' = mkPerType true true /\
  playlist_ l' = playlist_ l /\
  state_ l' = (if LoaderState_eqb (state_ l) WAITING then READY else state_ l).
Proof.
  cbn zeta. unfold resetEverything, resetLoader, resyncLoader.
  set (z := set_metadataQueue_caption [] _).
  pose proof (abort_post z) as Hz. cbn zeta in Hz.
  destruct Hz as (Z1 & Z2 & Z3 & Z4 & Z5 & Z6 & Z7 & Z8 & Z9 & Z10 & Z11 & Z12 & Z13 & _).
  cbn [log set_effects pendingSegment_ mediaIndex syncPoint_ callQueue_ loadQueue_
       metadataQueue_id3 metadataQueue_caption fetchAtBuffer_ isPendingTimestampOffset_
       ended_ appendInitSegment_ playlist_ state_].
  rewrite (frame_remove pendingSegment_), (frame_remove mediaIndex),
    (frame_remove syncPoint_), (frame_remove callQueue_), (frame_remove loadQueue_),
    (frame_remove metadataQueue_id3), (frame_remove metadataQueue_caption),
    (frame_remove fetchAtBuffer_), (frame_remove isPendingTimestampOffset_),
    (frame_remove ended_), (frame_remove appendInitSegment_), (frame_remove playlist_),
    (frame_remove state_) by reflexivity.
  cbn [log set_effects pendingSegment_ mediaIndex syncPoint_ callQueue_ loadQueue_
       metadataQueue_id3 metadataQueue_caption fetchAtBuffer_ isPendingTimestampOffset_
       ended_ appendInitSegment_ playlist_ state_].
  rewrite Z1, Z2, Z3, Z4, Z5, Z6, Z7, Z8, Z9, Z10, Z11, Z12, Z13.
  subst z. cbn.
  destruct (LoaderState_eqb (state_ l) WAITING); repeat split.
Qed.

(** X17. [resetEverything] always leaves the loader with no pending
    segment, no media index, no sync point, empty call, load and metadata
    queues, the flags for fetching at the buffer end, for a pending
    timestamp offset and for the ended stream cleared, and both
    initialization segments due again; it keeps the playlist, and it
    changes the state only from [WAITING], to [READY]. *)
Theorem resetEverything_clears_the_pipeline :
  forall (env : Env) (l : SegmentLoader),
    let l' := resetEverything env l in
    pendingSegment_ l' = None /\
    mediaIndex l' = None /\ syncPoint_ l' = None /\
    callQueue_ l' = [] /\ loadQueue_ l' = [] /\
    metadataQueue_id3 l' = [] /\ metadataQueue_caption l' = [] /\
    fetchAtBuffer_ l' = false /\ isPendingTimestampOffset_ l' = false /\
    ended_ l' = false /\
    appendInitSegment_ l' = mkPerType true true /\
    playlist_ l' = playlist_ l /\
    state_ l' = (if LoaderState_eqb (state_ l) WAITING then READY else state_ l).
Proof. exact resetEverything_post. Qed.

Lemma currentTimeline_resetEverything env l :
  currentTimeline_ (resetEverything env l) = currentTimeline_ l.
Proof.
  unfold resetEverything, resetLoader, resyncLoader, abort, abort_.
  loader_field currentTimeline_; reflexivity.
Qed.

End Reset.

(** ** The loader after the appends of a segment are done *)

Section AppendsDoneState.
Import TimelineChange Loader.
Context `{Deps}.
Local Open Scope Q_scope.

(** The test of [handleAppendsDone_] for a segment that ends more than
    three target durations before the current time. Rounding is
    monotone: a difference that is exactly at most the product is not
    above it after both are rounded. *)
Lemma tooFarBehind_false env (segment : Segment) (pl : Playlist) :
  (forall e td, seg_end segment = Some e -> targetDuration pl = Some td ->
                currentTime env - e <= td * 3) ->
  match seg_end segment, targetDuration pl with
  | Some e, Some td =>
      truthyQ (Some e)
      && negb (Qle_bool (Double.double (currentTime env - e)) (Double.double (td * 3)))
  | _, _ => false
  end = false.
Proof.
  intros Hnear. destruct (seg_end segment) as [e|]; [|reflexivity].
  destruct (targetDuration pl) as [td|]; [|reflexivity].
  specialize (Hnear e td eq_refl eq_refl).
  apply double_mono, Qle_bool_iff in Hnear.
  rewrite Hnear, andb_false_r. reflexivity.
Qed.

Lemma tooFarBehind_true env (segment : Segment) (pl : Playlist) e td :
  seg_end segment = Some e -> ~ e == 0 -> targetDuration pl = Some td ->
  Double.double (td * 3) < Double.double (currentTime env - e) ->
  match seg_end segment, targetDuration pl with
  | Some e, Some td =>
      truthyQ (Some e)
      && negb (Qle_bool (Double.double (currentTime env - e)) (Double.double (td * 3)))
  | _, _ => false
  end = true.
Proof.
  intros -> Hnz -> Hfar. unfold truthyQ.
  destruct (Qeq_bool e 0) eqn:E; [apply Qeq_bool_iff in E; contradiction|].
  destruct (Qle_bool (Double.double (currentTime env - e)) (Double.double (td * 3))) eqn:L;
    [|reflexivity].
  apply Qle_bool_iff in L. exfalso. eapply Qlt_not_le; eassumption.
Qed.

(** X18. Whenever [handleAppendsDone_] returns, the loader has no
    pending segment and is in state [READY] (the listeners of the events
    it triggers being outside the model). *)
Theorem appends_done_leave_the_loader_ready :
  forall (env : Env) (l l' : SegmentLoader),
    handleAppendsDone_ env l = Some l' ->
    pendingSegment_ l' = None /\ state_ l' = READY.
Proof.
  intros env l l'. unfold handleAppendsDone_.
  destruct (pendingSegment_ l) as [si|] eqn:Hpend.
  - destruct (si_segment si) as [segment|]; [|discriminate].
    set (l1 := setState READY _).
    assert (Hp1 : pendingSegment_ l1 = None).
    { subst l1. loader_field pendingSegment_; reflexivity. }
    assert (Hs1 : state_ l1 = READY) by apply state_setState.
    destruct (isSyncRequest si).
    { intros [= <-]. split; [exact Hp1|exact Hs1]. }
    set (l2 := log (Trigger "syncinfoupdate") _).
    assert (Hp2 : pendingSegment_ l2 = None).
    { subst l2. loader_field pendingSegment_; exact Hp1. }
    assert (Hs2 : state_ l2 = READY).
    { subst l2. loader_field state_; exact Hs1. }
    destruct (match seg_end segment with Some _ => _ | None => _ end).
    + intros [= <-].
      destruct (resetEverything_post env l2) as (R1 & _ & _ & _ & _ & _ & _ & _ & _ & _ & _ & _ & R2).
      split; [exact R1|]. rewrite R2, Hs2. reflexivity.
    + intros [= <-]. split.
      * loader_field pendingSegment_; exact Hp2.
      * loader_field state_; exact Hs2.
  - intros [= <-]. split.
    + loader_field pendingSegment_; exact Hpend.
    + loader_field state_; apply state_setState.
Qed.

(** The position of the loader after the appends of a segment. *)
Lemma handleAppendsDone_position :
  forall (env : Env) (l : SegmentLoader) (si : SegmentInfo) (segment : Segment),
    pendingSegment_ l = Some si ->
    isSyncRequest si = false ->
    si_segment si = Some segment ->
    (forall e td, seg_end segment = Some e -> targetDuration (si_playlist si) = Some td ->
                  currentTime env - e <= td * 3) ->
    exists l',
      handleAppendsDone_ env l = Some l' /\
      mediaIndex l' = Some (si_mediaIndex si) /\
      currentTimeline_ l' = si_timeline si /\
      fetchAtBuffer_ l' = true /\
      syncPoint_ l' = syncPoint_ l.
Proof.
  intros env l si segment Hpend Hsync Hseg Hnear.
  unfold handleAppendsDone_. rewrite Hpend, Hseg, Hsync.
  rewrite (tooFarBehind_false env segment (si_playlist si) Hnear).
  set (l1 := setState READY _).
  set (l2 := log (Trigger "syncinfoupdate") _).
  assert (Hsp1 : syncPoint_ l1 = syncPoint_ l).
  { subst l1. loader_field syncPoint_; reflexivity. }
  assert (Htl2 : currentTimeline_ l2 = si_timeline si).
  { subst l2. loader_field currentTimeline_; reflexivity. }
  assert (Hfb2 : fetchAtBuffer_ l2 = true).
  { subst l2. loader_field fetchAtBuffer_; reflexivity. }
  assert (Hsp2 : syncPoint_ l2 = syncPoint_ l).
  { subst l2. loader_field syncPoint_; exact Hsp1. }
  clearbody l2. clear l1 Hsp1.
  eexists. split; [reflexivity|].
  split; [|split; [|split]].
  - loader_field mediaIndex; reflexivity.
  - loader_field currentTimeline_; exact Htl2.
  - loader_field fetchAtBuffer_; exact Hfb2.
  - loader_field syncPoint_; exact Hsp2.
Qed.

(** X19. After the appends of a segment that was not a sync request
    and does not end more than three target durations behind the current
    time, the loader's media index is the index of that segment, its
    current timeline is the timeline of that segment, and the next
    request is to be chosen from the end of the buffer. *)
Theorem appended_segment_becomes_the_position :
  forall (env : Env) (l : SegmentLoader) (si : SegmentInfo) (segment : Segment),
    pendingSegment_ l = Some si ->
    isSyncRequest si = false ->
    si_segment si = Some segment ->
    (forall e td, seg_end segment = Some e -> targetDuration (si_playlist si) = Some td ->
                  currentTime env - e <= td * 3) ->
    exists l',
      handleAppendsDone_ env l = Some l' /\
      mediaIndex l' = Some (si_mediaIndex si) /\
      currentTimeline_ l' = si_timeline si /\
      fetchAtBuffer_ l' = true /\
      syncPoint_ l' = syncPoint_ l.
Proof. exact handleAppendsDone_position. Qed.

(** X20. After the appends of a sync request whose pending segment
    has its segment object, the loader keeps its media index, current
    timeline, sync point and [fetchAtBuffer_] flag, and the timer of the
    buffer monitor is not touched. *)
Theorem sync_request_keeps_the_position :
  forall (env : Env) (l : SegmentLoader) (si : SegmentInfo) (segment : Segment),
    pendingSegment_ l = Some si ->
    isSyncRequest si = true ->
    si_segment si = Some segment ->
    exists l',
      handleAppendsDone_ env l = Some l' /\
      mediaIndex l' = mediaIndex l /\
      currentTimeline_ l' = currentTimeline_ l /\
      fetchAtBuffer_ l' = fetchAtBuffer_ l /\
      syncPoint_ l' = syncPoint_ l /\
      checkBufferTimeout_ l' = checkBufferTimeout_ l /\
      timelineChangeController_ l' = timelineChangeController_ l.
Proof.
  intros env l si segment Hpend Hsync Hseg.
  unfold handleAppendsDone_. rewrite Hpend, Hseg, Hsync.
  eexists. split; [reflexivity|].
  split; [|split; [|split; [|split; [|split]]]].
  - loader_field mediaIndex; reflexivity.
  - loader_field currentTimeline_; reflexivity.
  - loader_field fetchAtBuffer_; reflexivity.
  - loader_field syncPoint_; reflexivity.
  - loader_field checkBufferTimeout_; reflexivity.
  - loader_field timelineChangeController_; reflexivity.
Qed.

(** X21. After the appends of a segment (not a sync request) that
    ends more than three target durations before the current time, as
    the source tests it, on doubles: the rounded difference
    [currentTime - end] above the rounded product [targetDuration * 3].
    The loader is then reset: no media index, no sync point,
    [fetchAtBuffer_] cleared, both initialization segments due again;
    the timeline of the segment is still recorded as the current one. *)
Theorem segment_far_behind_resets_the_loader :
  forall (env : Env) (l : SegmentLoader) (si : SegmentInfo) (segment : Segment) (e td : Q),
    pendingSegment_ l = Some si ->
    isSyncRequest si = false ->
    si_segment si = Some segment ->
    seg_end segment = Some e -> ~ e == 0 ->
    targetDuration (si_playlist si) = Some td ->
    Double.double (td * 3) < Double.double (currentTime env - e) ->
    exists l',
      handleAppendsDone_ env l = Some l' /\
      mediaIndex l' = None /\ syncPoint_ l' = None /\
      fetchAtBuffer_ l' = false /\
      appendInitSegment_ l' = mkPerType true true /\
      currentTimeline_ l' = si_timeline si.
Proof.
  intros env l si segment e td Hpend Hsync Hseg Hend Hnz Htd Hfar.
  unfold handleAppendsDone_. rewrite Hpend, Hseg, Hsync.
  rewrite (tooFarBehind_true env segment (si_playlist si) e td Hend Hnz Htd Hfar).
  eexists. split; [reflexivity|].
  match goal with |- context [resetEverything env ?x] =>
    destruct (resetEverything_post env x) as (_ & R2 & R3 & _ & _ & _ & _ & R8 & _ & _ & R11 & _)
  end.
  split; [exact R2|]. split; [exact R3|]. split; [exact R8|]. split; [exact R11|].
  rewrite currentTimeline_resetEverything. loader_field currentTimeline_; reflexivity.
Qed.

End AppendsDoneState.

(** ** The cache of initialization segments *)

Section InitSegmentCache.
Import Loader.
Context `{Deps}.

(** X22. [initSegmentForMap(map, true)] for a map that has its bytes:
    afterwards the cache holds, under the id of the map, the map that was
    returned; no entry that was in the cache is replaced; and asking again
    for the same map, with or without [set], returns the same map and
    leaves the loader as it is. *)
Theorem init_segment_cache_round_trip :
  forall (m : Fetch.InitMap) (l : SegmentLoader),
    isSome (Fetch.map_bytes m) = true ->
    let r := fst (initSegmentForMap (Some m) true l) in
    let l1 := snd (initSegmentForMap (Some m) true l) in
    initSegments_ l1 !! initSegmentId m = r /\
    (forall k v, initSegments_ l !! k = Some v -> initSegments_ l1 !! k = Some v) /\
    (forall set, initSegmentForMap (Some m) set l1 = (r, l1)).
Proof.
  intros m l Hbytes. cbn zeta.
  assert (E : initSegmentForMap (Some m) true l
              = match initSegments_ l !! initSegmentId m with
                | Some stored => (Some stored, l)
                | None => (Some m, set_initSegments_ (<[initSegmentId m := m]> (initSegments_ l)) l)
                end).
  { unfold initSegmentForMap. rewrite Hbytes. reflexivity. }
  rewrite E. clear E.
  destruct (initSegments_ l !! initSegmentId m) as [stored|] eqn:Hlook; cbn [fst snd].
  - split; [exact Hlook|]. split; [tauto|].
    intros set. unfold initSegmentForMap. rewrite Hlook. reflexivity.
  - cbn [set_initSegments_ initSegments_].
    split; [apply lookup_insert_eq|]. split.
    + intros k v Hk. destruct (decide (k = initSegmentId m)) as [->|Hne]; [congruence|].
      rewrite lookup_insert_ne by congruence. exact Hk.
    + intros set. unfold initSegmentForMap.
      cbn [set_initSegments_ initSegments_]. rewrite lookup_insert_eq. reflexivity.
Qed.

End InitSegmentCache.

(** ** The block of [handleMediaChunk_] that runs once per request *)

Section InitDataBlock.
Import Loader.
Context `{Deps}.
Local Open Scope Q_scope.

Lemma setType_idem {A} (p : PerType A) type v :
  setType (setType p type v) type v = setType p type v.
Proof. unfold setType. destruct (String.eqb type "audio"); reflexivity. Qed.

Lemma setType_both type :
  setType (mkPerType true true) type true = mkPerType true true.
Proof. unfold setType. destruct (String.eqb type "audio"); reflexivity. Qed.

Lemma set_appendInitSegment_same l :
  set_appendInitSegment_ (appendInitSegment_ l) l = l.
Proof. destruct l; reflexivity. Qed.

Lemma set_appendInitSegment_twice v w l :
  set_appendInitSegment_ v (set_appendInitSegment_ w l) = set_appendInitSegment_ v l.
Proof. reflexivity. Qed.

Lemma set_appendInitSegment_log v e l :
  set_appendInitSegment_ v (log e l) = log e (set_appendInitSegment_ v l).
Proof. reflexivity. Qed.

(** The status update as one assignment. *)
Lemma updateAppendInitSegmentStatus_eq si type l :
  updateAppendInitSegmentStatus si type l
  = (if negb match getType (playlistOfLastInitSegment_ l) type with
             | Some r => (r =? ref (si_playlist si))%Z
             | None => false
             end
     then set_appendInitSegment_
            (setType (if String.eqb (loaderType_ l) "main" && isSome (timestampOffset si)
                         && negb (changedTimestampOffset si)
                      then mkPerType true true else appendInitSegment_ l) type true) l
     else if String.eqb (loaderType_ l) "main" && isSome (timestampOffset si)
             && negb (changedTimestampOffset si)
          then set_appendInitSegment_ (mkPerType true true) l else l).
Proof.
  unfold updateAppendInitSegmentStatus.
  destruct (String.eqb (loaderType_ l) "main" && isSome (timestampOffset si)
            && negb (changedTimestampOffset si));
    cbn [set_appendInitSegment_ playlistOfLastInitSegment_ appendInitSegment_];
    destruct (negb _); reflexivity.
Qed.

Lemma updateAppendInitSegmentStatus_idem si type l :
  updateAppendInitSegmentStatus si type (updateAppendInitSegmentStatus si type l)
  = updateAppendInitSegmentStatus si type l.
Proof.
  rewrite (updateAppendInitSegmentStatus_eq si type l).
  destruct (negb _) eqn:C2;
    destruct (String.eqb (loaderType_ l) "main" && isSome (timestampOffset si)
              && negb (changedTimestampOffset si)) eqn:C1;
    rewrite updateAppendInitSegmentStatus_eq;
    cbn [set_appendInitSegment_ playlistOfLastInitSegment_ appendInitSegment_ loaderType_];
    rewrite C1, C2, ?setType_both, ?setType_idem; reflexivity.
Qed.

(** The status update only looks at the playlist, the timestamp offset
    and the offset-changed flag of the segment. *)
Lemma updateAppendInitSegmentStatus_log si type e l :
  updateAppendInitSegmentStatus si type (log e l)
  = log e (updateAppendInitSegmentStatus si type l).
Proof.
  rewrite !updateAppendInitSegmentStatus_eq.
  cbn [log set_effects playlistOfLastInitSegment_ appendInitSegment_ loaderType_].
  destruct (negb _);
    destruct (String.eqb (loaderType_ l) "main" && isSome (timestampOffset si)
              && negb (changedTimestampOffset si)); reflexivity.
Qed.

Lemma updateAppendInitSegmentStatus_changed si si' type l :
  si_playlist si' = si_playlist si ->
  changedTimestampOffset si' = true ->
  updateAppendInitSegmentStatus si' type (updateAppendInitSegmentStatus si type l)
  = updateAppendInitSegmentStatus si type l.
Proof.
  intros Hpl Hch.
  rewrite (updateAppendInitSegmentStatus_eq si type l).
  destruct (negb _) eqn:C2;
    destruct (String.eqb (loaderType_ l) "main" && isSome (timestampOffset si)
              && negb (changedTimestampOffset si)) eqn:C1;
    rewrite updateAppendInitSegmentStatus_eq;
    cbn [set_appendInitSegment_ playlistOfLastInitSegment_ appendInitSegment_ loaderType_];
    rewrite Hpl, Hch, C2, ?andb_false_r, ?setType_both, ?setType_idem; reflexivity.
Qed.

(** X23. The two updates that [handleMediaChunk_] makes once per
    request, of the init-segment status and of the source-buffer timestamp
    offset, are idempotent as a block: run again on the segment info and
    the loader they produced, they change neither. *)
Theorem init_data_block_is_idempotent :
  forall (env : Env) (si : SegmentInfo) (type : string) (l : SegmentLoader),
    let once := updateSourceBufferTimestampOffset_ env si
                  (updateAppendInitSegmentStatus si type l) in
    updateSourceBufferTimestampOffset_ env (fst once)
      (updateAppendInitSegmentStatus (fst once) type (snd once))
    = once.
Proof.
  intros env si type l. cbn zeta.
  set (l1 := updateAppendInitSegmentStatus si type l).
  assert (Hidem : updateAppendInitSegmentStatus si type l1 = l1).
  { subst l1. apply updateAppendInitSegmentStatus_idem. }
  destruct (updateSourceBufferTimestampOffset_ env si l1) as [si' l2] eqn:E.
  cbn [fst snd]. pose proof E as E0.
  unfold updateSourceBufferTimestampOffset_ in E.
  destruct (timestampOffset si) as [offset|] eqn:Hoff;
    [|injection E as <- <-; rewrite Hidem; exact E0].
  destruct (timingInfo si) as [[[start|]]|] eqn:Hti;
    try (injection E as <- <-; rewrite Hidem; exact E0).
  destruct (changedTimestampOffset si || negb (String.eqb (loaderType_ l1) "main")) eqn:Hc;
    [injection E as <- <-; rewrite Hidem; exact E0|].
  clear E0. injection E as Esi El.
  assert (Hl2 : updateAppendInitSegmentStatus si' type l2 = l2).
  { subst l2 l1.
    repeat match goal with
           | |- context [if ?c then _ else _] => destruct c
           end;
      rewrite ?updateAppendInitSegmentStatus_log;
      rewrite (updateAppendInitSegmentStatus_changed si si' type l)
        by (subst si'; reflexivity);
      reflexivity. }
  rewrite Hl2. unfold updateSourceBufferTimestampOffset_.
  subst si'. cbn [timestampOffset timingInfo changedTimestampOffset
                  set_changedTimestampOffset set_timestampOffset orb].
  rewrite Hti. reflexivity.
Qed.

End InitDataBlock.

(** ** Switching to another rendition *)

Section RenditionSwitch.
Import TimelineChange Loader.
Context `{Deps}.

Lemma option_string_eqb_neq a b : a <> b -> option_string_eqb a b = false.
Proof.
  intros Hne. destruct a as [x|], b as [y|]; cbn; try reflexivity; try congruence.
  apply String.eqb_neq. congruence.
Qed.

Lemma resyncLoader_post l :
  let l' := resyncLoader l in
  pendingSegment_ l' = None /\ mediaIndex l' = None /\ syncPoint_ l' = None /\
  callQueue_ l' = [] /\ loadQueue_ l' = [] /\
  metadataQueue_id3 l' = [] /\ metadataQueue_caption l' = [] /\
  isPendingTimestampOffset_ l' = false /\
  playlist_ l' = playlist_ l /\
  state_ l' = (if LoaderState_eqb (state_ l) WAITING then READY else state_ l).
Proof.
  cbn zeta. unfold resyncLoader.
  set (z := set_metadataQueue_caption [] _).
  pose proof (abort_post z) as Hz. cbn zeta in Hz.
  destruct Hz as (Z1 & Z2 & Z3 & Z4 & Z5 & Z6 & Z7 & Z8 & Z9 & _ & _ & _ & Z13 & _).
  cbn [log set_effects pendingSegment_ mediaIndex syncPoint_ callQueue_ loadQueue_
       metadataQueue_id3 metadataQueue_caption isPendingTimestampOffset_ playlist_ state_].
  rewrite Z1, Z2, Z3, Z4, Z5, Z6, Z7, Z8, Z9, Z13.
  subst z. cbn.
  destruct (LoaderState_eqb (state_ l) WAITING); repeat split.
Qed.

Lemma xhrOptions_resyncLoader l : xhrOptions_ (resyncLoader l) = xhrOptions_ l.
Proof. unfold resyncLoader, abort, abort_. loader_field xhrOptions_; reflexivity. Qed.

Lemma playlist_switch_eq env l newPlaylist options :
  (forall old, playlist_ l = Some old -> uri old <> uri newPlaylist) ->
  (state_ l <> INIT \/ paused l = true) ->
  playlist env (Some newPlaylist) options l
  = let np := storedPlaylist l newPlaylist in
    let l0 := log (Trigger "syncinfoupdate")
                (set_xhrOptions_ options (set_playlist_ (Some np) l)) in
    log (Trigger "playlistupdate")
      (set_currentMediaInfo_ None
         (if isSome (mediaIndex l) || handlePartialData_ l then resyncLoader l0 else l0)).
Proof.
  intros Huri Hstart. unfold playlist.
  fold (storedPlaylist l newPlaylist). set (np := storedPlaylist l newPlaylist).
  assert (Hnpu : uri np = uri newPlaylist)
    by (subst np; unfold storedPlaylist; destruct (state_ l); reflexivity).
  set (l0 := log (Trigger "syncinfoupdate")
               (set_xhrOptions_ options (set_playlist_ (Some np) l))).
  change (state_ l0) with (state_ l).
  change (couldBeginLoading_ l0) with (negb (paused l)).
  change (mediaIndex l0) with (mediaIndex l).
  change (handlePartialData_ l0) with (handlePartialData_ l).
  assert (Hnoinit : LoaderState_eqb (state_ l) INIT && negb (paused l) = false).
  { destruct Hstart as [Hs|Hp]; [destruct (state_ l); try reflexivity; congruence|].
    rewrite Hp. apply andb_false_r. }
  rewrite Hnoinit.
  destruct (playlist_ l) as [old|]; [|reflexivity].
  rewrite option_string_eqb_neq; [reflexivity|].
  rewrite Hnpu. apply Huri. reflexivity.
Qed.

(** X24. A playlist with another uri than the current one (or the
    first playlist), given to a loader that is not about to start up (it
    has left [INIT], or is paused): the new playlist and options are
    stored and the media info is forgotten. If the loader had a media
    index (or handles partial data) it is resynced: no media index, no
    sync point, no pending segment, empty call and load queues, and a
    request that was in flight ([WAITING]) is given up for [READY];
    otherwise its pending segment, sync point and state are kept. *)
Theorem rendition_switch_resyncs_the_loader :
  forall (env : Env) (newPlaylist : Playlist) (options : option XhrOptions)
         (l : SegmentLoader),
    (forall old, playlist_ l = Some old -> uri old <> uri newPlaylist) ->
    (state_ l <> INIT \/ paused l = true) ->
    let l' := playlist env (Some newPlaylist) options l in
    playlist_ l' = Some (storedPlaylist l newPlaylist) /\ xhrOptions_ l' = options /\
    currentMediaInfo_ l' = None /\
    (if isSome (mediaIndex l) || handlePartialData_ l
     then mediaIndex l' = None /\ syncPoint_ l' = None /\ pendingSegment_ l' = None /\
          callQueue_ l' = [] /\ loadQueue_ l' = [] /\
          state_ l' = (if LoaderState_eqb (state_ l) WAITING then READY else state_ l)
     else mediaIndex l' = None /\ syncPoint_ l' = syncPoint_ l /\
          pendingSegment_ l' = pendingSegment_ l /\ state_ l' = state_ l).
Proof.
  intros env newPlaylist options l Huri Hstart. cbn zeta.
  rewrite (playlist_switch_eq env l newPlaylist options Huri Hstart). cbn zeta.
  set (np := storedPlaylist l newPlaylist).
  set (l0 := log (Trigger "syncinfoupdate") _).
  assert (Hst0 : state_ l0 = state_ l) by reflexivity.
  assert (Hpl0 : playlist_ l0 = Some np) by reflexivity.
  assert (Hxo0 : xhrOptions_ l0 = options) by reflexivity.
  assert (Hmi0 : mediaIndex l0 = mediaIndex l) by reflexivity.
  assert (Hsp0 : syncPoint_ l0 = syncPoint_ l) by reflexivity.
  assert (Hps0 : pendingSegment_ l0 = pendingSegment_ l) by reflexivity.
  clearbody l0.
  destruct (isSome (mediaIndex l) || handlePartialData_ l) eqn:Hwalk.
  - destruct (resyncLoader_post l0) as (R1 & R2 & R3 & R4 & R5 & _ & _ & _ & R9 & R10).
    rewrite Hst0 in R10. rewrite Hpl0 in R9.
    pose proof (xhrOptions_resyncLoader l0) as Rx. rewrite Hxo0 in Rx.
    set (r := resyncLoader l0) in *. clearbody r.
    split; [loader_field playlist_; exact R9|].
    split; [loader_field xhrOptions_; exact Rx|].
    split; [loader_field currentMediaInfo_; reflexivity|].
    split; [loader_field mediaIndex; exact R2|].
    split; [loader_field syncPoint_; exact R3|].
    split; [loader_field pendingSegment_; exact R1|].
    split; [loader_field callQueue_; exact R4|].
    split; [loader_field loadQueue_; exact R5|].
    loader_field state_; exact R10.
  - apply orb_false_iff in Hwalk. destruct Hwalk as [Hmi _].
    destruct (mediaIndex l) eqn:E; [discriminate|].
    split; [loader_field playlist_; exact Hpl0|].
    split; [loader_field xhrOptions_; exact Hxo0|].
    split; [loader_field currentMediaInfo_; reflexivity|].
    split; [loader_field mediaIndex; exact Hmi0|].
    split; [loader_field syncPoint_; exact Hsp0|].
    split; [loader_field pendingSegment_; exact Hps0|].
    loader_field state_; exact Hst0.
Qed.

End RenditionSwitch.

(** ** The end of the stream *)

Section EndOfStream.
Import TimelineChange Loader.
Context `{Deps}.
Local Open Scope Q_scope.

Lemma effects_log e l : effects (log e l) = effects l ++ [e].
Proof. reflexivity. Qed.





End EndOfStream.

Section TraceInstances.
Import IsoBox Fetch Boxes TransportState TransportTrace Samples TraceSamples.

Lemma splitReads_delivered :
  delivered (dataOf splitReads) [moofBox; mdatBox1] (take 8 (ser moofBox)).
Proof.
  split; [vm_compute; reflexivity|]. split; [|split].
  - repeat constructor.
  - repeat constructor; intros _; discriminate.
  - exists moofBox, 8%nat. split; [reflexivity|]. split; [cbn; lia|reflexivity].
Defined.

Lemma oneFragment_delivered : delivered (dataOf oneFragment) [moofBox; mdatBox1] [].
Proof.
  split; [vm_compute; reflexivity|]. split; [|split].
  - repeat constructor.
  - repeat constructor; intros _; discriminate.
  - exists moofBox, 0%nat. split; [reflexivity|]. split; [cbn; lia|reflexivity].
Defined.

Lemma firstRead_delivered : delivered (dataOf firstRead) [moofBox] (take 4 (ser mdatBox1)).
Proof.
  split; [vm_compute; reflexivity|]. split; [|split].
  - repeat constructor.
  - repeat constructor; intros _; discriminate.
  - exists mdatBox1, 4%nat. split; [reflexivity|]. split; [cbn; lia|reflexivity].
Defined.

Lemma callbacks_follow_the_chunks_witness :
  exists st,
    run 100 (audioSegmentFetch videoSegment) splitReads = Returned st /\
    calls st = traceOf videoMap videoTracks true (chunksOf (calls st)) /\
    trackInfoCalls (calls st) = length (chunksOf (calls st)) /\
    chunkFlags (calls st)
    = match chunksOf (calls st) with
      | [] => []
      | _ :: rest => true :: List.map (fun _ => false) rest
      end.
Proof.
  apply (callbacks_follow_the_chunks videoSegment videoMap videoTracks splitReads
           [moofBox; mdatBox1] (take 8 (ser moofBox)) 100).
  - reflexivity.
  - reflexivity.
  - reflexivity.
  - repeat constructor.
  - exact splitReads_delivered.
  - vm_compute. lia.
Defined.

Lemma closing_read_reports_done_once_witness :
  exists st st',
    run 100 (audioSegmentFetch videoSegment) splitReads = Returned st /\
    run 100 (audioSegmentFetch videoSegment) (splitReads ++ [Read None true 2000%positive])
    = Returned st' /\
    calls st' = calls st ++ [dataFn (buffer (remaining st)) (mediaTypeOf videoTracks); doneFn] /\
    doneCalls (calls st') = 1%nat /\
    (buffer (remaining st) = serAll (afterLastMdat [moofBox; mdatBox1]) ++ take 8 (ser moofBox) \/
     exists X, last (chunksOf (calls st)) = Some X /\
               buffer (remaining st)
               = X ++ serAll (afterLastMdat [moofBox; mdatBox1]) ++ take 8 (ser moofBox)).
Proof.
  apply (closing_read_reports_done_once videoSegment videoMap videoTracks splitReads
           [moofBox; mdatBox1] (take 8 (ser moofBox)) 100 None 2000%positive).
  - reflexivity.
  - reflexivity.
  - reflexivity.
  - repeat constructor.
  - exact splitReads_delivered.
  - vm_compute. lia.
  - reflexivity.
Defined.

Lemma no_complete_mdat_no_callback_witness :
  exists st',
    run 100 (audioSegmentFetch videoSegment) (firstRead ++ [Read None true 2000%positive])
    = Returned st' /\
    calls st' = [].
Proof.
  apply (no_complete_mdat_no_callback videoSegment videoMap videoTracks firstRead
           [moofBox] (take 4 (ser mdatBox1)) 100 None 2000%positive).
  - reflexivity.
  - reflexivity.
  - reflexivity.
  - repeat constructor.
  - exact firstRead_delivered.
  - vm_compute. lia.
  - reflexivity.
Defined.

Lemma media_before_init_is_dropped_witness :
  exists st,
    run 100 (audioSegmentFetch coldSegment) oneFragment = Returned st /\
    calls st = [] /\
    contents (remaining st) = serAll (afterLastMdat [moofBox; mdatBox1]) ++ [] /\
    forall value now,
      exists st',
        run 100 (audioSegmentFetch coldSegment) (oneFragment ++ [Read value true now])
        = Returned st' /\
        calls st' = [].
Proof.
  apply (media_before_init_is_dropped coldSegment coldMap oneFragment [moofBox; mdatBox1] []
           100).
  - reflexivity.
  - reflexivity.
  - repeat constructor.
  - exact oneFragment_delivered.
  - vm_compute. lia.
Defined.

Lemma late_init_response_witness :
  exists st',
    @run videoProbes 100 (audioSegmentFetch coldSegment)
      (oneFragment ++ [InitOnload 200 initBytes 1500%positive])
    = Returned st' /\
    chunksOf (calls st') = [initBytes] /\
    contents (remaining st') = serAll (afterLastMdat [moofBox; mdatBox1]) ++ [].
Proof.
  apply (@late_init_response_is_handed_to_chunkFn videoProbes coldSegment coldMap videoTracks
           oneFragment [moofBox; mdatBox1] [] 100 200 initBytes 1500%positive).
  - reflexivity.
  - reflexivity.
  - repeat constructor.
  - exact oneFragment_delivered.
  - vm_compute. lia.
  - reflexivity.
  - lia.
  - discriminate.
  - reflexivity.
  - reflexivity.
Defined.

Lemma init_before_media_witness :
  exists st,
    @run videoProbes 100 (audioSegmentFetch coldSegment)
      ([] ++ InitOnload 200 initBytes 900%positive :: oneFragment)
    = Returned st /\
    concat (chunksOf (calls st)) = serAll (uptoLastMdat [moofBox; mdatBox1]) /\
    contents (remaining st) = serAll (afterLastMdat [moofBox; mdatBox1]) ++ [] /\
    calls st
    = @traceOf videoProbes (@probedMap videoProbes coldMap initBytes) videoTracks true
        (chunksOf (calls st)).
Proof.
  apply (@init_before_media_rebuilds_stream videoProbes coldSegment coldMap videoTracks
           [] oneFragment [] [] 200 initBytes 900%positive [moofBox; mdatBox1] [] 100).
  - reflexivity.
  - reflexivity.
  - constructor.
  - repeat constructor.
  - split; [reflexivity|]. split; [constructor|]. split; [constructor|].
    exists moofBox, 0%nat. split; [reflexivity|]. split; [cbn; lia|reflexivity].
  - reflexivity.
  - lia.
  - reflexivity.
  - reflexivity.
  - exact oneFragment_delivered.
  - vm_compute. lia.
Defined.

End TraceInstances.

(** ** Appending the chunks of a request *)

Section ChunkFrames.
Import Loader.
Context `{Deps}.
Context {A : Type} (P : SegmentLoader -> A).
Hypothesis P_cache : forall v l, P (set_initSegments_ v l) = P l.
Hypothesis P_status : forall v l, P (set_appendInitSegment_ v l) = P l.
Hypothesis P_last : forall v l, P (set_playlistOfLastInitSegment_ v l) = P l.
Hypothesis P_active : forall v l, P (set_activeInitSegmentId_ v l) = P l.

Lemma frame_initSegmentForMap map set l : P (snd (initSegmentForMap map set l)) = P l.
Proof.
  unfold initSegmentForMap. destruct map as [m|]; [|reflexivity].
  destruct (initSegments_ l !! initSegmentId m); [reflexivity|].
  destruct (set && _); cbn [snd]; rewrite ?P_cache; reflexivity.
Qed.

Lemma frame_updateAppendInitSegmentStatus si type l :
  P (updateAppendInitSegmentStatus si type l) = P l.
Proof.
  rewrite updateAppendInitSegmentStatus_eq.
  destruct (negb _); [apply P_status|]. destruct (_ && _); [apply P_status|reflexivity].
Qed.

Lemma frame_getInitSegmentAndUpdateState_ type init map pl l :
  P (snd (getInitSegmentAndUpdateState_ type init map pl l)) = P l.
Proof.
  unfold getInitSegmentAndUpdateState_. destruct map as [m|].
  - destruct (option_string_eqb _ _); [reflexivity|].
    pose proof (frame_initSegmentForMap (Some m) true l) as Hc.
    destruct (initSegmentForMap (Some m) true l) as [stored l1]. cbn [snd] in Hc.
    destruct (_ && _); cbn [snd]; rewrite ?P_active, ?P_status, ?P_last, ?P_active;
      exact Hc.
  - destruct (_ && _); cbn [snd]; rewrite ?P_active, ?P_status, ?P_last; reflexivity.
Qed.

End ChunkFrames.

Section ChunkAppends.
Import Loader.
Context `{Deps}.
Local Open Scope Q_scope.

(** Without a start time the source-buffer offsets are left alone. *)
Lemma offset_update_needs_start env si l :
  timingInfo si ≫= ti_start = None ->
  updateSourceBufferTimestampOffset_ env si l = (si, l).
Proof.
  intros Hstart. unfold updateSourceBufferTimestampOffset_.
  destruct (timestampOffset si); [|reflexivity].
  destruct (timingInfo si) as [[[start|]]|]; try reflexivity. discriminate.
Qed.

(** What [appendToSourceBuffer_] hands to the source updater. *)
Lemma appendToSourceBuffer_effects si type init data l :
  exists bytes,
    snd (appendToSourceBuffer_ si type init data l) = log (AppendBuffer type bytes) l.
Proof.
  unfold appendToSourceBuffer_.
  destruct init as [i|]; [|eexists; reflexivity].
  destruct (_ && _); [eexists; reflexivity|].
  destruct (_ && _); eexists; reflexivity.
Qed.

Lemma appendToSourceBuffer_info si type init data l :
  let si' := fst (appendToSourceBuffer_ si type init data l) in
  timingInfo si' = timingInfo si /\ timestampOffset si' = timestampOffset si.
Proof.
  cbn zeta. unfold appendToSourceBuffer_.
  destruct init as [i|]; [|split; reflexivity].
  destruct (_ && _); [split; reflexivity|].
  destruct (_ && _); split; reflexivity.
Qed.

Lemma appendData_effects si type data init l r :
  appendData_ si type data init l = Some r ->
  effects (snd r) = effects l \/
  exists bytes, effects (snd r) = effects l ++ [AppendBuffer type bytes].
Proof.
  unfold appendData_. intros Hr.
  destruct (_ =? _)%Z; [injection Hr as <-; left; reflexivity|].
  destruct (_ && _); [injection Hr as <-; left; reflexivity|].
  destruct (if si_isFmp4 si then _ else _) as [mapArg|]; [|discriminate].
  pose proof (frame_getInitSegmentAndUpdateState_ effects
                ltac:(reflexivity) ltac:(reflexivity) ltac:(reflexivity)
                ltac:(reflexivity) type init mapArg (si_playlist si) l) as He.
  destruct (getInitSegmentAndUpdateState_ type init mapArg (si_playlist si) l)
    as [init' l1].
  injection Hr as <-. cbn [snd] in He. right.
  destruct (appendToSourceBuffer_effects si type init' data l1) as [bytes Hb].
  exists bytes. rewrite Hb, effects_log, He. reflexivity.
Qed.

Lemma appendData_info si type data init l r :
  appendData_ si type data init l = Some r ->
  timingInfo (fst r) = timingInfo si /\ timestampOffset (fst r) = timestampOffset si.
Proof.
  unfold appendData_. intros Hr.
  destruct (_ =? _)%Z; [injection Hr as <-; split; reflexivity|].
  destruct (_ && _); [injection Hr as <-; split; reflexivity|].
  destruct (if si_isFmp4 si then _ else _) as [mapArg|]; [|discriminate].
  destruct (getInitSegmentAndUpdateState_ _ _ _ _ _) as [init' l1].
  injection Hr as <-. apply appendToSourceBuffer_info.
Qed.

(** The rest of [handleMediaChunk_] once the segment info and the loader
    are past the handling of the initialization section. *)
(** The rest of [handleMediaChunk_] once the initialization section
    of the chunk is dealt with: no timestamp offset is set. *)
Ltac chunk_effects HeA :=
  rewrite ?frame_updateAppendInitSegmentStatus by reflexivity;
  repeat match goal with
         | |- context [effects (if ?c then _ else _)] => destruct c
         end;
  rewrite ?effects_log, ?HeA;
  first [ exists []; split; [rewrite app_nil_r; reflexivity|constructor]
        | eexists; split; [rewrite <- ?app_assoc; reflexivity|];
          repeat constructor; discriminate ].

Ltac chunk_tail si Hrun Hstart HeA :=
  cbn [timingInfo set_si_isFmp4 set_si_segment mbind option_bind] in Hrun;
  let Eti := fresh "Eti" in
  destruct (timingInfo si) as [t0|] eqn:Eti;
  cbn [segmentInfoInitDataApplied si_isFmp4 set_si_isFmp4 set_si_segment set_timingInfo]
    in Hrun;
  (destruct (negb (segmentInfoInitDataApplied si));
   [rewrite offset_update_needs_start in Hrun
      by (cbn [timingInfo set_si_isFmp4 set_si_segment set_timingInfo];
          rewrite ?Eti; first [exact Hstart|reflexivity])|]);
  match type of Hrun with
  | context [appendData_ ?s ?t ?d ?i ?x] =>
      let Hi := fresh "Hi" in
      let He := fresh "He" in
      let Ead := fresh "Ead" in
      destruct (appendData_ s t d i x) as [[siF lF]|] eqn:Ead; [|discriminate Hrun];
      pose proof (appendData_info s t d i x _ Ead) as Hi;
      pose proof (appendData_effects s t d i x _ Ead) as He;
      cbn [fst snd] in Hi, He;
      destruct Hi as [Hi1 Hi2];
      cbn [mbind option_bind] in Hrun;
      injection Hrun as <-;
      exists siF; split; [reflexivity|];
      split; [rewrite Hi1; cbn [timingInfo set_hasAppendedData_
                                 set_segmentInfoInitDataApplied set_si_isFmp4
                                 set_si_segment set_timingInfo];
              rewrite ?Eti; first [exact Hstart|reflexivity]|];
      split; [rewrite Hi2; reflexivity|];
      rewrite (frame_apply effects (set_pendingSegment_ (Some siF)) (fun l => eq_refl));
      destruct He as [He|[bytes He]]; rewrite He; chunk_effects HeA
  end.

(** X26. A chunk handed to [handleMediaChunk_] while the start time of
    the pending segment is unknown never sets a source-buffer timestamp
    offset and never announces one; afterwards the start time is still
    unknown and the timestamp offset of the segment is what it was. *)
Theorem chunks_never_set_the_timestamp_offset :
  forall (env : Env) (simple : Fetch.Segment) (type : string) (data : list Byte.byte)
         (l l' : SegmentLoader) (si : SegmentInfo),
    pendingSegment_ l = Some si ->
    timingInfo si ≫= ti_start = None ->
    handleMediaChunk_ env simple type data l = Some l' ->
    exists si',
      pendingSegment_ l' = Some si' /\
      timingInfo si' ≫= ti_start = None /\
      timestampOffset si' = timestampOffset si /\
      exists added,
        effects l' = effects l ++ added /\
        Forall (fun e => match e with
                         | SetVideoTimestampOffset _ | SetAudioTimestampOffset _ => False
                         | Trigger ev => ev <> "timestampoffset"%string
                         | _ => True
                         end) added.
Proof.
  intros env simple type data l l' si Hpend Hstart Hrun.
  unfold handleMediaChunk_ in Hrun.
  destruct (String.eqb (readyState env) "closed").
  { injection Hrun as <-. exists si. repeat split; try assumption.
    exists []. split; [rewrite app_nil_r; reflexivity|constructor]. }
  rewrite Hpend in Hrun.
  destruct (Fetch.map simple) as [m|].
  - pose proof (frame_initSegmentForMap effects ltac:(reflexivity) (Some m) true l) as HeA.
    destruct (initSegmentForMap (Some m) true l) as [stored lA]. cbn [snd] in HeA.
    destruct (si_segment si) as [seg|]; [|discriminate Hrun].
    chunk_tail si Hrun Hstart HeA.
  - assert (HeA : effects l = effects l) by reflexivity.
    chunk_tail si Hrun Hstart HeA.
Qed.

End ChunkAppends.

Section InitOncePerRequest.
Import Loader.
Context `{Deps}.
Local Open Scope Q_scope.

(** The map that [initSegmentForMap] answers with for [m]. *)
Local Abbreviation canon l m := (default m (initSegments_ l !! initSegmentId m)).

Lemma initSegmentForMap_fst m set l :
  fst (initSegmentForMap (Some m) set l) = Some (canon l m).
Proof.
  unfold initSegmentForMap. destruct (initSegments_ l !! initSegmentId m); [reflexivity|].
  destruct (set && _); reflexivity.
Qed.

(** Storing the map that is answered for [m] does not change the
    answer for [m]. *)
Lemma canon_after_store m x set l :
  x = canon l m ->
  canon (snd (initSegmentForMap (Some x) set l)) m = canon l m.
Proof.
  intros Hx. unfold initSegmentForMap.
  destruct (initSegments_ l !! initSegmentId x) as [sx|] eqn:Ex; [reflexivity|].
  destruct (set && _); [|reflexivity].
  cbn [snd set_initSegments_ initSegments_].
  destruct (decide (initSegmentId x = initSegmentId m)) as [Heq|Hne].
  - rewrite Heq in Ex. rewrite Ex in Hx. cbn in Hx. subst x.
    rewrite lookup_insert_eq, Ex. reflexivity.
  - rewrite lookup_insert_ne by exact Hne. reflexivity.
Qed.

Lemma option_string_eqb_refl a : option_string_eqb a a = true.
Proof. destruct a; cbn; [apply String.eqb_refl|reflexivity]. Qed.

Lemma option_string_eqb_eq a b : option_string_eqb a b = true -> a = b.
Proof.
  destruct a, b; cbn; try discriminate; [|reflexivity].
  intros E. apply String.eqb_eq in E. congruence.
Qed.

(** What [getInitSegmentAndUpdateState_] leaves behind for a request
    that brings no initialization segment of its own. *)
Lemma getInit_none type pl l :
  getInitSegmentAndUpdateState_ type None None pl l = (None, l).
Proof. reflexivity. Qed.

Lemma getInit_active type pl s l :
  activeInitSegmentId_ l = Some (initSegmentId s) ->
  getInitSegmentAndUpdateState_ type None (Some s) pl l = (None, l).
Proof.
  intros Ha. unfold getInitSegmentAndUpdateState_. rewrite Ha, option_string_eqb_refl.
  reflexivity.
Qed.

Lemma getInit_map type pl s l :
  let r := getInitSegmentAndUpdateState_ type None (Some s) pl l in
  (fst r = None /\ activeInitSegmentId_ (snd r) = Some (initSegmentId s)) \/
  (isSome (fst r) = true /\ activeInitSegmentId_ (snd r) = None).
Proof.
  cbn zeta. unfold getInitSegmentAndUpdateState_.
  destruct (option_string_eqb _ _) eqn:Ea.
  { left. split; [reflexivity|]. apply option_string_eqb_eq in Ea. exact Ea. }
  destruct (initSegmentForMap (Some s) true l) as [stored l1].
  destruct (isSome (stored ≫= Fetch.map_bytes) && _) eqn:Ec.
  - right. apply andb_true_iff in Ec. destruct Ec as [Ei _]. split; [exact Ei|reflexivity].
  - left. split; reflexivity.
Qed.

Lemma getInit_canon type init mapArg pl m l :
  (forall s, mapArg = Some s -> s = canon l m) ->
  canon (snd (getInitSegmentAndUpdateState_ type init mapArg pl l)) m = canon l m.
Proof.
  intros Hs. unfold getInitSegmentAndUpdateState_. destruct mapArg as [s|].
  - destruct (option_string_eqb _ _); [reflexivity|].
    pose proof (canon_after_store m s true l (Hs s eq_refl)) as Hc.
    destruct (initSegmentForMap (Some s) true l) as [stored l1]. cbn [snd] in Hc.
    destruct (_ && _); exact Hc.
  - destruct (_ && _); reflexivity.
Qed.

Lemma appendToSourceBuffer_plain si type data l :
  appendToSourceBuffer_ si type None data l = (si, log (AppendBuffer type data) l).
Proof. unfold appendToSourceBuffer_. cbn [concat]. rewrite app_nil_r. reflexivity. Qed.

(** With the flag of the type set, only the data is appended. *)
Lemma appendToSourceBuffer_flagged si type init data l :
  type = "video"%string \/ type = "audio"%string ->
  (if String.eqb type "video" then videoInitDataAppended si
   else audioInitDataAppended si) = true ->
  appendToSourceBuffer_ si type init data l = (si, log (AppendBuffer type data) l).
Proof.
  intros [-> | ->] Hflag; cbn [String.eqb Ascii.eqb Bool.eqb] in Hflag;
    unfold appendToSourceBuffer_; destruct init as [i|];
    cbn [String.eqb Ascii.eqb Bool.eqb andb]; rewrite ?Hflag; cbn [negb andb concat];
    rewrite app_nil_r; reflexivity.
Qed.

Ltac info_fields_in Hrun :=
  cbn [si_requestId si_uri si_mediaIndex isSyncRequest startOfSegment si_playlist timestampOffset si_timeline si_duration si_segment byteLength audioAppendStart audioInitDataAppended videoInitDataAppended segmentInfoInitDataApplied abortRequests trackInfo si_endOfAllRequests si_isFmp4 hasAppendedData_ changedTimestampOffset timingInfo set_si_requestId set_si_uri set_si_mediaIndex set_isSyncRequest set_startOfSegment set_si_playlist set_timestampOffset set_si_timeline set_si_duration set_si_segment set_byteLength set_audioAppendStart set_audioInitDataAppended set_videoInitDataAppended set_segmentInfoInitDataApplied set_abortRequests set_trackInfo set_si_endOfAllRequests set_si_isFmp4 set_hasAppendedData_ set_changedTimestampOffset set_timingInfo map option_bind mbind] in Hrun.

Lemma same_segment seg m :
  map seg = Some m ->
  mkSegment (resolvedUri seg) (timeline seg) (duration seg) (seg_start seg) (seg_end seg)
    (Some m) = seg.
Proof. intros <-. destruct seg; reflexivity. Qed.

Lemma set_si_segment_same si seg :
  si_segment si = Some seg -> set_si_segment (Some seg) si = si.
Proof. intros <-. destruct si; reflexivity. Qed.

(** A chunk of a request whose initialization data is settled for
    [type]: at most its own bytes are appended. *)
Lemma settled_chunk env simple type data l l' si seg :
  type = "video"%string \/ type = "audio"%string ->
  pendingSegment_ l = Some si ->
  si_segment si = Some seg ->
  segmentInfoInitDataApplied si = true ->
  (forall m, Fetch.map simple = Some m -> map seg = Some (canon l m)) ->
  (forall s, Fetch.isFmp4 simple = true -> map seg = Some s ->
             activeInitSegmentId_ l = Some (initSegmentId s) \/
             (if String.eqb type "video" then videoInitDataAppended si
              else audioInitDataAppended si) = true) ->
  handleMediaChunk_ env simple type data l = Some l' ->
  effects l' = effects l \/ effects l' = effects l ++ [AppendBuffer type data].
Proof.
  intros Htype Hpend Hseg Happlied Hmap Hsettled Hrun.
  unfold handleMediaChunk_ in Hrun.
  destruct (String.eqb (readyState env) "closed"); [injection Hrun as <-; left; reflexivity|].
  rewrite Hpend in Hrun.
  assert (HA : exists lA,
             effects lA = effects l /\ activeInitSegmentId_ lA = activeInitSegmentId_ l /\
             match Fetch.map simple with
             | Some m =>
                 let '(stored, l) := initSegmentForMap (Some m) true l in
                 match si_segment si with
                 | Some seg =>
                     Some (set_si_segment
                             (Some (mkSegment (resolvedUri seg) (timeline seg) (duration seg)
                                      (seg_start seg) (seg_end seg) stored)) si, l)
                 | None => None
                 end
             | None => Some (si, l)
             end = Some (si, lA)).
  { destruct (Fetch.map simple) as [m|] eqn:Em.
    - pose proof (initSegmentForMap_fst m true l) as Hst.
      pose proof (frame_initSegmentForMap effects ltac:(reflexivity) (Some m) true l) as He.
      pose proof (frame_initSegmentForMap activeInitSegmentId_ ltac:(reflexivity)
                    (Some m) true l) as Ha.
      destruct (initSegmentForMap (Some m) true l) as [stored lA].
      cbn [fst snd] in Hst, He, Ha. subst stored. rewrite Hseg.
      exists lA. split; [exact He|]. split; [exact Ha|].
      rewrite (same_segment seg _ (Hmap m eq_refl)), (set_si_segment_same si seg Hseg).
      reflexivity.
    - exists l. repeat split. }
  destruct HA as (lA & HeA & HaA & HA). rewrite HA in Hrun. clear HA.
  rewrite <- HeA. rewrite <- HaA in Hsettled. clear HeA HaA Hmap Hpend. 
  info_fields_in Hrun.
  destruct (timingInfo si) as [ti|]; info_fields_in Hrun;
    rewrite Happlied in Hrun; cbn [negb] in Hrun;
    unfold appendData_ in Hrun;
    (destruct (Z.of_nat (length data) =? 0)%Z;
     [cbn [mbind option_bind] in Hrun; injection Hrun as <-; left; reflexivity|]);
    (destruct (String.eqb type "audio" && audioDisabled_ lA);
     [cbn [mbind option_bind] in Hrun; injection Hrun as <-; left; reflexivity|]);
    info_fields_in Hrun; rewrite Hseg in Hrun;
    cbn [fmap option_fmap option_map] in Hrun;
    (destruct (Fetch.isFmp4 simple) eqn:Ef; [destruct (map seg) as [s|] eqn:Ems|]);
    try (rewrite getInit_none, appendToSourceBuffer_plain in Hrun;
         cbn [mbind option_bind] in Hrun;
         injection Hrun as <-; right; reflexivity);
    (destruct (Hsettled s eq_refl eq_refl) as [Hact|Hflag];
     [rewrite (getInit_active type (si_playlist si) s lA Hact),
        appendToSourceBuffer_plain in Hrun;
      cbn [mbind option_bind] in Hrun;
      injection Hrun as <-; right; reflexivity|]);
    pose proof (frame_getInitSegmentAndUpdateState_ effects
                  ltac:(reflexivity) ltac:(reflexivity) ltac:(reflexivity)
                  ltac:(reflexivity) type None (Some s) (si_playlist si) lA) as He;
    destruct (getInitSegmentAndUpdateState_ type None (Some s) (si_playlist si) lA)
      as [init lG];
    cbn [snd] in He;
    rewrite (appendToSourceBuffer_flagged _ type init data lG Htype) in Hrun
      by exact Hflag;
    cbn [mbind option_bind] in Hrun;
    injection Hrun as <-; right;
    rewrite (frame_apply effects (set_pendingSegment_ _) (fun l => eq_refl)),
      effects_log, He; reflexivity.
Qed.

Lemma canon_after_own m set l :
  canon (snd (initSegmentForMap (Some m) set l)) m = canon l m.
Proof.
  unfold initSegmentForMap.
  destruct (initSegments_ l !! initSegmentId m) as [sm|] eqn:Em;
    [cbn [snd]; rewrite Em; reflexivity|].
  destruct (set && _); cbn [snd set_initSegments_ initSegments_];
    rewrite ?lookup_insert_eq, ?Em; reflexivity.
Qed.

Lemma appendToSourceBuffer_keeps si type init data l :
  let si' := fst (appendToSourceBuffer_ si type init data l) in
  si_segment si' = si_segment si /\
  segmentInfoInitDataApplied si' = segmentInfoInitDataApplied si.
Proof.
  cbn zeta. unfold appendToSourceBuffer_.
  destruct init as [i|]; [|split; reflexivity].
  destruct (_ && _); [split; reflexivity|].
  destruct (_ && _); split; reflexivity.
Qed.

Lemma appendToSourceBuffer_sets_flag si type i data l :
  type = "video"%string \/ type = "audio"%string ->
  let si' := fst (appendToSourceBuffer_ si type (Some i) data l) in
  (if String.eqb type "video" then videoInitDataAppended si'
   else audioInitDataAppended si') = true.
Proof.
  intros [-> | ->]; cbn zeta; unfold appendToSourceBuffer_;
    cbn [String.eqb Ascii.eqb Bool.eqb andb].
  - destruct (videoInitDataAppended si) eqn:E; cbn [negb fst]; [exact E|reflexivity].
  - destruct (audioInitDataAppended si) eqn:E; cbn [negb fst]; [exact E|reflexivity].
Qed.

(** The first append of a request settles its initialization data. *)
Lemma first_append_settles (simple : Fetch.Segment) type data sE lE segA r :
  type = "video"%string \/ type = "audio"%string ->
  data <> [] ->
  appendData_ sE type data None lE = Some r ->
  String.eqb type "audio" && audioDisabled_ lE = false ->
  si_segment sE = Some segA ->
  segmentInfoInitDataApplied sE = true ->
  si_isFmp4 sE = Fetch.isFmp4 simple ->
  (forall m, Fetch.map simple = Some m -> map segA = Some (canon lE m)) ->
  let l1 := set_pendingSegment_ (Some (fst r)) (snd r) in
  pendingSegment_ l1 = Some (fst r) /\
  si_segment (fst r) = Some segA /\
  segmentInfoInitDataApplied (fst r) = true /\
  (forall m, Fetch.map simple = Some m -> map segA = Some (canon l1 m)) /\
  (forall s, Fetch.isFmp4 simple = true -> map segA = Some s ->
             activeInitSegmentId_ l1 = Some (initSegmentId s) \/
             (if String.eqb type "video" then videoInitDataAppended (fst r)
              else audioInitDataAppended (fst r)) = true).
Proof.
  intros Htype Hdata Hr Haudio Hseg Happ Hfmp Hmap. cbn zeta.
  split; [reflexivity|].
  unfold appendData_ in Hr.
  assert (Hlen : (Z.of_nat (length data) =? 0)%Z = false).
  { apply Z.eqb_neq. destruct data; [congruence|cbn [length]; lia]. }
  rewrite Hlen, Haudio, Hfmp, Hseg in Hr. cbn [fmap option_fmap option_map] in Hr.
  set (mapArg := if Fetch.isFmp4 simple then map segA else None).
  assert (Harg : (if Fetch.isFmp4 simple then Some (map segA) else Some None)
                 = Some mapArg) by (subst mapArg; destruct (Fetch.isFmp4 simple); reflexivity).
  rewrite Harg in Hr. clear Harg.
  pose proof (getInit_canon type None mapArg (si_playlist sE)) as Hcanon.
  destruct (getInitSegmentAndUpdateState_ type None mapArg (si_playlist sE) lE)
    as [init lG] eqn:EG.
  pose proof (appendToSourceBuffer_keeps sE type init data lG) as Hk. cbn zeta in Hk.
  pose proof (appendToSourceBuffer_effects sE type init data lG) as [bytes Hb].
  destruct (appendToSourceBuffer_ sE type init data lG) as [siF lF] eqn:EF.
  injection Hr as <-.
  cbn [fst snd] in *. destruct Hk as [Hk1 Hk2]. subst lF.
  split; [rewrite Hk1; exact Hseg|]. split; [rewrite Hk2; exact Happ|]. split.
  - intros m Hm.
    rewrite (frame_apply initSegments_ (set_pendingSegment_ _) (fun l => eq_refl)).
    rewrite (frame_apply initSegments_ (log _) (fun l => eq_refl)).
    specialize (Hcanon m lE). rewrite EG in Hcanon. cbn [snd] in Hcanon.
    rewrite Hcanon; [apply Hmap; exact Hm|].
    intros s Hs. subst mapArg. destruct (Fetch.isFmp4 simple); [|discriminate].
    rewrite (Hmap m Hm) in Hs. congruence.
  - intros s Hf Hs. subst mapArg. rewrite Hf, Hs in EG.
    rewrite (frame_apply activeInitSegmentId_ (set_pendingSegment_ _) (fun l => eq_refl)).
    rewrite (frame_apply activeInitSegmentId_ (log _) (fun l => eq_refl)).
    pose proof (getInit_map type (si_playlist sE) s lE) as Hg. cbn zeta in Hg.
    rewrite EG in Hg. cbn [fst snd] in Hg.
    destruct Hg as [[_ Hact]|[Hinit _]]; [left; exact Hact|right].
    destruct init as [i|]; [|discriminate].
    pose proof (appendToSourceBuffer_sets_flag sE type i data lG Htype) as Hflag.
    cbn zeta in Hflag. rewrite EF in Hflag. exact Hflag.
Qed.


Ltac info_fields :=
  cbn [si_requestId si_uri si_mediaIndex isSyncRequest startOfSegment si_playlist timestampOffset si_timeline si_duration si_segment byteLength audioAppendStart audioInitDataAppended videoInitDataAppended segmentInfoInitDataApplied abortRequests trackInfo si_endOfAllRequests si_isFmp4 hasAppendedData_ changedTimestampOffset timingInfo set_si_requestId set_si_uri set_si_mediaIndex set_isSyncRequest set_startOfSegment set_si_playlist set_timestampOffset set_si_timeline set_si_duration set_si_segment set_byteLength set_audioAppendStart set_audioInitDataAppended set_videoInitDataAppended set_segmentInfoInitDataApplied set_abortRequests set_trackInfo set_si_endOfAllRequests set_si_isFmp4 set_hasAppendedData_ set_changedTimestampOffset set_timingInfo map option_bind mbind].

Lemma frame_if_log {A} (P : SegmentLoader -> A) (c : bool) e l :
  (forall e l, P (log e l) = P l) -> P (if c then log e l else l) = P l.
Proof. intros P_log. destruct c; [apply P_log|reflexivity]. Qed.

Lemma frame_offset_update {A} (P : SegmentLoader -> A) env si l :
  (forall e l, P (log e l) = P l) ->
  P (snd (updateSourceBufferTimestampOffset_ env si l)) = P l.
Proof.
  intros P_log. unfold updateSourceBufferTimestampOffset_.
  destruct (timestampOffset si); [|reflexivity].
  destruct (timingInfo si) as [[[start|]]|]; try reflexivity.
  destruct (_ || _); [reflexivity|]. cbn [snd].
  repeat match goal with
         | |- context [if ?c then _ else _] => destruct c
         end; rewrite ?P_log; reflexivity.
Qed.

Lemma offset_update_info env si l :
  let si' := fst (updateSourceBufferTimestampOffset_ env si l) in
  si_segment si' = si_segment si /\ si_isFmp4 si' = si_isFmp4 si /\
  si_playlist si' = si_playlist si.
Proof.
  cbn zeta. unfold updateSourceBufferTimestampOffset_.
  destruct (timestampOffset si); [|cbn; auto].
  destruct (timingInfo si) as [[[start|]]|]; [destruct (_ || _)| |]; cbn; auto.
Qed.

(** The first chunk of a request that reaches the source buffer
    settles the initialization data of the request for its type. *)
Lemma first_chunk_settles env simple type data l l1 si seg :
  type = "video"%string \/ type = "audio"%string ->
  pendingSegment_ l = Some si ->
  si_segment si = Some seg ->
  String.eqb (readyState env) "closed" = false ->
  data <> [] ->
  String.eqb type "audio" && audioDisabled_ l = false ->
  handleMediaChunk_ env simple type data l = Some l1 ->
  exists si1 seg1,
    pendingSegment_ l1 = Some si1 /\
    si_segment si1 = Some seg1 /\
    segmentInfoInitDataApplied si1 = true /\
    (forall m, Fetch.map simple = Some m -> map seg1 = Some (canon l1 m)) /\
    (forall s, Fetch.isFmp4 simple = true -> map seg1 = Some s ->
               activeInitSegmentId_ l1 = Some (initSegmentId s) \/
               (if String.eqb type "video" then videoInitDataAppended si1
                else audioInitDataAppended si1) = true).
Proof.
  intros Htype Hpend Hseg Hclosed Hdata Haudio Hrun.
  unfold handleMediaChunk_ in Hrun. rewrite Hclosed, Hpend in Hrun.
  assert (HA : exists segA lA,
             (forall m, Fetch.map simple = Some m -> map segA = Some (canon lA m)) /\
             audioDisabled_ lA = audioDisabled_ l /\
             match Fetch.map simple with
             | Some m =>
                 let '(stored, l) := initSegmentForMap (Some m) true l in
                 match si_segment si with
                 | Some seg =>
                     Some (set_si_segment
                             (Some (mkSegment (resolvedUri seg) (timeline seg) (duration seg)
                                      (seg_start seg) (seg_end seg) stored)) si, l)
                 | None => None
                 end
             | None => Some (si, l)
             end = Some (set_si_segment (Some segA) si, lA)).
  { destruct (Fetch.map simple) as [m|] eqn:Em.
    - pose proof (initSegmentForMap_fst m true l) as Hst.
      pose proof (canon_after_own m true l) as Hc.
      pose proof (frame_initSegmentForMap audioDisabled_ ltac:(reflexivity)
                    (Some m) true l) as Ha.
      destruct (initSegmentForMap (Some m) true l) as [stored lA].
      cbn [fst snd] in Hst, Hc, Ha. subst stored. rewrite Hseg.
      eexists _, lA. split; [|split; [exact Ha|reflexivity]].
      intros m' [= <-]. cbn [map]. rewrite Hc. reflexivity.
    - exists seg, l. split; [discriminate|]. split; [reflexivity|].
      rewrite (set_si_segment_same si seg Hseg). reflexivity. }
  destruct HA as (segA & lA & HmapA & HadA & HA). rewrite HA in Hrun. clear HA.
  rewrite <- HadA in Haudio.
  info_fields_in Hrun.
  destruct (timingInfo si) as [ti|]; info_fields_in Hrun;
    (destruct (segmentInfoInitDataApplied si) eqn:Eapp; cbn [negb] in Hrun);
    try match type of Hrun with
        | context [updateSourceBufferTimestampOffset_ ?e ?s ?x] =>
            pose proof (offset_update_info e s x) as Hoi;
            pose proof (frame_offset_update initSegments_ e s x (fun _ _ => eq_refl))
              as Hoc;
            pose proof (frame_offset_update audioDisabled_ e s x (fun _ _ => eq_refl))
              as Hoa;
            destruct (updateSourceBufferTimestampOffset_ e s x) as [siD lD];
            cbn zeta in Hoi; cbn [fst snd] in Hoi, Hoc, Hoa;
            rewrite (frame_updateAppendInitSegmentStatus initSegments_) in Hoc
              by reflexivity;
            rewrite (frame_updateAppendInitSegmentStatus audioDisabled_) in Hoa
              by reflexivity;
            rewrite (frame_if_log initSegments_) in Hoc by reflexivity;
            rewrite (frame_if_log audioDisabled_) in Hoa by reflexivity;
            destruct Hoi as (Hoi1 & Hoi2 & Hoi3);
            revert Hoi1 Hoi2; info_fields; intros Hoi1 Hoi2
        end;
    match type of Hrun with
    | context [appendData_ ?s ?t ?d None ?x] =>
        let Ead := fresh "Ead" in
        destruct (appendData_ s t d None x) as [[siF lF]|] eqn:Ead; [|discriminate Hrun];
        pose proof (first_append_settles simple t d s x segA _ Htype Hdata Ead) as HS;
        cbn zeta in HS; cbn [fst snd] in HS;
        cbn [mbind option_bind] in Hrun; injection Hrun as <-;
        exists siF, segA; apply HS; info_fields;
        rewrite ?Hoa, ?Hoc; try assumption; try reflexivity
    end.
Qed.


(** X27. Two chunks of one request, of the same type, handed to
    [handleMediaChunk_] with the same simplified segment: once the first
    has reached the source buffer, what is appended for the second is
    nothing or exactly its own bytes, never the initialization segment
    again. *)
Theorem init_segment_goes_with_the_first_chunk_only :
  forall (env1 env2 : Env) (simple : Fetch.Segment) (type : string)
         (d1 d2 : list Byte.byte) (l l1 l2 : SegmentLoader) (si : SegmentInfo)
         (seg : Segment),
    type = "video"%string \/ type = "audio"%string ->
    pendingSegment_ l = Some si ->
    si_segment si = Some seg ->
    readyState env1 <> "closed"%string ->
    d1 <> [] ->
    (type = "audio"%string -> audioDisabled_ l = false) ->
    handleMediaChunk_ env1 simple type d1 l = Some l1 ->
    handleMediaChunk_ env2 simple type d2 l1 = Some l2 ->
    effects l2 = effects l1 \/ effects l2 = effects l1 ++ [AppendBuffer type d2].
Proof.
  intros env1 env2 simple type d1 d2 l l1 l2 si seg Htype Hpend Hseg Hopen Hd1 Haudio
         Hrun1 Hrun2.
  assert (Hclosed : String.eqb (readyState env1) "closed" = false)
    by (apply String.eqb_neq; exact Hopen).
  assert (Haud : String.eqb type "audio" && audioDisabled_ l = false).
  { destruct (String.eqb type "audio") eqn:E; [|reflexivity].
    apply String.eqb_eq in E. rewrite (Haudio E). reflexivity. }
  destruct (first_chunk_settles env1 simple type d1 l l1 si seg
              Htype Hpend Hseg Hclosed Hd1 Haud Hrun1)
    as (si1 & seg1 & Hp1 & Hs1 & Ha1 & Hm1 & Hset1).
  exact (settled_chunk env2 simple type d2 l1 l2 si1 seg1
           Htype Hp1 Hs1 Ha1 Hm1 Hset1 Hrun2).
Qed.

End InitOncePerRequest.

(** ** Walking forward through the playlist *)

Section WalkForward.
Import TimelineChange Loader.
Context `{Deps}.
Local Open Scope Q_scope.

(** X30. The loader walks forward one segment at a time. After the
    appends of the segment at index [i] (not a sync request, not more than
    three target durations behind) of a loader that has a sync point, the
    next [checkBuffer_], called as [fillBuffer_] calls it with the
    loader's media index and sync point, playback started and the media
    source not ended, asks for entry [i + 1] of the playlist when the
    playlist has one. *)
Theorem loader_walks_forward_one_segment_at_a_time :
  forall (env env' : Env) (l : SegmentLoader) (si : SegmentInfo) (segment : Segment)
         (sp : SyncPoint) (buffered : TimeRanges) (playlist : Playlist) (currentTime : Q),
    pendingSegment_ l = Some si ->
    isSyncRequest si = false ->
    si_segment si = Some segment ->
    (forall e td, seg_end segment = Some e -> targetDuration (si_playlist si) = Some td ->
                  Loader.currentTime env - e <= td * 3) ->
    syncPoint_ l = Some sp ->
    (0 <= si_mediaIndex si + 1 < Z.of_nat (length (segments playlist)))%Z ->
    String.eqb (readyState env') "ended" = false ->
    exists l' next,
      handleAppendsDone_ env l = Some l' /\
      checkBuffer_ env' l' buffered playlist (mediaIndex l') true currentTime
        (syncPoint_ l') = Some next /\
      si_mediaIndex next = (si_mediaIndex si + 1)%Z /\
      isSyncRequest next = false /\
      si_segment next = segments playlist !! Z.to_nat (si_mediaIndex si + 1).
Proof.
  intros env env' l si segment sp buffered playlist currentTime
         Hpend Hsync Hseg Hnear Hsp Hrange Hended.
  destruct (handleAppendsDone_position env l si segment Hpend Hsync Hseg Hnear)
    as (l' & Hdone & Hmi & _ & _ & Hsp').
  destruct (checkBuffer_walks_forward env' l' buffered playlist (si_mediaIndex si)
              currentTime sp Hrange Hended) as (next & Hnext & Hi & Hs & Hg).
  exists l', next. split; [exact Hdone|].
  rewrite Hmi, Hsp', Hsp. repeat split; assumption.
Qed.

End WalkForward.

(** ** Track info arriving with every chunk *)

Section TrackInfoRepeated.
Import Loader TrackInfoCallback.
Context `{Deps}.
Variable shallowEqual : option Fetch.TrackInfo -> Fetch.TrackInfo -> bool.

Lemma checkForAbort_pending requestId l si :
  pendingSegment_ l = Some si ->
  si_requestId si = requestId ->
  checkForAbort_ requestId l = (false, l).
Proof.
  intros Hpend Hid. unfold checkForAbort_. rewrite Hpend. cbn [isSome negb].
  rewrite andb_false_r, Hid, Z.eqb_refl. reflexivity.
Qed.

Lemma illegalMediaSwitch_same lt ti :
  (lt = "main"%string -> Fetch.hasAudio ti || Fetch.hasVideo ti = true) ->
  illegalMediaSwitch lt (Some ti) (Some ti) = None.
Proof.
  intros Hmedia. unfold illegalMediaSwitch.
  destruct (String.eqb lt "main") eqn:E; [|reflexivity]. cbn [negb].
  apply String.eqb_eq in E. specialize (Hmedia E).
  destruct (Fetch.hasAudio ti), (Fetch.hasVideo ti); try discriminate; reflexivity.
Qed.

Lemma illegalMediaSwitch_message lt start ti msg :
  illegalMediaSwitch lt start ti = Some msg -> truthyStr (Some msg) = true.
Proof.
  unfold illegalMediaSwitch. destruct (negb _); [discriminate|].
  destruct start as [s|], ti as [t|]; try discriminate.
  repeat (destruct (_ && _); [intros [= <-]; reflexivity|]). discriminate.
Qed.

Lemma set_trackInfo_pending ti si l :
  pendingSegment_ l = Some si -> trackInfo si = Some ti ->
  set_pendingSegment_ (Some (set_trackInfo (Some ti) si)) l = l.
Proof. intros Hp Ht. destruct l, si. cbn in *. subst. reflexivity. Qed.

(** X28. The transport hands the track info over with every chunk.
    Once [handleTrackInfo_] has accepted a track info for the pending
    request, handling the same track info again changes nothing in the
    loader and takes no call off the queue: no [trackinfo] event, no
    re-arming of the initialization segments. (For a main loader the track
    info must have audio or video; [shallowEqual] must accept two equal
    track infos.) *)
Theorem repeated_track_info_changes_nothing :
  forall (env : Env) (simple : Fetch.Segment) (ti : Fetch.TrackInfo)
         (l l1 : SegmentLoader) (q : list Queued) (si : SegmentInfo),
    (forall t, shallowEqual (Some t) t = true) ->
    pendingSegment_ l = Some si ->
    si_requestId si = Fetch.requestId simple ->
    illegalMediaSwitch (loaderType_ l) (currentMediaInfo_ l) (Some ti) = None ->
    (loaderType_ l = "main"%string -> Fetch.hasAudio ti || Fetch.hasVideo ti = true) ->
    handleTrackInfo_ shallowEqual env simple ti l = Some (l1, q) ->
    handleTrackInfo_ shallowEqual env simple ti l1 = Some (l1, []).
Proof.
  intros env simple ti l l1 q si Hrefl Hpend Hid Hlegal Hmedia Hrun.
  unfold handleTrackInfo_ in Hrun.
  rewrite (checkForAbort_pending _ l si Hpend Hid) in Hrun.
  unfold checkForIllegalMediaSwitch in Hrun. rewrite Hlegal in Hrun.
  cbn [truthyStr] in Hrun.
  set (l' := if negb (shallowEqual (currentMediaInfo_ l) ti) then _ else l) in Hrun.
  assert (Hp' : pendingSegment_ l' = Some si).
  { subst l'. destruct (negb _); exact Hpend. }
  assert (Hlt' : loaderType_ l' = loaderType_ l).
  { subst l'. destruct (negb _); reflexivity. }
  assert (Hse' : shallowEqual (currentMediaInfo_ l') ti = true).
  { subst l'. destruct (shallowEqual (currentMediaInfo_ l) ti) eqn:E; cbn [negb];
      [exact E|apply Hrefl]. }
  assert (Hlegal' : illegalMediaSwitch (loaderType_ l') (currentMediaInfo_ l') (Some ti)
                    = None).
  { rewrite Hlt'. subst l'. destruct (negb _); [|exact Hlegal].
    apply illegalMediaSwitch_same. exact Hmedia. }
  clearbody l'.
  rewrite (checkForAbort_pending _ l' si Hp' Hid), Hp' in Hrun.
  set (lx := set_pendingSegment_ _ l') in Hrun.
  assert (Hpx : pendingSegment_ lx = Some (set_trackInfo (Some ti) si)) by reflexivity.
  assert (Hidx : si_requestId (set_trackInfo (Some ti) si) = Fetch.requestId simple)
    by exact Hid.
  assert (Hsex : shallowEqual (currentMediaInfo_ lx) ti = true) by exact Hse'.
  assert (Hlegalx : illegalMediaSwitch (loaderType_ lx) (currentMediaInfo_ lx) (Some ti)
                    = None) by exact Hlegal'.
  clearbody lx. clear Hp' Hlt' Hse' Hlegal' l' Hpend Hlegal Hmedia.
  assert (Hstep : forall l2,
             pendingSegment_ l2 = Some (set_trackInfo (Some ti) si) ->
             shallowEqual (currentMediaInfo_ l2) ti = true ->
             illegalMediaSwitch (loaderType_ l2) (currentMediaInfo_ l2) (Some ti) = None ->
             handleTrackInfo_ shallowEqual env simple ti l2
             = match hasEnoughInfoToAppend_ env l2 with
               | None => None
               | Some true => Some (set_callQueue_ [] l2, callQueue_ l2)
               | Some false => Some (l2, [])
               end).
  { intros l2 Hp2 Hse2 Hl2. unfold handleTrackInfo_.
    rewrite (checkForAbort_pending _ l2 _ Hp2 Hidx).
    unfold checkForIllegalMediaSwitch. rewrite Hl2. cbn [truthyStr].
    rewrite Hse2. cbn [negb].
    rewrite (checkForAbort_pending _ l2 _ Hp2 Hidx), Hp2.
    rewrite (set_trackInfo_pending ti _ l2 Hp2 eq_refl). reflexivity. }
  destruct (hasEnoughInfoToAppend_ env lx) as [[|]|] eqn:Hb; [| |discriminate];
    injection Hrun as <- <-.
  - rewrite (Hstep (set_callQueue_ [] lx) Hpx Hsex Hlegalx).
    change (hasEnoughInfoToAppend_ env (set_callQueue_ [] lx))
      with (hasEnoughInfoToAppend_ env lx).
    rewrite Hb. reflexivity.
  - rewrite (Hstep lx Hpx Hsex Hlegalx), Hb. reflexivity.
Qed.

(** X29. A main loader that knows its media from an earlier segment and
    is handed, for the pending request, a track info whose video does not
    match (video lost or video gained) or that has neither audio nor
    video: the pending segment is dropped and [error] is triggered; the
    media info, the initialization-segment flags and the state stay as
    they are, the track info is not recorded and no queued call is run. *)
Theorem illegal_media_switch_drops_the_request :
  forall (env : Env) (simple : Fetch.Segment) (ti start : Fetch.TrackInfo)
         (l : SegmentLoader) (si : SegmentInfo),
    loaderType_ l = "main"%string ->
    pendingSegment_ l = Some si ->
    si_requestId si = Fetch.requestId simple ->
    currentMediaInfo_ l = Some start ->
    Fetch.hasVideo start <> Fetch.hasVideo ti \/
    (Fetch.hasAudio ti = false /\ Fetch.hasVideo ti = false) ->
    exists l1,
      handleTrackInfo_ shallowEqual env simple ti l = Some (l1, []) /\
      pendingSegment_ l1 = None /\
      effects l1 = effects l ++ [Trigger "error"] /\
      currentMediaInfo_ l1 = Some start /\
      appendInitSegment_ l1 = appendInitSegment_ l /\
      state_ l1 = state_ l.
Proof.
  intros env simple ti start l si Hmain Hpend Hid Hcur Hbad.
  assert (Hillegal : exists msg,
             illegalMediaSwitch (loaderType_ l) (currentMediaInfo_ l) (Some ti) = Some msg).
  { unfold illegalMediaSwitch. rewrite Hmain, Hcur. cbn [String.eqb Ascii.eqb Bool.eqb negb].
    destruct Hbad as [Hv|[Ha Hv]].
    - destruct (Fetch.hasAudio ti), (Fetch.hasVideo start), (Fetch.hasVideo ti);
        cbn; try congruence; eexists; reflexivity.
    - rewrite Ha, Hv. eexists. reflexivity. }
  destruct Hillegal as [msg Hmsg].
  unfold handleTrackInfo_.
  rewrite (checkForAbort_pending _ l si Hpend Hid).
  unfold checkForIllegalMediaSwitch.
  rewrite Hmsg, (illegalMediaSwitch_message _ _ _ _ Hmsg).
  eexists. split; [reflexivity|].
  repeat split. exact Hcur.
Qed.

End TrackInfoRepeated.

(** ** The loader theorems at concrete inputs *)

Section LoaderInstances.
Import TimelineChange Loader LoaderSamples TrackInfoCallback TrackInfoSamples
       MoreLoaderSamples.
Local Open Scope Q_scope.

Lemma sync_candidate_witness :
  let i := getSyncSegmentCandidate_ mainLoader fiveSegments in
  (0 <= i < Z.of_nat (length (segments fiveSegments)))%Z /\
  (currentTimeline_ mainLoader = (-1)%Z -> i = 0%Z) /\
  (currentTimeline_ mainLoader <> (-1)%Z ->
   forall s, s ∈ segments fiveSegments -> timeline s = currentTimeline_ mainLoader ->
     exists s', segments fiveSegments !! Z.to_nat i = Some s' /\
                timeline s' = currentTimeline_ mainLoader) /\
  (currentTimeline_ mainLoader <> (-1)%Z ->
   (forall s, s ∈ segments fiveSegments -> timeline s <> currentTimeline_ mainLoader) ->
   i = (Z.of_nat (length (segments fiveSegments)) - 1)%Z).
Proof.
  apply (sync_candidate_is_a_segment_of_the_playlist mainLoader fiveSegments).
  discriminate.
Defined.


Lemma checkBuffer_segment_witness :
  exists si,
    checkBuffer_ playingEnv mainLoader [(0, 16)] fiveSegments (Some 2%Z) true 10
      (Some (mkSyncPoint 0 0)) = Some si /\
    (0 <= si_mediaIndex si < Z.of_nat (length (segments fiveSegments)))%Z /\
    si_playlist si = fiveSegments /\
    (exists s, segments fiveSegments !! Z.to_nat (si_mediaIndex si) = Some s /\
               si_segment si = Some s /\ si_uri si = resolvedUri s /\
               si_timeline si = timeline s /\ si_duration si = duration s) /\
    isSyncRequest si = negb (isSome (Some (mkSyncPoint 0 0))) /\
    timestampOffset si = None /\
    (forall i sp, Some 2%Z = Some i -> Some (mkSyncPoint 0 0) = Some sp ->
                  si_mediaIndex si = (i + 1)%Z).
Proof.
  eexists. split; [vm_compute; reflexivity|].
  apply (checkBuffer_returns_a_segment_of_the_playlist playingEnv mainLoader [(0, 16)]
           fiveSegments (Some 2%Z) true 10 (Some (mkSyncPoint 0 0))).
  vm_compute. reflexivity.
Defined.

Lemma next_request_witness :
  exists si,
    checkBuffer_ playingEnv mainLoader [(0, 16)] fiveSegments (Some 2%Z) true 10
      (Some (mkSyncPoint 0 0)) = Some si /\
    si_mediaIndex si = (2 + 1)%Z /\
    isSyncRequest si = false /\
    si_segment si = segments fiveSegments !! Z.to_nat (2 + 1).
Proof.
  apply (next_request_is_the_next_segment playingEnv mainLoader [(0, 16)] fiveSegments
           2%Z 10 (mkSyncPoint 0 0)).
  - cbn. lia.
  - reflexivity.
Defined.

Lemma trimBackBuffer_witness :
  exists l',
    trimBackBuffer_ playingEnv videoLoader = Some l' /\
    exists added,
      effects l' = effects videoLoader ++ added /\
      Forall (fun x => match x with
                       | RemoveAudio s e | RemoveVideo s e | RemoveGopBuffer s e _
                       | RemoveCuesFromTrack s e _ =>
                           s = 0 /\ 0 < e /\ e <= currentTime playingEnv - 6
                       | _ => False
                       end) added.
Proof.
  eexists. split; [vm_compute; reflexivity|].
  apply (trimBackBuffer_spares_the_last_target_duration playingEnv videoLoader _
           fiveSegments).
  - reflexivity.
  - vm_compute. reflexivity.
Defined.

Lemma appends_done_witness :
  exists l',
    handleAppendsDone_ playingEnv appendingLoader = Some l' /\
    pendingSegment_ l' = None /\ state_ l' = READY.
Proof.
  eexists. split; [vm_compute; reflexivity|].
  apply (appends_done_leave_the_loader_ready playingEnv appendingLoader).
  vm_compute. reflexivity.
Defined.

Lemma appended_segment_witness :
  exists l',
    handleAppendsDone_ playingEnv appendingLoader = Some l' /\
    mediaIndex l' = Some (si_mediaIndex finishedSegment) /\
    currentTimeline_ l' = si_timeline finishedSegment /\
    fetchAtBuffer_ l' = true /\
    syncPoint_ l' = syncPoint_ appendingLoader.
Proof.
  apply (appended_segment_becomes_the_position playingEnv appendingLoader finishedSegment
           (seg 3)).
  - reflexivity.
  - reflexivity.
  - reflexivity.
  - intros e td He. discriminate He.
Defined.

Lemma sync_request_witness :
  exists l',
    handleAppendsDone_ playingEnv syncingLoader = Some l' /\
    mediaIndex l' = mediaIndex syncingLoader /\
    currentTimeline_ l' = currentTimeline_ syncingLoader /\
    fetchAtBuffer_ l' = fetchAtBuffer_ syncingLoader /\
    syncPoint_ l' = syncPoint_ syncingLoader /\
    checkBufferTimeout_ l' = checkBufferTimeout_ syncingLoader /\
    timelineChangeController_ l' = timelineChangeController_ syncingLoader.
Proof.
  apply (sync_request_keeps_the_position playingEnv syncingLoader syncRequestInfo (seg 3)).
  - reflexivity.
  - reflexivity.
  - reflexivity.
Defined.

Lemma segment_far_behind_witness :
  exists l',
    handleAppendsDone_ playingEnv farBehindLoader = Some l' /\
    mediaIndex l' = None /\ syncPoint_ l' = None /\
    fetchAtBuffer_ l' = false /\
    appendInitSegment_ l' = mkPerType true true /\
    currentTimeline_ l' = si_timeline farBehindInfo.
Proof.
  apply (segment_far_behind_resets_the_loader playingEnv farBehindLoader farBehindInfo
           endedSegment 1 2).
  - reflexivity.
  - reflexivity.
  - reflexivity.
  - reflexivity.
  - discriminate.
  - reflexivity.
  - vm_compute. reflexivity.
Defined.

(** At the boundary the test follows the doubles. With the playhead at
    1.3 s, the segment ending at 1 s and a target duration of 0.1 s, the
    segment ends, exactly, more than three target durations before the
    playhead; the rounded difference and the rounded product are the
    same double, and the loader is not reset. *)
Example far_behind_test_compares_doubles :
  targetDuration (si_playlist boundaryInfo) = Some (Double.double (1 # 10)) /\
  Double.double (1 # 10) * 3 < currentTime boundaryEnv - 1 /\
  Double.double (Double.double (1 # 10) * 3) == Double.double (currentTime boundaryEnv - 1) /\
  mediaIndex <$> handleAppendsDone_ boundaryEnv boundaryLoader
  = Some (Some (si_mediaIndex boundaryInfo)).
Proof. repeat split; vm_compute; reflexivity. Qed.

Lemma init_segment_cache_witness :
  let r := fst (initSegmentForMap (Some initMap) true mainLoader) in
  let l1 := snd (initSegmentForMap (Some initMap) true mainLoader) in
  initSegments_ l1 !! initSegmentId initMap = r /\
  (forall k v, initSegments_ mainLoader !! k = Some v -> initSegments_ l1 !! k = Some v) /\
  (forall set, initSegmentForMap (Some initMap) set l1 = (r, l1)).
Proof.
  apply (init_segment_cache_round_trip initMap mainLoader). reflexivity.
Defined.

Lemma rendition_switch_witness :
  let l' := playlist playingEnv (Some otherRendition) None waitingLoader in
  playlist_ l' = Some (storedPlaylist waitingLoader otherRendition) /\
  xhrOptions_ l' = None /\
  currentMediaInfo_ l' = None /\
  (if isSome (mediaIndex waitingLoader) || handlePartialData_ waitingLoader
   then mediaIndex l' = None /\ syncPoint_ l' = None /\ pendingSegment_ l' = None /\
        callQueue_ l' = [] /\ loadQueue_ l' = [] /\
        state_ l' = (if LoaderState_eqb (state_ waitingLoader) WAITING then READY
                     else state_ waitingLoader)
   else mediaIndex l' = None /\ syncPoint_ l' = syncPoint_ waitingLoader /\
        pendingSegment_ l' = pendingSegment_ waitingLoader /\
        state_ l' = state_ waitingLoader).
Proof.
  apply (rendition_switch_resyncs_the_loader playingEnv otherRendition None waitingLoader).
  - intros old [= <-]. discriminate.
  - left. discriminate.
Defined.


Lemma chunk_offset_witness :
  exists l' si',
    handleMediaChunk_ playingEnv (simpleSegment 1) "video" chunk1 requestingLoader
    = Some l' /\
    pendingSegment_ l' = Some si' /\
    timingInfo si' ≫= ti_start = None /\
    timestampOffset si' = timestampOffset (pendingFor 1) /\
    exists added,
      effects l' = effects requestingLoader ++ added /\
      Forall (fun e => match e with
                       | SetVideoTimestampOffset _ | SetAudioTimestampOffset _ => False
                       | Trigger ev => ev <> "timestampoffset"%string
                       | _ => True
                       end) added.
Proof.
  eexists.
  assert (Hrun : handleMediaChunk_ playingEnv (simpleSegment 1) "video" chunk1
                   requestingLoader = Some ?[l']) by (vm_compute; reflexivity).
  destruct (chunks_never_set_the_timestamp_offset playingEnv (simpleSegment 1) "video"
              chunk1 requestingLoader _ (pendingFor 1) eq_refl eq_refl Hrun)
    as (si' & H1 & H2 & H3 & H4).
  exists si'. split; [exact Hrun|]. repeat split; assumption.
Defined.

Lemma init_segment_once_witness :
  exists l1 l2,
    handleMediaChunk_ playingEnv (simpleSegment 1) "video" chunk1 requestingLoader
    = Some l1 /\
    handleMediaChunk_ playingEnv (simpleSegment 1) "video" chunk2 l1 = Some l2 /\
    (effects l2 = effects l1 \/ effects l2 = effects l1 ++ [AppendBuffer "video" chunk2]).
Proof.
  eexists. eexists.
  split; [vm_compute; reflexivity|]. split; [vm_compute; reflexivity|].
  apply (init_segment_goes_with_the_first_chunk_only playingEnv playingEnv
           (simpleSegment 1) "video" chunk1 chunk2 requestingLoader _ _ (pendingFor 1)
           (seg 3)).
  - left. reflexivity.
  - reflexivity.
  - reflexivity.
  - discriminate.
  - discriminate.
  - discriminate.
  - vm_compute. reflexivity.
  - vm_compute. reflexivity.
Defined.

Lemma sameProperties_refl : forall t, sameProperties (Some t) t = true.
Proof.
  intros [f v a ac vc m]. unfold sameProperties.
  cbn [Fetch.ti_isFmp4 Fetch.hasVideo Fetch.hasAudio Fetch.audioCodec Fetch.videoCodec
       Fetch.isMuxed].
  rewrite !Bool.eqb_reflx.
  destruct ac as [x|], vc as [y|]; cbn [option_string_eqb andb];
    rewrite ?String.eqb_refl; reflexivity.
Defined.

Lemma repeated_track_info_witness :
  exists l1 q,
    handleTrackInfo_ sameProperties playingEnv (simpleSegment 1) videoOnly freshLoader
    = Some (l1, q) /\
    handleTrackInfo_ sameProperties playingEnv (simpleSegment 1) videoOnly l1
    = Some (l1, []).
Proof.
  eexists. eexists. split; [vm_compute; reflexivity|].
  eapply (repeated_track_info_changes_nothing sameProperties playingEnv (simpleSegment 1)
           videoOnly freshLoader _ _ (pendingFor 1)).
  - exact sameProperties_refl.
  - reflexivity.
  - reflexivity.
  - reflexivity.
  - reflexivity.
  - vm_compute. reflexivity.
Defined.

Lemma illegal_media_switch_witness :
  exists l1,
    handleTrackInfo_ sameProperties playingEnv (simpleSegment 1) audioOnly videoLoader
    = Some (l1, []) /\
    pendingSegment_ l1 = None /\
    effects l1 = effects videoLoader ++ [Trigger "error"] /\
    currentMediaInfo_ l1 = Some videoOnly /\
    appendInitSegment_ l1 = appendInitSegment_ videoLoader /\
    state_ l1 = state_ videoLoader.
Proof.
  apply (illegal_media_switch_drops_the_request sameProperties playingEnv (simpleSegment 1)
           audioOnly videoOnly videoLoader (pendingFor 1)).
  - reflexivity.
  - reflexivity.
  - reflexivity.
  - reflexivity.
  - left. discriminate.
Defined.

Lemma walk_forward_witness :
  exists l' next,
    handleAppendsDone_ playingEnv appendingLoader = Some l' /\
    checkBuffer_ playingEnv l' [(0, 16)] fiveSegments (mediaIndex l') true 10
      (syncPoint_ l') = Some next /\
    si_mediaIndex next = (si_mediaIndex finishedSegment + 1)%Z /\
    isSyncRequest next = false /\
    si_segment next = segments fiveSegments !! Z.to_nat (si_mediaIndex finishedSegment + 1).
Proof.
  apply (loader_walks_forward_one_segment_at_a_time playingEnv playingEnv appendingLoader
           finishedSegment (seg 3) (mkSyncPoint 0 0) [(0, 16)] fiveSegments 10).
  - reflexivity.
  - reflexivity.
  - reflexivity.
  - intros e td He. discriminate He.
  - reflexivity.
  - cbn. lia.
  - reflexivity.
Defined.

End LoaderInstances.
